(** * LeR: quota-filling rejection samplers, batch accumulation, detection
    selection and rate estimation

    A shallow embedding of

      - [src/ler/lens_galaxy_population/lens_galaxy_parameter_distribution.py]
        (class [LensGalaxyParameterDistribution]) and
      - [src/ler/ler.py] (class [LeR]).

    Conventions of the embedding.

    - A finite float is a rational ([Q]); rounding is not modelled.  Where the
      source handles missing values explicitly ([np.nan_to_num], the
      [none_as_nan] switch) arrays hold [fval]: a rational or [NaN].
    - A Python dict of parallel arrays is a [gmap string _].  numpy arrays are
      values: every numpy operation the two files use ([a[mask]], [np.append],
      [np.nan_to_num], arithmetic, comparisons) returns a new array and none
      writes into an existing one.  Dict objects, which the source does mutate
      ([d[key] = ...], [d.update]), live in a store addressed by locations.
    - Randomness and the collaborators outside the two files are fields of an
      environment record; the generator state is threaded explicitly.
    - Exceptions and the unbounded recursion of the samplers are results of
      the monad [M]: [Raise e s] and [OutOfFuel].
    - [print] and the JSON dumps are not modelled. *)

From Stdlib Require Import QArith Qabs ZArith Lia Lqa List Sorted.
From stdpp Require Import gmap strings list fin_maps.

Local Open Scope Q_scope.

(** ** Python results: a state, exception and fuel monad *)

Module Py.

Inductive exn : Set :=
| ValueError
| IndexError
| KeyError
| ZeroDivisionError
| TypeError
| NameError.

Inductive outcome (S A : Type) : Type :=
| Ok (a : A) (s : S)
| Raise (e : exn) (s : S)
| OutOfFuel.

Arguments Ok {S A} a s.
Arguments Raise {S A} e s.
Arguments OutOfFuel {S A}.

Definition M (S A : Type) : Type := S -> outcome S A.

Definition ret {S A} (a : A) : M S A := fun s => Ok a s.

Definition bind {S A B} (c : M S A) (k : A -> M S B) : M S B :=
  fun s =>
    match c s with
    | Ok a s' => k a s'
    | Raise e s' => Raise e s'
    | OutOfFuel => OutOfFuel
    end.

Definition raise {S A} (e : exn) : M S A := fun s => Raise e s.

(** [try: c except: h] with a bare [except]: every exception is caught; the
    state reached when it was raised is kept. *)
Definition try_except {S A} (c h : M S A) : M S A :=
  fun s =>
    match c s with
    | Raise _ s' => h s'
    | r => r
    end.

(** A collaborator that always returns. *)
Definition call {S A} (f : S -> A * S) : M S A :=
  fun s => let (a, s') := f s in Ok a s'.

(** [d[key]] on a dict. *)
Definition getitem {S V} (d : gmap string V) (key : string) : M S V :=
  match d !! key with
  | Some v => ret v
  | None => raise KeyError
  end.

Definition of_option {S A} (e : exn) (o : option A) : M S A :=
  match o with
  | Some a => ret a
  | None => raise e
  end.

(** The value of a run that returned. *)
Definition returned {S A} (r : outcome S A) : option A :=
  match r with
  | Ok a _ => Some a
  | _ => None
  end.

End Py.

Import Py.

Declare Scope py_scope.
Delimit Scope py_scope with py.
Notation "x <- c ;; k" := (bind c (fun x => k))
  (at level 100, c at next level, right associativity) : py_scope.
Local Open Scope py_scope.

(** ** numpy on rational arrays *)

Module Np.

(** [a < b] on floats. *)
Definition Qltb (a b : Q) : bool :=
  match a ?= b with
  | Lt => true
  | _ => false
  end.

(** Elementwise [u < w] of two arrays of one shape. *)
Definition lt (u w : list Q) : list bool := zip_with Qltb u w.

(** [a[mask]]: the rows of [a] where the boolean [mask] holds, in order. *)
Fixpoint mask_select {A} (mask : list bool) (a : list A) : list A :=
  match mask, a with
  | b :: mask', x :: a' =>
      if b then x :: mask_select mask' a' else mask_select mask' a'
  | _, _ => []
  end.

(** [np.max(a)]; a zero-size array has no maximum ([ValueError]). *)
Definition Qmaxb (a b : Q) : Q := if Qltb a b then b else a.

Definition max (a : list Q) : option Q :=
  match a with
  | [] => None
  | x :: a' => Some (foldl Qmaxb x a')
  end.

(** [a ** 2]. *)
Definition sq (x : Q) : Q := x * x.

(** [{key: val[mask] for key, val in d.items()}]; a boolean index whose
    length differs from the array's raises [IndexError]. *)
Definition dict_mask (mask : list bool) (d : gmap string (list Q))
  : option (gmap string (list Q)) :=
  if decide (map_Forall (fun _ v => length v = length mask) d)
  then Some (mask_select mask <$> d)
  else None.

End Np.

(** ** [lens_galaxy_parameter_distribution.py] *)

Module LensGalaxy.

Import Np.

(** [lens_functions["strong_lensing_condition"]], resolved by [getattr] in
    [__init__]: the two rejection rules the class defines. *)
Inductive strong_lensing_condition : Set :=
| rjs_with_einstein_radius_name
| rjs_with_cross_section_name.

(** What the class takes from outside the file: numpy's generator, the
    inherited samplers and interpolators ([CBCSourceParameterDistribution],
    [OpticalDepth]), [lenstronomy], [.jit_functions], and the configured
    sampler parameters.  [R] is the state of the random generator. *)
Record collaborators (R : Type) : Type := {
  z_max : Q;
  (** one variate of numpy's generator, in [0, 1) *)
  random_sample : R -> Q * R;
  (** [scipy.stats.norm.rvs(size, scale)] and [np.random.normal(loc, scale, size)] *)
  norm_rvs : nat -> Q -> R -> list Q * R;
  random_normal : Q -> Q -> nat -> R -> list Q * R;
  sample_zs : nat -> R -> list Q * R;
  strong_lensing_optical_depth : Q -> Q;
  sample_lens_redshift : list Q -> R -> list Q * R;
  (** called with the size alone, and with the lens redshifts when that fails *)
  sample_velocity_dispersion : nat -> option (list Q) -> M R (list Q);
  sample_axis_ratio : list Q -> R -> list Q * R;
  angular_diameter_distance : Q -> Q;
  angular_diameter_distance_z1z2 : Q -> Q -> Q;
  np_pi : Q;
  phi_cut_SIE : Q -> Q;
  phi_q2_ellipticity : Q -> Q -> Q * Q;
  sample_gw_parameters : nat -> option (gmap string (list Q)) -> M R (gmap string (list Q));
  (** [sampler_priors_params] *)
  phi_min : Q;
  phi_max : Q;
  shear_scale : Q;
  gamma_mean : Q;
  gamma_std : Q;
  source_parameters_given : bool;
  strong_lensing_condition_name : strong_lensing_condition
}.

Arguments z_max {R}.
Arguments random_sample {R}.
Arguments norm_rvs {R}.
Arguments random_normal {R}.
Arguments sample_zs {R}.
Arguments strong_lensing_optical_depth {R}.
Arguments sample_lens_redshift {R}.
Arguments sample_velocity_dispersion {R}.
Arguments sample_axis_ratio {R}.
Arguments angular_diameter_distance {R}.
Arguments angular_diameter_distance_z1z2 {R}.
Arguments np_pi {R}.
Arguments phi_cut_SIE {R}.
Arguments phi_q2_ellipticity {R}.
Arguments sample_gw_parameters {R}.
Arguments phi_min {R}.
Arguments phi_max {R}.
Arguments shear_scale {R}.
Arguments gamma_mean {R}.
Arguments gamma_std {R}.
Arguments source_parameters_given {R}.
Arguments strong_lensing_condition_name {R}.

(** [np.random.random_sample(n)]: [n] successive variates. *)
Fixpoint random_samples {R} (E : collaborators R) (n : nat) (s : R) : list Q * R :=
  match n with
  | O => ([], s)
  | S n' =>
      let (x, s1) := random_sample E s in
      let (xs, s2) := random_samples E n' s1 in
      (x :: xs, s2)
  end.

(** [np.random.uniform(low, high, size)] is [low + (high - low) * random_sample(size)]. *)
Definition scale_uniform (low high x : Q) : Q := low + (high - low) * x.

Definition uniform {R} (E : collaborators R) (low high : Q) (size : nat) (s : R)
  : list Q * R :=
  let (xs, s') := random_samples E size s in
  (map (scale_uniform low high) xs, s').

(** Modelled from the spec: [ler.utils.add_dictionaries_together] is imported
    from [..utils], which is not among the source files.  Section 4.1,
    [concat(a, b)]: identical field-name sets are required, every field array
    of the result is the ordered concatenation, [a]'s rows first, and a
    mismatch of the field sets is a fault.  The accumulator of section 4.2
    starts as the batch without fields ([dict()] in [sample_all_routine1]); it
    is the unit of the concatenation. *)
Definition add_dictionaries_together (a b : gmap string (list Q))
  : option (gmap string (list Q)) :=
  if decide (a = ∅) then Some b
  else if decide (b = ∅) then Some a
  else if decide (dom a = dom b)
       then Some (map_zip_with (fun x y => x ++ y) a b)
       else None.

(** Modelled from the spec: [ler.utils.trim_dictionary] is imported from
    [..utils], which is not among the source files.  Section 4.1,
    [trim(batch, n)]: the first [n] rows of every field, in order. *)
Definition trim_dictionary (d : gmap string (list Q)) (n : nat)
  : gmap string (list Q) :=
  take n <$> d.

(** [zs_function], the recursive helper of [strongly_lensed_source_redshifts].
    [fuel] bounds the depth of the recursion. *)
Fixpoint zs_function {R} (E : collaborators R) (size : nat) (fuel : nat)
    (zs_sl : list Q) : M R (list Q) :=
  match fuel with
  | O => fun _ => OutOfFuel
  | S fuel' =>
      zs <- call (sample_zs E size) ;;
      let tau := map (strong_lensing_optical_depth E) zs in
      let tau_max := strong_lensing_optical_depth E (z_max E) in
      r <- call (uniform E 0 tau_max (length zs)) ;;
      let zs_sl := zs_sl ++ mask_select (lt r tau) zs in
      if (size <=? length zs_sl)%nat
      then ret (take size zs_sl)
      else zs_function E size fuel' zs_sl
  end.

Definition strongly_lensed_source_redshifts {R} (E : collaborators R)
    (fuel : nat) (size : nat) : M R (list Q) :=
  zs_function E size fuel [].

(** [const.c.to("km/s").value] *)
Definition c_km_s : Q := 299792458 # 1000.

(** [compute_einstein_radii]: elementwise over three arrays of one shape. *)
Definition einstein_radius {R} (E : collaborators R) (sigma zl zs : Q) : Q :=
  let Ds := angular_diameter_distance E zs in
  let Dls := angular_diameter_distance_z1z2 E zl zs in
  4 * np_pi E * sq (sigma / c_km_s) * Dls / Ds.

Definition compute_einstein_radii {R} (E : collaborators R)
    (sigma zl zs : list Q) : M R (list Q) :=
  if decide (length sigma = length zl /\ length zl = length zs)
  then ret (zip_with (fun s zz => einstein_radius E s zz.1 zz.2) sigma (zip zl zs))
  else raise ValueError.

(** [rjs_with_einstein_radius] *)
Definition rjs_with_einstein_radius {R} (E : collaborators R)
    (param_dict : gmap string (list Q)) : M R (gmap string (list Q)) :=
  theta_E <- getitem param_dict "theta_E" ;;
  let size := length theta_E in
  theta_E_max <- of_option ValueError (max theta_E) ;;
  u <- call (uniform E 0 (sq theta_E_max) size) ;;
  let mask := lt u (map sq theta_E) in
  of_option IndexError (dict_mask mask param_dict).

(** [rjs_with_cross_section] *)
Definition rjs_with_cross_section {R} (E : collaborators R)
    (param_dict : gmap string (list Q)) : M R (gmap string (list Q)) :=
  theta_E <- getitem param_dict "theta_E" ;;
  q <- getitem param_dict "q" ;;
  let phi_cut := map (phi_cut_SIE E) q in
  let size := length theta_E in
  cross_section <-
    (if decide (length theta_E = length phi_cut)
     then ret (zip_with Qmult (map sq theta_E) phi_cut)
     else raise ValueError) ;;
  max_ <- of_option ValueError (max cross_section) ;;
  u <- call (uniform E 0 max_ size) ;;
  let mask := lt u cross_section in
  of_option IndexError (dict_mask mask param_dict).

(** [self.rejection_sample_sl] *)
Definition rejection_sample_sl {R} (E : collaborators R)
    (param_dict : gmap string (list Q)) : M R (gmap string (list Q)) :=
  match strong_lensing_condition_name E with
  | rjs_with_einstein_radius_name => rjs_with_einstein_radius E param_dict
  | rjs_with_cross_section_name => rjs_with_cross_section E param_dict
  end.

(** [axis_rotation_angle_uniform], [shear_norm] and
    [mass_density_spectral_index_normal], called with their [param]. *)
Definition axis_rotation_angle_uniform {R} (E : collaborators R) (size : nat)
  : M R (list Q) :=
  call (uniform E (phi_min E) (phi_max E) size).

Definition shear_norm {R} (E : collaborators R) (size : nat)
  : M R (list Q * list Q) :=
  g1 <- call (norm_rvs E size (shear_scale E)) ;;
  g2 <- call (norm_rvs E size (shear_scale E)) ;;
  ret (g1, g2).

Definition mass_density_spectral_index_normal {R} (E : collaborators R)
    (size : nat) : M R (list Q) :=
  call (random_normal E (gamma_mean E) (gamma_std E) size).

(** [source_parameters], the default [sample_source_parameters]. *)
Definition source_parameters {R} (E : collaborators R) (size : nat)
    (param : gmap string (list Q)) : M R (gmap string (list Q)) :=
  sample_gw_parameters E size (Some param).

(** [del d[key]] *)
Definition delitem {R} (d : gmap string (list Q)) (key : string)
  : M R (gmap string (list Q)) :=
  match d !! key with
  | Some _ => ret (delete key d)
  | None => raise KeyError
  end.

(** The tail of [sample_all_routine1], once the quota is met: [zs] is the
    local variable of the call that reached it. *)
Definition finish_routine1 {R} (E : collaborators R) (size : nat)
    (zs : list Q) (lens_parameters : gmap string (list Q))
  : M R (gmap string (list Q)) :=
  let lens_parameters := trim_dictionary lens_parameters size in
  phi <- axis_rotation_angle_uniform E size ;;
  let lens_parameters := <["phi" := phi]> lens_parameters in
  q <- getitem lens_parameters "q" ;;
  e <- (if decide (length phi = length q)
        then ret (zip_with (phi_q2_ellipticity E) phi q)
        else raise ValueError) ;;
  let lens_parameters :=
    <["e2" := map snd e]> (<["e1" := map fst e]> lens_parameters) in
  g <- shear_norm E size ;;
  let lens_parameters :=
    <["gamma2" := g.2]> (<["gamma1" := g.1]> lens_parameters) in
  gamma <- mass_density_spectral_index_normal E size ;;
  let lens_parameters := <["gamma" := gamma]> lens_parameters in
  let param : gmap string (list Q) := {["zs" := zs]} in
  param <-
    (if source_parameters_given E
     then (g <- sample_gw_parameters E size None ;; ret (g ∪ param))
     else ret param) ;;
  gw_param <- source_parameters E size param ;;
  let lens_parameters := gw_param ∪ lens_parameters in
  lens_parameters <- delitem lens_parameters "mass_1" ;;
  lens_parameters <- delitem lens_parameters "mass_2" ;;
  ret lens_parameters.

(** One draw of the five-field candidate batch and its rejection: the body of
    [sample_all_routine1] up to the concatenation with the accumulator.  The
    first component is the local [zs]. *)
Definition draw_routine1 {R} (E : collaborators R) (fuel size : nat)
  : M R (list Q * gmap string (list Q)) :=
  zs <- strongly_lensed_source_redshifts E fuel size ;;
  zl <- call (sample_lens_redshift E zs) ;;
  sigma <- try_except (sample_velocity_dispersion E (length zs) None)
                      (sample_velocity_dispersion E (length zs) (Some zl)) ;;
  q <- call (sample_axis_ratio E sigma) ;;
  theta_E <- compute_einstein_radii E sigma zl zs ;;
  let lens_parameters : gmap string (list Q) :=
    <["zl" := zl]> (<["zs" := zs]> (<["sigma" := sigma]>
      (<["q" := q]> {["theta_E" := theta_E]}))) in
  lens_parameters <- rejection_sample_sl E lens_parameters ;;
  ret (zs, lens_parameters).

(** [sample_all_routine1]; [fuel] bounds the depth of the recursion (of this
    function and of [zs_function] inside it). *)
Fixpoint sample_all_routine1 {R} (E : collaborators R) (fuel : nat)
    (size : nat) (lens_parameters_input : gmap string (list Q))
  : M R (gmap string (list Q)) :=
  match fuel with
  | O => fun _ => OutOfFuel
  | S fuel' =>
      zp <- draw_routine1 E fuel size ;;
      let zs := zp.1 in
      lens_parameters <-
        of_option ValueError (add_dictionaries_together zp.2 lens_parameters_input) ;;
      zl <- getitem lens_parameters "zl" ;;
      if (length zl <? size)%nat
      then sample_all_routine1 E fuel' size lens_parameters
      else finish_routine1 E size zs lens_parameters
  end.

(** [sample_lens_parameters] *)
Definition sample_lens_parameters {R} (E : collaborators R) (fuel : nat)
    (size : nat) : M R (gmap string (list Q)) :=
  sample_all_routine1 E fuel size ∅.

End LensGalaxy.

(** ** [lens_galaxy_parameter_distribution.py]: the samplers with their
    parameters *)

Module LensPriors.

(** [if param:] a dict counts when it is given and not empty. *)
Definition given {V} (param : option (gmap string V)) : option (gmap string V) :=
  match param with
  | Some d => if decide (d = ∅) then None else Some d
  | None => None
  end.

(** [axis_rotation_angle_uniform(size, phi_min, phi_max, param)] *)
Definition axis_rotation_angle_uniform {R} (E : LensGalaxy.collaborators R)
    (size : nat) (phi_min phi_max : Q) (param : option (gmap string Q))
  : M R (list Q) :=
  bounds <- match given param with
            | Some d =>
                phi_min <- getitem d "phi_min" ;;
                phi_max <- getitem d "phi_max" ;;
                ret (phi_min, phi_max)
            | None => ret (phi_min, phi_max)
            end ;;
  call (LensGalaxy.uniform E bounds.1 bounds.2 size).

(** [shear_norm(size, scale, param)] *)
Definition shear_norm {R} (E : LensGalaxy.collaborators R) (size : nat)
    (scale : Q) (param : option (gmap string Q)) : M R (list Q * list Q) :=
  scale <- match given param with
           | Some d => getitem d "scale"
           | None => ret scale
           end ;;
  g1 <- call (LensGalaxy.norm_rvs E size scale) ;;
  g2 <- call (LensGalaxy.norm_rvs E size scale) ;;
  ret (g1, g2).

(** [mass_density_spectral_index_normal(size, mean, std, param)] *)
Definition mass_density_spectral_index_normal {R}
    (E : LensGalaxy.collaborators R) (size : nat) (mean std : Q)
    (param : option (gmap string Q)) : M R (list Q) :=
  ms <- match given param with
        | Some d =>
            mean <- getitem d "mean" ;;
            std <- getitem d "std" ;;
            ret (mean, std)
        | None => ret (mean, std)
        end ;;
  call (LensGalaxy.random_normal E ms.1 ms.2 size).

End LensPriors.

(** ** [lens_galaxy_parameter_distribution.py]: the compiled sampler of the
    velocity dispersion *)

Module Jit.

(** [np.searchsorted(a, v)] on an array in ascending order: the index of the
    first element that is not below [v]. *)
Fixpoint searchsorted (a : list Q) (v : Q) : nat :=
  match a with
  | [] => O
  | x :: a' => if Np.Qltb x v then S (searchsorted a' v) else O
  end.

(** [a[i]] in a function compiled by [numba.njit]: a negative index counts
    from the end; an index outside the array is not checked and its value is
    not defined ([None]). *)
Definition item {A} (a : list A) (i : Z) : option A :=
  if (0 <=? i)%Z then a !! Z.to_nat i
  else if (- Z.of_nat (length a) <=? i)%Z
       then a !! Z.to_nat (Z.of_nat (length a) + i)
       else None.

(** The body of the loop for one draw [u] in the table [(cdf, x)]; the
    compiled division raises [ZeroDivisionError] on a zero divisor. *)
Definition interpolate (cdf x : list Q) (u : Q) : option (exn + Q) :=
  let idx := Z.of_nat (searchsorted cdf u) in
  x1 ← item cdf idx;
  x0 ← item cdf (idx - 1);
  y1 ← item x idx;
  y0 ← item x (idx - 1);
  if Qeq_bool (x1 - x0) 0
  then Some (inl ZeroDivisionError)
  else Some (inr (y0 + (y1 - y0) * (u - x0) / (x1 - x0))).

(** Iteration [i] of the loop: [vd_inv_cdf[index[i], 0]] and
    [vd_inv_cdf[index[i], 1]] are the two rows of a table. *)
Definition sample_at (index : list nat) (vd_inv_cdf : list (list Q * list Q))
    (u : list Q) (i : nat) : option (exn + Q) :=
  k ← index !! i;
  table ← vd_inv_cdf !! k;
  ui ← u !! i;
  interpolate table.1 table.2 ui.

(** [for i in range(size)], from iteration [i] on. *)
Fixpoint sample_loop (body : nat -> option (exn + Q)) (i n : nat)
  : option (exn + list Q) :=
  match n with
  | O => Some (inr [])
  | S n' =>
      match body i with
      | None => None
      | Some (inl e) => Some (inl e)
      | Some (inr y) =>
          match sample_loop body (S i) n' with
          | Some (inr ys) => Some (inr (y :: ys))
          | r => r
          end
      end
  end.

(** [velocity_dispersion_z_dependent(size, zl, zl_list, vd_inv_cdf)]; the
    result is [None] where the compiled code reads outside an array. *)
Definition velocity_dispersion_z_dependent {R} (E : LensGalaxy.collaborators R)
    (size : nat) (zl zl_list : list Q) (vd_inv_cdf : list (list Q * list Q))
  : M R (option (list Q)) :=
  let index := map (searchsorted zl_list) zl in
  u <- call (LensGalaxy.uniform E 0 1 size) ;;
  match sample_loop (sample_at index vd_inv_cdf u) 0 size with
  | None => ret None
  | Some (inl e) => raise e
  | Some (inr samples) => ret (Some samples)
  end.

End Jit.

(** ** Floats with a missing value, and arrays of them *)

Module Arr.

Import Np.

Inductive fval : Set :=
| NaN
| Fin (q : Q).

Definition flift1 (f : Q -> Q) (a : fval) : fval :=
  match a with
  | Fin x => Fin (f x)
  | NaN => NaN
  end.

Definition flift2 (f : Q -> Q -> Q) (a b : fval) : fval :=
  match a, b with
  | Fin x, Fin y => Fin (f x y)
  | _, _ => NaN
  end.

Definition fneg : fval -> fval := flift1 Qopp.
Definition fadd : fval -> fval -> fval := flift2 Qplus.
Definition fsub : fval -> fval -> fval := flift2 Qminus.
Definition fmul : fval -> fval -> fval := flift2 Qmult.
Definition fdiv : fval -> fval -> fval := flift2 Qdiv.

(** [a > t]: false on a missing value. *)
Definition fgtb (a : fval) (t : Q) : bool :=
  match a with
  | Fin x => Qltb t x
  | NaN => false
  end.

(** [np.nan_to_num]: a missing value becomes [0.0]. *)
Definition nan_to_num (a : fval) : Q :=
  match a with
  | Fin x => x
  | NaN => 0
  end.

(** [True] is [1.0] and [False] is [0.0] in arithmetic. *)
Definition of_bool (b : bool) : fval := Fin (if b then 1 else 0).

(** Equality of floats up to the representation of the rational. *)
Definition feq (a b : fval) : Prop :=
  match a, b with
  | Fin x, Fin y => x == y
  | NaN, NaN => True
  | _, _ => False
  end.

(** [np.mean] of a one-dimensional array; the mean of a zero-size array is
    [nan]. *)
Definition sum (a : list fval) : fval := foldr fadd (Fin 0) a.

Definition mean (a : list fval) : fval :=
  match a with
  | [] => NaN
  | _ => fdiv (sum a) (Fin (inject_Z (Z.of_nat (length a))))
  end.

(** An array of one or of two dimensions; the first axis is the system. *)
Inductive ndarray : Type :=
| Arr1 (v : list fval)
| Arr2 (ncols : nat) (rows : list (list fval)).

Definition len (a : ndarray) : nat :=
  match a with
  | Arr1 v => length v
  | Arr2 _ rows => length rows
  end.

(** A two-dimensional array is rectangular. *)
Definition rectangular (a : ndarray) : Prop :=
  match a with
  | Arr1 _ => True
  | Arr2 n rows => Forall (fun r => length r = n) rows
  end.

(** [a[mask]] with a one-dimensional boolean [mask]: the selected entries
    along the first axis; [IndexError] when the lengths differ. *)
Definition getmask (mask : list bool) (a : ndarray) : option ndarray :=
  if decide (len a = length mask)
  then Some match a with
            | Arr1 v => Arr1 (mask_select mask v)
            | Arr2 n rows => Arr2 n (mask_select mask rows)
            end
  else None.

(** [np.append(a, b, axis=0)]; [ValueError] when the shapes do not agree. *)
Definition append (a b : ndarray) : option ndarray :=
  match a, b with
  | Arr1 v, Arr1 w => Some (Arr1 (v ++ w))
  | Arr2 n rows, Arr2 m rows' =>
      if decide (n = m) then Some (Arr2 n (rows ++ rows')) else None
  | _, _ => None
  end.

Definition amap (f : fval -> fval) (a : ndarray) : ndarray :=
  match a with
  | Arr1 v => Arr1 (map f v)
  | Arr2 n rows => Arr2 n (map (map f) rows)
  end.

(** [sorted_snr[:, j]] *)
Definition column (a : ndarray) (j : nat) : option (list fval) :=
  match a with
  | Arr2 n rows =>
      if (j <? n)%nat then Some (map (fun r => nth j r NaN) rows) else None
  | Arr1 _ => None
  end.

(** [np.sort] of one row: ascending, missing values last. *)
Definition fleb (a b : fval) : bool :=
  match a, b with
  | Fin x, Fin y => Qle_bool x y
  | NaN, Fin _ => false
  | _, NaN => true
  end.

Fixpoint insert_sorted (x : fval) (l : list fval) : list fval :=
  match l with
  | [] => [x]
  | y :: l' => if fleb x y then x :: l else y :: insert_sorted x l'
  end.

Definition sort (l : list fval) : list fval := foldr insert_sorted [] l.

(** [-np.sort(-snr, axis=1)] *)
Definition sort_rows_descending (a : ndarray) : option ndarray :=
  match a with
  | Arr2 n rows => Some (Arr2 n (map (fun r => map fneg (sort (map fneg r))) rows))
  | Arr1 _ => None
  end.

(** [keys.argsort()]: the indices in ascending order of their key; equal keys
    keep their order. *)
Fixpoint insert_index (keys : list Q) (i : nat) (l : list nat) : list nat :=
  match l with
  | [] => [i]
  | j :: l' =>
      if Qle_bool (nth i keys 0) (nth j keys 0)
      then i :: l
      else j :: insert_index keys i l'
  end.

Definition argsort (keys : list Q) : list nat :=
  foldr (insert_index keys) [] (seq 0 (length keys)).

(** Dicts of arrays: [{key: val[mask] ...}] and the keywise [np.append]. *)
Definition dict_getmask (mask : list bool) (d : gmap string ndarray)
  : option (gmap string ndarray) :=
  if decide (map_Forall (fun _ a => is_Some (getmask mask a)) d)
  then Some (map_imap (fun _ a => getmask mask a) d)
  else None.

Definition dict_append (a b : gmap string ndarray) : option (gmap string ndarray) :=
  if decide (map_Forall (fun k x => is_Some (b !! k ≫= append x)) a)
  then Some (map_imap (fun k x => b !! k ≫= append x) a)
  else None.

End Arr.

(** ** [ler.py] *)

Module LeR.

Import Arr.

(** Dict objects are addressed by locations; an attribute of the instance is
    [False] (not sampled yet) or a reference to a dict. *)
Definition loc : Set := nat.

Inductive pyval : Set :=
| PyFalse
| PyDict (l : loc).

(** The instance: the generator state, the store of dict objects, and the
    attributes the modelled methods read or write. *)
Record state (R : Type) : Type := mk_state {
  rng : R;
  store : gmap loc (gmap string ndarray);
  gw_param : pyval;
  gw_param_detectable : pyval;
  lensed_param : pyval;
  lensed_param_detectable : pyval;
  batch_size : Z;
  (** [gw_param_sampler_dict['nsamples']], [lensed_param_sampler_dict[...]] *)
  gw_nsamples : Z;
  lensed_nsamples : Z;
  min_lensed_images : Z;
  max_lensed_images : Z
}.

Arguments mk_state {R}.
Arguments rng {R}.
Arguments store {R}.
Arguments gw_param {R}.
Arguments gw_param_detectable {R}.
Arguments lensed_param {R}.
Arguments lensed_param_detectable {R}.
Arguments batch_size {R}.
Arguments gw_nsamples {R}.
Arguments lensed_nsamples {R}.
Arguments min_lensed_images {R}.
Arguments max_lensed_images {R}.

Definition set_rng {R} (r : R) (s : state R) : state R :=
  mk_state r (store s) (gw_param s) (gw_param_detectable s) (lensed_param s)
    (lensed_param_detectable s) (batch_size s) (gw_nsamples s)
    (lensed_nsamples s) (min_lensed_images s) (max_lensed_images s).

Definition set_store {R} (h : gmap loc (gmap string ndarray)) (s : state R)
  : state R :=
  mk_state (rng s) h (gw_param s) (gw_param_detectable s) (lensed_param s)
    (lensed_param_detectable s) (batch_size s) (gw_nsamples s)
    (lensed_nsamples s) (min_lensed_images s) (max_lensed_images s).

Definition set_gw_param {R} (v : pyval) (s : state R) : state R :=
  mk_state (rng s) (store s) v (gw_param_detectable s) (lensed_param s)
    (lensed_param_detectable s) (batch_size s) (gw_nsamples s)
    (lensed_nsamples s) (min_lensed_images s) (max_lensed_images s).

Definition set_gw_param_detectable {R} (v : pyval) (s : state R) : state R :=
  mk_state (rng s) (store s) (gw_param s) v (lensed_param s)
    (lensed_param_detectable s) (batch_size s) (gw_nsamples s)
    (lensed_nsamples s) (min_lensed_images s) (max_lensed_images s).

Definition set_lensed_param {R} (v : pyval) (s : state R) : state R :=
  mk_state (rng s) (store s) (gw_param s) (gw_param_detectable s) v
    (lensed_param_detectable s) (batch_size s) (gw_nsamples s)
    (lensed_nsamples s) (min_lensed_images s) (max_lensed_images s).

Definition set_lensed_param_detectable {R} (v : pyval) (s : state R) : state R :=
  mk_state (rng s) (store s) (gw_param s) (gw_param_detectable s)
    (lensed_param s) v (batch_size s) (gw_nsamples s)
    (lensed_nsamples s) (min_lensed_images s) (max_lensed_images s).

Definition set_gw_nsamples {R} (n : Z) (s : state R) : state R :=
  mk_state (rng s) (store s) (gw_param s) (gw_param_detectable s)
    (lensed_param s) (lensed_param_detectable s) (batch_size s) n
    (lensed_nsamples s) (min_lensed_images s) (max_lensed_images s).

Definition set_lensed_nsamples {R} (n : Z) (s : state R) : state R :=
  mk_state (rng s) (store s) (gw_param s) (gw_param_detectable s)
    (lensed_param s) (lensed_param_detectable s) (batch_size s)
    (gw_nsamples s) n (min_lensed_images s) (max_lensed_images s).

(** What the class takes from outside the file.  The samplers and the SNR
    calculator work on the generator state alone and return fresh dicts. *)
Record collaborators (R : Type) : Type := {
  (** [compact_binary_pop.sample_gw_parameters(nsamples=n)] *)
  sample_gw_parameters : Z -> M R (gmap string ndarray);
  (** [snr_.snr(GWparam_dict=d)] *)
  snr : gmap string ndarray -> M R (gmap string ndarray);
  (** [lens_galaxy_pop.sample_lens_parameters(size=n)] *)
  sample_lens_parameters : Z -> M R (gmap string ndarray);
  (** [lens_galaxy_pop.get_image_properties(n_min_images, n_max_images, lens_parameters, ...)] *)
  get_image_properties : Z -> Z -> gmap string ndarray -> M R (gmap string ndarray);
  (** [lens_galaxy_pop.get_lensed_snrs(snr_calculator, lensed_param, n_max_images)] *)
  get_lensed_snrs : gmap string ndarray -> Z -> M R (gmap string ndarray);
  (** [compact_binary_pop.normalization_pdf_z], [lens_galaxy_pop.normalization_pdf_z] *)
  normalization_pdf_z : Q;
  normalization_pdf_z_lensed : Q;
  (** [scipy.stats.norm.cdf] *)
  norm_cdf : Q -> Q
}.

Arguments sample_gw_parameters {R}.
Arguments snr {R}.
Arguments sample_lens_parameters {R}.
Arguments get_image_properties {R}.
Arguments get_lensed_snrs {R}.
Arguments normalization_pdf_z {R}.
Arguments normalization_pdf_z_lensed {R}.
Arguments norm_cdf {R}.

(** *** Access to the instance and to the store *)

Definition gets {R A} (f : state R -> A) : M (state R) A :=
  fun s => Ok (f s) s.

Definition modify {R} (f : state R -> state R) : M (state R) unit :=
  fun s => Ok tt (f s).

(** A call of a collaborator: it sees the generator state only. *)
Definition collab {R A} (c : M R A) : M (state R) A :=
  fun s =>
    match c (rng s) with
    | Ok a r => Ok a (set_rng r s)
    | Raise e r => Raise e (set_rng r s)
    | OutOfFuel => OutOfFuel
    end.

(** A new dict object with the content [d]. *)
Definition new_dict {R} (d : gmap string ndarray) : M (state R) loc :=
  fun s =>
    let l := fresh (dom (store s)) in
    Ok l (set_store (<[l := d]> (store s)) s).

(** The content of the dict object behind a value; [False] is no dict. *)
Definition read {R} (v : pyval) : M (state R) (gmap string ndarray) :=
  fun s =>
    match v with
    | PyDict l =>
        match store s !! l with
        | Some d => Ok d s
        | None => Raise TypeError s
        end
    | PyFalse => Raise TypeError s
    end.

(** Overwrite the content of the dict object at [l] (its entries are
    rebound in place). *)
Definition write {R} (l : loc) (d : gmap string ndarray) : M (state R) unit :=
  modify (fun s => set_store (<[l := d]> (store s)) s).

(** [d.copy()]: a new dict object with the same entries. *)
Definition dict_copy {R} (v : pyval) : M (state R) loc :=
  d <- read v ;;
  new_dict d.

(** *** Sampling in batches *)

(** The batch arithmetic shared by [unlensed_cbc_statistics] and
    [lensed_cbc_statistics]: the size of the leading batch and the number of
    further batches.  [%] is Python's (the sign of the divisor), [int(a / b)]
    truncates the quotient. *)
Definition batch_plan {R} (nsamples batch_size : Z) : M (state R) (Z * Z) :=
  if (batch_size =? 0)%Z then raise ZeroDivisionError
  else
    let num_batches :=
      if (nsamples mod batch_size =? 0)%Z
      then (nsamples ÷ batch_size)%Z
      else (nsamples ÷ batch_size + 1)%Z in
    let num_batches := (num_batches - 1)%Z in
    let frac_batches :=
      if (nsamples >? batch_size)%Z
      then (nsamples - num_batches * batch_size)%Z
      else nsamples in
    ret (frac_batches, num_batches).

(** [for i in range(n)]: draw a batch with [round] and append it, key by key
    of the accumulated dict, to the dict object [acc]. *)
Fixpoint accumulate {R} (round : M (state R) (gmap string ndarray))
    (acc : loc) (n : nat) : M (state R) unit :=
  match n with
  | O => ret tt
  | S n' =>
      d_ <- round ;;
      d <- read (PyDict acc) ;;
      d' <- of_option ValueError (dict_append d d_) ;;
      _ <- write acc d' ;;
      accumulate round acc n'
  end.

(** One batch of the unlensed loop: sample, compute the SNRs, [update]. *)
Definition unlensed_round {R} (E : collaborators R) (size : Z)
  : M (state R) (gmap string ndarray) :=
  gw_param <- collab (sample_gw_parameters E size) ;;
  snrs <- collab (snr E gw_param) ;;
  ret (snrs ∪ gw_param).

(** [unlensed_cbc_statistics(nsamples)]; [nsamples == False] also holds of
    [0].  Returns the dict object it stores in [self.gw_param]. *)
Definition unlensed_cbc_statistics {R} (E : collaborators R) (nsamples : Z)
  : M (state R) loc :=
  batch_size <- gets batch_size ;;
  nsamples <-
    (if (nsamples =? 0)%Z then gets gw_nsamples
     else (_ <- modify (set_gw_nsamples nsamples) ;; ret nsamples)) ;;
  plan <- batch_plan nsamples batch_size ;;
  d <- unlensed_round E plan.1 ;;
  gw_param <- new_dict d ;;
  _ <- accumulate (unlensed_round E batch_size) gw_param (Z.to_nat plan.2) ;;
  _ <- modify (set_gw_param (PyDict gw_param)) ;;
  ret gw_param.

(** One batch of the lensed loop: sample, solve for the images, compute the
    SNRs, [update]. *)
Definition lensed_round {R} (E : collaborators R) (min_img max_img size : Z)
  : M (state R) (gmap string ndarray) :=
  lensed_param <- collab (sample_lens_parameters E size) ;;
  lensed_param <- collab (get_image_properties E min_img max_img lensed_param) ;;
  snrs <- collab (get_lensed_snrs E lensed_param max_img) ;;
  ret (snrs ∪ lensed_param).

(** [lensed_cbc_statistics(nsamples)], without further keyword arguments. *)
Definition lensed_cbc_statistics {R} (E : collaborators R) (nsamples : Z)
  : M (state R) loc :=
  batch_size <- gets batch_size ;;
  nsamples <-
    (if (nsamples =? 0)%Z then gets lensed_nsamples
     else (_ <- modify (set_lensed_nsamples nsamples) ;; ret nsamples)) ;;
  min_img <- gets min_lensed_images ;;
  max_img <- gets max_lensed_images ;;
  plan <- batch_plan nsamples batch_size ;;
  d <- lensed_round E min_img max_img plan.1 ;;
  lensed_param <- new_dict d ;;
  _ <- accumulate (lensed_round E min_img max_img batch_size) lensed_param
         (Z.to_nat plan.2) ;;
  _ <- modify (set_lensed_param (PyDict lensed_param)) ;;
  ret lensed_param.

(** *** Detection selection *)

(** The variables of the double loop of [lensed_rate]; [pdet] is unbound
    until the body has run once. *)
Record selection : Type := mk_selection {
  snr_hit : list bool;
  pdet_combined : list Q;
  pdet : option (list Q);
  num2 : nat
}.

(** The body of the inner loop, for the threshold [th]. *)
Definition consume_column (cdf : Q -> Q) (sorted_snr : ndarray) (th : Q)
    (acc : selection) : option selection :=
  col ← column sorted_snr (num2 acc);
  let p := map (fun x => 1 - cdf (th - nan_to_num x)) col in
  Some (mk_selection
          (zip_with andb (snr_hit acc) (map (fun x => fgtb x th) col))
          (zip_with Qmult (pdet_combined acc) p)
          (Some p)
          (S (num2 acc))).

(** [for j in range(num1)] *)
Fixpoint consume_columns (cdf : Q -> Q) (sorted_snr : ndarray) (th : Q)
    (num1 : nat) (acc : selection) : option selection :=
  match num1 with
  | O => Some acc
  | S n =>
      acc' ← consume_column cdf sorted_snr th acc;
      consume_columns cdf sorted_snr th n acc'
  end.

(** The body of the outer loop, for the index [i] of a requirement. *)
Definition consume_requirement (cdf : Q -> Q) (sorted_snr : ndarray)
    (snr_threshold : list Q) (num_img : list nat) (acc : option selection)
    (i : nat) : option selection :=
  acc ← acc;
  num1 ← num_img !! i;
  th ← snr_threshold !! i;
  consume_columns cdf sorted_snr th num1 acc.

(** Lines 466-487 of [lensed_rate]; [None] stands for the [IndexError] of a
    column or requirement that does not exist. *)
Definition detection_selection (cdf : Q -> Q) (snr : ndarray)
    (snr_threshold : list Q) (num_img : list nat) : option selection :=
  let arg_th := argsort (map Qopp snr_threshold) in
  sorted_snr ← sort_rows_descending snr;
  foldl (consume_requirement cdf sorted_snr snr_threshold num_img)
        (Some (mk_selection (repeat true (len snr)) (repeat 1 (len snr)) None O))
        arg_th.

(** *** Rates *)

(** [c0 * np.mean(a)] *)
Definition rate (c0 : Q) (a : list fval) : fval := fmul (Fin c0) (mean a).

(** [unlensed_rate(snr_threshold)] *)
Definition unlensed_rate {R} (E : collaborators R) (snr_threshold : Q)
  : M (state R) (fval * fval) :=
  gw <- gets gw_param ;;
  _ <- match gw with
       | PyFalse => _ <- unlensed_cbc_statistics E 0 ;; ret tt
       | PyDict _ => d <- read gw ;; _ <- getitem d "zs" ;; ret tt
       end ;;
  gw <- gets gw_param ;;
  gw_param <- dict_copy gw ;;
  d <- read (PyDict gw_param) ;;
  snr <- getitem d "opt_snr_net" ;;
  snr <- match snr with
         | Arr1 v => ret v
         | Arr2 _ _ => raise IndexError
         end ;;
  let pdet :=
    map (fun x => fsub (Fin 1) (flift1 (norm_cdf E) (fsub (Fin snr_threshold) x))) snr in
  _ <- write gw_param (<["pdet_net" := Arr1 pdet]> d) ;;
  let idx_detectable := map (fun x => fgtb x snr_threshold) snr in
  d <- read (PyDict gw_param) ;;
  d <- of_option IndexError (dict_getmask idx_detectable d) ;;
  _ <- write gw_param d ;;
  _ <- modify (set_gw_param_detectable (PyDict gw_param)) ;;
  let c0 := normalization_pdf_z E in
  let total_rate_step := rate c0 (map of_bool idx_detectable) in
  let total_rate_pdet := rate c0 pdet in
  ret (total_rate_step, total_rate_pdet).

(** [lensed_rate(size, snr_threshold, num_img, none_as_nan)] *)
Definition lensed_rate {R} (E : collaborators R) (size : Z)
    (snr_threshold : list Q) (num_img : list nat) (none_as_nan : bool)
  : M (state R) (fval * fval) :=
  lp <- gets lensed_param ;;
  _ <- match lp with
       | PyFalse => _ <- lensed_cbc_statistics E size ;; ret tt
       | PyDict _ => d <- read lp ;; _ <- getitem d "zs" ;; ret tt
       end ;;
  lp <- gets lensed_param ;;
  lensed_param <- dict_copy lp ;;
  d <- read (PyDict lensed_param) ;;
  snr <- getitem d "opt_snr_net" ;;
  sel <- of_option IndexError
           (detection_selection (norm_cdf E) snr snr_threshold num_img) ;;
  pdet <- of_option NameError (pdet sel) ;;
  _ <- write lensed_param (<["pdet_net" := Arr1 (map Fin pdet)]> d) ;;
  d <- read (PyDict lensed_param) ;;
  weights <- getitem d "weights" ;;
  d <- of_option IndexError (dict_getmask (snr_hit sel) d) ;;
  let d := if none_as_nan then d
           else amap (fun x => Fin (nan_to_num x)) <$> d in
  _ <- write lensed_param d ;;
  _ <- modify (set_lensed_param_detectable (PyDict lensed_param)) ;;
  let c0 := normalization_pdf_z_lensed E in
  weights <- match weights with
             | Arr1 w =>
                 if decide (length w = length (snr_hit sel)) then ret w
                 else raise ValueError
             | Arr2 _ _ => raise ValueError
             end ;;
  let total_rate_step :=
    rate c0 (zip_with fmul (map of_bool (snr_hit sel)) weights) in
  let total_rate_pdet :=
    rate c0 (zip_with fmul (map Fin (pdet_combined sel)) weights) in
  ret (total_rate_step, total_rate_pdet).

(** *** Selecting the detectable events *)

(** [try: size = len(self.gw_param['zs'])  except: return None]: whether the
    attribute refers to a dict with the field ['zs']. *)
Definition sampled {R} (v : pyval) : M (state R) bool :=
  try_except (d <- read v ;; _ <- getitem d "zs" ;; ret true) (ret false).

(** [selecting_n_unlensed_detectable_events_from_dict(snr_threshold)];
    [None] is the value returned when nothing was sampled. *)
Definition selecting_n_unlensed_detectable_events_from_dict {R}
    (snr_threshold : Q) : M (state R) (option loc) :=
  gw <- gets gw_param ;;
  ok <- sampled gw ;;
  if ok : bool then
    param <- dict_copy gw ;;
    d <- read (PyDict param) ;;
    snr <- getitem d "opt_snr_net" ;;
    snr <- match snr with
           | Arr1 v => ret v
           | Arr2 _ _ => raise IndexError
           end ;;
    let idx_detectable := map (fun x => fgtb x snr_threshold) snr in
    d <- of_option IndexError (dict_getmask idx_detectable d) ;;
    _ <- write param d ;;
    ret (Some param)
  else ret None.

(** [snr[:, a:b]]: the columns [a], ..., [b - 1] that exist; an array of one
    dimension has no second axis ([IndexError]). *)
Definition slice_columns (a b : nat) (x : ndarray) : option ndarray :=
  match x with
  | Arr2 n rows =>
      Some (Arr2 (Nat.min b n - a) (map (fun r => take (b - a) (drop a r)) rows))
  | Arr1 _ => None
  end.

(** The double loop of the selecting methods: that of [lensed_rate] without
    the probabilities; the state is [snr_hit] and [num2]. *)
Definition hit_column (sorted_snr : ndarray) (th : Q) (acc : list bool * nat)
  : option (list bool * nat) :=
  col ← column sorted_snr acc.2;
  Some (zip_with andb acc.1 (map (fun x => fgtb x th) col), S acc.2).

Fixpoint hit_columns (sorted_snr : ndarray) (th : Q) (num1 : nat)
    (acc : list bool * nat) : option (list bool * nat) :=
  match num1 with
  | O => Some acc
  | S n =>
      acc' ← hit_column sorted_snr th acc;
      hit_columns sorted_snr th n acc'
  end.

Definition hit_requirement (sorted_snr : ndarray) (snr_threshold : list Q)
    (num_img : list nat) (acc : option (list bool * nat)) (i : nat)
  : option (list bool * nat) :=
  acc ← acc;
  num1 ← num_img !! i;
  th ← snr_threshold !! i;
  hit_columns sorted_snr th num1 acc.

Definition hit_selection (snr : ndarray) (snr_threshold : list Q)
    (num_img : list nat) : option (list bool) :=
  let arg_th := argsort (map Qopp snr_threshold) in
  sorted_snr ← sort_rows_descending snr;
  fst <$> foldl (hit_requirement sorted_snr snr_threshold num_img)
            (Some (repeat true (len snr), O)) arg_th.

(** [selecting_n_lensed_detectable_events_from_dict(snr_threshold, num_img,
    none_as_nan, lenstype)]; the lens type ['I'] takes the columns [0:2] of
    the signals, ['II'] the columns [2:4]. *)
Definition selecting_n_lensed_detectable_events_from_dict {R}
    (snr_threshold : list Q) (num_img : list nat) (none_as_nan : bool)
    (lenstype : string) : M (state R) (option loc) :=
  lp <- gets lensed_param ;;
  ok <- sampled lp ;;
  if ok : bool then
    param <- dict_copy lp ;;
    d <- read (PyDict param) ;;
    snr <- getitem d "opt_snr_net" ;;
    columns <-
      (if decide (lenstype = "I") then ret (Some (0, 2)%nat)
       else if decide (lenstype = "II") then ret (Some (2, 4)%nat)
       else ret None) ;;
    match columns with
    | None => ret None
    | Some (a, b) =>
        snr <- of_option IndexError (slice_columns a b snr) ;;
        snr_hit <- of_option IndexError
                     (hit_selection snr snr_threshold num_img) ;;
        d <- of_option IndexError (dict_getmask snr_hit d) ;;
        let d := if none_as_nan then d
                 else amap (fun x => Fin (nan_to_num x)) <$> d in
        _ <- write param d ;;
        ret (Some param)
    end
  else ret None.

(** *** Selecting with sampling *)

(** [for key, value in param.items(): ...], over the fields in the order of
    the dict; the body updates [param_final]. *)
Fixpoint for_fields {S A} (body : A -> string * ndarray -> M S A) (acc : A)
    (fields : list (string * ndarray)) : M S A :=
  match fields with
  | [] => ret acc
  | field :: fields' =>
      acc <- body acc field ;;
      for_fields body acc fields'
  end.

(** [param_final[key] = value[idx_detectable]] while nothing has been
    collected ([n == 0]), [np.concatenate((param_final[key],
    value[idx_detectable]), axis=0)] afterwards. *)
Definition collect_field {R} (first : bool) (idx_detectable : list bool)
    (param_final : gmap string ndarray) (field : string * ndarray)
  : M (state R) (gmap string ndarray) :=
  if first then
    v <- of_option IndexError (getmask idx_detectable field.2) ;;
    ret (<[field.1 := v]> param_final)
  else
    old <- getitem param_final field.1 ;;
    v <- of_option IndexError (getmask idx_detectable field.2) ;;
    new <- of_option ValueError (append old v) ;;
    ret (<[field.1 := new]> param_final).

(** [value[:size]] along the first axis. *)
Definition head_rows (size : nat) (a : ndarray) : ndarray :=
  match a with
  | Arr1 v => Arr1 (take size v)
  | Arr2 n rows => Arr2 n (take size rows)
  end.

(** [while (n < size)] of
    [selecting_n_unlensed_detectable_events_with_sampling]; [fuel] bounds the
    number of batches.  [items d] are the fields of the dict [d] in the order
    of their insertion, which the map does not record. *)
Fixpoint sampling_loop {R}
    (items : gmap string ndarray -> list (string * ndarray))
    (E : collaborators R) (snr_threshold : Q) (size : Z) (fuel : nat)
    (n : nat) (param_final : gmap string ndarray)
  : M (state R) (gmap string ndarray) :=
  if (Z.of_nat n <? size)%Z then
    match fuel with
    | O => fun _ => OutOfFuel
    | S fuel' =>
        batch_size <- gets batch_size ;;
        param <- unlensed_cbc_statistics E batch_size ;;
        d <- read (PyDict param) ;;
        snr <- getitem d "opt_snr_net" ;;
        snr <- match snr with
               | Arr1 v => ret v
               | Arr2 _ _ => raise IndexError
               end ;;
        let idx_detectable := map (fun x => fgtb x snr_threshold) snr in
        param_final <-
          for_fields (collect_field (n =? 0)%nat idx_detectable) param_final
            (items d) ;;
        snr_final <- getitem param_final "opt_snr_net" ;;
        sampling_loop items E snr_threshold size fuel' (len snr_final)
          param_final
    end
  else ret param_final.

(** [selecting_n_unlensed_detectable_events_with_sampling(snr_threshold,
    size)]; the value is the content of the new dict it returns.  The last
    [print] reads [param_final['opt_snr_net']]. *)
Definition selecting_n_unlensed_detectable_events_with_sampling {R}
    (items : gmap string ndarray -> list (string * ndarray))
    (E : collaborators R) (fuel : nat) (snr_threshold : Q) (size : Z)
  : M (state R) (gmap string ndarray) :=
  param_final <- sampling_loop items E snr_threshold size fuel O ∅ ;;
  let param_final := head_rows (Z.to_nat size) <$> param_final in
  _ <- getitem param_final "opt_snr_net" ;;
  ret param_final.

Definition set_min_lensed_images {R} (n : Z) (s : state R) : state R :=
  mk_state (rng s) (store s) (gw_param s) (gw_param_detectable s)
    (lensed_param s) (lensed_param_detectable s) (batch_size s)
    (gw_nsamples s) (lensed_nsamples s) n (max_lensed_images s).

Definition set_max_lensed_images {R} (n : Z) (s : state R) : state R :=
  mk_state (rng s) (store s) (gw_param s) (gw_param_detectable s)
    (lensed_param s) (lensed_param_detectable s) (batch_size s)
    (gw_nsamples s) (lensed_nsamples s) (min_lensed_images s) n.

(** [lensed_cbc_statistics(nsamples, min_lensed_images=min_img,
    max_lensed_images=max_img)]: both keywords are keys of
    [lensed_param_sampler_dict], where the values are stored before they are
    read back. *)
Definition lensed_cbc_statistics_images {R} (E : collaborators R)
    (nsamples min_img max_img : Z) : M (state R) loc :=
  batch_size <- gets batch_size ;;
  nsamples <-
    (if (nsamples =? 0)%Z then gets lensed_nsamples
     else (_ <- modify (set_lensed_nsamples nsamples) ;; ret nsamples)) ;;
  _ <- modify (set_min_lensed_images min_img) ;;
  _ <- modify (set_max_lensed_images max_img) ;;
  min_img <- gets min_lensed_images ;;
  max_img <- gets max_lensed_images ;;
  plan <- batch_plan nsamples batch_size ;;
  d <- lensed_round E min_img max_img plan.1 ;;
  lensed_param <- new_dict d ;;
  _ <- accumulate (lensed_round E min_img max_img batch_size) lensed_param
         (Z.to_nat plan.2) ;;
  _ <- modify (set_lensed_param (PyDict lensed_param)) ;;
  ret lensed_param.

(** The loop over the fields in the branch [none_as_nan != True]:
    [np.nan_to_num] is applied to the rows that are appended, not to those
    stored while nothing has been collected. *)
Definition collect_field_nan_to_num {R} (first : bool) (snr_hit : list bool)
    (param_final : gmap string ndarray) (field : string * ndarray)
  : M (state R) (gmap string ndarray) :=
  if first then
    v <- of_option IndexError (getmask snr_hit field.2) ;;
    ret (<[field.1 := v]> param_final)
  else
    old <- getitem param_final field.1 ;;
    v <- of_option IndexError (getmask snr_hit field.2) ;;
    new <- of_option ValueError
             (append old (amap (fun x => Fin (nan_to_num x)) v)) ;;
    ret (<[field.1 := new]> param_final).

(** The columns of the signals a lens type stands for: ['I'] the columns
    [0:2], ['II'] the columns [2:4], ['any'] all of them; no other type is
    known. *)
Definition lens_type_columns (lenstype : string)
  : option (option (nat * nat)) :=
  if decide (lenstype = "I") then Some (Some (0, 2)%nat)
  else if decide (lenstype = "II") then Some (Some (2, 4)%nat)
  else if decide (lenstype = "any") then Some None
  else None.

(** [while (n < size)] of
    [selecting_n_lensed_detectable_events_with_sampling]; an unknown lens
    type leaves the method with [None] from inside the loop. *)
Fixpoint lensed_sampling_loop {R}
    (items : gmap string ndarray -> list (string * ndarray))
    (E : collaborators R) (snr_threshold : list Q) (num_img : list nat)
    (none_as_nan : bool) (size : Z) (lenstype : string) (min_img max_img : Z)
    (fuel : nat) (n : nat) (param_final : gmap string ndarray)
  : M (state R) (option (gmap string ndarray)) :=
  if (Z.of_nat n <? size)%Z then
    match fuel with
    | O => fun _ => OutOfFuel
    | S fuel' =>
        batch_size <- gets batch_size ;;
        param <- lensed_cbc_statistics_images E batch_size min_img max_img ;;
        d <- read (PyDict param) ;;
        snr <- getitem d "opt_snr_net" ;;
        match lens_type_columns lenstype with
        | None => ret None
        | Some columns =>
            snr <- match columns with
                   | Some (a, b) => of_option IndexError (slice_columns a b snr)
                   | None => ret snr
                   end ;;
            snr_hit <- of_option IndexError
                         (hit_selection snr snr_threshold num_img) ;;
            param_final <-
              for_fields
                (if none_as_nan then collect_field (n =? 0)%nat snr_hit
                 else collect_field_nan_to_num (n =? 0)%nat snr_hit)
                param_final (items d) ;;
            snr_final <- getitem param_final "opt_snr_net" ;;
            lensed_sampling_loop items E snr_threshold num_img none_as_nan
              size lenstype min_img max_img fuel' (len snr_final) param_final
        end
    end
  else ret (Some param_final).

(** [selecting_n_lensed_detectable_events_with_sampling(snr_threshold,
    num_img, none_as_nan, size, lenstype, min_img, max_img)]; [None] is the
    value returned for an unknown lens type. *)
Definition selecting_n_lensed_detectable_events_with_sampling {R}
    (items : gmap string ndarray -> list (string * ndarray))
    (E : collaborators R) (fuel : nat) (snr_threshold : list Q)
    (num_img : list nat) (none_as_nan : bool) (size : Z) (lenstype : string)
    (min_img max_img : Z)
  : M (state R) (option (gmap string ndarray)) :=
  r <- lensed_sampling_loop items E snr_threshold num_img none_as_nan size
         lenstype min_img max_img fuel O ∅ ;;
  match r with
  | None => ret None
  | Some param_final =>
      let param_final := head_rows (Z.to_nat size) <$> param_final in
      _ <- getitem param_final "opt_snr_net" ;;
      ret (Some param_final)
  end.

End LeR.
(** * Definitions used in the statements *)

(** ** Row selection *)

(** The positions at which a mask holds, in increasing order, counted from
    [i]. *)
Fixpoint positions_from (i : nat) (mask : list bool) : list nat :=
  match mask with
  | [] => []
  | b :: mask' =>
      if b then i :: positions_from (S i) mask' else positions_from (S i) mask'
  end.

Definition positions (mask : list bool) : list nat := positions_from 0 mask.

(** The rows of an array at the positions [idx], in the order of [idx]. *)
Definition select_rows {A} (idx : list nat) (a : list A) : list A :=
  omap (fun i => a !! i) idx.

(** The acceptance rule of the redshift sampler in the words of the spec:
    candidate [z] with draw [u] is kept iff [u < tau z]. *)
Definition accepted (tau : Q -> Q) (zs u : list Q) : list Q :=
  (filter (fun zu => Np.Qltb zu.2 (tau zu.1) = true) (zip zs u)).*1.

(** The candidates and the draws of [k] successive rounds of the redshift
    sampler, from generator state [s], and the state after them. *)
Fixpoint rounds {R} (E : LensGalaxy.collaborators R) (size k : nat) (s : R)
  : list (list Q * list Q) * R :=
  match k with
  | O => ([], s)
  | S k' =>
      let (zs, s1) := LensGalaxy.sample_zs E size s in
      let (u, s2) :=
        LensGalaxy.uniform E 0
          (LensGalaxy.strong_lensing_optical_depth E (LensGalaxy.z_max E))
          (length zs) s1 in
      let (rs, s3) := rounds E size k' s2 in
      ((zs, u) :: rs, s3)
  end.

(** All values accepted in a list of rounds, in the order of acceptance. *)
Definition accepted_in (tau : Q -> Q) (rs : list (list Q * list Q)) : list Q :=
  concat (map (fun r => accepted tau r.1 r.2) rs).

(** The acceptance weights of the cross-section rule. *)
Definition cross_section {R} (E : LensGalaxy.collaborators R)
    (theta_E q : list Q) : list Q :=
  zip_with Qmult (map Np.sq theta_E) (map (LensGalaxy.phi_cut_SIE E) q).

(** Every field of a batch has [n] rows. *)
Definition batch_rows (n : nat) (d : gmap string (list Q)) : Prop :=
  map_Forall (fun _ v => length v = n) d.


(** [idx] lists, in increasing order, exactly the rows whose draw [u] is
    strictly below their weight [w]. *)
Definition accepted_rows (u w : list Q) (idx : list nat) : Prop :=
  StronglySorted Nat.lt idx /\
  forall i, i ∈ idx <->
    exists ui wi, u !! i = Some ui /\ w !! i = Some wi /\ ui < wi.

(** numpy's generator yields variates of [0, 1). *)
Definition unit_interval_generator {R} (E : LensGalaxy.collaborators R) : Prop :=
  forall s : R, 0 <= (LensGalaxy.random_sample E s).1 < 1.

(** The optical depth of [E] and its bound. *)
Definition tau {R} (E : LensGalaxy.collaborators R) : Q -> Q :=
  LensGalaxy.strong_lensing_optical_depth E.

(** Deterministic reading of "nonzero acceptance probability" for the
    redshift sampler: from every generator state some number of rounds
    accepts [size] candidates. *)
Definition quota_reachable {R} (E : LensGalaxy.collaborators R) (size : nat)
  : Prop :=
  forall s : R, exists k,
    (size <= length (accepted_in (tau E) (rounds E size k s).1))%nat.

(** What [sample_all_routine1] relies on from its collaborators: every
    sampler returns as many values as it is asked for, velocity dispersions,
    distances and the cut function are positive (so that every candidate has
    a positive lensing cross-section), and the source-parameter sampler
    returns [size] rows per field, the detector-frame masses among them. *)
Record honest {R} (E : LensGalaxy.collaborators R) : Prop := {
  honest_generator : unit_interval_generator E;
  honest_lens_redshift : forall zs s,
    length (LensGalaxy.sample_lens_redshift E zs s).1 = length zs;
  honest_velocity_dispersion : forall n zl s,
    exists sigma s',
      try_except (LensGalaxy.sample_velocity_dispersion E n None)
                 (LensGalaxy.sample_velocity_dispersion E n (Some zl)) s
      = Ok sigma s' /\
      length sigma = n /\ Forall (fun x => 0 < x) sigma;
  honest_axis_ratio : forall sigma s,
    length (LensGalaxy.sample_axis_ratio E sigma s).1 = length sigma;
  honest_distance : forall z, 0 < LensGalaxy.angular_diameter_distance E z;
  honest_distance_z1z2 : forall zl zs,
    0 < LensGalaxy.angular_diameter_distance_z1z2 E zl zs;
  honest_pi : 0 < LensGalaxy.np_pi E;
  honest_phi_cut : forall x, 0 < LensGalaxy.phi_cut_SIE E x;
  honest_norm_rvs : forall n scale s,
    length (LensGalaxy.norm_rvs E n scale s).1 = n;
  honest_random_normal : forall loc scale n s,
    length (LensGalaxy.random_normal E loc scale n s).1 = n;
  honest_gw_parameters : forall n param s,
    (forall p, param = Some p -> batch_rows n p) ->
    exists g s',
      LensGalaxy.sample_gw_parameters E n param s = Ok g s' /\
      batch_rows n g /\ is_Some (g !! "mass_1") /\ is_Some (g !! "mass_2")
}.

(** The five fields of the candidate batch of [sample_all_routine1]. *)
Definition five_keys : gset string :=
  {["zl"; "zs"; "sigma"; "q"; "theta_E"]}.

(** A batch with exactly the five candidate fields, of [n] rows each. *)
Definition five_fields (n : nat) (d : gmap string (list Q)) : Prop :=
  dom d = five_keys /\ batch_rows n d.

(** The lens fields of the record [sample_all_routine1] returns. *)
Definition lens_keys : gset string :=
  five_keys ∪ {["phi"; "e1"; "e2"; "gamma1"; "gamma2"; "gamma"]}.

(** The candidate batch [sample_all_routine1] builds before the rejection. *)
Definition candidate_batch (zl zs sigma q theta_E : list Q)
  : gmap string (list Q) :=
  <["zl" := zl]> (<["zs" := zs]> (<["sigma" := sigma]>
    (<["q" := q]> {["theta_E" := theta_E]}))).

(** The recursion of [sample_all_routine1] up to the point where the quota
    is met: it yields the local [zs] of the last call and the accumulated
    batch, which the tail [finish_routine1] then completes. *)
Fixpoint fill_quota {R} (E : LensGalaxy.collaborators R) (fuel : nat)
    (size : nat) (lens_parameters_input : gmap string (list Q))
  : M R (list Q * gmap string (list Q)) :=
  match fuel with
  | O => fun _ => OutOfFuel
  | S fuel' =>
      zp <- LensGalaxy.draw_routine1 E fuel size ;;
      lens_parameters <-
        of_option ValueError
          (LensGalaxy.add_dictionaries_together zp.2 lens_parameters_input) ;;
      zl <- getitem lens_parameters "zl" ;;
      if (length zl <? size)%nat
      then fill_quota E fuel' size lens_parameters
      else ret (zp.1, lens_parameters)
  end.

(** ** A concrete environment

    A deterministic stand-in for the collaborators, on which the model runs:
    the generator is the linear congruential generator [s -> 5 s + 3 mod 16],
    its variate in state [s] is [s / 16]. *)

Module Demo.

Definition random_sample (s : nat) : Q * nat :=
  (Z.of_nat (s mod 16) # 16, (5 * s + 3) mod 16)%nat.

Fixpoint random_samples (n : nat) (s : nat) : list Q * nat :=
  match n with
  | O => ([], s)
  | S n' =>
      let (x, s1) := random_sample s in
      let (xs, s2) := random_samples n' s1 in
      (x :: xs, s2)
  end.

(** Candidate redshifts spread over [0, 10) by the generator. *)
Definition sample_zs (n : nat) (s : nat) : list Q * nat :=
  let (xs, s') := random_samples n s in
  (map (fun x => 10 * x) xs, s').

(** Candidate redshifts all at [z_max]. *)
Definition sample_zs_at_z_max (n : nat) (s : nat) : list Q * nat :=
  (repeat 10 n, s).

Definition sample_velocity_dispersion (n : nat) (zl : option (list Q))
  : M nat (list Q) :=
  fun s =>
    let (xs, s') := random_samples n s in
    Ok (map (fun x => 100 + 200 * x) xs) s'.

(** The source-parameter sampler keeps the redshifts it is given and derives
    the luminosity distance from them. *)
Definition sample_gw_parameters (n : nat) (param : option (gmap string (list Q)))
  : M nat (gmap string (list Q)) :=
  fun s =>
    let zs := default (repeat 1 n) (param ≫= (.!! "zs")) in
    Ok (<["zs" := zs]>
         (<["luminosity_distance" := map (fun z => 1000 * z) zs]>
           (<["mass_1" := repeat 30 n]>
             (<["mass_2" := repeat 20 n]>
               (<["mass_1_source" := repeat 15 n]>
                 {["mass_2_source" := repeat 10 n]}))))) s.

Definition lens_with (zs_sampler : nat -> nat -> list Q * nat)
    (rule : LensGalaxy.strong_lensing_condition)
  : LensGalaxy.collaborators nat := {|
  LensGalaxy.z_max := 10;
  LensGalaxy.random_sample := random_sample;
  LensGalaxy.norm_rvs := fun n _ s => (repeat 0 n, s);
  LensGalaxy.random_normal := fun loc _ n s => (repeat loc n, s);
  LensGalaxy.sample_zs := zs_sampler;
  LensGalaxy.strong_lensing_optical_depth := fun z => z / 10;
  LensGalaxy.sample_lens_redshift := fun zs s => (map (fun z => z / 2) zs, s);
  LensGalaxy.sample_velocity_dispersion := sample_velocity_dispersion;
  LensGalaxy.sample_axis_ratio := fun sigma s => (map (fun _ => 1 # 2) sigma, s);
  LensGalaxy.angular_diameter_distance := fun _ => 1;
  LensGalaxy.angular_diameter_distance_z1z2 := fun _ _ => 1;
  LensGalaxy.np_pi := 355 # 113;
  LensGalaxy.phi_cut_SIE := fun _ => 1;
  LensGalaxy.phi_q2_ellipticity := fun _ _ => (0, 0);
  LensGalaxy.sample_gw_parameters := sample_gw_parameters;
  LensGalaxy.phi_min := 0;
  LensGalaxy.phi_max := 6;
  LensGalaxy.shear_scale := 5 # 100;
  LensGalaxy.gamma_mean := 2;
  LensGalaxy.gamma_std := 2 # 10;
  LensGalaxy.source_parameters_given := false;
  LensGalaxy.strong_lensing_condition_name := rule
|}.

Definition lens : LensGalaxy.collaborators nat :=
  lens_with sample_zs LensGalaxy.rjs_with_einstein_radius_name.

Definition lens_sure : LensGalaxy.collaborators nat :=
  lens_with sample_zs_at_z_max LensGalaxy.rjs_with_einstein_radius_name.

(** The collaborators of [lens] in a universe without lensing: the optical
    depth vanishes at every redshift. *)
Definition dark : LensGalaxy.collaborators nat := {|
  LensGalaxy.z_max := 10;
  LensGalaxy.random_sample := random_sample;
  LensGalaxy.norm_rvs := fun n _ s => (repeat 0 n, s);
  LensGalaxy.random_normal := fun loc _ n s => (repeat loc n, s);
  LensGalaxy.sample_zs := sample_zs;
  LensGalaxy.strong_lensing_optical_depth := fun _ => 0;
  LensGalaxy.sample_lens_redshift := fun zs s => (map (fun z => z / 2) zs, s);
  LensGalaxy.sample_velocity_dispersion := sample_velocity_dispersion;
  LensGalaxy.sample_axis_ratio := fun sigma s => (map (fun _ => 1 # 2) sigma, s);
  LensGalaxy.angular_diameter_distance := fun _ => 1;
  LensGalaxy.angular_diameter_distance_z1z2 := fun _ _ => 1;
  LensGalaxy.np_pi := 355 # 113;
  LensGalaxy.phi_cut_SIE := fun _ => 1;
  LensGalaxy.phi_q2_ellipticity := fun _ _ => (0, 0);
  LensGalaxy.sample_gw_parameters := sample_gw_parameters;
  LensGalaxy.phi_min := 0;
  LensGalaxy.phi_max := 6;
  LensGalaxy.shear_scale := 5 # 100;
  LensGalaxy.gamma_mean := 2;
  LensGalaxy.gamma_std := 2 # 10;
  LensGalaxy.source_parameters_given := false;
  LensGalaxy.strong_lensing_condition_name :=
    LensGalaxy.rjs_with_einstein_radius_name
|}.

(** A five-field batch of two rows without lensing cross-section. *)
Definition flat_batch : gmap string (list Q) :=
  <["zl" := [1 # 2; 1]]> (<["zs" := [1; 2]]> (<["sigma" := [0; 0]]>
    (<["q" := [1 # 2; 1 # 2]]> {["theta_E" := [0; 0]]}))).

(** A five-field batch of three rows. *)
Definition batch3 : gmap string (list Q) :=
  <["zl" := [1 # 2; 1; 2]]> (<["zs" := [1; 2; 4]]> (<["sigma" := [100; 200; 300]]>
    (<["q" := [1 # 2; 1 # 2; 1 # 2]]> {["theta_E" := [1; 2; 3]]}))).

(** A stand-in for [scipy.stats.norm.cdf]: a rational sigmoid, symmetric
    about zero. *)
Definition cdf (x : Q) : Q := (1 # 2) + x / (2 * (1 + Qabs x)).

(** The signal matrix of the spec's example: three systems, two images. *)
Definition signals : Arr.ndarray :=
  Arr.Arr2 2 [[Arr.Fin 10; Arr.Fin 7]; [Arr.Fin 9; Arr.Fin 2];
              [Arr.Fin 3; Arr.Fin 1]].

(** One system with a single image: the second column is missing. *)
Definition one_image : Arr.ndarray :=
  Arr.Arr2 2 [[Arr.Fin 9; Arr.NaN]].

End Demo.

(** ** A small survey *)

Module Survey.

Import Arr.

(** Collaborators that honour the requested size: every source at redshift
    one, every signal at nine, lensed systems with two images. *)
Definition sample_gw_parameters (n : Z) : M nat (gmap string ndarray) :=
  fun r => Ok {["zs" := Arr1 (repeat (Fin 1) (Z.to_nat n))]} (S r).

Definition rows (d : gmap string ndarray) : nat :=
  default O (len <$> d !! "zs").

Definition snr (d : gmap string ndarray) : M nat (gmap string ndarray) :=
  fun r => Ok {["opt_snr_net" := Arr1 (repeat (Fin 9) (rows d))]} r.

Definition sample_lens_parameters (n : Z) : M nat (gmap string ndarray) :=
  fun r =>
    Ok (<["zs" := Arr1 (repeat (Fin 1) (Z.to_nat n))]>
          {["weights" := Arr1 (repeat (Fin 1) (Z.to_nat n))]}) (S r).

Definition get_image_properties (n_min n_max : Z) (d : gmap string ndarray)
  : M nat (gmap string ndarray) :=
  fun r => Ok (<["n_images" := Arr1 (repeat (Fin 2) (rows d))]> d) r.

Definition get_lensed_snrs (d : gmap string ndarray) (n_max : Z)
  : M nat (gmap string ndarray) :=
  fun r => Ok {["opt_snr_net" := Arr2 2 (repeat [Fin 9; Fin 7] (rows d))]} r.

Definition ler : LeR.collaborators nat :=
  {| LeR.sample_gw_parameters := sample_gw_parameters;
     LeR.snr := snr;
     LeR.sample_lens_parameters := sample_lens_parameters;
     LeR.get_image_properties := get_image_properties;
     LeR.get_lensed_snrs := get_lensed_snrs;
     LeR.normalization_pdf_z := 2;
     LeR.normalization_pdf_z_lensed := 2;
     LeR.norm_cdf := Demo.cdf |}.

(** An image solver that finds no image for the first system of a batch and
    drops its row. *)
Definition tail_rows (a : ndarray) : ndarray :=
  match a with
  | Arr1 v => Arr1 (tail v)
  | Arr2 n rows => Arr2 n (tail rows)
  end.

Definition get_image_properties_lossy (n_min n_max : Z)
    (d : gmap string ndarray) : M nat (gmap string ndarray) :=
  fun r =>
    Ok (<["n_images" := Arr1 (repeat (Fin 2) (rows d - 1))]> (tail_rows <$> d))
       r.

Definition lossy : LeR.collaborators nat :=
  {| LeR.sample_gw_parameters := sample_gw_parameters;
     LeR.snr := snr;
     LeR.sample_lens_parameters := sample_lens_parameters;
     LeR.get_image_properties := get_image_properties_lossy;
     LeR.get_lensed_snrs := get_lensed_snrs;
     LeR.normalization_pdf_z := 2;
     LeR.normalization_pdf_z_lensed := 2;
     LeR.norm_cdf := Demo.cdf |}.

(** An instance on which nothing has been sampled, with the batch size [b]. *)
Definition initial (b : Z) : LeR.state nat :=
  LeR.mk_state O ∅ LeR.PyFalse LeR.PyFalse LeR.PyFalse LeR.PyFalse b 10 10 2 4.

(** Ten unlensed sources, three of them louder than eight. *)
Definition gw_population : gmap string ndarray :=
  <["zs" := Arr1 (repeat (Fin 1) 10)]>
    {["opt_snr_net" :=
        Arr1 (map Fin [12; 3; 9; 1; 2; 10; 4; 5; 6; 7])]}.

(** Three lensed systems with the signals of the spec's example. *)
Definition lensed_population : gmap string ndarray :=
  <["zs" := Arr1 (repeat (Fin 1) 3)]>
    (<["weights" := Arr1 (map Fin [1; 1 # 2; 1])]>
       {["opt_snr_net" := Demo.signals]}).

(** An instance with both populations sampled. *)
Definition sampled : LeR.state nat :=
  LeR.mk_state O (<[0%nat := gw_population]> {[1%nat := lensed_population]})
    (LeR.PyDict 0%nat) LeR.PyFalse (LeR.PyDict 1%nat) LeR.PyFalse 4 10 10 2 4.

End Survey.

(** ** Detection selection in the words of the spec *)

Module Selection.

Import Arr.

(** A SelectionSpec is a list of (threshold, required image count); it is
    sorted by descending threshold, requirements of one threshold keeping
    their order. *)
Fixpoint insert_requirement (r : Q * nat) (l : list (Q * nat)) : list (Q * nat) :=
  match l with
  | [] => [r]
  | r' :: l' =>
      if Qle_bool r'.1 r.1 then r :: l else r' :: insert_requirement r l'
  end.

Definition sort_requirements (reqs : list (Q * nat)) : list (Q * nat) :=
  foldr insert_requirement [] reqs.

(** The threshold each consumed column is held against: the hardest
    requirement takes the first columns. *)
Definition column_thresholds (reqs : list (Q * nat)) : list Q :=
  flat_map (fun r => repeat r.1 r.2) (sort_requirements reqs).

Definition required_images (reqs : list (Q * nat)) : nat :=
  length (column_thresholds reqs).

(** One system's signals in descending order, missing values last. *)
Definition fgeb (x y : fval) : bool :=
  match x, y with
  | Fin a, Fin b => Qle_bool b a
  | NaN, Fin _ => false
  | _, NaN => true
  end.

Fixpoint insert_descending (x : fval) (l : list fval) : list fval :=
  match l with
  | [] => [x]
  | y :: l' => if fgeb x y then x :: l else y :: insert_descending x l'
  end.

Definition sort_descending (row : list fval) : list fval :=
  foldr insert_descending [] row.

(** The consumed columns of a system, each with the threshold of the
    requirement that consumes it. *)
Definition consumed (reqs : list (Q * nat)) (row : list fval) : list (fval * Q) :=
  zip (sort_descending row) (column_thresholds reqs).

(** A system is hit when every consumed signal exceeds its threshold. *)
Definition hit (reqs : list (Q * nat)) (row : list fval) : bool :=
  forallb (fun st => fgtb st.1 st.2) (consumed reqs row).

(** The hit mask of a matrix of [ncols] columns; there is none when the
    requirements ask for more columns than the matrix has. *)
Definition hit_mask (ncols : nat) (rows : list (list fval))
    (reqs : list (Q * nat)) : option (list bool) :=
  if decide (required_images reqs <= ncols)%nat
  then Some (map (hit reqs) rows)
  else None.

(** The product of a list of factors, taken from the left. *)
Definition product (l : list Q) : Q := foldl Qmult 1 l.

(** The joint detection probability of a system: the product over the
    consumed columns of [Phi (signal - threshold)], a missing signal counting
    as [0]. *)
Definition joint_detection_probability (Phi : Q -> Q) (reqs : list (Q * nat))
    (row : list fval) : Q :=
  product (map (fun st => Phi (nan_to_num st.1 - st.2)) (consumed reqs row)).

(** The same product with the signal as it is: a missing signal makes the
    factor, and with it the product, a missing value. *)
Definition joint_detection_probability_as_stated (Phi : Q -> Q)
    (reqs : list (Q * nat)) (row : list fval) : fval :=
  foldl fmul (Fin 1)
    (map (fun st => flift1 Phi (fsub st.1 (Fin st.2))) (consumed reqs row)).

Definition joint_detection_probabilities (Phi : Q -> Q) (ncols : nat)
    (rows : list (list fval)) (reqs : list (Q * nat)) : option (list Q) :=
  if decide (required_images reqs <= ncols)%nat
  then Some (map (joint_detection_probability Phi reqs) rows)
  else None.

(** The body of the inner loop of [lensed_rate], lifted to a loop state that
    may have failed. *)
Definition step (cdf : Q -> Q) (sorted_snr : ndarray)
    (acc : option LeR.selection) (th : Q) : option LeR.selection :=
  acc ≫= LeR.consume_column cdf sorted_snr th.

(** The standard normal distribution function is symmetric about zero. *)
Definition symmetric_cdf (Phi : Q -> Q) : Prop :=
  (forall x y, x == y -> Phi x == Phi y) /\
  (forall x, Phi (- x) == 1 - Phi x).

End Selection.

(** ** The stored population *)

(** Every dict object of the store of [s] is in the store of [s'] with the
    same entries, and the two population attributes refer to the same
    objects. *)
Definition population_unchanged {R} (s s' : LeR.state R) : Prop :=
  LeR.store s ⊆ LeR.store s' /\
  LeR.gw_param s' = LeR.gw_param s /\
  LeR.lensed_param s' = LeR.lensed_param s.

(** [c0 * mean(x * weight)], the rate formula of the spec. *)
Definition rate_estimate (c0 : Q) (x weight : list Arr.fval) : Arr.fval :=
  Arr.fmul (Arr.Fin c0) (Arr.mean (zip_with Arr.fmul x weight)).

(** The arrays of the loop state have one entry per system. *)
Definition selection_rows (n : nat) (acc : LeR.selection) : Prop :=
  length (LeR.snr_hit acc) = n /\
  length (LeR.pdet_combined acc) = n /\
  forall p, LeR.pdet acc = Some p -> length p = n.

(** ** Batches of a fixed size *)

(** [ceil(n / b)] for a positive [b]. *)
Definition ceil_div (n b : Z) : Z := ((n + b - 1) / b)%Z.

(** The second dimension of an array, if it has one. *)
Definition shape (a : Arr.ndarray) : option nat :=
  match a with
  | Arr.Arr1 _ => None
  | Arr.Arr2 n _ => Some n
  end.

(** A batch of [n] rows with the fields of [schema]: the keys of [schema],
    each with an array of [n] rows and of the shape the schema gives. *)
Definition batch_of (schema : gmap string (option nat)) (n : nat)
    (d : gmap string Arr.ndarray) : Prop :=
  dom d = dom schema /\
  map_Forall (fun k a => Arr.len a = n /\ schema !! k = Some (shape a)) d.

(** The entry the loop over [param.items()] of the methods that select with
    sampling gives the field [key]: the selected rows while nothing has been
    collected, the rows collected so far followed by them (after [post])
    afterwards. *)
Definition collected (post : Arr.ndarray -> Arr.ndarray) (first : bool)
    (idx : list bool) (param_final : gmap string Arr.ndarray) (key : string)
    (value : Arr.ndarray) : option Arr.ndarray :=
  if first then Arr.getmask idx value
  else old ← param_final !! key; v ← Arr.getmask idx value;
       Arr.append old (post v).

(** Collaborators of the unlensed loop that honour the requested size. *)
Record sized_sources {R} (E : LeR.collaborators R)
    (gw snr : gmap string (option nat)) : Prop := {
  sized_gw : forall (n : Z) (r : R),
    (0 <= n)%Z ->
    exists d r', LeR.sample_gw_parameters E n r = Ok d r' /\
                 batch_of gw (Z.to_nat n) d;
  sized_snr : forall (n : nat) (d : gmap string Arr.ndarray) (r : R),
    batch_of gw n d ->
    exists d' r', LeR.snr E d r = Ok d' r' /\ batch_of snr n d'
}.

(** Collaborators of the lensed loop that honour the requested size; the
    image solver and the SNR calculator keep every row. *)
Record sized_lenses {R} (E : LeR.collaborators R)
    (lens img snr : gmap string (option nat)) : Prop := {
  sized_lens : forall (n : Z) (r : R),
    (0 <= n)%Z ->
    exists d r', LeR.sample_lens_parameters E n r = Ok d r' /\
                 batch_of lens (Z.to_nat n) d;
  sized_images : forall (n_min n_max : Z) (n : nat)
      (d : gmap string Arr.ndarray) (r : R),
    batch_of lens n d ->
    exists d' r', LeR.get_image_properties E n_min n_max d r = Ok d' r' /\
                  batch_of img n d';
  sized_lensed_snrs : forall (n_max : Z) (n : nat)
      (d : gmap string Arr.ndarray) (r : R),
    batch_of img n d ->
    exists d' r', LeR.get_lensed_snrs E d n_max r = Ok d' r' /\
                  batch_of snr n d'
}.

(** Collaborators of the lensed loop whose image solver may drop rows: of a
    batch of [n] rows it returns [m] rows with [keeps n m]; the sampler and
    the SNR calculator honour the sizes. *)
Record lossy_lenses {R} (keeps : nat -> nat -> Prop)
    (E : LeR.collaborators R) (lens img snr : gmap string (option nat))
  : Prop := {
  lossy_lens : forall (n : Z) (r : R),
    (0 <= n)%Z ->
    exists d r', LeR.sample_lens_parameters E n r = Ok d r' /\
                 batch_of lens (Z.to_nat n) d;
  lossy_images : forall (n_min n_max : Z) (n : nat)
      (d : gmap string Arr.ndarray) (r : R),
    batch_of lens n d ->
    exists d' r' m, LeR.get_image_properties E n_min n_max d r = Ok d' r' /\
                    batch_of img m d' /\ keeps n m;
  lossy_lensed_snrs : forall (n_max : Z) (n : nat)
      (d : gmap string Arr.ndarray) (r : R),
    batch_of img n d ->
    exists d' r', LeR.get_lensed_snrs E d n_max r = Ok d' r' /\
                  batch_of snr n d'
}.

(** A round that returns a batch of [b] rows with the fields of [schema] and
    touches the generator state only. *)
Definition sized_round {R} (round : M (LeR.state R) (gmap string Arr.ndarray))
    (schema : gmap string (option nat)) (b : nat) : Prop :=
  forall s, exists d r, round s = Ok d (LeR.set_rng r s) /\ batch_of schema b d.

(** ** Results of a run

    [wp c Q X s]: the run of [c] from [s] ends, with a result and a state
    that satisfy [Q] or with an exception and a state that satisfies [X]. *)
Definition wp {S A} (c : M S A) (Q : A -> S -> Prop) (X : S -> Prop) (s : S)
  : Prop :=
  match c s with
  | Ok a s' => Q a s'
  | Raise _ s' => X s'
  | OutOfFuel => False
  end.

(** [wpx c Q X s]: as [wp], with the exception in view. *)
Definition wpx {S A} (c : M S A) (Q : A -> S -> Prop) (X : exn -> S -> Prop)
    (s : S) : Prop :=
  match c s with
  | Ok a s' => Q a s'
  | Raise e s' => X e s'
  | OutOfFuel => False
  end.

(** A table of the compiled sampler: a distribution function tabulated in
    ascending order from [0] (or below) to [1] (or above), and as many
    velocity dispersions, in ascending order, between [lo] and [hi]. *)
Definition table_within (lo hi : Q) (t : list Q * list Q) : Prop :=
  length t.2 = length t.1 /\
  StronglySorted Qle t.1 /\
  (exists c0 c1, head t.1 = Some c0 /\ last t.1 = Some c1 /\ c0 <= 0 /\ 1 <= c1) /\
  StronglySorted Qle t.2 /\
  Forall (fun y => lo <= y <= hi) t.2.

(** * Properties of the samplers and of the rejection rules *)

(** ** Facts about the numpy layer *)

Lemma Qltb_lt (a b : Q) : Np.Qltb a b = true <-> a < b.
Proof.
  unfold Np.Qltb. rewrite Qlt_alt. destruct (a ?= b); split; congruence.
Qed.

Lemma Qltb_ge (a b : Q) : Np.Qltb a b = false <-> b <= a.
Proof.
  split; intros H.
  - apply Qnot_lt_le. intros Hlt. apply Qltb_lt in Hlt. congruence.
  - destruct (Np.Qltb a b) eqn:Hab; [|done].
    apply Qltb_lt in Hab. exfalso. by apply (Qlt_not_le a b).
Qed.

Lemma mask_select_nil_r {A} (mask : list bool) : Np.mask_select mask (@nil A) = [].
Proof. by destruct mask as [|[] ?]. Qed.

Lemma mask_select_length_le {A} (mask : list bool) (a : list A) :
  (length (Np.mask_select mask a) <= length a)%nat.
Proof.
  revert a. induction mask as [|b mask IH]; intros [|x a]; simpl; try lia.
  specialize (IH a). destruct b; simpl; lia.
Qed.

Lemma mask_select_positions_from {A} (mask : list bool) (pre a : list A) :
  length mask = length a ->
  Np.mask_select mask a = select_rows (positions_from (length pre) mask) (pre ++ a).
Proof.
  revert pre a. induction mask as [|b mask IH]; intros pre [|x a] Hlen;
    simpl in *; try done.
  apply Nat.succ_inj in Hlen.
  specialize (IH (pre ++ [x]) a Hlen).
  rewrite length_app, <- app_assoc in IH. simpl in IH.
  replace (length pre + 1)%nat with (S (length pre)) in IH by lia.
  destruct b; simpl; [|done].
  unfold select_rows at 1. simpl.
  rewrite lookup_app_r by lia. rewrite Nat.sub_diag. simpl.
  by f_equal.
Qed.

Lemma mask_select_positions {A} (mask : list bool) (a : list A) :
  length mask = length a ->
  Np.mask_select mask a = select_rows (positions mask) a.
Proof. intros H. by apply (mask_select_positions_from mask [] a). Qed.

Lemma elem_of_positions_from (i j : nat) (mask : list bool) :
  j ∈ positions_from i mask <-> (i <= j)%nat /\ mask !! (j - i)%nat = Some true.
Proof.
  revert i. induction mask as [|b mask IH]; intros i; simpl.
  - rewrite elem_of_nil. naive_solver.
  - assert (Hstep : j ∈ positions_from (S i) mask <->
              (i < j)%nat /\ (b :: mask) !! (j - i)%nat = Some true).
    { rewrite IH. split; intros [H1 H2]; (split; [lia|]).
      - replace (j - i)%nat with (S (j - S i)) by lia. done.
      - replace (j - i)%nat with (S (j - S i)) in H2 by lia. done. }
    destruct b.
    + rewrite elem_of_cons, Hstep. split.
      * intros [->|[H1 H2]]; [|split; [lia|done]].
        split; [lia|]. by rewrite Nat.sub_diag.
      * intros [H1 H2]. destruct (decide (j = i)) as [->|Hne]; [by left|].
        right. split; [lia|done].
    + rewrite Hstep. split; intros [H1 H2]; (split; [|done]); [lia|].
      destruct (decide (j = i)) as [->|Hne]; [|lia].
      rewrite Nat.sub_diag in H2. done.
Qed.

Lemma elem_of_positions (j : nat) (mask : list bool) :
  j ∈ positions mask <-> mask !! j = Some true.
Proof.
  unfold positions. rewrite elem_of_positions_from, Nat.sub_0_r.
  split; [tauto|]. intros H. split; [lia|done].
Qed.

Lemma positions_from_sorted (i : nat) (mask : list bool) :
  StronglySorted Nat.lt (positions_from i mask).
Proof.
  revert i. induction mask as [|b mask IH]; intros i; simpl; [constructor|].
  destruct b; [|apply IH].
  constructor; [apply IH|].
  apply Forall_forall. intros j Hj%elem_of_positions_from. unfold Nat.lt. lia.
Qed.

Lemma lt_lookup (u w : list Q) (i : nat) :
  Np.lt u w !! i = Some true <->
  exists ui wi, u !! i = Some ui /\ w !! i = Some wi /\ ui < wi.
Proof.
  unfold Np.lt. rewrite lookup_zip_with_Some. split.
  - intros (ui & wi & Hlt & Hu & Hw). symmetry in Hlt. apply Qltb_lt in Hlt.
    eauto.
  - intros (ui & wi & Hu & Hw & Hlt). exists ui, wi.
    apply Qltb_lt in Hlt. auto.
Qed.

Lemma max_spec (a : list Q) (m : Q) :
  Np.max a = Some m -> m ∈ a /\ Forall (fun x => x <= m) a.
Proof.
  destruct a as [|x a]; [done|]. simpl. intros [= <-].
  assert (Hgen : forall (l : list Q) (y : Q),
             (foldl Np.Qmaxb y l = y \/ foldl Np.Qmaxb y l ∈ l) /\
             y <= foldl Np.Qmaxb y l /\
             Forall (fun z => z <= foldl Np.Qmaxb y l) l).
  { induction l as [|z l IH]; intros y; simpl.
    - split; [by left|]. split; [apply Qle_refl|constructor].
    - destruct (IH (Np.Qmaxb y z)) as (Hin & Hle & Hall).
      assert (Hy : y <= Np.Qmaxb y z /\ z <= Np.Qmaxb y z /\
                   (Np.Qmaxb y z = y \/ Np.Qmaxb y z = z)).
      { unfold Np.Qmaxb. destruct (Np.Qltb y z) eqn:Hyz.
        - apply Qltb_lt in Hyz. split; [by apply Qlt_le_weak|].
          split; [apply Qle_refl|by right].
        - apply Qltb_ge in Hyz. split; [apply Qle_refl|]. split; [done|by left]. }
      destruct Hy as (Hy1 & Hy2 & Hy3). split; [|split].
      + destruct Hin as [Hin|Hin].
        * rewrite Hin. destruct Hy3 as [->| ->]; [by left|]. right. by left.
        * right. by right.
      + by apply Qle_trans with (Np.Qmaxb y z).
      + constructor; [|done]. by apply Qle_trans with (Np.Qmaxb y z). }
  destruct (Hgen a x) as (Hin & Hle & Hall). split.
  - destruct Hin as [-> |Hin]; [by left|by right].
  - by constructor.
Qed.

Lemma max_is_Some (a : list Q) : a <> [] -> is_Some (Np.max a).
Proof. destruct a; [done|]. intros _. by eexists. Qed.

Lemma dict_mask_Some (mask : list bool) (d : gmap string (list Q)) :
  map_Forall (fun _ v => length v = length mask) d ->
  Np.dict_mask mask d = Some (select_rows (positions mask) <$> d).
Proof.
  intros Hd. unfold Np.dict_mask. rewrite decide_True by done. f_equal.
  apply map_eq. intros k. rewrite !lookup_fmap.
  destruct (d !! k) as [v|] eqn:Hk; [|done]. simpl. f_equal.
  apply mask_select_positions. symmetry. by apply (Hd k).
Qed.

Section Generator.

Context {R : Type} (E : LensGalaxy.collaborators R).

Lemma random_samples_length (n : nat) (s : R) :
  length (LensGalaxy.random_samples E n s).1 = n.
Proof.
  revert s. induction n as [|n IH]; intros s; simpl; [done|].
  destruct (LensGalaxy.random_sample E s) as [x s1].
  specialize (IH s1). destruct (LensGalaxy.random_samples E n s1). simpl in *.
  by rewrite IH.
Qed.

Lemma random_samples_range (n : nat) (s : R) :
  unit_interval_generator E ->
  Forall (fun x => 0 <= x < 1) (LensGalaxy.random_samples E n s).1.
Proof.
  intros Hg. revert s. induction n as [|n IH]; intros s; simpl; [constructor|].
  specialize (Hg s). destruct (LensGalaxy.random_sample E s) as [x s1].
  specialize (IH s1). destruct (LensGalaxy.random_samples E n s1). simpl in *.
  by constructor.
Qed.

Lemma uniform_length (low high : Q) (n : nat) (s : R) :
  length (LensGalaxy.uniform E low high n s).1 = n.
Proof.
  unfold LensGalaxy.uniform.
  pose proof (random_samples_length n s) as H.
  destruct (LensGalaxy.random_samples E n s). simpl in *.
  by rewrite length_map.
Qed.

Lemma scale_uniform_range (high x : Q) :
  0 <= high -> 0 <= x < 1 ->
  0 <= LensGalaxy.scale_uniform 0 high x <= high.
Proof.
  intros Hh [Hx0 Hx1]. unfold LensGalaxy.scale_uniform.
  assert (Heq : 0 + (high - 0) * x == high * x) by ring.
  rewrite Heq. split.
  - by apply Qmult_le_0_compat.
  - apply Qle_trans with (high * 1).
    + rewrite (Qmult_comm high x), (Qmult_comm high 1).
      apply Qmult_le_compat_r; [by apply Qlt_le_weak|done].
    + rewrite Qmult_1_r. apply Qle_refl.
Qed.

Lemma scale_uniform_below (high x : Q) :
  0 < high -> 0 <= x < 1 -> LensGalaxy.scale_uniform 0 high x < high.
Proof.
  intros Hh [Hx0 Hx1]. unfold LensGalaxy.scale_uniform.
  assert (Heq : 0 + (high - 0) * x == high * x) by ring.
  rewrite Heq.
  apply Qlt_le_trans with (high * 1).
  - by apply Qmult_lt_l.
  - rewrite Qmult_1_r. apply Qle_refl.
Qed.

Lemma scale_uniform_zero (x : Q) : LensGalaxy.scale_uniform 0 0 x == 0.
Proof. unfold LensGalaxy.scale_uniform. ring. Qed.

Lemma uniform_range (high : Q) (n : nat) (s : R) :
  unit_interval_generator E -> 0 <= high ->
  Forall (fun x => 0 <= x <= high) (LensGalaxy.uniform E 0 high n s).1.
Proof.
  intros Hg Hh. unfold LensGalaxy.uniform.
  pose proof (random_samples_range n s Hg) as H.
  destruct (LensGalaxy.random_samples E n s) as [xs s']. simpl in *.
  apply Forall_map. eapply Forall_impl; [exact H|].
  intros x Hx. by apply scale_uniform_range.
Qed.

Lemma uniform_below (high : Q) (n : nat) (s : R) :
  unit_interval_generator E -> 0 < high ->
  Forall (fun x => x < high) (LensGalaxy.uniform E 0 high n s).1.
Proof.
  intros Hg Hh. unfold LensGalaxy.uniform.
  pose proof (random_samples_range n s Hg) as H.
  destruct (LensGalaxy.random_samples E n s) as [xs s']. simpl in *.
  apply Forall_map. eapply Forall_impl; [exact H|].
  intros x Hx. by apply scale_uniform_below.
Qed.

Lemma uniform_zero_width (n : nat) (s : R) :
  Forall (fun x => x == 0) (LensGalaxy.uniform E 0 0 n s).1.
Proof.
  unfold LensGalaxy.uniform.
  destruct (LensGalaxy.random_samples E n s) as [xs s']. simpl.
  apply Forall_map. apply Forall_forall. intros x _. apply scale_uniform_zero.
Qed.

End Generator.

(** ** The two geometric rejection rules *)

Lemma positions_nil (mask : list bool) :
  (forall i, mask !! i <> Some true) -> positions mask = [].
Proof.
  intros H. destruct (positions mask) as [|i l] eqn:Hp; [done|].
  exfalso. apply (H i). apply elem_of_positions. rewrite Hp. by left.
Qed.

Lemma select_rows_nil_fmap (d : gmap string (list Q)) :
  select_rows [] <$> d = (fun _ => []) <$> d.
Proof. done. Qed.

Lemma sq_nonneg (x : Q) : 0 <= Np.sq x.
Proof.
  unfold Np.sq. destruct (Qlt_le_dec x 0) as [Hneg|Hpos].
  - assert (Heq : x * x == (- x) * (- x)) by ring. rewrite Heq.
    assert (H0 : - 0 <= - x) by (apply Qopp_le_compat; by apply Qlt_le_weak).
    change (- 0) with 0 in H0.
    by apply Qmult_le_0_compat.
  - by apply Qmult_le_0_compat.
Qed.

Section RejectionRules.

Context {R : Type} (E : LensGalaxy.collaborators R).

Lemma rjs_with_einstein_radius_run (d : gmap string (list Q))
    (theta_E : list Q) (m : Q) (s : R) :
  d !! "theta_E" = Some theta_E ->
  Np.max theta_E = Some m ->
  batch_rows (length theta_E) d ->
  LensGalaxy.rjs_with_einstein_radius E d s =
  Ok (select_rows
        (positions (Np.lt (LensGalaxy.uniform E 0 (Np.sq m) (length theta_E) s).1
                          (map Np.sq theta_E))) <$> d)
     (LensGalaxy.uniform E 0 (Np.sq m) (length theta_E) s).2.
Proof.
  intros Hth Hmax Hrows.
  unfold LensGalaxy.rjs_with_einstein_radius, bind, getitem, of_option, call, ret.
  rewrite Hth. simpl. rewrite Hmax. simpl.
  pose proof (uniform_length E 0 (Np.sq m) (length theta_E) s) as Hlen.
  destruct (LensGalaxy.uniform E 0 (Np.sq m) (length theta_E) s) as [u s'].
  simpl in *. rewrite dict_mask_Some; [done|].
  intros k v Hk. rewrite (Hrows k v Hk). unfold Np.lt.
  rewrite length_zip_with, length_map, Hlen. lia.
Qed.

Lemma rjs_with_einstein_radius_empty (d : gmap string (list Q)) (s : R) :
  d !! "theta_E" = Some [] ->
  LensGalaxy.rjs_with_einstein_radius E d s = Raise ValueError s.
Proof.
  intros Hth.
  unfold LensGalaxy.rjs_with_einstein_radius, bind, getitem, of_option, raise, ret.
  by rewrite Hth.
Qed.

Lemma rjs_with_cross_section_run (d : gmap string (list Q))
    (theta_E q : list Q) (m : Q) (s : R) :
  d !! "theta_E" = Some theta_E ->
  d !! "q" = Some q ->
  Np.max (cross_section E theta_E q) = Some m ->
  batch_rows (length theta_E) d ->
  LensGalaxy.rjs_with_cross_section E d s =
  Ok (select_rows
        (positions (Np.lt (LensGalaxy.uniform E 0 m (length theta_E) s).1
                          (cross_section E theta_E q))) <$> d)
     (LensGalaxy.uniform E 0 m (length theta_E) s).2.
Proof.
  intros Hth Hq Hmax Hrows.
  pose proof (Hrows _ _ Hq) as Hlq. simpl in Hlq.
  unfold LensGalaxy.rjs_with_cross_section, bind, getitem, of_option, call, ret.
  rewrite Hth. simpl. rewrite Hq. simpl.
  rewrite decide_True by (by rewrite length_map).
  fold (cross_section E theta_E q). rewrite Hmax. simpl.
  pose proof (uniform_length E 0 m (length theta_E) s) as Hlen.
  destruct (LensGalaxy.uniform E 0 m (length theta_E) s) as [u s'].
  simpl in *. rewrite dict_mask_Some; [done|].
  intros k v Hk. rewrite (Hrows k v Hk). unfold Np.lt, cross_section.
  rewrite !length_zip_with, !length_map, Hlen, Hlq. lia.
Qed.

Lemma rjs_with_cross_section_empty (d : gmap string (list Q)) (q : list Q) (s : R) :
  d !! "theta_E" = Some [] ->
  d !! "q" = Some q ->
  LensGalaxy.rjs_with_cross_section E d s = Raise ValueError s.
Proof.
  intros Hth Hq.
  unfold LensGalaxy.rjs_with_cross_section, bind, getitem, of_option, raise, ret.
  rewrite Hth. simpl. rewrite Hq. simpl.
  case_decide as Hl; [|done].
  destruct q; [done|discriminate Hl].
Qed.

End RejectionRules.

Lemma positions_accepted_rows (u w : list Q) :
  accepted_rows u w (positions (Np.lt u w)).
Proof.
  split; [apply positions_from_sorted|].
  intros i. rewrite elem_of_positions. apply lt_lookup.
Qed.

Lemma cross_section_nonneg {R} (E : LensGalaxy.collaborators R)
    (theta_E q : list Q) :
  (forall x, 0 <= LensGalaxy.phi_cut_SIE E x) ->
  Forall (fun w => 0 <= w) (cross_section E theta_E q).
Proof.
  intros Hcut. unfold cross_section. apply Forall_forall.
  intros w Hw. apply list_elem_of_lookup in Hw as [i Hi].
  apply lookup_zip_with_Some in Hi as (a & b & -> & Ha & Hb).
  apply list_lookup_fmap_Some in Ha as (t & -> & _).
  apply list_lookup_fmap_Some in Hb as (x & -> & _).
  apply Qmult_le_0_compat; [apply sq_nonneg|apply Hcut].
Qed.

(** C6. Geometric rejection rules: on a non-empty batch the Einstein-radius
    rule draws one uniform number per row on [0, max(theta_E)^2] and keeps
    row [i] iff its draw is strictly below [theta_E[i]^2]; the cross-section
    rule does the same with the weights [theta_E[i]^2 * phi_cut(q[i])] and
    their maximum; either rule returns every field of the batch reduced to
    the same kept rows, in their order. *)
Theorem rejection_rules_filter_by_weight {R} (E : LensGalaxy.collaborators R)
    (d : gmap string (list Q)) (theta_E q : list Q) (s : R) :
  unit_interval_generator E ->
  (forall x, 0 <= LensGalaxy.phi_cut_SIE E x) ->
  d !! "theta_E" = Some theta_E ->
  d !! "q" = Some q ->
  theta_E <> [] ->
  batch_rows (length theta_E) d ->
  (exists m idx,
      m ∈ theta_E /\ Forall (fun t => t <= m) theta_E /\
      let us := LensGalaxy.uniform E 0 (Np.sq m) (length theta_E) s in
      length us.1 = length theta_E /\
      Forall (fun x => 0 <= x <= Np.sq m) us.1 /\
      accepted_rows us.1 (map Np.sq theta_E) idx /\
      LensGalaxy.rjs_with_einstein_radius E d s
      = Ok (select_rows idx <$> d) us.2) /\
  (exists m idx,
      m ∈ cross_section E theta_E q /\
      Forall (fun w => w <= m) (cross_section E theta_E q) /\
      let us := LensGalaxy.uniform E 0 m (length theta_E) s in
      length us.1 = length theta_E /\
      Forall (fun x => 0 <= x <= m) us.1 /\
      accepted_rows us.1 (cross_section E theta_E q) idx /\
      LensGalaxy.rjs_with_cross_section E d s
      = Ok (select_rows idx <$> d) us.2).
Proof.
  intros Hg Hcut Hth Hq Hne Hrows. split.
  - destruct (max_is_Some theta_E Hne) as [m Hm].
    destruct (max_spec _ _ Hm) as [Hin Hall].
    exists m, (positions (Np.lt (LensGalaxy.uniform E 0 (Np.sq m) (length theta_E) s).1
                                (map Np.sq theta_E))).
    split; [done|]. split; [done|]. simpl.
    split; [apply uniform_length|].
    split; [apply uniform_range; [done|apply sq_nonneg]|].
    split; [apply positions_accepted_rows|].
    by apply rjs_with_einstein_radius_run.
  - pose proof (Hrows _ _ Hq) as Hlq. simpl in Hlq.
    assert (Hne' : cross_section E theta_E q <> []).
    { intros Hnil. apply (f_equal length) in Hnil. unfold cross_section in Hnil.
      rewrite length_zip_with, !length_map, Hlq in Hnil.
      destruct theta_E; [done|simpl in Hnil; lia]. }
    destruct (max_is_Some _ Hne') as [m Hm].
    destruct (max_spec _ _ Hm) as [Hin Hall].
    exists m, (positions (Np.lt (LensGalaxy.uniform E 0 m (length theta_E) s).1
                                (cross_section E theta_E q))).
    split; [done|]. split; [done|]. simpl.
    split; [apply uniform_length|].
    split.
    { apply uniform_range; [done|].
      pose proof (cross_section_nonneg E theta_E q Hcut) as Hnn.
      rewrite Forall_forall in Hnn. by apply Hnn. }
    split; [apply positions_accepted_rows|].
    by apply rjs_with_cross_section_run.
Qed.

(** *** The concrete environment satisfies the assumptions on the generator *)

Lemma demo_unit_interval (zs_sampler : nat -> nat -> list Q * nat)
    (rule : LensGalaxy.strong_lensing_condition) :
  unit_interval_generator (Demo.lens_with zs_sampler rule).
Proof.
  intros s. simpl. pose proof (Nat.mod_upper_bound s 16) as Hs.
  split; [unfold Qle|unfold Qlt]; simpl; lia.
Qed.

Lemma demo_batch3_rows : batch_rows 3 Demo.batch3.
Proof. unfold batch_rows. refine (bool_decide_unpack _ _). by vm_compute. Qed.

Lemma rejection_rules_filter_by_weight_witness :
  unit_interval_generator Demo.lens /\
  batch_rows 3 Demo.batch3 /\
  exists idx,
    LensGalaxy.rjs_with_einstein_radius Demo.lens Demo.batch3 1%nat
    = Ok (select_rows idx <$> Demo.batch3) 10%nat.
Proof.
  split; [apply demo_unit_interval|]. split; [apply demo_batch3_rows|].
  destruct (rejection_rules_filter_by_weight Demo.lens Demo.batch3
              [1; 2; 3] [1 # 2; 1 # 2; 1 # 2] 1%nat)
    as [(m & idx & _ & _ & _ & _ & _ & Hrun) _].
  - apply demo_unit_interval.
  - intros x. simpl. by unfold Qle.
  - reflexivity.
  - reflexivity.
  - discriminate.
  - apply demo_batch3_rows.
  - exists idx. exact Hrun.
Defined.

(** ** Degenerate batches *)

Lemma all_rejected (u w : list Q) :
  Forall (fun x => x == 0) u ->
  Forall (fun x => x <= 0) w ->
  positions (Np.lt u w) = [].
Proof.
  intros Hu Hw. apply positions_nil. intros i Hi.
  apply lt_lookup in Hi as (ui & wi & Hui & Hwi & Hlt).
  rewrite Forall_forall in Hu, Hw.
  assert (Hu0 : ui == 0) by (apply Hu; by eapply list_elem_of_lookup_2).
  assert (Hw0 : wi <= 0) by (apply Hw; by eapply list_elem_of_lookup_2).
  rewrite Hu0 in Hlt. by apply (Qlt_not_le 0 wi).
Qed.

Lemma uniform_state {R} (E : LensGalaxy.collaborators R) (low high : Q)
    (n : nat) (s : R) :
  (LensGalaxy.uniform E low high n s).2 = (LensGalaxy.random_samples E n s).2.
Proof.
  unfold LensGalaxy.uniform. by destruct (LensGalaxy.random_samples E n s).
Qed.

Lemma uniform_zero_width_eq {R} (E : LensGalaxy.collaborators R) (high : Q)
    (n : nat) (s : R) :
  high == 0 ->
  Forall (fun x => x == 0) (LensGalaxy.uniform E 0 high n s).1.
Proof.
  intros Hh. unfold LensGalaxy.uniform.
  destruct (LensGalaxy.random_samples E n s) as [xs s']. simpl.
  apply Forall_map. apply Forall_forall. intros x _.
  unfold LensGalaxy.scale_uniform. rewrite Hh. ring.
Qed.

Lemma sq_zero_inv (x : Q) : Np.sq x <= 0 -> x == 0.
Proof.
  unfold Np.sq. intros H.
  assert (Hx : x * x == 0) by (apply Qle_antisym; [done|apply (sq_nonneg x)]).
  apply Qmult_integral in Hx. tauto.
Qed.

(** C9 (as amended). Degenerate batches.  An empty candidate batch makes
    either rejection rule raise [ValueError] at the maximum, before any draw
    (the generator state is untouched).  A non-empty batch whose maximum
    weight is zero is not reported: the uniform draw of width zero is made,
    every row is rejected, and the rule returns the batch with no rows. *)
Theorem degenerate_batch_handling {R} (E : LensGalaxy.collaborators R)
    (d : gmap string (list Q)) (theta_E q : list Q) (s : R) :
  d !! "theta_E" = Some theta_E ->
  d !! "q" = Some q ->
  batch_rows (length theta_E) d ->
  (theta_E = [] ->
     LensGalaxy.rjs_with_einstein_radius E d s = Raise ValueError s /\
     LensGalaxy.rjs_with_cross_section E d s = Raise ValueError s) /\
  (forall m, Np.max (map Np.sq theta_E) = Some m -> m == 0 ->
     LensGalaxy.rjs_with_einstein_radius E d s
     = Ok ((fun _ => []) <$> d)
          (LensGalaxy.random_samples E (length theta_E) s).2) /\
  (forall m, Np.max (cross_section E theta_E q) = Some m -> m == 0 ->
     LensGalaxy.rjs_with_cross_section E d s
     = Ok ((fun _ => []) <$> d)
          (LensGalaxy.random_samples E (length theta_E) s).2).
Proof.
  intros Hth Hq Hrows. split; [|split].
  - intros ->. split.
    + by apply rjs_with_einstein_radius_empty.
    + by apply rjs_with_cross_section_empty with q.
  - intros m Hm Hm0.
    destruct (max_spec _ _ Hm) as [_ Hall].
    assert (Hzero : Forall (fun t => t == 0) theta_E).
    { apply Forall_forall. intros t Ht. apply sq_zero_inv.
      rewrite Forall_forall in Hall. rewrite <- Hm0. apply Hall.
      by apply (list_elem_of_fmap_2 Np.sq). }
    assert (Hne : theta_E <> []) by (by intros ->).
    destruct (max_is_Some _ Hne) as [m' Hm'].
    destruct (max_spec _ _ Hm') as [Hin' _].
    assert (Hm'0 : Np.sq m' == 0).
    { rewrite Forall_forall in Hzero. unfold Np.sq.
      rewrite (Hzero m' Hin'). ring. }
    rewrite (rjs_with_einstein_radius_run E d theta_E m' s Hth Hm' Hrows).
    rewrite uniform_state, all_rejected; [done| |].
    + by apply uniform_zero_width_eq.
    + apply Forall_forall. intros w Hw.
      apply list_elem_of_fmap in Hw as (t & -> & Ht).
      rewrite Forall_forall in Hzero. unfold Np.sq.
      rewrite (Hzero t Ht). by unfold Qle.
  - intros m Hm Hm0.
    destruct (max_spec _ _ Hm) as [_ Hall].
    rewrite (rjs_with_cross_section_run E d theta_E q m s Hth Hq Hm Hrows).
    rewrite uniform_state, all_rejected; [done| |].
    + by apply uniform_zero_width_eq.
    + eapply Forall_impl; [exact Hall|]. intros w Hw. simpl in Hw.
      by rewrite <- Hm0.
Qed.

Lemma demo_flat_batch_rows : batch_rows 2 Demo.flat_batch.
Proof. unfold batch_rows. refine (bool_decide_unpack _ _). by vm_compute. Qed.

Lemma degenerate_batch_handling_witness :
  batch_rows 2 Demo.flat_batch /\
  LensGalaxy.rjs_with_einstein_radius Demo.lens Demo.flat_batch 1%nat
  = Ok ((fun _ => []) <$> Demo.flat_batch) 11%nat.
Proof.
  split; [apply demo_flat_batch_rows|].
  destruct (degenerate_batch_handling Demo.lens Demo.flat_batch
              [0; 0] [1 # 2; 1 # 2] 1%nat)
    as (_ & Hzero & _).
  - reflexivity.
  - reflexivity.
  - apply demo_flat_batch_rows.
  - apply (Hzero 0); reflexivity.
Defined.

(** C9, as stated, does not hold: on the two-row batch whose Einstein radii
    are all zero the rule reports nothing and returns an empty batch. *)
Lemma zero_weight_batch_is_not_reported :
  LensGalaxy.rjs_with_einstein_radius Demo.lens Demo.flat_batch 1%nat
  = Ok ((fun _ => []) <$> Demo.flat_batch) 11%nat.
Proof. by vm_compute. Qed.

(** ** The redshift sampler *)

Lemma mask_select_accepted (tau : Q -> Q) (zs u : list Q) :
  length u = length zs ->
  Np.mask_select (Np.lt u (map tau zs)) zs = accepted tau zs u.
Proof.
  revert u. induction zs as [|z zs IH]; intros [|x u] Hlen; try done.
  simpl in Hlen. apply Nat.succ_inj in Hlen.
  unfold accepted. simpl. rewrite filter_cons. simpl.
  specialize (IH u Hlen). unfold accepted in IH.
  destruct (Np.Qltb x (tau z)) eqn:Hx.
  - rewrite decide_True by done. simpl. by f_equal.
  - rewrite decide_False by congruence. done.
Qed.

Section RedshiftSampler.

Context {R : Type} (E : LensGalaxy.collaborators R) (size : nat).

Let tau : Q -> Q := LensGalaxy.strong_lensing_optical_depth E.
Let tau_max : Q := tau (LensGalaxy.z_max E).

Lemma rounds_S (k : nat) (s : R) :
  rounds E size (S k) s =
  let zs := (LensGalaxy.sample_zs E size s).1 in
  let s1 := (LensGalaxy.sample_zs E size s).2 in
  let u := (LensGalaxy.uniform E 0 tau_max (length zs) s1).1 in
  let s2 := (LensGalaxy.uniform E 0 tau_max (length zs) s1).2 in
  ((zs, u) :: (rounds E size k s2).1, (rounds E size k s2).2).
Proof.
  simpl. destruct (LensGalaxy.sample_zs E size s) as [zs s1]. simpl.
  fold tau. fold tau_max.
  destruct (LensGalaxy.uniform E 0 tau_max (length zs) s1) as [u s2]. simpl.
  by destruct (rounds E size k s2).
Qed.

Lemma zs_function_S (fuel : nat) (acc : list Q) (s : R) :
  LensGalaxy.zs_function E size (S fuel) acc s =
  let zs := (LensGalaxy.sample_zs E size s).1 in
  let s1 := (LensGalaxy.sample_zs E size s).2 in
  let u := (LensGalaxy.uniform E 0 tau_max (length zs) s1).1 in
  let s2 := (LensGalaxy.uniform E 0 tau_max (length zs) s1).2 in
  let acc' := acc ++ accepted tau zs u in
  if (size <=? length acc')%nat
  then Ok (take size acc') s2
  else LensGalaxy.zs_function E size fuel acc' s2.
Proof.
  simpl. unfold bind, call, ret.
  destruct (LensGalaxy.sample_zs E size s) as [zs s1]. simpl.
  fold tau. fold tau_max.
  pose proof (uniform_length E 0 tau_max (length zs) s1) as Hlen.
  destruct (LensGalaxy.uniform E 0 tau_max (length zs) s1) as [u s2].
  simpl in *. rewrite (mask_select_accepted tau zs u Hlen).
  by destruct (size <=? length (acc ++ accepted tau zs u))%nat.
Qed.

Lemma accepted_in_cons (r : list Q * list Q) (rs : list (list Q * list Q)) :
  accepted_in tau (r :: rs) = accepted tau r.1 r.2 ++ accepted_in tau rs.
Proof. done. Qed.

Lemma rounds_length (k : nat) (s : R) : length (rounds E size k s).1 = k.
Proof.
  revert s. induction k as [|k IH]; intros s; [done|].
  rewrite rounds_S. simpl. by rewrite IH.
Qed.

Lemma rounds_take (j k : nat) (s : R) :
  (j <= k)%nat -> take j (rounds E size k s).1 = (rounds E size j s).1.
Proof.
  revert k s. induction j as [|j IH]; intros k s Hjk.
  - by rewrite take_0.
  - destruct k as [|k]; [lia|]. rewrite !rounds_S. simpl. f_equal.
    apply IH. lia.
Qed.

(** The run of [zs_function] from an accumulator [acc], when round [S k] is
    the first after which the quota is met. *)
Lemma zs_function_rounds (k : nat) :
  forall (fuel : nat) (acc : list Q) (s : R),
    (S k <= fuel)%nat ->
    (size <= length (acc ++ accepted_in tau (rounds E size (S k) s).1))%nat ->
    (forall j, (1 <= j <= k)%nat ->
       (length (acc ++ accepted_in tau (rounds E size j s).1) < size)%nat) ->
    LensGalaxy.zs_function E size fuel acc s
    = Ok (take size (acc ++ accepted_in tau (rounds E size (S k) s).1))
         (rounds E size (S k) s).2.
Proof.
  induction k as [|k IH]; intros fuel acc s Hfuel Hreach Hnot;
    (destruct fuel as [|fuel]; [lia|]); rewrite zs_function_S; cbv zeta;
    rewrite rounds_S in Hreach |- *; cbv zeta in Hreach |- *;
    simpl fst in *; simpl snd in *; rewrite accepted_in_cons in Hreach |- *;
    simpl fst in *; simpl snd in *.
  - change (accepted_in tau []) with (@nil Q) in *.
    rewrite app_nil_r in *.
    by rewrite (proj2 (Nat.leb_le _ _) Hreach).
  - assert (Hfirst : (size <=? length (acc ++ accepted tau
               (LensGalaxy.sample_zs E size s).1
               (LensGalaxy.uniform E 0 tau_max
                  (length (LensGalaxy.sample_zs E size s).1)
                  (LensGalaxy.sample_zs E size s).2).1))%nat = false).
    { apply Nat.leb_gt. specialize (Hnot 1%nat ltac:(lia)).
      rewrite rounds_S in Hnot. cbv zeta in Hnot. simpl in Hnot.
      rewrite accepted_in_cons in Hnot. simpl in Hnot.
      change (accepted_in tau []) with (@nil Q) in Hnot.
      by rewrite app_nil_r in Hnot. }
    rewrite Hfirst. rewrite app_assoc in Hreach |- *.
    apply IH; [lia|done|].
    intros j Hj. specialize (Hnot (S j) ltac:(lia)).
    rewrite rounds_S in Hnot. cbv zeta in Hnot. simpl in Hnot.
    rewrite accepted_in_cons in Hnot. simpl in Hnot.
    by rewrite <- app_assoc.
Qed.

Lemma rounds_accepted_mono (j k : nat) (s : R) :
  (j <= k)%nat ->
  (length (accepted_in tau (rounds E size j s).1)
   <= length (accepted_in tau (rounds E size k s).1))%nat.
Proof.
  intros Hjk. rewrite <- (rounds_take j k s Hjk).
  rewrite <- (take_drop j (rounds E size k s).1) at 2.
  unfold accepted_in. rewrite map_app, concat_app, length_app. lia.
Qed.

(** The first round after which the quota is met. *)
Lemma first_round_reaching (s : R) (k : nat) :
  (size <= length (accepted_in tau (rounds E size k s).1))%nat ->
  exists k0,
    (size <= length (accepted_in tau (rounds E size (S k0) s).1))%nat /\
    forall j, (1 <= j <= k0)%nat ->
      (length (accepted_in tau (rounds E size j s).1) < size)%nat.
Proof.
  induction k as [|k IH]; intros Hk.
  - exists 0%nat. split; [|intros j Hj; lia].
    simpl in Hk. lia.
  - destruct (decide (size <= length (accepted_in tau (rounds E size k s).1))%nat)
      as [Hle|Hgt]; [by apply IH|].
    destruct k as [|k].
    + exists 0%nat. split; [done|intros j Hj; lia].
    + exists (S k). split; [done|].
      intros j Hj.
      pose proof (rounds_accepted_mono j (S k) s ltac:(lia)). lia.
Qed.

(** With enough fuel the redshift sampler returns, and returns exactly
    [size] values, as soon as some number of rounds accepts [size] values. *)
Lemma strongly_lensed_source_redshifts_exact (s : R) (k : nat) :
  (size <= length (accepted_in tau (rounds E size k s).1))%nat ->
  exists fuel0 zs s',
    length zs = size /\
    forall fuel, (fuel0 <= fuel)%nat ->
      LensGalaxy.strongly_lensed_source_redshifts E fuel size s = Ok zs s'.
Proof.
  intros Hk. destruct (first_round_reaching s k Hk) as (k0 & Hreach & Hnot).
  exists (S k0), (take size (accepted_in tau (rounds E size (S k0) s).1)),
    (rounds E size (S k0) s).2.
  split; [rewrite length_take; lia|].
  intros fuel Hfuel. unfold LensGalaxy.strongly_lensed_source_redshifts.
  by apply (zs_function_rounds k0 fuel [] s).
Qed.

End RedshiftSampler.

Lemma rounds_draws {R} (E : LensGalaxy.collaborators R) (size k : nat) (s : R) :
  unit_interval_generator E ->
  (forall a b, a <= b ->
     LensGalaxy.strong_lensing_optical_depth E a
     <= LensGalaxy.strong_lensing_optical_depth E b) ->
  0 < LensGalaxy.strong_lensing_optical_depth E (LensGalaxy.z_max E) ->
  (forall n s0, Forall (fun z => z <= LensGalaxy.z_max E)
                  (LensGalaxy.sample_zs E n s0).1) ->
  Forall (fun r =>
            length r.2 = length r.1 /\
            Forall (fun z => LensGalaxy.strong_lensing_optical_depth E z
                             <= LensGalaxy.strong_lensing_optical_depth E
                                  (LensGalaxy.z_max E)) r.1 /\
            Forall (fun u => 0 <= u
                             < LensGalaxy.strong_lensing_optical_depth E
                                 (LensGalaxy.z_max E)) r.2)
         (rounds E size k s).1.
Proof.
  intros Hg Hmono Hpos Hsupp. revert s.
  induction k as [|k IH]; intros s; [constructor|].
  rewrite rounds_S. cbv zeta. simpl. constructor; [|apply IH]. simpl.
  split; [apply uniform_length|]. split.
  - eapply Forall_impl; [apply Hsupp|]. intros z Hz. by apply Hmono.
  - pose proof (uniform_range E _ (length (LensGalaxy.sample_zs E size s).1)
                  (LensGalaxy.sample_zs E size s).2 Hg (Qlt_le_weak _ _ Hpos)) as H1.
    pose proof (uniform_below E _ (length (LensGalaxy.sample_zs E size s).1)
                  (LensGalaxy.sample_zs E size s).2 Hg Hpos) as H2.
    rewrite Forall_forall in H1, H2. apply Forall_forall. intros u Hu.
    split; [by apply H1|by apply H2].
Qed.

(** C5. Optical-depth rejection: in every round the redshift sampler draws
    one uniform number per candidate on [0, tau(z_max)) and keeps candidate
    [z_i] iff [u_i < tau(z_i)]; the kept values are appended in the order of
    acceptance; the sampler stops after the first round [k] at which the
    accumulated count reaches [size] and returns the first [size] accepted
    values.  With [tau] monotone and the candidates below [z_max],
    [tau(z_max)] bounds [tau] on every candidate. *)
Theorem strongly_lensed_redshifts_by_optical_depth {R}
    (E : LensGalaxy.collaborators R) (size k fuel : nat) (s : R) :
  unit_interval_generator E ->
  (forall a b, a <= b ->
     LensGalaxy.strong_lensing_optical_depth E a
     <= LensGalaxy.strong_lensing_optical_depth E b) ->
  0 < LensGalaxy.strong_lensing_optical_depth E (LensGalaxy.z_max E) ->
  (forall n s0, Forall (fun z => z <= LensGalaxy.z_max E)
                  (LensGalaxy.sample_zs E n s0).1) ->
  (1 <= k <= fuel)%nat ->
  (size <= length (accepted_in (LensGalaxy.strong_lensing_optical_depth E)
                     (rounds E size k s).1))%nat ->
  (forall j, (1 <= j < k)%nat ->
     (length (accepted_in (LensGalaxy.strong_lensing_optical_depth E)
                (rounds E size j s).1) < size)%nat) ->
  LensGalaxy.strongly_lensed_source_redshifts E fuel size s
  = Ok (take size (accepted_in (LensGalaxy.strong_lensing_optical_depth E)
                     (rounds E size k s).1))
       (rounds E size k s).2 /\
  Forall (fun r =>
            length r.2 = length r.1 /\
            Forall (fun z => LensGalaxy.strong_lensing_optical_depth E z
                             <= LensGalaxy.strong_lensing_optical_depth E
                                  (LensGalaxy.z_max E)) r.1 /\
            Forall (fun u => 0 <= u
                             < LensGalaxy.strong_lensing_optical_depth E
                                 (LensGalaxy.z_max E)) r.2)
         (rounds E size k s).1.
Proof.
  intros Hg Hmono Hpos Hsupp [Hk1 Hk2] Hreach Hnot.
  split; [|by apply rounds_draws].
  destruct k as [|k]; [lia|].
  unfold LensGalaxy.strongly_lensed_source_redshifts.
  apply (zs_function_rounds E size k fuel [] s); [lia|done|].
  intros j Hj. apply Hnot. lia.
Qed.

Lemma demo_random_samples_range (n s : nat) :
  Forall (fun x => 0 <= x < 1) (Demo.random_samples n s).1.
Proof.
  revert s. induction n as [|n IH]; intros s; [constructor|].
  change (Demo.random_samples (S n) s)
    with (let (x, s1) := Demo.random_sample s in
          let (xs, s2) := Demo.random_samples n s1 in (x :: xs, s2)).
  unfold Demo.random_sample.
  specialize (IH ((5 * s + 3) mod 16)%nat).
  destruct (Demo.random_samples n ((5 * s + 3) mod 16)%nat) as [xs s'].
  cbn [fst] in *. constructor; [|done].
  pose proof (Nat.mod_upper_bound s 16) as Hs.
  split; [unfold Qle|unfold Qlt]; cbn [Qnum Qden]; lia.
Qed.

Lemma demo_sample_zs_support (n s : nat) :
  Forall (fun z => z <= 10) (Demo.sample_zs n s).1.
Proof.
  unfold Demo.sample_zs. pose proof (demo_random_samples_range n s) as H.
  destruct (Demo.random_samples n s) as [xs s']. simpl in *.
  apply Forall_map. eapply Forall_impl; [exact H|].
  intros x [Hx0 Hx1]. simpl.
  apply Qle_trans with (10 * 1); [|by unfold Qle].
  rewrite (Qmult_comm 10 x), (Qmult_comm 10 1).
  apply Qmult_le_compat_r; [by apply Qlt_le_weak|by unfold Qle].
Qed.

Lemma demo_tau_monotone (a b : Q) : a <= b -> a / 10 <= b / 10.
Proof.
  intros Hab. unfold Qdiv. apply Qmult_le_compat_r; [done|by unfold Qle].
Qed.

Lemma strongly_lensed_redshifts_by_optical_depth_witness :
  unit_interval_generator Demo.lens /\
  (3 <= length (accepted_in (fun z : Q => (z / 10)%Q) (rounds Demo.lens 3 3 0%nat).1))%nat /\
  LensGalaxy.strongly_lensed_source_redshifts Demo.lens 5 3 0%nat
  = Ok [80 # 16; 120 # 16; 150 # 16] 2%nat.
Proof.
  split; [apply demo_unit_interval|].
  split; [vm_compute; lia|].
  destruct (strongly_lensed_redshifts_by_optical_depth Demo.lens 3 3 5 0%nat)
    as [Hrun _].
  - apply demo_unit_interval.
  - apply demo_tau_monotone.
  - reflexivity.
  - apply demo_sample_zs_support.
  - lia.
  - vm_compute. lia.
  - intros j Hj.
    assert (Hcases : j = 1%nat \/ j = 2%nat) by lia.
    destruct Hcases as [-> | ->]; vm_compute; lia.
  - rewrite Hrun. by vm_compute.
Defined.

(** ** The composite pipeline [sample_all_routine1] *)

Lemma sample_all_routine1_fill_quota {R} (E : LensGalaxy.collaborators R)
    (fuel size : nat) (input : gmap string (list Q)) (s : R) :
  LensGalaxy.sample_all_routine1 E fuel size input s
  = bind (fill_quota E fuel size input)
         (fun zp => LensGalaxy.finish_routine1 E size zp.1 zp.2) s.
Proof.
  revert input s. induction fuel as [|fuel IH]; intros input s; [done|].
  cbn [LensGalaxy.sample_all_routine1 fill_quota]. unfold bind.
  destruct (LensGalaxy.draw_routine1 E (S fuel) size s) as [zp s1|e s1|]; try done.
  destruct (of_option ValueError
              (LensGalaxy.add_dictionaries_together zp.2 input) s1)
    as [lp s2|e s2|]; try done.
  destruct (getitem lp "zl" s2) as [zl s3|e s3|]; try done.
  destruct (length zl <? size)%nat; [|done].
  rewrite IH. done.
Qed.

Lemma mask_select_length_from {A} (i : nat) (mask : list bool) (a : list A) :
  length mask = length a ->
  length (Np.mask_select mask a) = length (positions_from i mask).
Proof.
  revert i a. induction mask as [|b mask IH]; intros i [|x a] Hlen; try done.
  simpl in Hlen. apply Nat.succ_inj in Hlen. simpl.
  destruct b; simpl; by rewrite (IH (S i) a Hlen).
Qed.

Lemma select_rows_positions_length {A} (mask : list bool) (a : list A) :
  length mask = length a ->
  length (select_rows (positions mask) a) = length (positions mask).
Proof.
  intros Hlen. rewrite <- mask_select_positions by done.
  by apply mask_select_length_from.
Qed.

Lemma positions_length_le (i : nat) (mask : list bool) :
  (length (positions_from i mask) <= length mask)%nat.
Proof.
  revert i. induction mask as [|b mask IH]; intros i; simpl; [lia|].
  specialize (IH (S i)). destruct b; simpl; lia.
Qed.

Lemma candidate_batch_lookup (zl zs sigma q theta_E : list Q) :
  candidate_batch zl zs sigma q theta_E !! "theta_E" = Some theta_E /\
  candidate_batch zl zs sigma q theta_E !! "q" = Some q.
Proof. by split. Qed.

Lemma candidate_batch_dom (zl zs sigma q theta_E : list Q) :
  dom (candidate_batch zl zs sigma q theta_E) = five_keys.
Proof.
  unfold candidate_batch, five_keys. rewrite !dom_insert_L, dom_singleton_L.
  set_solver.
Qed.

Lemma candidate_batch_rows (n : nat) (zl zs sigma q theta_E : list Q) :
  length zl = n -> length zs = n -> length sigma = n -> length q = n ->
  length theta_E = n ->
  batch_rows n (candidate_batch zl zs sigma q theta_E).
Proof.
  intros H1 H2 H3 H4 H5. unfold batch_rows, candidate_batch.
  repeat (apply map_Forall_insert_2; [done|]).
  apply map_Forall_empty.
Qed.

Section Pipeline.

Context {R : Type} (E : LensGalaxy.collaborators R) (size : nat).
Hypothesis Hhonest : honest E.
Hypothesis Hfair : quota_reachable E size.

Lemma einstein_radius_pos (sigma zl zs : Q) :
  0 < sigma -> 0 < LensGalaxy.einstein_radius E sigma zl zs.
Proof.
  intros Hs. unfold LensGalaxy.einstein_radius, Qdiv.
  assert (Hc : 0 < sigma * / LensGalaxy.c_km_s).
  { apply Qmult_lt_0_compat; [done|]. by apply Qinv_lt_0_compat. }
  repeat apply Qmult_lt_0_compat; try done.
  - apply (honest_pi E Hhonest).
  - apply (honest_distance_z1z2 E Hhonest).
  - apply Qinv_lt_0_compat. apply (honest_distance E Hhonest).
Qed.

(** One draw of the candidate batch: with enough fuel it runs up to the
    rejection rule on a batch of [size] rows with positive Einstein radii. *)
Lemma draw_candidates (s : R) :
  exists fuel0 zs zl sigma q theta_E s1,
    length zs = size /\ length zl = size /\ length sigma = size /\
    length q = size /\ length theta_E = size /\
    Forall (fun t => 0 < t) theta_E /\
    forall fuel, (fuel0 <= fuel)%nat ->
      LensGalaxy.draw_routine1 E fuel size s
      = bind (LensGalaxy.rejection_sample_sl E
                (candidate_batch zl zs sigma q theta_E))
             (fun lp => ret (zs, lp)) s1.
Proof.
  destruct (Hfair s) as [k Hk].
  destruct (strongly_lensed_source_redshifts_exact E size s k Hk)
    as (fuel0 & zs & s0 & Hzs & Hrun).
  pose proof (honest_lens_redshift E Hhonest zs s0) as Hzl.
  destruct (LensGalaxy.sample_lens_redshift E zs s0) as [zl s0'] eqn:Hlr.
  simpl in Hzl.
  destruct (honest_velocity_dispersion E Hhonest (length zs) zl s0')
    as (sigma & s0'' & Hsig & Hsigl & Hsigp).
  pose proof (honest_axis_ratio E Hhonest sigma s0'') as Hq.
  destruct (LensGalaxy.sample_axis_ratio E sigma s0'') as [q s1] eqn:Har.
  simpl in Hq.
  exists fuel0, zs, zl, sigma, q,
    (zip_with (fun s zz => LensGalaxy.einstein_radius E s zz.1 zz.2)
       sigma (zip zl zs)), s1.
  repeat split; try congruence.
  - rewrite length_zip_with, length_zip. lia.
  - apply Forall_forall. intros t Ht.
    apply list_elem_of_lookup in Ht as [i Hi].
    apply lookup_zip_with_Some in Hi as (x & zz & -> & Hx & _).
    apply einstein_radius_pos. rewrite Forall_forall in Hsigp.
    apply Hsigp. by eapply list_elem_of_lookup_2.
  - intros fuel Hfuel. unfold LensGalaxy.draw_routine1.
    unfold bind at 1. rewrite (Hrun fuel Hfuel).
    unfold bind at 1. unfold call at 1. rewrite Hlr.
    unfold bind at 1. rewrite Hsig.
    unfold bind at 1. unfold call at 1. rewrite Har.
    unfold bind at 1. unfold LensGalaxy.compute_einstein_radii.
    rewrite decide_True by (split; congruence). done.
Qed.

(** A positive weight at the maximum is always accepted. *)
Lemma maximum_accepted (w : list Q) (high : Q) (i : nat) (wi : Q) (s : R) :
  w !! i = Some wi -> high <= wi -> 0 < high ->
  Np.lt (LensGalaxy.uniform E 0 high (length w) s).1 w !! i = Some true.
Proof.
  intros Hi Hle Hpos. apply lt_lookup.
  pose proof (uniform_length E 0 high (length w) s) as Hlen.
  pose proof (uniform_below E high (length w) s
                (honest_generator E Hhonest) Hpos) as Hbelow.
  destruct (lookup_lt_is_Some_2 (LensGalaxy.uniform E 0 high (length w) s).1 i)
    as [ui Hui].
  { rewrite Hlen. by eapply lookup_lt_Some. }
  exists ui, wi. split; [done|]. split; [done|].
  rewrite Forall_forall in Hbelow.
  apply Qlt_le_trans with high; [|done].
  apply Hbelow. by eapply list_elem_of_lookup_2.
Qed.

(** On a candidate batch of [size >= 1] rows with positive Einstein radii the
    configured rejection rule returns between one and [size] rows. *)
Lemma rejection_keeps_a_row (zl zs sigma q theta_E : list Q) (s : R) :
  (1 <= size)%nat ->
  length zl = size -> length zs = size -> length sigma = size ->
  length q = size -> length theta_E = size ->
  Forall (fun t => 0 < t) theta_E ->
  exists idx s',
    (1 <= length idx <= size)%nat /\
    (forall v : list Q, length v = size ->
       length (select_rows idx v) = length idx) /\
    LensGalaxy.rejection_sample_sl E (candidate_batch zl zs sigma q theta_E) s
    = Ok (select_rows idx <$> candidate_batch zl zs sigma q theta_E) s'.
Proof.
  intros Hsize H1 H2 H3 H4 H5 Hpos.
  pose proof (candidate_batch_rows size zl zs sigma q theta_E H1 H2 H3 H4 H5)
    as Hrows.
  rewrite <- H5 in Hrows.
  destruct (candidate_batch_lookup zl zs sigma q theta_E) as [Hth Hq].
  assert (Hne : theta_E <> []) by (intros ->; simpl in H5; lia).
  unfold LensGalaxy.rejection_sample_sl.
  destruct (LensGalaxy.strong_lensing_condition_name E).
  - destruct (max_is_Some theta_E Hne) as [m Hm].
    destruct (max_spec _ _ Hm) as [Hin _].
    rewrite (rjs_with_einstein_radius_run E _ theta_E m s Hth Hm Hrows).
    eexists _, _. split; [|split; [|reflexivity]].
    + split.
      * apply list_elem_of_lookup in Hin as [i Hi].
        assert (Hmpos : 0 < m).
        { rewrite Forall_forall in Hpos. apply Hpos.
          by eapply list_elem_of_lookup_2. }
        assert (Hacc : i ∈ positions
                  (Np.lt (LensGalaxy.uniform E 0 (Np.sq m) (length theta_E) s).1
                         (map Np.sq theta_E))).
        { apply elem_of_positions.
          rewrite <- (length_map Np.sq theta_E).
          apply maximum_accepted with (Np.sq m).
          - change (map Np.sq theta_E) with (Np.sq <$> theta_E).
            by rewrite list_lookup_fmap, Hi.
          - apply Qle_refl.
          - unfold Np.sq. by apply Qmult_lt_0_compat. }
        destruct (positions _); [by apply elem_of_nil in Hacc|simpl; lia].
      * etransitivity; [apply positions_length_le|].
        unfold Np.lt. rewrite length_zip_with, length_map. lia.
    + intros v Hv. apply select_rows_positions_length.
      unfold Np.lt. rewrite length_zip_with, length_map, uniform_length. lia.
  - set (w := cross_section E theta_E q).
    assert (Hwl : length w = size).
    { unfold w, cross_section. rewrite length_zip_with, !length_map. lia. }
    assert (Hwne : w <> []) by (intros Hw; rewrite Hw in Hwl; simpl in Hwl; lia).
    assert (Hwpos : Forall (fun x => 0 < x) w).
    { apply Forall_forall. intros x Hx.
      apply list_elem_of_lookup in Hx as [i Hi].
      apply lookup_zip_with_Some in Hi as (a & b & -> & Ha & Hb).
      apply list_lookup_fmap_Some in Ha as (t & -> & Ht).
      apply list_lookup_fmap_Some in Hb as (x & -> & _).
      apply Qmult_lt_0_compat; [|apply (honest_phi_cut E Hhonest)].
      unfold Np.sq. rewrite Forall_forall in Hpos.
      assert (0 < t) by (apply Hpos; by eapply list_elem_of_lookup_2).
      by apply Qmult_lt_0_compat. }
    destruct (max_is_Some w Hwne) as [m Hm].
    destruct (max_spec _ _ Hm) as [Hin _].
    rewrite (rjs_with_cross_section_run E _ theta_E q m s Hth Hq Hm Hrows).
    fold w. rewrite H5, <- Hwl.
    eexists _, _. split; [|split; [|reflexivity]].
    + split.
      * apply list_elem_of_lookup in Hin as [i Hi].
        assert (Hmpos : 0 < m).
        { rewrite Forall_forall in Hwpos. apply Hwpos.
          by eapply list_elem_of_lookup_2. }
        assert (Hacc : i ∈ positions
                  (Np.lt (LensGalaxy.uniform E 0 m (length w) s).1 w)).
        { apply elem_of_positions.
          apply maximum_accepted with m; [done|apply Qle_refl|done]. }
        destruct (positions _); [by apply elem_of_nil in Hacc|simpl; lia].
      * etransitivity; [apply positions_length_le|].
        unfold Np.lt. rewrite length_zip_with, uniform_length. lia.
    + intros v Hv. apply select_rows_positions_length.
      unfold Np.lt. rewrite length_zip_with, uniform_length. lia.
Qed.

End Pipeline.

Lemma bind_Ok {S A B} (c : M S A) (k : A -> M S B) (s : S) (a : A) (s' : S) :
  c s = Ok a s' -> bind c k s = k a s'.
Proof. intros H. unfold bind. by rewrite H. Qed.

Lemma five_fields_nonempty (n : nat) (d : gmap string (list Q)) :
  five_fields n d -> d <> ∅.
Proof.
  intros [Hdom _] ->. rewrite dom_empty_L in Hdom.
  assert (H : "zl" ∈ five_keys) by (unfold five_keys; set_solver).
  rewrite <- Hdom in H. set_solver.
Qed.

Lemma five_fields_lookup (n : nat) (d : gmap string (list Q)) (key : string) :
  five_fields n d -> key ∈ five_keys ->
  exists v, d !! key = Some v /\ length v = n.
Proof.
  intros [Hdom Hrows] Hkey. rewrite <- Hdom in Hkey.
  apply elem_of_dom in Hkey as [v Hv]. exists v. split; [done|].
  by apply (Hrows key).
Qed.

Lemma five_fields_select (n m : nat) (idx : list nat) (d : gmap string (list Q)) :
  five_fields n d ->
  (forall v : list Q, length v = n -> length (select_rows idx v) = m) ->
  five_fields m (select_rows idx <$> d).
Proof.
  intros [Hdom Hrows] Hsel. split; [by rewrite dom_fmap_L|].
  intros k v. rewrite lookup_fmap. intros Hv.
  apply fmap_Some in Hv as (v0 & Hv0 & ->). apply Hsel. by apply (Hrows k).
Qed.

Lemma add_dictionaries_together_empty (a : gmap string (list Q)) :
  a <> ∅ -> LensGalaxy.add_dictionaries_together a ∅ = Some a.
Proof.
  intros Ha. unfold LensGalaxy.add_dictionaries_together.
  rewrite decide_False by done. by rewrite decide_True.
Qed.

Lemma add_dictionaries_together_five (m r : nat) (a b : gmap string (list Q)) :
  five_fields m a -> five_fields r b ->
  exists c, LensGalaxy.add_dictionaries_together a b = Some c /\
            five_fields (m + r) c.
Proof.
  intros Ha Hb. unfold LensGalaxy.add_dictionaries_together.
  rewrite decide_False by (by eapply five_fields_nonempty).
  rewrite decide_False by (by eapply five_fields_nonempty).
  destruct Ha as [Hda Hra], Hb as [Hdb Hrb].
  rewrite decide_True by congruence.
  eexists. split; [done|]. split.
  - apply set_eq. intros k. rewrite elem_of_dom, map_lookup_zip_with.
    assert (Hka : k ∈ five_keys <-> is_Some (a !! k))
      by (by rewrite <- Hda, elem_of_dom).
    assert (Hkb : k ∈ five_keys <-> is_Some (b !! k))
      by (by rewrite <- Hdb, elem_of_dom).
    destruct (a !! k) as [x|], (b !! k) as [y|]; simpl; split; intros H;
      try (by eexists); try (by destruct H as [? [=]]);
      try (by apply Hka);
      try (by apply Hka in H; destruct H as [? [=]]);
      try (by apply Hkb in H; destruct H as [? [=]]).
  - intros k v. rewrite map_lookup_zip_with. intros Hv.
    destruct (a !! k) as [x|] eqn:Hx; [|done].
    destruct (b !! k) as [y|] eqn:Hy; [|done].
    simpl in Hv. injection Hv as <-. rewrite length_app.
    by rewrite (Hra k x Hx), (Hrb k y Hy).
Qed.

Section Quota.

Context {R : Type} (E : LensGalaxy.collaborators R) (size : nat).
Hypothesis Hhonest : honest E.
Hypothesis Hfair : quota_reachable E size.
Hypothesis Hsize : (1 <= size)%nat.

(** The accumulation terminates: every round adds at least one row. *)
Lemma fill_quota_meets (n : nat) :
  forall (input : gmap string (list Q)) (r : nat) (s : R),
    (input = ∅ /\ r = 0%nat) \/ five_fields r input ->
    (size - r <= n)%nat ->
    exists fuel0 zs b s' r',
      length zs = size /\ (size <= r')%nat /\ five_fields r' b /\
      forall fuel, (fuel0 <= fuel)%nat ->
        fill_quota E fuel size input s = Ok (zs, b) s'.
Proof.
  induction n as [|n IH]; intros input r s Hin Hn.
  all: destruct (draw_candidates E size Hhonest Hfair s)
         as (fd & zs & zl & sigma & q & theta_E & s1 &
             Hzs & Hzl & Hsig & Hq & Hth & Hpos & Hdraw).
  all: destruct (rejection_keeps_a_row E size Hhonest zl zs sigma q theta_E s1
                   Hsize Hzl Hzs Hsig Hq Hth Hpos)
         as (idx & s2 & Hidx & Hsel & Hrej).
  all: set (lp := select_rows idx <$> candidate_batch zl zs sigma q theta_E) in *.
  all: assert (Hlp : five_fields (length idx) lp)
         by (apply (five_fields_select size);
             [split; [apply candidate_batch_dom|by apply candidate_batch_rows]
             |done]).
  all: assert (Hadd : exists c,
           LensGalaxy.add_dictionaries_together lp input = Some c /\
           five_fields (length idx + r) c).
  1, 3: destruct Hin as [[-> ->]|Hin];
        [exists lp; split;
           [apply add_dictionaries_together_empty;
            by eapply five_fields_nonempty
           |by rewrite Nat.add_0_r]
        |by apply add_dictionaries_together_five].
  all: destruct Hadd as (c & Hadd & Hc).
  all: destruct (five_fields_lookup _ c "zl" Hc) as (czl & Hczl & Hczll);
         [unfold five_keys; set_solver|].
  all: assert (Hstep : forall fuel, (fd <= S fuel)%nat ->
           fill_quota E (S fuel) size input s
           = if (length idx + r <? size)%nat
             then fill_quota E fuel size c s2
             else Ok (zs, c) s2).
  1, 3: intros fuel Hfuel; cbn [fill_quota];
        rewrite (bind_Ok _ _ s (zs, lp) s2)
          by (rewrite (Hdraw _ Hfuel); by rewrite (bind_Ok _ _ s1 lp s2));
        cbn [fst snd];
        rewrite (bind_Ok _ _ s2 c s2) by (by rewrite Hadd);
        rewrite (bind_Ok _ _ s2 czl s2) by (unfold getitem; by rewrite Hczl);
        rewrite Hczll; by destruct (length idx + r <? size)%nat.
  - exists (Nat.max fd 1), zs, c, s2, (length idx + r)%nat.
    split; [done|]. split; [lia|]. split; [done|].
    intros [|fuel] Hfuel; [lia|]. rewrite Hstep by lia.
    by rewrite (proj2 (Nat.ltb_ge _ _)) by lia.
  - destruct (decide (length idx + r < size)%nat) as [Hlt|Hge].
    + destruct (IH c (length idx + r)%nat s2 (or_intror Hc) ltac:(lia))
        as (f1 & zs' & b & s' & r' & Hzs' & Hr' & Hb & Hrun).
      exists (Nat.max fd (S f1)), zs', b, s', r'.
      split; [done|]. split; [done|]. split; [done|].
      intros [|fuel] Hfuel; [lia|]. rewrite Hstep by lia.
      rewrite (proj2 (Nat.ltb_lt _ _)) by lia. apply Hrun. lia.
    + exists (Nat.max fd 1), zs, c, s2, (length idx + r)%nat.
      split; [done|]. split; [lia|]. split; [done|].
      intros [|fuel] Hfuel; [lia|]. rewrite Hstep by lia.
      by rewrite (proj2 (Nat.ltb_ge _ _)) by lia.
Qed.

End Quota.

Section Finish.

Context {R : Type} (E : LensGalaxy.collaborators R) (size : nat).
Hypothesis Hhonest : honest E.

(** The tail of [sample_all_routine1] on a batch that meets the quota: it
    returns a record of exactly [size] rows in every field, the lens fields
    among them. *)
Lemma finish_routine1_rows (zs : list Q) (b : gmap string (list Q))
    (r : nat) (s : R) :
  length zs = size -> five_fields r b -> (size <= r)%nat ->
  exists d s',
    LensGalaxy.finish_routine1 E size zs b s = Ok d s' /\
    batch_rows size d /\ lens_keys ⊆ dom d.
Proof.
  intros Hzs [Hdom Hrows] Hr.
  set (lp0 := LensGalaxy.trim_dictionary b size).
  assert (Hlp0 : batch_rows size lp0).
  { intros k v. unfold lp0, LensGalaxy.trim_dictionary. rewrite lookup_fmap.
    intros Hv. apply fmap_Some in Hv as (v0 & Hv0 & ->).
    rewrite length_take, (Hrows k v0 Hv0). lia. }
  assert (Hdom0 : dom lp0 = five_keys)
    by (unfold lp0, LensGalaxy.trim_dictionary; by rewrite dom_fmap_L).
  destruct (LensGalaxy.uniform E (LensGalaxy.phi_min E) (LensGalaxy.phi_max E)
              size s) as [phi s1] eqn:Hphi.
  assert (Hphil : length phi = size).
  { pose proof (uniform_length E (LensGalaxy.phi_min E) (LensGalaxy.phi_max E)
                  size s) as H. by rewrite Hphi in H. }
  assert (Hq : exists q, lp0 !! "q" = Some q /\ length q = size).
  { assert (Hin : "q" ∈ dom lp0) by (rewrite Hdom0; unfold five_keys; set_solver).
    apply elem_of_dom in Hin as [q Hq]. exists q. split; [done|].
    by apply (Hlp0 "q"). }
  destruct Hq as (q & Hq & Hql).
  set (e := zip_with (LensGalaxy.phi_q2_ellipticity E) phi q).
  assert (Hel : length e = size)
    by (unfold e; rewrite length_zip_with; lia).
  pose proof (honest_norm_rvs E Hhonest size (LensGalaxy.shear_scale E) s1) as Hg1.
  destruct (LensGalaxy.norm_rvs E size (LensGalaxy.shear_scale E) s1)
    as [g1 s2] eqn:Hn1. simpl in Hg1.
  pose proof (honest_norm_rvs E Hhonest size (LensGalaxy.shear_scale E) s2) as Hg2.
  destruct (LensGalaxy.norm_rvs E size (LensGalaxy.shear_scale E) s2)
    as [g2 s3] eqn:Hn2. simpl in Hg2.
  pose proof (honest_random_normal E Hhonest (LensGalaxy.gamma_mean E)
                (LensGalaxy.gamma_std E) size s3) as Hgam.
  destruct (LensGalaxy.random_normal E (LensGalaxy.gamma_mean E)
              (LensGalaxy.gamma_std E) size s3) as [gamma s4] eqn:Hrn.
  simpl in Hgam.
  set (lp4 := <["gamma" := gamma]> (<["gamma2" := g2]> (<["gamma1" := g1]>
                (<["e2" := map snd e]> (<["e1" := map fst e]>
                   (<["phi" := phi]> lp0)))))).
  assert (Hlp4 : batch_rows size lp4).
  { unfold lp4, batch_rows.
    repeat (apply map_Forall_insert_2; [by rewrite ?length_map|]). done. }
  assert (Hdom4 : lens_keys ⊆ dom lp4).
  { unfold lp4, lens_keys. rewrite !dom_insert_L, Hdom0. set_solver. }
  assert (Hparam : exists param s5,
             (if LensGalaxy.source_parameters_given E
              then bind (LensGalaxy.sample_gw_parameters E size None)
                        (fun g => ret (g ∪ ({["zs" := zs]} : gmap string (list Q))))
              else ret ({["zs" := zs]} : gmap string (list Q))) s4
             = Ok param s5 /\ batch_rows size param).
  { assert (Hz : batch_rows size ({["zs" := zs]} : gmap string (list Q)))
      by (by apply map_Forall_singleton).
    destruct (LensGalaxy.source_parameters_given E).
    - destruct (honest_gw_parameters E Hhonest size None s4)
        as (g0 & s5 & Hg0 & Hg0r & _); [done|].
      exists (g0 ∪ {["zs" := zs]}), s5. split.
      + by rewrite (bind_Ok _ _ s4 g0 s5).
      + by apply map_Forall_union_2.
    - by exists {["zs" := zs]}, s4. }
  destruct Hparam as (param & s5 & Hparam & Hparamr).
  destruct (honest_gw_parameters E Hhonest size (Some param) s5)
    as (gw & s6 & Hgw & Hgwr & [m1 Hm1] & [m2 Hm2]).
  { by intros p [= <-]. }
  exists (delete "mass_2" (delete "mass_1" (gw ∪ lp4))), s6.
  split; [|split].
  - unfold LensGalaxy.finish_routine1. fold lp0.
    rewrite (bind_Ok _ _ s phi s1)
      by (unfold LensGalaxy.axis_rotation_angle_uniform, call; by rewrite Hphi).
    rewrite (bind_Ok _ _ s1 q s1)
      by (unfold getitem; rewrite lookup_insert_ne by done; by rewrite Hq).
    rewrite (bind_Ok _ _ s1 e s1)
      by (rewrite decide_True by congruence; done).
    rewrite (bind_Ok _ _ s1 (g1, g2) s3).
    2:{ unfold LensGalaxy.shear_norm.
        rewrite (bind_Ok _ _ s1 g1 s2) by (unfold call; by rewrite Hn1).
        rewrite (bind_Ok _ _ s2 g2 s3) by (unfold call; by rewrite Hn2).
        done. }
    rewrite (bind_Ok _ _ s3 gamma s4)
      by (unfold LensGalaxy.mass_density_spectral_index_normal, call;
          by rewrite Hrn).
    cbn [fst snd]. fold e. fold lp4.
    rewrite (bind_Ok _ _ s4 param s5) by exact Hparam.
    rewrite (bind_Ok _ _ s5 gw s6) by exact Hgw.
    rewrite (bind_Ok _ _ s6 (delete "mass_1" (gw ∪ lp4)) s6).
    2:{ unfold LensGalaxy.delitem.
        by rewrite (lookup_union_Some_l gw lp4 "mass_1" m1 Hm1). }
    rewrite (bind_Ok _ _ s6 (delete "mass_2" (delete "mass_1" (gw ∪ lp4))) s6).
    2:{ unfold LensGalaxy.delitem. rewrite lookup_delete_ne by done.
        by rewrite (lookup_union_Some_l gw lp4 "mass_2" m2 Hm2). }
    done.
  - do 2 apply map_Forall_delete. by apply map_Forall_union_2.
  - rewrite !dom_delete_L, dom_union_L.
    assert (Hm : "mass_1" ∉ lens_keys /\ "mass_2" ∉ lens_keys)
      by (unfold lens_keys, five_keys; set_solver).
    destruct Hm as [H1 H2]. intros k Hk.
    rewrite !elem_of_difference, elem_of_union, !elem_of_singleton.
    split_and!; [right; by apply Hdom4|by intros ->..].
Qed.

End Finish.

(** The composite pipeline on [size = 0]: the candidate batch is empty and
    the rejection rule raises at its maximum. *)
Lemma sample_lens_parameters_zero {R} (E : LensGalaxy.collaborators R) (s : R) :
  honest E -> quota_reachable E 0 ->
  exists fuel0 s',
    forall fuel, (fuel0 <= fuel)%nat ->
      LensGalaxy.sample_lens_parameters E fuel 0 s = Raise ValueError s'.
Proof.
  intros Hhonest Hfair.
  destruct (draw_candidates E 0 Hhonest Hfair s)
    as (fd & zs & zl & sigma & q & theta_E & s1 &
        Hzs & Hzl & Hsig & Hq & Hth & Hpos & Hdraw).
  apply nil_length_inv in Hth as ->.
  exists (Nat.max fd 1), s1. intros [|fuel] Hfuel; [lia|].
  unfold LensGalaxy.sample_lens_parameters.
  cbn [LensGalaxy.sample_all_routine1].
  unfold bind at 1. rewrite (Hdraw (S fuel)) by lia.
  unfold bind at 1. unfold LensGalaxy.rejection_sample_sl.
  destruct (LensGalaxy.strong_lensing_condition_name E).
  - by rewrite rjs_with_einstein_radius_empty.
  - by rewrite (rjs_with_cross_section_empty E _ q).
Qed.


(** *** The concrete environment is honest *)

Lemma demo_random_samples_length (n s : nat) :
  length (Demo.random_samples n s).1 = n.
Proof.
  revert s. induction n as [|n IH]; intros s; [done|].
  change (Demo.random_samples (S n) s)
    with (let (x, s1) := Demo.random_sample s in
          let (xs, s2) := Demo.random_samples n s1 in (x :: xs, s2)).
  unfold Demo.random_sample.
  specialize (IH ((5 * s + 3) mod 16)%nat).
  destruct (Demo.random_samples n ((5 * s + 3) mod 16)%nat) as [xs s'].
  cbn [fst length] in *. by rewrite IH.
Qed.

Lemma demo_honest (zs_sampler : nat -> nat -> list Q * nat)
    (rule : LensGalaxy.strong_lensing_condition) :
  honest (Demo.lens_with zs_sampler rule).
Proof.
  split; cbn [Demo.lens_with LensGalaxy.sample_lens_redshift
              LensGalaxy.sample_velocity_dispersion LensGalaxy.sample_axis_ratio
              LensGalaxy.angular_diameter_distance
              LensGalaxy.angular_diameter_distance_z1z2 LensGalaxy.np_pi
              LensGalaxy.phi_cut_SIE LensGalaxy.norm_rvs LensGalaxy.random_normal
              LensGalaxy.sample_gw_parameters]; try done.
  - apply demo_unit_interval.
  - intros zs s. cbn [fst]. by rewrite length_map.
  - intros n zl s. unfold try_except, Demo.sample_velocity_dispersion.
    pose proof (demo_random_samples_length n s) as Hl.
    pose proof (demo_random_samples_range n s) as Hr.
    destruct (Demo.random_samples n s) as [xs s']. cbn [fst] in *.
    eexists _, _. split; [done|]. split; [by rewrite length_map|].
    apply Forall_map. eapply Forall_impl; [exact Hr|].
    intros x [Hx0 _]. cbn beta.
    apply Qlt_le_trans with (100 + 200 * 0); [done|].
    apply Qplus_le_r.
    rewrite (Qmult_comm 200 0), (Qmult_comm 200 x).
    by apply Qmult_le_compat_r.
  - intros sigma s. cbn [fst]. by rewrite length_map.
  - intros n scale s. cbn [fst]. by rewrite repeat_length.
  - intros loc scale n s. cbn [fst]. by rewrite repeat_length.
  - intros n param s Hparam. unfold Demo.sample_gw_parameters.
    eexists _, _. split; [done|]. split; [|split].
    + assert (Hzs : length (default (repeat 1 n) (param ≫= (.!! "zs"))) = n).
      { destruct param as [p|]; cbn; [|by rewrite repeat_length].
        destruct (p !! "zs") as [v|] eqn:Hv; cbn;
          [by apply (Hparam p eq_refl "zs")|by rewrite repeat_length]. }
      unfold batch_rows.
      do 6 (apply map_Forall_insert_2;
            [by rewrite ?length_map, ?repeat_length|]).
      apply map_Forall_empty.
    + by eexists.
    + by eexists.
Qed.

Lemma accepted_all (t : Q -> Q) (z : Q) (u : list Q) :
  Forall (fun x => x < t z) u ->
  length (accepted t (repeat z (length u)) u) = length u.
Proof.
  induction 1 as [|x u Hx Hu IH]; [done|].
  unfold accepted in *. cbn [length repeat zip zip_with].
  rewrite filter_cons. cbn [fst snd].
  rewrite decide_True by (by apply Qltb_lt). cbn. by rewrite IH.
Qed.

Lemma demo_quota_reachable (size : nat) :
  quota_reachable Demo.lens_sure size.
Proof.
  intros s. exists 1%nat. rewrite rounds_S. cbv zeta.
  cbn [Demo.lens_sure Demo.lens_with LensGalaxy.sample_zs
       Demo.sample_zs_at_z_max fst snd rounds].
  unfold accepted_in. cbn [map concat fst snd]. rewrite app_nil_r.
  rewrite repeat_length.
  set (u := (LensGalaxy.uniform _ 0 _ size s).1).
  assert (Hu : length u = size) by apply uniform_length.
  rewrite <- Hu at 2. rewrite accepted_all; [lia|].
  apply (uniform_below _ (10 / 10) size s); [apply demo_unit_interval|done].
Qed.



(** C7. Redshift sharing does not hold in [sample_all_routine1]: the source
    parameters are drawn with the local [zs] of the last call (the candidates
    before the Einstein-radius rejection), not with the accepted redshifts of
    the record.  In the run below the accepted, trimmed redshifts are
    [5.625, 8.75], whose lens redshifts [zl] the record keeps, while the
    source sampler receives [8.75, 5.625]; its [zs] and the luminosity
    distances derived from them overwrite and join the record row by row. *)
Lemma source_parameters_use_unfiltered_redshifts :
  (zp ← returned (fill_quota Demo.lens 9 2 ∅ 2%nat);
   map Qred <$> LensGalaxy.trim_dictionary zp.2 2 !! "zs")
  = Some [45 # 8; 35 # 4] /\
  (zp ← returned (fill_quota Demo.lens 9 2 ∅ 2%nat); Some (map Qred zp.1))
  = Some [35 # 4; 45 # 8] /\
  (d ← returned (LensGalaxy.sample_lens_parameters Demo.lens 9 2 2%nat);
   map Qred <$> d !! "zl")
  = Some [45 # 16; 35 # 8] /\
  (d ← returned (LensGalaxy.sample_lens_parameters Demo.lens 9 2 2%nat);
   map Qred <$> d !! "zs")
  = Some [35 # 4; 45 # 8] /\
  (d ← returned (LensGalaxy.sample_lens_parameters Demo.lens 9 2 2%nat);
   map Qred <$> d !! "luminosity_distance")
  = Some [8750; 5625].
Proof. repeat split; by vm_compute. Qed.


(** * Properties of [ler.py] *)

(** ** Detection selection *)

Section DetectionSelection.

Import Arr Selection.

Lemma Qopp_opp_eq (x : Q) : - - x = x.
Proof. destruct x as [n d]. unfold Qopp. simpl. by rewrite Z.opp_involutive. Qed.

Lemma fneg_involutive (x : fval) : fneg (fneg x) = x.
Proof.
  destruct x as [|[n d]]; [done|]. unfold fneg, flift1, Qopp. simpl.
  by rewrite Z.opp_involutive.
Qed.

Lemma Qle_bool_opp (a b : Q) : Qle_bool (- a) b = Qle_bool (- b) a.
Proof.
  apply eq_true_iff_eq. rewrite !Qle_bool_iff. split; intros H.
  - apply Qopp_le_compat in H. by rewrite Qopp_involutive in H.
  - apply Qopp_le_compat in H. by rewrite Qopp_involutive in H.
Qed.

Lemma fleb_fneg (a y : fval) : fleb (fneg a) y = fgeb a (fneg y).
Proof.
  destruct a as [|p], y as [|q]; try done. simpl.
  rewrite Qle_bool_opp. done.
Qed.

Lemma insert_sorted_fneg (a : fval) (l : list fval) :
  map fneg (insert_sorted (fneg a) l) = insert_descending a (map fneg l).
Proof.
  induction l as [|y l IH]; simpl.
  - by rewrite fneg_involutive.
  - rewrite fleb_fneg. destruct (fgeb a (fneg y)); simpl.
    + by rewrite fneg_involutive.
    + by rewrite IH.
Qed.

(** [-np.sort(-row)] is the row in descending order. *)
Lemma sort_fneg (row : list fval) :
  map fneg (Arr.sort (map fneg row)) = sort_descending row.
Proof.
  induction row as [|a row IH]; [done|].
  simpl. by rewrite insert_sorted_fneg, IH.
Qed.

Lemma insert_descending_length (x : fval) (l : list fval) :
  length (insert_descending x l) = S (length l).
Proof.
  induction l as [|y l IH]; [done|]. simpl.
  destruct (fgeb x y); simpl; [done|by rewrite IH].
Qed.

Lemma sort_descending_length (row : list fval) :
  length (sort_descending row) = length row.
Proof.
  induction row as [|a row IH]; [done|]. simpl.
  by rewrite insert_descending_length, IH.
Qed.

(** *** [argsort] of the negated thresholds sorts the requirements *)

Lemma insert_index_requirement (reqs : list (Q * nat)) (i : nat) (l : list nat) :
  map (fun j => nth j reqs (0, 0%nat))
      (insert_index (map Qopp (map fst reqs)) i l)
  = insert_requirement (nth i reqs (0, 0%nat))
      (map (fun j => nth j reqs (0, 0%nat)) l).
Proof.
  assert (Hkey : forall j, nth j (map Qopp (map fst reqs)) 0
                           = - (nth j reqs (0, 0%nat)).1).
  { intros j. change 0 with (- (0, 0%nat).1) at 1.
    by rewrite (map_nth Qopp), (map_nth fst). }
  induction l as [|j l IH]; [done|]. simpl.
  rewrite !Hkey, Qle_bool_opp, Qopp_opp_eq.
  destruct (Qle_bool _ _); simpl; [done|by rewrite IH].
Qed.

Lemma nth_seq_map {A} (l : list A) (d : A) :
  map (fun j => nth j l d) (seq 0 (length l)) = l.
Proof.
  induction l as [|x l IH]; [done|].
  simpl. f_equal. rewrite <- seq_shift, map_map. exact IH.
Qed.

Lemma argsort_requirements (reqs : list (Q * nat)) :
  map (fun j => nth j reqs (0, 0%nat)) (argsort (map Qopp (map fst reqs)))
  = sort_requirements reqs.
Proof.
  unfold argsort, sort_requirements. rewrite !length_map.
  rewrite <- (nth_seq_map reqs (0, 0%nat)) at 3.
  induction (seq 0 (length reqs)) as [|i l IH]; [done|].
  simpl. by rewrite insert_index_requirement, IH.
Qed.

Lemma insert_index_Forall (P : nat -> Prop) (keys : list Q) (i : nat)
    (l : list nat) :
  P i -> Forall P l -> Forall P (insert_index keys i l).
Proof.
  intros Hi Hl. induction Hl as [|j l Hj Hl IH]; simpl.
  - by constructor.
  - destruct (Qle_bool _ _); repeat constructor; done.
Qed.

Lemma argsort_bound (keys : list Q) :
  Forall (fun i => (i < length keys)%nat) (argsort keys).
Proof.
  unfold argsort.
  assert (H : Forall (fun i => (i < length keys)%nat) (seq 0 (length keys))).
  { apply Forall_forall. intros i Hi%list_elem_of_In%in_seq. lia. }
  induction H as [|i l Hi Hl IH]; simpl; [constructor|].
  by apply insert_index_Forall.
Qed.

Lemma zip_with_zip_with_l {A C D} (f : A -> C -> D) (g : A -> C -> A)
    (l : list A) (k : list C) :
  zip_with f (zip_with g l k) k = zip_with (fun a c => f (g a c) c) l k.
Proof.
  revert k. induction l as [|a l IH]; intros [|c k]; simpl; try done.
  by rewrite IH.
Qed.

Lemma zip_with_map_r {A B C D} (f : A -> B -> C) (h : D -> B)
    (l : list A) (k : list D) :
  zip_with f l (map h k) = zip_with (fun a d => f a (h d)) l k.
Proof.
  revert k. induction l as [|a l IH]; intros [|c k]; simpl; try done.
  by rewrite IH.
Qed.

Lemma zip_with_ext_Forall {A B C} (P : B -> Prop) (f g : A -> B -> C)
    (l : list A) (k : list B) :
  Forall P k -> (forall a b, P b -> f a b = g a b) ->
  zip_with f l k = zip_with g l k.
Proof.
  intros Hk Hfg. revert l. induction Hk as [|b k Hb Hk IH]; intros [|a l];
    simpl; try done.
  by rewrite Hfg, IH.
Qed.

Lemma zip_with_fst_id {A B} (l : list A) (k : list B) :
  length l = length k -> zip_with (fun a _ => a) l k = l.
Proof.
  revert k. induction l as [|a l IH]; intros [|b k] Hlen; simpl in *; try done.
  rewrite IH; [done|lia].
Qed.

Lemma zip_with_repeat_l {A B C} (f : A -> B -> C) (x : A) (k : list B) :
  zip_with f (repeat x (length k)) k = map (f x) k.
Proof. induction k as [|b k IH]; simpl; [done|by rewrite IH]. Qed.

Lemma foldl_andb_forallb {A} (g : A -> bool) (l : list A) (b : bool) :
  foldl andb b (map g l) = b && forallb g l.
Proof.
  revert b. induction l as [|x l IH]; intros b; simpl.
  - by rewrite andb_true_r.
  - by rewrite IH, andb_assoc.
Qed.

(** *** The double loop, column by column *)

Section Columns.

Context (cdf : Q -> Q) (ncols : nat) (rows : list (list fval)).
Hypothesis Hrect : Forall (fun r => length r = ncols) rows.

Let sorted_snr : ndarray := Arr2 ncols rows.

Let step := Selection.step cdf sorted_snr.

Lemma foldl_step_None (ts : list Q) : foldl step None ts = None.
Proof. by induction ts. Qed.

Lemma consume_columns_foldl (th : Q) (n : nat) (acc : LeR.selection) :
  LeR.consume_columns cdf sorted_snr th n acc
  = foldl step (Some acc) (repeat th n).
Proof.
  revert acc. induction n as [|n IH]; intros acc; [done|].
  simpl. fold sorted_snr.
  destruct (LeR.consume_column cdf sorted_snr th acc) as [acc'|]; simpl.
  - apply IH.
  - by rewrite foldl_step_None.
Qed.

Lemma consume_requirements_foldl (reqs : list (Q * nat)) (idx : list nat)
    (acc : option LeR.selection) :
  Forall (fun i => (i < length reqs)%nat) idx ->
  foldl (LeR.consume_requirement cdf sorted_snr (map fst reqs) (map snd reqs))
        acc idx
  = foldl step acc
      (flat_map (fun r => repeat r.1 r.2)
         (map (fun j => nth j reqs (0, 0%nat)) idx)).
Proof.
  intros Hidx. revert acc.
  induction Hidx as [|i idx Hi Hidx IH]; intros acc; [done|].
  simpl. rewrite foldl_app, <- IH. f_equal.
  unfold LeR.consume_requirement.
  destruct acc as [acc|]; simpl; [|by rewrite foldl_step_None].
  change (map snd reqs) with (snd <$> reqs).
  change (map fst reqs) with (fst <$> reqs).
  rewrite !list_lookup_fmap.
  destruct (lookup_lt_is_Some_2 reqs i Hi) as [r Hr].
  rewrite Hr. simpl.
  rewrite (nth_lookup_Some _ _ _ _ Hr).
  apply consume_columns_foldl.
Qed.

Lemma consume_column_Some (th : Q) (acc : LeR.selection) :
  (LeR.num2 acc < ncols)%nat ->
  LeR.consume_column cdf sorted_snr th acc
  = Some (LeR.mk_selection
            (zip_with (fun a row => a && fgtb (nth (LeR.num2 acc) row NaN) th)
               (LeR.snr_hit acc) rows)
            (zip_with (fun a row =>
                         a * (1 - cdf (th - nan_to_num (nth (LeR.num2 acc) row NaN))))
               (LeR.pdet_combined acc) rows)
            (Some (map (fun row =>
                          1 - cdf (th - nan_to_num (nth (LeR.num2 acc) row NaN)))
                     rows))
            (S (LeR.num2 acc))).
Proof.
  intros Hlt. unfold LeR.consume_column, sorted_snr, column.
  rewrite (proj2 (Nat.ltb_lt _ _) Hlt). simpl.
  by rewrite !map_map, !zip_with_map_r.
Qed.

(** Consuming the thresholds [ts] from column [num2 acc] on: row by row, the
    hit flag and the probability are folded over the row's next columns. *)
Lemma foldl_step_columns (ts : list Q) :
  forall acc : LeR.selection,
    (LeR.num2 acc + length ts <= ncols)%nat ->
    length (LeR.snr_hit acc) = length rows ->
    length (LeR.pdet_combined acc) = length rows ->
    exists acc',
      foldl step (Some acc) ts = Some acc' /\
      LeR.num2 acc' = (LeR.num2 acc + length ts)%nat /\
      LeR.snr_hit acc'
      = zip_with (fun a row =>
                    foldl andb a
                      (map (fun st => fgtb st.1 st.2)
                         (zip (drop (LeR.num2 acc) row) ts)))
          (LeR.snr_hit acc) rows /\
      LeR.pdet_combined acc'
      = zip_with (fun a row =>
                    foldl Qmult a
                      (map (fun st => 1 - cdf (st.2 - nan_to_num st.1))
                         (zip (drop (LeR.num2 acc) row) ts)))
          (LeR.pdet_combined acc) rows.
Proof.
  induction ts as [|t ts IH]; intros acc Hn Hl1 Hl2.
  - exists acc. split; [done|]. split; [simpl; lia|]. split.
    + rewrite <- (zip_with_fst_id (LeR.snr_hit acc) rows Hl1) at 1.
      apply (zip_with_ext_Forall (fun _ => True));
        [by apply Forall_forall|].
      intros a r _. by destruct (drop (LeR.num2 acc) r).
    + rewrite <- (zip_with_fst_id (LeR.pdet_combined acc) rows Hl2) at 1.
      apply (zip_with_ext_Forall (fun _ => True));
        [by apply Forall_forall|].
      intros a r _. by destruct (drop (LeR.num2 acc) r).
  - simpl in Hn.
    change (foldl step (Some acc) (t :: ts))
      with (foldl step (LeR.consume_column cdf sorted_snr t acc) ts).
    rewrite consume_column_Some by lia.
    set (acc1 := LeR.mk_selection _ _ _ _).
    destruct (IH acc1) as (acc' & Hrun & Hnum & Hhit & Hp).
    { simpl. lia. }
    { unfold acc1. cbn [LeR.snr_hit]. rewrite length_zip_with. lia. }
    { unfold acc1. cbn [LeR.pdet_combined]. rewrite length_zip_with. lia. }
    exists acc'. split; [done|].
    split; [unfold acc1 in Hnum; cbn [LeR.num2 length] in *; lia|]. split.
    + rewrite Hhit. unfold acc1. cbn [LeR.snr_hit LeR.num2].
      rewrite zip_with_zip_with_l.
      apply (zip_with_ext_Forall _ _ _ _ _ Hrect).
      intros a r Hr.
      destruct (lookup_lt_is_Some_2 r (LeR.num2 acc)) as [x Hx]; [lia|].
      rewrite (drop_S _ _ _ Hx), (nth_lookup_Some _ _ _ _ Hx). done.
    + rewrite Hp. unfold acc1. cbn [LeR.pdet_combined LeR.num2].
      rewrite zip_with_zip_with_l.
      apply (zip_with_ext_Forall _ _ _ _ _ Hrect).
      intros a r Hr.
      destruct (lookup_lt_is_Some_2 r (LeR.num2 acc)) as [x Hx]; [lia|].
      rewrite (drop_S _ _ _ Hx), (nth_lookup_Some _ _ _ _ Hx). done.
Qed.

(** Asking for more columns than the matrix has fails ([IndexError]). *)
Lemma foldl_step_overflow (ts : list Q) :
  forall acc : LeR.selection,
    (ncols < LeR.num2 acc + length ts)%nat ->
    (LeR.num2 acc <= ncols)%nat ->
    foldl step (Some acc) ts = None.
Proof.
  induction ts as [|t ts IH]; intros acc Hn Hle; [simpl in Hn; lia|].
  change (foldl step (Some acc) (t :: ts))
    with (foldl step (LeR.consume_column cdf sorted_snr t acc) ts).
  destruct (decide (LeR.num2 acc < ncols)%nat) as [Hlt|Hge].
  - rewrite consume_column_Some by done. apply IH; simpl in *; lia.
  - unfold LeR.consume_column, sorted_snr, column.
    rewrite (proj2 (Nat.ltb_ge _ _)) by lia. simpl. apply foldl_step_None.
Qed.

End Columns.

(** The whole selection: the thresholds of the sorted requirements are
    consumed, column by column, on the rows sorted in descending order. *)
Lemma detection_selection_columns (cdf : Q -> Q) (ncols : nat)
    (rows : list (list fval)) (reqs : list (Q * nat)) :
  LeR.detection_selection cdf (Arr2 ncols rows) (map fst reqs) (map snd reqs)
  = foldl (Selection.step cdf (Arr2 ncols (map sort_descending rows)))
      (Some (LeR.mk_selection (repeat true (length rows))
               (repeat 1 (length rows)) None 0))
      (column_thresholds reqs).
Proof.
  unfold LeR.detection_selection, sort_rows_descending. cbn [mbind option_bind len].
  rewrite (consume_requirements_foldl cdf ncols _ reqs).
  - unfold column_thresholds. rewrite argsort_requirements.
    f_equal. f_equal. f_equal. apply map_ext. intros r. apply sort_fneg.
  - pose proof (argsort_bound (map Qopp (map fst reqs))) as H.
    by rewrite !length_map in H.
Qed.

Lemma sorted_rows_rectangular (ncols : nat) (rows : list (list fval)) :
  Forall (fun r => length r = ncols) rows ->
  Forall (fun r => length r = ncols) (map sort_descending rows).
Proof.
  intros H. apply Forall_map. eapply Forall_impl; [exact H|].
  intros r Hr. simpl. by rewrite sort_descending_length.
Qed.

(** C2. Ranked multi-threshold hit mask: on every rectangular signal matrix
    and every SelectionSpec the hit mask [lensed_rate] computes is the one of
    the spec's algorithm (requirements sorted by descending threshold, each
    system's signals sorted in descending order, every requirement consuming
    the next columns, all comparisons AND-ed), and there is none when the
    requirements ask for more columns than the matrix has.  On the signals
    [[10,7],[9,2],[3,1]] the spec [(8,1)] gives [true, true, false] and the
    spec [(8,1),(5,1)] gives [true, false, false]. *)
Theorem ranked_hit_mask :
  (forall (cdf : Q -> Q) (ncols : nat) (rows : list (list fval))
          (reqs : list (Q * nat)),
     Forall (fun r => length r = ncols) rows ->
     LeR.snr_hit <$> LeR.detection_selection cdf (Arr2 ncols rows)
                       (map fst reqs) (map snd reqs)
     = hit_mask ncols rows reqs) /\
  (forall cdf : Q -> Q,
     LeR.snr_hit <$> LeR.detection_selection cdf Demo.signals [8] [1%nat]
     = Some [true; true; false]) /\
  (forall cdf : Q -> Q,
     LeR.snr_hit <$> LeR.detection_selection cdf Demo.signals [8; 5]
                       [1%nat; 1%nat]
     = Some [true; false; false]).
Proof.
  assert (Hgen : forall (cdf : Q -> Q) (ncols : nat) (rows : list (list fval))
                        (reqs : list (Q * nat)),
             Forall (fun r => length r = ncols) rows ->
             LeR.snr_hit <$> LeR.detection_selection cdf (Arr2 ncols rows)
                               (map fst reqs) (map snd reqs)
             = hit_mask ncols rows reqs).
  { intros cdf ncols rows reqs Hrect.
    rewrite detection_selection_columns. unfold hit_mask, required_images.
    pose proof (sorted_rows_rectangular ncols rows Hrect) as Hrect'.
    destruct (decide (length (column_thresholds reqs) <= ncols)%nat) as [Hle|Hgt].
    - destruct (foldl_step_columns cdf ncols _ Hrect' (column_thresholds reqs)
                  (LeR.mk_selection (repeat true (length rows))
                     (repeat 1 (length rows)) None 0))
        as (acc' & Hrun & _ & Hhit & _).
      { simpl. lia. }
      { simpl. by rewrite repeat_length, length_map. }
      { simpl. by rewrite repeat_length, length_map. }
      rewrite Hrun. simpl. f_equal. rewrite Hhit. cbn [LeR.snr_hit LeR.num2].
      rewrite <- (length_map sort_descending rows), zip_with_repeat_l.
      rewrite map_map. apply map_ext. intros row.
      rewrite foldl_andb_forallb. by rewrite drop_0.
    - rewrite foldl_step_overflow; [done|simpl; lia|simpl; lia]. }
  split; [exact Hgen|]. split; intros cdf.
  - etransitivity;
      [apply (Hgen cdf 2%nat
                [[Fin 10; Fin 7]; [Fin 9; Fin 2]; [Fin 3; Fin 1]]
                [(8, 1%nat)]); by repeat constructor
      |by vm_compute].
  - etransitivity;
      [apply (Hgen cdf 2%nat
                [[Fin 10; Fin 7]; [Fin 9; Fin 2]; [Fin 3; Fin 1]]
                [(8, 1%nat); (5, 1%nat)]); by repeat constructor
      |by vm_compute].
Qed.

Lemma ranked_hit_mask_witness :
  Forall (fun r : list fval => length r = 2%nat) [[Fin 9; NaN]] /\
  LeR.snr_hit <$> LeR.detection_selection Demo.cdf Demo.one_image [8]
                    [2%nat]
  = Some [false].
Proof.
  split; [by repeat constructor|].
  etransitivity;
    [apply (proj1 ranked_hit_mask Demo.cdf 2%nat [[Fin 9; NaN]]
              [(8, 2%nat)]); by repeat constructor
    |by vm_compute].
Defined.

(** *** The joint detection probability *)

Lemma foldl_Qmult_proper (l l' : list Q) :
  Forall2 Qeq l l' ->
  forall a b, a == b -> foldl Qmult a l == foldl Qmult b l'.
Proof.
  induction 1 as [|x y l l' Hxy Hl IH]; intros a b Hab; simpl; [done|].
  apply IH. by rewrite Hab, Hxy.
Qed.

Lemma symmetric_cdf_complement (Phi : Q -> Q) (s t : Q) :
  symmetric_cdf Phi -> 1 - Phi (t - s) == Phi (s - t).
Proof.
  intros [Hproper Hsym].
  assert (H : Phi (t - s) == 1 - Phi (s - t)).
  { rewrite <- Hsym. apply Hproper. ring. }
  rewrite H. ring.
Qed.

(** C3 (as amended). Joint detection probability: for every system the
    probability [lensed_rate] accumulates equals the product, over exactly
    the consumed columns of the descending-sorted signals, of
    [Phi (signal - threshold)] with the threshold of the requirement that
    consumed the column, where a missing signal ([nan]) counts as [0]
    ([np.nan_to_num]); [Phi] is a distribution function symmetric about
    zero, as the standard normal one. *)
Theorem joint_detection_probability_is_product (cdf : Q -> Q) (ncols : nat)
    (rows : list (list fval)) (reqs : list (Q * nat)) :
  symmetric_cdf cdf ->
  Forall (fun r => length r = ncols) rows ->
  option_Forall2 (Forall2 Qeq)
    (LeR.pdet_combined <$> LeR.detection_selection cdf (Arr2 ncols rows)
                             (map fst reqs) (map snd reqs))
    (joint_detection_probabilities cdf ncols rows reqs).
Proof.
  intros Hcdf Hrect.
  rewrite detection_selection_columns.
  unfold joint_detection_probabilities, required_images.
  pose proof (sorted_rows_rectangular ncols rows Hrect) as Hrect'.
  destruct (decide (length (column_thresholds reqs) <= ncols)%nat) as [Hle|Hgt].
  - destruct (foldl_step_columns cdf ncols _ Hrect' (column_thresholds reqs)
                (LeR.mk_selection (repeat true (length rows))
                   (repeat 1 (length rows)) None 0))
      as (acc' & Hrun & _ & _ & Hp).
    { simpl. lia. }
    { simpl. by rewrite repeat_length, length_map. }
    { simpl. by rewrite repeat_length, length_map. }
    rewrite Hrun. simpl. constructor. rewrite Hp.
    cbn [LeR.pdet_combined LeR.num2].
    rewrite <- (length_map sort_descending rows), zip_with_repeat_l.
    rewrite map_map.
    change (map ?f rows) with (f <$> rows).
    apply Forall2_fmap, Forall_Forall2_diag, Forall_forall.
    intros row _. unfold joint_detection_probability, product, consumed.
    rewrite drop_0. apply foldl_Qmult_proper; [|done].
    change (map ?f ?l) with (f <$> l).
    apply Forall2_fmap, Forall_Forall2_diag, Forall_forall.
    intros st _. by apply symmetric_cdf_complement.
  - rewrite foldl_step_overflow; [constructor|simpl; lia|simpl; lia].
Qed.

Lemma demo_cdf_symmetric : symmetric_cdf Demo.cdf.
Proof.
  split.
  - intros x y Hxy. unfold Demo.cdf. by rewrite Hxy.
  - intros x. unfold Demo.cdf. rewrite Qabs_opp.
    assert (Hpos : ~ 1 + Qabs x == 0).
    { intros H0. pose proof (Qabs_nonneg x) as Hx.
      assert (Hlt : 0 < 1 + Qabs x).
      { apply Qlt_le_trans with (1 + 0); [done|].
        by apply Qplus_le_r. }
      rewrite H0 in Hlt. by apply (Qlt_irrefl 0). }
    field. exact Hpos.
Qed.

Lemma joint_detection_probability_is_product_witness :
  symmetric_cdf Demo.cdf /\
  option_Forall2 (Forall2 Qeq)
    (LeR.pdet_combined <$> LeR.detection_selection Demo.cdf Demo.one_image
                             [8] [2%nat])
    (Some [joint_detection_probability Demo.cdf [(8, 2%nat)] [Fin 9; NaN]]).
Proof.
  split; [apply demo_cdf_symmetric|].
  apply (joint_detection_probability_is_product Demo.cdf 2%nat [[Fin 9; NaN]]
           [(8, 2%nat)]).
  - apply demo_cdf_symmetric.
  - by repeat constructor.
Defined.

(** C3, as stated, does not hold where a consumed signal is missing: the
    system with signals [9, nan] and the requirement of two images above 8
    gets the probability [Phi(9 - 8) * Phi(0 - 8) = 1/24] from the code, while
    the product of [Phi (signal - threshold)] over its two columns is [nan]. *)
Lemma missing_signal_counts_as_zero :
  (map Qred <$> (LeR.pdet_combined <$>
     LeR.detection_selection Demo.cdf Demo.one_image [8] [2%nat]))
  = Some [1 # 24] /\
  joint_detection_probability_as_stated Demo.cdf [(8, 2%nat)] [Fin 9; NaN]
  = NaN.
Proof. split; by vm_compute. Qed.

End DetectionSelection.

(** ** Rules for the results of a run *)

Section Rules.

Context {S : Type}.

Lemma wp_bind {A B} (c : M S A) (k : A -> M S B) (Q : B -> S -> Prop)
    (X : S -> Prop) (s : S) :
  wp c (fun a s' => wp (k a) Q X s') X s -> wp (bind c k) Q X s.
Proof. unfold wp, bind. by destruct (c s). Qed.

Lemma wp_ret {A} (a : A) (Q : A -> S -> Prop) (X : S -> Prop) (s : S) :
  Q a s -> wp (ret a) Q X s.
Proof. done. Qed.

Lemma wp_raise {A} (e : exn) (Q : A -> S -> Prop) (X : S -> Prop) (s : S) :
  X s -> wp (raise e) Q X s.
Proof. done. Qed.

Lemma wp_getitem {V} (d : gmap string V) (key : string) (Q : V -> S -> Prop)
    (X : S -> Prop) (s : S) :
  (forall v, d !! key = Some v -> Q v s) -> X s -> wp (getitem d key) Q X s.
Proof. unfold wp, getitem. destruct (d !! key); simpl; auto. Qed.

Lemma wp_of_option {A} (e : exn) (o : option A) (Q : A -> S -> Prop)
    (X : S -> Prop) (s : S) :
  (forall a, o = Some a -> Q a s) -> X s -> wp (of_option e o) Q X s.
Proof. unfold wp, of_option. destruct o; simpl; auto. Qed.

Lemma wp_mono {A} (c : M S A) (Q Q' : A -> S -> Prop) (X X' : S -> Prop) (s : S) :
  (forall a s', Q a s' -> Q' a s') -> (forall s', X s' -> X' s') ->
  wp c Q X s -> wp c Q' X' s.
Proof. unfold wp. destruct (c s); auto. Qed.

End Rules.

Section StateRules.

Import Arr.

Context {R : Type}.

Lemma wp_gets {A} (f : LeR.state R -> A) (Q : A -> LeR.state R -> Prop)
    (X : LeR.state R -> Prop) (s : LeR.state R) :
  Q (f s) s -> wp (LeR.gets f) Q X s.
Proof. done. Qed.

Lemma wp_modify (f : LeR.state R -> LeR.state R)
    (Q : unit -> LeR.state R -> Prop) (X : LeR.state R -> Prop)
    (s : LeR.state R) :
  Q tt (f s) -> wp (LeR.modify f) Q X s.
Proof. done. Qed.

Lemma wp_write (l : LeR.loc) (d : gmap string ndarray)
    (Q : unit -> LeR.state R -> Prop) (X : LeR.state R -> Prop)
    (s : LeR.state R) :
  Q tt (LeR.set_store (<[l := d]> (LeR.store s)) s) -> wp (LeR.write l d) Q X s.
Proof. done. Qed.

Lemma wp_new_dict (d : gmap string ndarray) (Q : LeR.loc -> LeR.state R -> Prop)
    (X : LeR.state R -> Prop) (s : LeR.state R) :
  Q (fresh (dom (LeR.store s)))
    (LeR.set_store (<[fresh (dom (LeR.store s)) := d]> (LeR.store s)) s) ->
  wp (LeR.new_dict d) Q X s.
Proof. done. Qed.

Lemma wp_read (v : LeR.pyval) (Q : gmap string ndarray -> LeR.state R -> Prop)
    (X : LeR.state R -> Prop) (s : LeR.state R) :
  (forall l d, v = LeR.PyDict l -> LeR.store s !! l = Some d -> Q d s) ->
  X s -> wp (LeR.read v) Q X s.
Proof.
  intros HQ HX. unfold wp, LeR.read. destruct v as [|l]; [done|].
  destruct (LeR.store s !! l) eqn:Hl; [by eapply HQ|done].
Qed.

Lemma wp_collab {A} (c : M R A) (Q : A -> LeR.state R -> Prop)
    (X : LeR.state R -> Prop) (s : LeR.state R) :
  (forall a r, c (LeR.rng s) = Ok a r -> Q a (LeR.set_rng r s)) ->
  (forall e r, c (LeR.rng s) = Raise e r -> X (LeR.set_rng r s)) ->
  c (LeR.rng s) <> OutOfFuel ->
  wp (LeR.collab c) Q X s.
Proof.
  intros HQ HX Hfuel. unfold wp, LeR.collab.
  destruct (c (LeR.rng s)) eqn:Hc; eauto.
Qed.

End StateRules.

(** ** Rates and the stored population *)

Section Rates.

Import Arr.

Context {R : Type} (E : LeR.collaborators R).

Lemma fresh_store_lookup (s : LeR.state R) :
  LeR.store s !! fresh (dom (LeR.store s)) = None.
Proof. apply not_elem_of_dom. apply is_fresh. Qed.

Lemma population_unchanged_refl (s : LeR.state R) : population_unchanged s s.
Proof. by split. Qed.

Lemma population_unchanged_write (s s' : LeR.state R) (l : LeR.loc)
    (d : gmap string ndarray) :
  LeR.store s !! l = None ->
  population_unchanged s s' ->
  population_unchanged s (LeR.set_store (<[l := d]> (LeR.store s')) s').
Proof.
  intros Hl (Hsub & Hgw & Hlp). split; [|done]. cbn.
  apply map_subseteq_spec. intros i x Hi.
  rewrite lookup_insert_ne; [|by intros ->; rewrite Hi in Hl].
  by eapply lookup_weaken.
Qed.

Lemma population_unchanged_gw_detectable (s s' : LeR.state R) (v : LeR.pyval) :
  population_unchanged s s' ->
  population_unchanged s (LeR.set_gw_param_detectable v s').
Proof. done. Qed.

Lemma population_unchanged_lensed_detectable (s s' : LeR.state R) (v : LeR.pyval) :
  population_unchanged s s' ->
  population_unchanged s (LeR.set_lensed_param_detectable v s').
Proof. done. Qed.

Lemma wp_read_dict (l : LeR.loc) (d : gmap string ndarray)
    (Q : gmap string ndarray -> LeR.state R -> Prop)
    (X : LeR.state R -> Prop) (s : LeR.state R) :
  LeR.store s !! l = Some d -> Q d s -> wp (LeR.read (LeR.PyDict l)) Q X s.
Proof. intros Hl HQ. unfold wp, LeR.read. by rewrite Hl. Qed.

Ltac frame :=
  repeat first
    [ apply population_unchanged_gw_detectable
    | apply population_unchanged_lensed_detectable
    | apply population_unchanged_write; [assumption|] ];
  try assumption.

Ltac wp_run :=
  repeat
    (cbv beta iota;
     lazymatch goal with
     | |- wp (bind _ _) _ _ _ => apply wp_bind
     | |- wp (ret _) _ _ _ => apply wp_ret
     | |- wp (raise _) _ _ _ => apply wp_raise; by frame
     | |- wp (LeR.gets _) _ _ _ => apply wp_gets
     | |- wp (LeR.modify _) _ _ _ => apply wp_modify
     | |- wp (LeR.write _ _) _ _ _ => apply wp_write
     | |- wp (LeR.new_dict _) _ _ _ => apply wp_new_dict
     | |- wp (LeR.dict_copy _) _ _ _ => unfold LeR.dict_copy
     | |- wp (LeR.read (LeR.PyDict _)) _ _ _ =>
         eapply wp_read_dict;
         [cbn; first [eassumption | apply lookup_insert_eq]|]
     | |- wp (getitem _ _) _ _ _ =>
         apply wp_getitem; [intros ? ?|by frame]
     | |- wp (of_option _ _) _ _ _ =>
         apply wp_of_option; [intros ? ?|by frame]
     | |- wp (match ?v with Arr1 _ => _ | Arr2 _ _ => _ end) _ _ _ =>
         destruct v
     | |- wp (if decide ?P then _ else _) _ _ _ => destruct (decide P)
     end).

Lemma unlensed_rate_sampled (snr_threshold : Q) (s : LeR.state R) (l : LeR.loc)
    (d : gmap string ndarray) :
  LeR.gw_param s = LeR.PyDict l ->
  LeR.store s !! l = Some d ->
  wp (LeR.unlensed_rate E snr_threshold)
    (fun r s' =>
       population_unchanged s s' /\
       exists snr d',
         d !! "opt_snr_net" = Some (Arr1 snr) /\
         r.1 = LeR.rate (LeR.normalization_pdf_z E)
                 (map of_bool (map (fun x => fgtb x snr_threshold) snr)) /\
         r.2 = LeR.rate (LeR.normalization_pdf_z E)
                 (map (fun x => fsub (Fin 1)
                         (flift1 (LeR.norm_cdf E) (fsub (Fin snr_threshold) x)))
                    snr) /\
         LeR.gw_param_detectable s' = LeR.PyDict (fresh (dom (LeR.store s))) /\
         LeR.lensed_param_detectable s' = LeR.lensed_param_detectable s /\
         LeR.store s' = <[fresh (dom (LeR.store s)) := d']> (LeR.store s) /\
         dict_getmask (map (fun x => fgtb x snr_threshold) snr)
           (<["pdet_net" := Arr1 (map (fun x => fsub (Fin 1)
                         (flift1 (LeR.norm_cdf E) (fsub (Fin snr_threshold) x)))
                    snr)]> d) = Some d')
    (population_unchanged s) s.
Proof.
  intros Hgw Hd. pose proof (fresh_store_lookup s) as Hfresh.
  assert (Hx : population_unchanged s s) by apply population_unchanged_refl.
  unfold LeR.unlensed_rate.
  apply wp_bind, wp_gets. rewrite Hgw. wp_run. rewrite Hgw. wp_run.
  split; [by frame|]. eexists _, _. cbn. by rewrite !insert_insert_eq.
Qed.

Lemma lensed_rate_sampled (size : Z) (snr_threshold : list Q)
    (num_img : list nat) (none_as_nan : bool) (s : LeR.state R) (l : LeR.loc)
    (d : gmap string ndarray) :
  LeR.lensed_param s = LeR.PyDict l ->
  LeR.store s !! l = Some d ->
  wp (LeR.lensed_rate E size snr_threshold num_img none_as_nan)
    (fun r s' =>
       population_unchanged s s' /\
       exists snr sel pdet weights d',
         d !! "opt_snr_net" = Some snr /\
         LeR.detection_selection (LeR.norm_cdf E) snr snr_threshold num_img
           = Some sel /\
         LeR.pdet sel = Some pdet /\
         d !! "weights" = Some (Arr1 weights) /\
         length weights = length (LeR.snr_hit sel) /\
         r.1 = LeR.rate (LeR.normalization_pdf_z_lensed E)
                 (zip_with fmul (map of_bool (LeR.snr_hit sel)) weights) /\
         r.2 = LeR.rate (LeR.normalization_pdf_z_lensed E)
                 (zip_with fmul (map Fin (LeR.pdet_combined sel)) weights) /\
         LeR.lensed_param_detectable s'
           = LeR.PyDict (fresh (dom (LeR.store s))) /\
         LeR.gw_param_detectable s' = LeR.gw_param_detectable s /\
         dict_getmask (LeR.snr_hit sel) (<["pdet_net" := Arr1 (map Fin pdet)]> d)
           = Some d' /\
         LeR.store s'
           = <[fresh (dom (LeR.store s)) :=
                 if none_as_nan then d'
                 else amap (fun x => Fin (nan_to_num x)) <$> d']> (LeR.store s))
    (population_unchanged s) s.
Proof.
  intros Hlp Hd. pose proof (fresh_store_lookup s) as Hfresh.
  assert (Hx : population_unchanged s s) by apply population_unchanged_refl.
  unfold LeR.lensed_rate.
  apply wp_bind, wp_gets. rewrite Hlp. wp_run. rewrite Hlp. wp_run.
  rewrite lookup_insert_ne in H3 by done.
  split; [by frame|]. eexists _, _, _, _, _. cbn. rewrite !insert_insert_eq.
  by repeat split.
Qed.
End Rates.

(** ** The stored population is not touched *)

Section Frame.

Import Arr.

Context {R : Type} (E : LeR.collaborators R).

(** C10. A rate calculation on a sampled population leaves the population
    untouched.  When [self.gw_param] (respectively [self.lensed_param]) refers
    to a dict object, a call of [unlensed_rate] (respectively [lensed_rate])
    ends, returning or raising, in a state in which the attribute refers to
    the same object, that object and every other dict object of the store
    have the entries they had, and both population attributes are as they
    were.  When the call returns, the store has exactly one more object, the
    filtered copy; [self.gw_param_detectable] (respectively
    [self.lensed_param_detectable]) refers to it and the other detectable
    attribute is as it was. *)
Theorem rate_calls_leave_population_unchanged :
  (forall (snr_threshold : Q) (s : LeR.state R) (l : LeR.loc)
          (d : gmap string ndarray),
      LeR.gw_param s = LeR.PyDict l ->
      LeR.store s !! l = Some d ->
      match LeR.unlensed_rate E snr_threshold s with
      | Ok _ s' =>
          LeR.gw_param s' = LeR.PyDict l /\
          LeR.store s' !! l = Some d /\
          population_unchanged s s' /\
          LeR.lensed_param_detectable s' = LeR.lensed_param_detectable s /\
          exists l' d',
            LeR.store s !! l' = None /\
            LeR.store s' = <[l' := d']> (LeR.store s) /\
            LeR.gw_param_detectable s' = LeR.PyDict l'
      | Raise _ s' =>
          LeR.gw_param s' = LeR.PyDict l /\
          LeR.store s' !! l = Some d /\
          population_unchanged s s'
      | OutOfFuel => False
      end) /\
  (forall (size : Z) (snr_threshold : list Q) (num_img : list nat)
          (none_as_nan : bool) (s : LeR.state R) (l : LeR.loc)
          (d : gmap string ndarray),
      LeR.lensed_param s = LeR.PyDict l ->
      LeR.store s !! l = Some d ->
      match LeR.lensed_rate E size snr_threshold num_img none_as_nan s with
      | Ok _ s' =>
          LeR.lensed_param s' = LeR.PyDict l /\
          LeR.store s' !! l = Some d /\
          population_unchanged s s' /\
          LeR.gw_param_detectable s' = LeR.gw_param_detectable s /\
          exists l' d',
            LeR.store s !! l' = None /\
            LeR.store s' = <[l' := d']> (LeR.store s) /\
            LeR.lensed_param_detectable s' = LeR.PyDict l'
      | Raise _ s' =>
          LeR.lensed_param s' = LeR.PyDict l /\
          LeR.store s' !! l = Some d /\
          population_unchanged s s'
      | OutOfFuel => False
      end).
Proof.
  split.
  - intros t s l d Hgw Hd.
    pose proof (unlensed_rate_sampled E t s l d Hgw Hd) as H.
    unfold wp in H. destruct (LeR.unlensed_rate E t s) as [r s'|e s'|]; [| |done].
    + destruct H as (Hpop & snr & d' & _ & _ & _ & Hdet & Hother & Hstore & _).
      pose proof Hpop as (Hsub & Hgw' & _).
      split_and!; [congruence|by eapply lookup_weaken|done..|].
      exists (fresh (dom (LeR.store s))), d'.
      split; [apply fresh_store_lookup|done].
    + pose proof H as (Hsub & Hgw' & _).
      split_and!; [congruence|by eapply lookup_weaken|done..].
  - intros size ts ns nan s l d Hlp Hd.
    pose proof (lensed_rate_sampled E size ts ns nan s l d Hlp Hd) as H.
    unfold wp in H.
    destruct (LeR.lensed_rate E size ts ns nan s) as [r s'|e s'|]; [| |done].
    + destruct H as (Hpop & snr & sel & p & w & d' & _ & _ & _ & _ & _ & _ & _
                     & Hdet & Hother & _ & Hstore).
      pose proof Hpop as (Hsub & _ & Hlp').
      split_and!; [congruence|by eapply lookup_weaken|done..|].
      eexists (fresh (dom (LeR.store s))), _.
      split; [apply fresh_store_lookup|done].
    + pose proof H as (Hsub & _ & Hlp').
      split_and!; [congruence|by eapply lookup_weaken|done..].
Qed.

End Frame.

Lemma rate_calls_leave_population_unchanged_witness :
  (LeR.gw_param Survey.sampled = LeR.PyDict 0%nat /\
   LeR.store Survey.sampled !! 0%nat = Some Survey.gw_population /\
   match LeR.unlensed_rate Survey.ler 8 Survey.sampled with
   | Ok _ s' =>
       LeR.store s' !! 0%nat = Some Survey.gw_population /\
       LeR.gw_param_detectable s' = LeR.PyDict 2%nat
   | _ => False
   end) /\
  (LeR.lensed_param Survey.sampled = LeR.PyDict 1%nat /\
   LeR.store Survey.sampled !! 1%nat = Some Survey.lensed_population /\
   match LeR.lensed_rate Survey.ler 0 [8; 5] [1; 1]%nat true Survey.sampled with
   | Ok _ s' =>
       LeR.store s' !! 1%nat = Some Survey.lensed_population /\
       LeR.lensed_param_detectable s' = LeR.PyDict 2%nat
   | _ => False
   end).
Proof.
  pose proof (rate_calls_leave_population_unchanged Survey.ler) as [Hu Hl].
  split.
  - specialize (Hu 8 Survey.sampled 0%nat Survey.gw_population
                  eq_refl eq_refl).
    split; [reflexivity|]. split; [reflexivity|].
    destruct (LeR.unlensed_rate Survey.ler 8 Survey.sampled)
      as [r s'|e s'|] eqn:Hrun; [|by vm_compute in Hrun|done].
    destruct Hu as (_ & Hd & _). split; [exact Hd|].
    vm_compute in Hrun. by injection Hrun as _ <-.
  - specialize (Hl 0%Z [8; 5] [1; 1]%nat true Survey.sampled 1%nat
                  Survey.lensed_population eq_refl eq_refl).
    split; [reflexivity|]. split; [reflexivity|].
    destruct (LeR.lensed_rate Survey.ler 0 [8; 5] [1; 1]%nat true Survey.sampled)
      as [r s'|e s'|] eqn:Hrun; [|by vm_compute in Hrun|done].
    destruct Hl as (_ & Hd & _). split; [exact Hd|].
    vm_compute in Hrun. by injection Hrun as _ <-.
Defined.

(** ** The rate formula *)

Section FloatEquality.

Import Arr.

Lemma feq_refl (x : fval) : feq x x.
Proof. destruct x; simpl; [done|reflexivity]. Qed.

Lemma feq_sym (x y : fval) : feq x y -> feq y x.
Proof. destruct x, y; simpl; try done. Qed.

Lemma feq_trans (x y z : fval) : feq x y -> feq y z -> feq x z.
Proof. destruct x, y, z; simpl; try done. intros H1 H2. by rewrite H1. Qed.

Lemma fadd_feq (a a' b b' : fval) :
  feq a a' -> feq b b' -> feq (fadd a b) (fadd a' b').
Proof. destruct a, a', b, b'; simpl; try done. intros H1 H2. by rewrite H1, H2. Qed.

Lemma fmul_feq (a a' b b' : fval) :
  feq a a' -> feq b b' -> feq (fmul a b) (fmul a' b').
Proof. destruct a, a', b, b'; simpl; try done. intros H1 H2. by rewrite H1, H2. Qed.

Lemma fdiv_feq (a a' b b' : fval) :
  feq a a' -> feq b b' -> feq (fdiv a b) (fdiv a' b').
Proof. destruct a, a', b, b'; simpl; try done. intros H1 H2. by rewrite H1, H2. Qed.

Lemma fmul_one (x : fval) : feq (fmul x (Fin 1)) x.
Proof. destruct x; simpl; [done|ring]. Qed.

Lemma sum_unit_weights (a : list fval) :
  feq (sum (zip_with fmul a (repeat (Fin 1) (length a)))) (sum a).
Proof.
  induction a as [|x a IH]; [apply feq_refl|].
  simpl. apply fadd_feq; [apply fmul_one|exact IH].
Qed.

Lemma mean_unit_weights (a : list fval) :
  feq (mean (zip_with fmul a (repeat (Fin 1) (length a)))) (mean a).
Proof.
  destruct a as [|x a]; [done|].
  change (mean (x :: a))
    with (fdiv (sum (x :: a)) (Fin (inject_Z (Z.of_nat (length (x :: a)))))).
  change (zip_with fmul (x :: a) (repeat (Fin 1) (length (x :: a))))
    with (fmul x (Fin 1) :: zip_with fmul a (repeat (Fin 1) (length a))).
  unfold mean.
  apply fdiv_feq.
  - apply (sum_unit_weights (x :: a)).
  - simpl length. rewrite length_zip_with, repeat_length, Nat.min_id.
    apply feq_refl.
Qed.

Lemma rate_unit_weights (c0 : Q) (a : list fval) :
  feq (LeR.rate c0 a) (rate_estimate c0 a (repeat (Fin 1) (length a))).
Proof.
  unfold LeR.rate, rate_estimate.
  apply fmul_feq; [apply feq_refl|]. apply feq_sym, mean_unit_weights.
Qed.

Lemma sum_of_bool (ind : list bool) :
  feq (sum (map of_bool ind))
      (Fin (inject_Z (Z.of_nat (count_occ Bool.bool_dec ind true)))).
Proof.
  induction ind as [|b ind IH]; [by simpl|].
  change (sum (map of_bool (b :: ind)))
    with (fadd (of_bool b) (sum (map of_bool ind))).
  destruct (sum (map of_bool ind)) as [|q]; [done|]. simpl in IH.
  destruct b.
  - rewrite count_occ_cons_eq by done.
    rewrite Nat2Z.inj_succ, <- Z.add_1_l, inject_Z_plus.
    simpl. by rewrite IH.
  - rewrite count_occ_cons_neq by done. simpl. rewrite IH. ring.
Qed.

End FloatEquality.

Section SelectionRows.

Import Arr.

Lemma column_length (a : ndarray) (j : nat) (col : list fval) :
  column a j = Some col -> length col = len a.
Proof.
  destruct a as [v|n rows]; [done|]. simpl.
  destruct (j <? n)%nat; [|done]. intros [= <-]. by rewrite length_map.
Qed.

Lemma sort_rows_descending_len (a b : ndarray) :
  sort_rows_descending a = Some b -> len b = len a.
Proof.
  destruct a as [v|n rows]; [done|]. intros [= <-]. simpl.
  by rewrite length_map.
Qed.

Lemma consume_column_rows (cdf : Q -> Q) (a : ndarray) (th : Q)
    (acc acc' : LeR.selection) :
  selection_rows (len a) acc ->
  LeR.consume_column cdf a th acc = Some acc' ->
  selection_rows (len a) acc'.
Proof.
  intros (Hh & Hc & Hp). unfold LeR.consume_column.
  destruct (column a (LeR.num2 acc)) as [col|] eqn:Hcol; [|done].
  apply column_length in Hcol. intros [= <-]. unfold selection_rows. simpl.
  rewrite !length_zip_with, !length_map, Hh, Hc, Hcol.
  split_and!; [lia..|]. intros p [= <-]. by rewrite length_map.
Qed.

Lemma consume_columns_rows (cdf : Q -> Q) (a : ndarray) (th : Q) (num1 : nat)
    (acc acc' : LeR.selection) :
  selection_rows (len a) acc ->
  LeR.consume_columns cdf a th num1 acc = Some acc' ->
  selection_rows (len a) acc'.
Proof.
  revert acc. induction num1 as [|n IH]; intros acc Hacc; simpl.
  - by intros [= <-].
  - destruct (LeR.consume_column cdf a th acc) as [acc1|] eqn:H1; [|done].
    simpl. apply IH. by eapply consume_column_rows.
Qed.

Lemma consume_requirements_rows (cdf : Q -> Q) (a : ndarray)
    (snr_threshold : list Q) (num_img : list nat) (idx : list nat)
    (acc : option LeR.selection) (sel : LeR.selection) :
  (forall acc0, acc = Some acc0 -> selection_rows (len a) acc0) ->
  foldl (LeR.consume_requirement cdf a snr_threshold num_img) acc idx
    = Some sel ->
  selection_rows (len a) sel.
Proof.
  revert acc. induction idx as [|i idx IH]; intros acc Hacc; simpl.
  - intros ->. by apply Hacc.
  - apply IH. intros acc1. unfold LeR.consume_requirement.
    destruct acc as [acc0|]; [|done]. simpl.
    destruct (num_img !! i) as [num1|]; [|done]. simpl.
    destruct (snr_threshold !! i) as [th|]; [|done]. simpl.
    apply consume_columns_rows. by apply Hacc.
Qed.

Lemma detection_selection_rows (cdf : Q -> Q) (snr : ndarray)
    (snr_threshold : list Q) (num_img : list nat) (sel : LeR.selection) :
  LeR.detection_selection cdf snr snr_threshold num_img = Some sel ->
  selection_rows (len snr) sel.
Proof.
  unfold LeR.detection_selection.
  destruct (sort_rows_descending snr) as [sorted|] eqn:Hs; [|done]. simpl.
  apply sort_rows_descending_len in Hs. rewrite <- Hs. intros Hfold.
  eapply consume_requirements_rows; [|exact Hfold].
  intros acc0 [= <-]. unfold selection_rows. simpl.
  rewrite !repeat_length. by rewrite Hs.
Qed.

Lemma dict_getmask_rows (mask : list bool) (d : gmap string ndarray) :
  map_Forall (fun _ a => len a = length mask) d ->
  is_Some (dict_getmask mask d).
Proof.
  intros Hd. unfold dict_getmask. case_decide as H; [done|]. destruct H.
  intros k a Hk. unfold getmask. rewrite decide_True; [done|].
  by eapply Hd.
Qed.

End SelectionRows.

Section RateFormula.

Import Arr.

Context {R : Type} (E : LeR.collaborators R).

Lemma wp_getitem_Some {S V} (d : gmap string V) (key : string) (v : V)
    (Q : V -> S -> Prop) (X : S -> Prop) (s : S) :
  d !! key = Some v -> Q v s -> wp (getitem d key) Q X s.
Proof. intros Hk HQ. unfold wp, getitem. by rewrite Hk. Qed.

Lemma wp_of_option_Some {S A} (e : exn) (o : option A) (a : A)
    (Q : A -> S -> Prop) (X : S -> Prop) (s : S) :
  o = Some a -> Q a s -> wp (of_option e o) Q X s.
Proof. intros -> HQ. done. Qed.

Lemma wp_returns {S A} (c : M S A) (Q : A -> S -> Prop) (s : S) :
  wp c Q (fun _ => False) s -> exists a s', c s = Ok a s' /\ Q a s'.
Proof. unfold wp. destruct (c s) as [a s'| |]; [eauto|done..]. Qed.

Ltac wp_ok :=
  repeat
    (cbv beta iota;
     lazymatch goal with
     | |- wp (bind _ _) _ _ _ => apply wp_bind
     | |- wp (ret _) _ _ _ => apply wp_ret
     | |- wp (LeR.gets _) _ _ _ => apply wp_gets
     | |- wp (LeR.modify _) _ _ _ => apply wp_modify
     | |- wp (LeR.write _ _) _ _ _ => apply wp_write
     | |- wp (LeR.new_dict _) _ _ _ => apply wp_new_dict
     | |- wp (LeR.dict_copy _) _ _ _ => unfold LeR.dict_copy
     | |- wp (LeR.read (LeR.PyDict _)) _ _ _ =>
         eapply wp_read_dict;
         [cbn; first [eassumption | apply lookup_insert_eq]|]
     | |- wp (getitem _ _) _ _ _ =>
         eapply wp_getitem_Some;
         [first [eassumption
                | rewrite lookup_insert_ne by done; eassumption]|]
     | |- wp (of_option _ _) _ _ _ =>
         eapply wp_of_option_Some; [eassumption|]
     end).

Lemma unlensed_rate_returns (snr_threshold : Q) (s : LeR.state R)
    (l : LeR.loc) (d : gmap string ndarray) (zs : ndarray) (snr : list fval) :
  LeR.gw_param s = LeR.PyDict l ->
  LeR.store s !! l = Some d ->
  d !! "zs" = Some zs ->
  d !! "opt_snr_net" = Some (Arr1 snr) ->
  map_Forall (fun _ a => len a = length snr) d ->
  exists s',
    LeR.unlensed_rate E snr_threshold s
    = Ok (LeR.rate (LeR.normalization_pdf_z E)
            (map of_bool (map (fun x => fgtb x snr_threshold) snr)),
          LeR.rate (LeR.normalization_pdf_z E)
            (map (fun x => fsub (Fin 1)
                    (flift1 (LeR.norm_cdf E) (fsub (Fin snr_threshold) x)))
               snr)) s'.
Proof.
  intros Hgw Hd Hzs Hsnr Hrows.
  set (pdet := map (fun x => fsub (Fin 1)
                 (flift1 (LeR.norm_cdf E) (fsub (Fin snr_threshold) x))) snr).
  set (mask := map (fun x => fgtb x snr_threshold) snr).
  destruct (dict_getmask_rows mask (<["pdet_net" := Arr1 pdet]> d))
    as [d' Hd'].
  { apply map_Forall_insert_2; [by unfold pdet, mask; simpl; rewrite !length_map|].
    intros k a Hk. unfold mask. rewrite length_map. by eapply Hrows. }
  cut (wp (LeR.unlensed_rate E snr_threshold)
         (fun r _ => r = (LeR.rate (LeR.normalization_pdf_z E) (map of_bool mask),
                          LeR.rate (LeR.normalization_pdf_z E) pdet))
         (fun _ => False) s).
  { intros H. apply wp_returns in H as (r & s' & Hrun & ->). eauto. }
  unfold LeR.unlensed_rate.
  apply wp_bind, wp_gets. rewrite Hgw. wp_ok. rewrite Hgw. wp_ok.
  done.
Qed.

Lemma lensed_rate_returns (size : Z) (snr_threshold : list Q)
    (num_img : list nat) (none_as_nan : bool) (s : LeR.state R)
    (l : LeR.loc) (d : gmap string ndarray) (zs snr : ndarray)
    (weights : list fval) (sel : LeR.selection) (p : list Q) :
  LeR.lensed_param s = LeR.PyDict l ->
  LeR.store s !! l = Some d ->
  d !! "zs" = Some zs ->
  d !! "opt_snr_net" = Some snr ->
  d !! "weights" = Some (Arr1 weights) ->
  map_Forall (fun _ a => len a = len snr) d ->
  LeR.detection_selection (LeR.norm_cdf E) snr snr_threshold num_img
    = Some sel ->
  LeR.pdet sel = Some p ->
  exists s',
    LeR.lensed_rate E size snr_threshold num_img none_as_nan s
    = Ok (LeR.rate (LeR.normalization_pdf_z_lensed E)
            (zip_with fmul (map of_bool (LeR.snr_hit sel)) weights),
          LeR.rate (LeR.normalization_pdf_z_lensed E)
            (zip_with fmul (map Fin (LeR.pdet_combined sel)) weights)) s'.
Proof.
  intros Hlp Hd Hzs Hsnr Hw Hrows Hsel Hp.
  destruct (detection_selection_rows _ _ _ _ _ Hsel) as (Hh & _ & Hpl).
  specialize (Hpl p Hp).
  destruct (dict_getmask_rows (LeR.snr_hit sel)
              (<["pdet_net" := Arr1 (map Fin p)]> d)) as [d' Hd'].
  { apply map_Forall_insert_2; [by simpl; rewrite length_map, Hpl, Hh|].
    intros k a Hk. rewrite Hh. by eapply Hrows. }
  assert (Hwl : length weights = length (LeR.snr_hit sel)).
  { rewrite Hh. by apply (Hrows _ _ Hw). }
  cut (wp (LeR.lensed_rate E size snr_threshold num_img none_as_nan)
         (fun r _ =>
            r = (LeR.rate (LeR.normalization_pdf_z_lensed E)
                   (zip_with fmul (map of_bool (LeR.snr_hit sel)) weights),
                 LeR.rate (LeR.normalization_pdf_z_lensed E)
                   (zip_with fmul (map Fin (LeR.pdet_combined sel)) weights)))
         (fun _ => False) s).
  { intros H. apply wp_returns in H as (r & s' & Hrun & ->). eauto. }
  unfold LeR.lensed_rate.
  apply wp_bind, wp_gets. rewrite Hlp. wp_ok. rewrite Hlp. wp_ok.
  destruct (decide (length weights = length (LeR.snr_hit sel))); [|done].
  by wp_ok.
Qed.

End RateFormula.

Section RateTheorem.

Import Arr.

(** C4. Every rate estimate is [C0 * mean(x * weight)].  On a sampled
    population with a one-dimensional signal array (every array with one row
    per source), [unlensed_rate] returns the step rate and the pdet rate,
    equal to the formula with the indicator [snr > threshold], respectively
    the probability [1 - cdf(threshold - snr)], and the weight [1] for every
    source.  On a sampled lensed population for which the detection selection
    is defined, [lensed_rate] returns the formula with the hit mask,
    respectively the joint detection probability, and the ['weights'] field.
    With [C0 = 2], ten indicators with three ones and unit weights give
    [0.6]; a probability array of mean [0.4] gives [0.8]. *)
Theorem rate_formula {R : Type} (E : LeR.collaborators R) :
  (forall (snr_threshold : Q) (s : LeR.state R) (l : LeR.loc)
          (d : gmap string ndarray) (zs : ndarray) (snr : list fval),
      LeR.gw_param s = LeR.PyDict l ->
      LeR.store s !! l = Some d ->
      d !! "zs" = Some zs ->
      d !! "opt_snr_net" = Some (Arr1 snr) ->
      map_Forall (fun _ a => len a = length snr) d ->
      exists r s',
        LeR.unlensed_rate E snr_threshold s = Ok r s' /\
        feq r.1
          (rate_estimate (LeR.normalization_pdf_z E)
             (map (fun x => of_bool (fgtb x snr_threshold)) snr)
             (repeat (Fin 1) (length snr))) /\
        feq r.2
          (rate_estimate (LeR.normalization_pdf_z E)
             (map (fun x => fsub (Fin 1)
                     (flift1 (LeR.norm_cdf E) (fsub (Fin snr_threshold) x)))
                snr)
             (repeat (Fin 1) (length snr)))) /\
  (forall (size : Z) (snr_threshold : list Q) (num_img : list nat)
          (none_as_nan : bool) (s : LeR.state R) (l : LeR.loc)
          (d : gmap string ndarray) (zs snr : ndarray) (weights : list fval)
          (sel : LeR.selection) (p : list Q),
      LeR.lensed_param s = LeR.PyDict l ->
      LeR.store s !! l = Some d ->
      d !! "zs" = Some zs ->
      d !! "opt_snr_net" = Some snr ->
      d !! "weights" = Some (Arr1 weights) ->
      map_Forall (fun _ a => len a = len snr) d ->
      LeR.detection_selection (LeR.norm_cdf E) snr snr_threshold num_img
        = Some sel ->
      LeR.pdet sel = Some p ->
      exists s',
        LeR.lensed_rate E size snr_threshold num_img none_as_nan s
        = Ok (rate_estimate (LeR.normalization_pdf_z_lensed E)
                (map of_bool (LeR.snr_hit sel)) weights,
              rate_estimate (LeR.normalization_pdf_z_lensed E)
                (map Fin (LeR.pdet_combined sel)) weights) s') /\
  (forall ind : list bool,
      length ind = 10%nat ->
      count_occ Bool.bool_dec ind true = 3%nat ->
      feq (rate_estimate 2 (map of_bool ind) (repeat (Fin 1) 10))
          (Fin (6 # 10))) /\
  (forall p : list fval,
      feq (mean p) (Fin (4 # 10)) ->
      feq (rate_estimate 2 p (repeat (Fin 1) (length p))) (Fin (8 # 10))).
Proof.
  split_and!.
  - intros t s l d zs snr Hgw Hd Hzs Hsnr Hrows.
    destruct (unlensed_rate_returns E t s l d zs snr Hgw Hd Hzs Hsnr Hrows)
      as [s' Hrun].
    eexists _, s'. split; [exact Hrun|]. cbn [fst snd]. split.
    + rewrite map_map.
      eapply feq_trans; [apply rate_unit_weights|].
      rewrite length_map. apply feq_refl.
    + eapply feq_trans; [apply rate_unit_weights|].
      rewrite length_map. apply feq_refl.
  - intros size ts ns nan s l d zs snr w sel p Hlp Hd Hzs Hsnr Hw Hrows Hsel Hp.
    exact (lensed_rate_returns E size ts ns nan s l d zs snr w sel p
             Hlp Hd Hzs Hsnr Hw Hrows Hsel Hp).
  - intros ind Hlen Hcount.
    replace 10%nat with (length (map of_bool ind)) by by rewrite length_map.
    eapply feq_trans; [apply feq_sym, rate_unit_weights|].
    unfold LeR.rate, mean. destruct ind as [|b ind]; [done|].
    change (map of_bool (b :: ind)) with (of_bool b :: map of_bool ind).
    cbv iota. rewrite <- (map_cons of_bool b ind), length_map, Hlen.
    eapply feq_trans.
    { apply fmul_feq; [apply feq_refl|].
      apply fdiv_feq; [apply sum_of_bool|apply feq_refl]. }
    rewrite Hcount. by vm_compute.
  - intros p Hmean.
    eapply feq_trans; [apply feq_sym, rate_unit_weights|].
    unfold LeR.rate.
    eapply feq_trans; [apply fmul_feq; [apply feq_refl|exact Hmean]|].
    by vm_compute.
Qed.

Lemma rate_formula_witness :
  (exists r s',
     LeR.unlensed_rate Survey.ler 8 Survey.sampled = Ok r s' /\
     feq r.1 (Fin (6 # 10))) /\
  (exists r s',
     LeR.lensed_rate Survey.ler 0 [8; 5] [1; 1]%nat true Survey.sampled
     = Ok r s' /\
     feq r.1 (Fin (2 # 3))).
Proof.
  pose proof (rate_formula Survey.ler) as (Hu & Hl & Hstep & _).
  split.
  - destruct (Hu 8 Survey.sampled 0%nat Survey.gw_population
                (Arr1 (repeat (Fin 1) 10))
                (map Fin [12; 3; 9; 1; 2; 10; 4; 5; 6; 7]))
      as (r & s' & Hrun & Hr1 & _);
      [reflexivity..| |].
    { refine (bool_decide_unpack _ _). by vm_compute. }
    exists r, s'. split; [exact Hrun|].
    eapply feq_trans; [exact Hr1|].
    rewrite <- map_map.
    apply (Hstep (map (fun x => fgtb x 8)
                    (map Fin [12; 3; 9; 1; 2; 10; 4; 5; 6; 7])));
      reflexivity.
  - edestruct (Hl 0%Z [8; 5] [1; 1]%nat true Survey.sampled 1%nat
                 Survey.lensed_population (Arr1 (repeat (Fin 1) 3))
                 Demo.signals (map Fin [1; 1 # 2; 1]))
      as (s' & Hrun); [reflexivity..| | | |].
    { refine (bool_decide_unpack _ _). by vm_compute. }
    { by vm_compute. }
    { reflexivity. }
    eexists _, s'. split; [exact Hrun|]. by vm_compute.
Defined.

End RateTheorem.

(** ** Sampling in batches *)

Section BatchPlan.

Import Arr.

Lemma ceil_div_spec (n b : Z) :
  (0 < b)%Z -> (b * (ceil_div n b - 1) < n <= b * ceil_div n b)%Z.
Proof.
  intros Hb. unfold ceil_div.
  pose proof (Z.div_mod (n + b - 1) b ltac:(lia)) as Hdm.
  pose proof (Z.mod_pos_bound (n + b - 1) b Hb) as Hr. lia.
Qed.

Lemma ceil_div_quot (n b : Z) :
  (0 <= n)%Z -> (0 < b)%Z ->
  ceil_div n b
  = (if (n mod b =? 0)%Z then n ÷ b else n ÷ b + 1)%Z.
Proof.
  intros Hn Hb. rewrite Z.quot_div_nonneg by lia. unfold ceil_div.
  pose proof (Z.div_mod n b ltac:(lia)) as Hdm.
  pose proof (Z.mod_pos_bound n b Hb) as Hr.
  destruct (Z.eqb_spec (n mod b) 0) as [H0|H0]; symmetry.
  - apply (Z.div_unique_pos _ _ _ (b - 1)); lia.
  - apply (Z.div_unique_pos _ _ _ (n mod b - 1)); lia.
Qed.

Lemma batch_plan_ceil {R} (n b : Z) (s : LeR.state R) :
  (1 <= n)%Z -> (1 <= b)%Z ->
  LeR.batch_plan n b s
  = Ok ((n - (ceil_div n b - 1) * b)%Z, (ceil_div n b - 1)%Z) s.
Proof.
  intros Hn Hb. unfold LeR.batch_plan.
  destruct (Z.eqb_spec b 0) as [?|_]; [lia|].
  rewrite <- ceil_div_quot by lia.
  destruct (Z.gtb_spec n b) as [Hgt|Hle]; [done|].
  pose proof (ceil_div_spec n b ltac:(lia)) as Hc.
  assert (ceil_div n b = 1%Z) as -> by nia.
  unfold ret. do 2 f_equal. lia.
Qed.

Lemma leading_batch_bounds (n b : Z) :
  (1 <= n)%Z -> (1 <= b)%Z ->
  (1 <= n - (ceil_div n b - 1) * b <= b)%Z /\ (0 <= ceil_div n b - 1)%Z.
Proof.
  intros Hn Hb. pose proof (ceil_div_spec n b ltac:(lia)) as Hc. nia.
Qed.

End BatchPlan.

Section Batches.

Import Arr.

Lemma batch_of_lookup (schema : gmap string (option nat)) (n : nat)
    (d : gmap string ndarray) (k : string) (a : ndarray) :
  batch_of schema n d -> d !! k = Some a ->
  len a = n /\ schema !! k = Some (shape a).
Proof. intros [_ Hd] Hk. by apply (Hd k a). Qed.

Lemma batch_of_update (sa sb : gmap string (option nat)) (n : nat)
    (a b : gmap string ndarray) :
  batch_of sa n a -> batch_of sb n b -> batch_of (sa ∪ sb) n (a ∪ b).
Proof.
  intros [Hda Ha] [Hdb Hb]. split; [by rewrite !dom_union_L, Hda, Hdb|].
  intros k x Hk. apply lookup_union_Some_raw in Hk as [Hk|[Hn Hk]].
  - destruct (Ha k x Hk) as [Hl Hs]. split; [done|].
    by rewrite (lookup_union_Some_l _ _ _ _ Hs).
  - destruct (Hb k x Hk) as [Hl Hs]. split; [done|].
    rewrite lookup_union_r; [done|].
    apply not_elem_of_dom. rewrite <- Hda. by apply not_elem_of_dom.
Qed.

Lemma append_batch (a b : ndarray) :
  shape a = shape b ->
  exists c, append a b = Some c /\ len c = (len a + len b)%nat /\
            shape c = shape a.
Proof.
  destruct a as [v|n rows], b as [w|m rows']; simpl; try done.
  - intros _. eexists. split; [done|]. simpl. by rewrite length_app.
  - intros [= <-]. rewrite decide_True by done.
    eexists. split; [done|]. simpl. by rewrite length_app.
Qed.

Lemma dict_append_batch (schema : gmap string (option nat)) (n m : nat)
    (a b : gmap string ndarray) :
  batch_of schema n a -> batch_of schema m b ->
  exists c, dict_append a b = Some c /\ batch_of schema (n + m) c.
Proof.
  intros [Hda Ha] [Hdb Hb].
  assert (Hall : forall k x, a !! k = Some x ->
            exists y c, b !! k = Some y /\ append x y = Some c /\
                        len c = (n + m)%nat /\ shape c = shape x).
  { intros k x Hk.
    assert (is_Some (b !! k)) as [y Hy].
    { apply elem_of_dom. rewrite Hdb, <- Hda. by apply elem_of_dom. }
    destruct (Ha k x Hk) as [Hlx Hsx]. destruct (Hb k y Hy) as [Hly Hsy].
    destruct (append_batch x y) as (c & Hc & Hlc & Hsc); [congruence|].
    exists y, c. split_and!; [done..|lia|done]. }
  unfold dict_append. rewrite decide_True.
  - eexists. split; [done|]. split.
    + apply set_eq. intros k. rewrite <- Hda, !elem_of_dom.
      rewrite map_lookup_imap. destruct (a !! k) as [x|] eqn:Hk; simpl.
      * destruct (Hall k x Hk) as (y & c & -> & Hc & _). simpl.
        rewrite Hc. split; eauto.
      * split; intros [? ?]; done.
    + intros k c. rewrite map_lookup_imap.
      destruct (a !! k) as [x|] eqn:Hk; [|done]. simpl.
      destruct (Hall k x Hk) as (y & c' & -> & Hc & Hl & Hs). simpl.
      rewrite Hc. intros [= <-]. split; [done|].
      rewrite Hs. by apply (Ha k x Hk).
  - intros k x Hk. destruct (Hall k x Hk) as (y & c & -> & Hc & _).
    simpl. by rewrite Hc.
Qed.

End Batches.

Section Accumulation.

Import Arr.

Context {R : Type}.

Lemma accumulate_rows (round : M (LeR.state R) (gmap string ndarray))
    (schema : gmap string (option nat)) (b : nat) (acc : LeR.loc) (n : nat) :
  sized_round round schema b ->
  forall (s : LeR.state R) (m : nat) (d : gmap string ndarray),
    LeR.store s !! acc = Some d ->
    batch_of schema m d ->
    exists d' s',
      LeR.accumulate round acc n s = Ok tt s' /\
      LeR.store s' !! acc = Some d' /\
      batch_of schema (m + n * b) d'.
Proof.
  intros Hround. induction n as [|n IH]; intros s m d Hacc Hd.
  - exists d, s. split_and!; [done..|]. by rewrite Nat.add_0_r.
  - destruct (Hround s) as (d_ & r & Hrun & Hd_).
    destruct (dict_append_batch schema m b d d_ Hd Hd_) as (c & Hc & Hbc).
    destruct (IH (LeR.set_store (<[acc := c]> (LeR.store (LeR.set_rng r s)))
                    (LeR.set_rng r s)) (m + b)%nat c) as (d' & s' & Hrest & Hs' & Hd').
    { cbn. apply lookup_insert_eq. }
    { done. }
    exists d', s'. split_and!; [|done|].
    + cbn [LeR.accumulate]. unfold bind at 1. rewrite Hrun.
      unfold bind at 1. unfold LeR.read. cbn [LeR.store LeR.set_rng].
      rewrite Hacc. unfold bind at 1. rewrite Hc. cbn [of_option].
      unfold bind at 1. unfold LeR.write, LeR.modify. exact Hrest.
    + replace (m + S n * b)%nat with (m + b + n * b)%nat by lia. done.
Qed.

(** The same loop with rounds that may return fewer rows than [b]. *)
Lemma accumulate_rows_le (round : M (LeR.state R) (gmap string ndarray))
    (schema : gmap string (option nat)) (b : nat) (acc : LeR.loc) (n : nat) :
  (forall s, exists d r m,
      round s = Ok d (LeR.set_rng r s) /\ batch_of schema m d /\ (m <= b)%nat) ->
  forall (s : LeR.state R) (m0 : nat) (d0 : gmap string ndarray),
    LeR.store s !! acc = Some d0 ->
    batch_of schema m0 d0 ->
    exists d' s' m',
      LeR.accumulate round acc n s = Ok tt s' /\
      LeR.store s' !! acc = Some d' /\
      batch_of schema m' d' /\
      (m' <= m0 + n * b)%nat.
Proof.
  intros Hround. induction n as [|n IH]; intros s m0 d0 Hacc Hd.
  - exists d0, s, m0. split_and!; [done..|lia].
  - destruct (Hround s) as (d_ & r & m & Hrun & Hd_ & Hm).
    destruct (dict_append_batch schema m0 m d0 d_ Hd Hd_) as (c & Hc & Hbc).
    destruct (IH (LeR.set_store (<[acc := c]> (LeR.store (LeR.set_rng r s)))
                    (LeR.set_rng r s)) (m0 + m)%nat c)
      as (d' & s' & m' & Hrest & Hs' & Hd' & Hm').
    { cbn. apply lookup_insert_eq. }
    { done. }
    exists d', s', m'. split_and!; [|done..|lia].
    cbn [LeR.accumulate]. unfold bind at 1. rewrite Hrun.
    unfold bind at 1. unfold LeR.read. cbn [LeR.store LeR.set_rng].
    rewrite Hacc. unfold bind at 1. rewrite Hc. cbn [of_option].
    unfold bind at 1. unfold LeR.write, LeR.modify. exact Hrest.
Qed.

End Accumulation.

Section Statistics.

Import Arr.

Context {R : Type} (E : LeR.collaborators R).

Lemma unlensed_round_sized (gw snr : gmap string (option nat)) (size : Z) :
  sized_sources E gw snr -> (0 <= size)%Z ->
  sized_round (LeR.unlensed_round E size) (snr ∪ gw) (Z.to_nat size).
Proof.
  intros [Hgw Hsnr] Hsize s.
  destruct (Hgw size (LeR.rng s) Hsize) as (d & r & Hd & Hbd).
  destruct (Hsnr _ d r Hbd) as (d' & r' & Hd' & Hbd').
  exists (d' ∪ d), r'. split; [|by apply batch_of_update].
  unfold LeR.unlensed_round, bind, LeR.collab. rewrite Hd.
  cbn [LeR.rng LeR.set_rng]. by rewrite Hd'.
Qed.

Lemma lensed_round_sized (lens img snr : gmap string (option nat))
    (n_min n_max size : Z) :
  sized_lenses E lens img snr -> (0 <= size)%Z ->
  sized_round (LeR.lensed_round E n_min n_max size) (snr ∪ img)
    (Z.to_nat size).
Proof.
  intros [Hlens Himg Hsnr] Hsize s.
  destruct (Hlens size (LeR.rng s) Hsize) as (d & r & Hd & Hbd).
  destruct (Himg n_min n_max _ d r Hbd) as (d' & r' & Hd' & Hbd').
  destruct (Hsnr n_max _ d' r' Hbd') as (d'' & r'' & Hd'' & Hbd'').
  exists (d'' ∪ d'), r''. split; [|by apply batch_of_update].
  unfold LeR.lensed_round, bind, LeR.collab. rewrite Hd.
  cbn [LeR.rng LeR.set_rng]. rewrite Hd'.
  cbn [LeR.rng LeR.set_rng]. by rewrite Hd''.
Qed.

(** The loop of both methods, once the batches are planned: a leading round
    of [lead] rows and [num] rounds of [b] rows, appended to a new dict
    object. *)
Lemma rounds_total (lead_round full_round : M (LeR.state R) (gmap string ndarray))
    (schema : gmap string (option nat)) (lead b num : nat) (s : LeR.state R) :
  sized_round lead_round schema lead ->
  sized_round full_round schema b ->
  exists l d s',
    LeR.store s' !! l = Some d /\
    batch_of schema (lead + num * b) d /\
    forall A (k : LeR.loc -> M (LeR.state R) A),
      (d <- lead_round ;;
       l <- LeR.new_dict d ;;
       _ <- LeR.accumulate full_round l num ;;
       k l) s = k l s'.
Proof.
  intros Hlead Hfull.
  destruct (Hlead s) as (d0 & r & Hrun & Hd0).
  set (s1 := LeR.set_rng r s) in *.
  set (l := fresh (dom (LeR.store s1))).
  destruct (accumulate_rows full_round schema b l num Hfull
              (LeR.set_store (<[l := d0]> (LeR.store s1)) s1) lead d0)
    as (d & s' & Hacc & Hs' & Hd).
  { cbn. apply lookup_insert_eq. }
  { done. }
  exists l, d, s'. split_and!; [done..|]. intros A k.
  unfold bind at 1. rewrite Hrun. unfold bind at 1. unfold LeR.new_dict.
  fold l. unfold bind at 1. by rewrite Hacc.
Qed.

Lemma unlensed_cbc_statistics_rounds (nsamples : Z) (s : LeR.state R) :
  (1 <= nsamples)%Z -> (1 <= LeR.batch_size s)%Z ->
  let b := LeR.batch_size s in
  let k := ceil_div nsamples b in
  LeR.unlensed_cbc_statistics E nsamples s
  = (d <- LeR.unlensed_round E (nsamples - (k - 1) * b) ;;
     gw_param <- LeR.new_dict d ;;
     _ <- LeR.accumulate (LeR.unlensed_round E b) gw_param (Z.to_nat (k - 1)) ;;
     _ <- LeR.modify (LeR.set_gw_param (LeR.PyDict gw_param)) ;;
     ret gw_param) (LeR.set_gw_nsamples nsamples s).
Proof.
  intros Hn Hb b k. unfold LeR.unlensed_cbc_statistics.
  unfold bind at 1. unfold LeR.gets at 1. fold b.
  destruct (Z.eqb_spec nsamples 0) as [?|_]; [lia|].
  unfold bind at 1. unfold bind at 1. unfold LeR.modify at 1.
  unfold ret at 1. unfold bind at 1.
  by rewrite (batch_plan_ceil nsamples b _ Hn Hb).
Qed.

Lemma lensed_cbc_statistics_rounds (nsamples : Z) (s : LeR.state R) :
  (1 <= nsamples)%Z -> (1 <= LeR.batch_size s)%Z ->
  let b := LeR.batch_size s in
  let k := ceil_div nsamples b in
  let round := LeR.lensed_round E (LeR.min_lensed_images s)
                 (LeR.max_lensed_images s) in
  LeR.lensed_cbc_statistics E nsamples s
  = (d <- round (nsamples - (k - 1) * b)%Z ;;
     lensed_param <- LeR.new_dict d ;;
     _ <- LeR.accumulate (round b) lensed_param (Z.to_nat (k - 1)) ;;
     _ <- LeR.modify (LeR.set_lensed_param (LeR.PyDict lensed_param)) ;;
     ret lensed_param) (LeR.set_lensed_nsamples nsamples s).
Proof.
  intros Hn Hb b k round. unfold LeR.lensed_cbc_statistics.
  unfold bind at 1. unfold LeR.gets at 1. fold b.
  destruct (Z.eqb_spec nsamples 0) as [?|_]; [lia|].
  unfold bind at 1. unfold bind at 1. unfold LeR.modify at 1.
  unfold ret at 1.
  unfold bind at 1. unfold LeR.gets at 1.
  unfold bind at 1. unfold LeR.gets at 1.
  unfold bind at 1.
  by rewrite (batch_plan_ceil nsamples b _ Hn Hb).
Qed.

Lemma unlensed_cbc_statistics_default (s : LeR.state R) :
  LeR.gw_nsamples s <> 0%Z ->
  LeR.unlensed_cbc_statistics E 0 s
  = LeR.unlensed_cbc_statistics E (LeR.gw_nsamples s) s.
Proof.
  intros Hn. unfold LeR.unlensed_cbc_statistics.
  unfold bind at 1 3. unfold LeR.gets at 1 3.
  destruct (Z.eqb_spec (LeR.gw_nsamples s) 0) as [?|_]; [done|].
  change (0 =? 0)%Z with true. cbv iota.
  unfold bind at 1 3. unfold LeR.gets at 1. unfold bind at 3.
  unfold LeR.modify at 2. unfold ret at 2. by destruct s.
Qed.

Lemma lensed_cbc_statistics_default (s : LeR.state R) :
  LeR.lensed_nsamples s <> 0%Z ->
  LeR.lensed_cbc_statistics E 0 s
  = LeR.lensed_cbc_statistics E (LeR.lensed_nsamples s) s.
Proof.
  intros Hn. unfold LeR.lensed_cbc_statistics.
  unfold bind at 1 3. unfold LeR.gets at 1 5.
  destruct (Z.eqb_spec (LeR.lensed_nsamples s) 0) as [?|_]; [done|].
  change (0 =? 0)%Z with true. cbv iota.
  unfold bind at 1 3. unfold LeR.gets at 1. unfold bind at 3.
  unfold LeR.modify at 2. unfold ret at 2. by destruct s.
Qed.

Lemma lensed_round_lossy (keeps : nat -> nat -> Prop)
    (lens img snr : gmap string (option nat)) (n_min n_max size : Z) :
  lossy_lenses keeps E lens img snr -> (0 <= size)%Z ->
  forall s, exists d r m,
    LeR.lensed_round E n_min n_max size s = Ok d (LeR.set_rng r s) /\
    batch_of (snr ∪ img) m d /\ keeps (Z.to_nat size) m.
Proof.
  intros [Hlens Himg Hsnr] Hsize s.
  destruct (Hlens size (LeR.rng s) Hsize) as (d & r & Hd & Hbd).
  destruct (Himg n_min n_max _ d r Hbd) as (d' & r' & m & Hd' & Hbd' & Hm).
  destruct (Hsnr n_max _ d' r' Hbd') as (d'' & r'' & Hd'' & Hbd'').
  exists (d'' ∪ d'), r'', m. split_and!; [|by apply batch_of_update|done].
  unfold LeR.lensed_round, bind, LeR.collab. rewrite Hd.
  cbn [LeR.rng LeR.set_rng]. rewrite Hd'.
  cbn [LeR.rng LeR.set_rng]. by rewrite Hd''.
Qed.

(** The lensed loop with an image solver that may drop rows: the rounds of
    the plan are run, no further one, and what the solver kept is stored. *)
Lemma lensed_cbc_statistics_lossy (keeps : nat -> nat -> Prop)
    (lens img snr : gmap string (option nat)) (N : Z) (s : LeR.state R) :
  lossy_lenses keeps E lens img snr ->
  (forall n m, keeps n m -> (m <= n)%nat) ->
  (1 <= N)%Z -> (1 <= LeR.batch_size s)%Z ->
  exists l d s' m,
    LeR.lensed_cbc_statistics E N s = Ok l s' /\
    LeR.lensed_param s' = LeR.PyDict l /\
    LeR.store s' !! l = Some d /\
    batch_of (snr ∪ img) m d /\
    (m <= Z.to_nat N)%nat /\
    ((forall n m, keeps n m -> (1 <= n)%nat -> (m < n)%nat) ->
     (m < Z.to_nat N)%nat).
Proof.
  intros HE Hle HN Hb.
  rewrite (lensed_cbc_statistics_rounds N s HN Hb).
  pose proof (leading_batch_bounds N (LeR.batch_size s) HN Hb) as [Hlead Hk].
  set (b := LeR.batch_size s) in *. set (k := ceil_div N b) in *.
  set (round := LeR.lensed_round E (LeR.min_lensed_images s)
                  (LeR.max_lensed_images s)).
  set (s0 := LeR.set_lensed_nsamples N s).
  destruct (lensed_round_lossy keeps lens img snr (LeR.min_lensed_images s)
              (LeR.max_lensed_images s) (N - (k - 1) * b) HE ltac:(lia) s0)
    as (d0 & r & m0 & Hrun & Hd0 & Hm0).
  set (s1 := LeR.set_rng r s0) in *.
  set (l := fresh (dom (LeR.store s1))).
  destruct (accumulate_rows_le (round b) (snr ∪ img) (Z.to_nat b) l
              (Z.to_nat (k - 1))) with
      (s := LeR.set_store (<[l := d0]> (LeR.store s1)) s1) (m0 := m0) (d0 := d0)
    as (d & s' & m & Hacc & Hs' & Hd & Hm).
  { intros s2.
    destruct (lensed_round_lossy keeps lens img snr (LeR.min_lensed_images s)
                (LeR.max_lensed_images s) b HE ltac:(lia) s2)
      as (d2 & r2 & m2 & Hrun2 & Hd2 & Hm2).
    exists d2, r2, m2. split_and!; [done..|]. by apply Hle. }
  { cbn. apply lookup_insert_eq. }
  { done. }
  exists l, d, (LeR.set_lensed_param (LeR.PyDict l) s'), m.
  split_and!; [|done..| |].
  - subst round. unfold bind at 1. rewrite Hrun.
    unfold bind at 1. unfold LeR.new_dict. fold s1. fold l.
    unfold bind at 1. by rewrite Hacc.
  - apply Hle in Hm0. nia.
  - intros Hlt. apply Hlt in Hm0; [|lia]. nia.
Qed.

(** C8. Batch accumulation totals.  For a requested total [N >= 1] and a
    batch size [b >= 1], with [k = ceil(N / b)]: the batch plan is a leading
    round of [N - (k - 1) * b] rows, between [1] and [b], and [k - 1] further
    rounds; [unlensed_cbc_statistics] and [lensed_cbc_statistics] run that
    leading round and then [k - 1] rounds of [b] rows, each round sampled and
    enriched before it is appended, and no further round.  With collaborators
    that honour the requested sizes the unlensed loop stores exactly [N]
    rows, and so does the lensed loop when the image solver keeps every row.
    When the solver drops rows the lensed loop stores what the solver kept:
    at most [N] rows, and fewer than [N] when the solver drops a row of every
    batch.  A request for [N = 0] is a request for the stored default, and
    with [b = 0] both methods raise [ZeroDivisionError]. *)
Theorem batch_accumulation_totals :
  (forall (N b : Z) (s : LeR.state R),
      (1 <= N)%Z -> (1 <= b)%Z ->
      let k := ceil_div N b in
      LeR.batch_plan N b s = Ok ((N - (k - 1) * b)%Z, (k - 1)%Z) s /\
      (b * (k - 1) < N <= b * k)%Z /\
      (1 <= N - (k - 1) * b <= b)%Z) /\
  (forall (N : Z) (s : LeR.state R),
      (1 <= N)%Z -> (1 <= LeR.batch_size s)%Z ->
      let b := LeR.batch_size s in
      let k := ceil_div N b in
      LeR.unlensed_cbc_statistics E N s
      = (d <- LeR.unlensed_round E (N - (k - 1) * b) ;;
         gw_param <- LeR.new_dict d ;;
         _ <- LeR.accumulate (LeR.unlensed_round E b) gw_param
                (Z.to_nat (k - 1)) ;;
         _ <- LeR.modify (LeR.set_gw_param (LeR.PyDict gw_param)) ;;
         ret gw_param) (LeR.set_gw_nsamples N s)) /\
  (forall (gw snr : gmap string (option nat)) (N : Z) (s : LeR.state R),
      sized_sources E gw snr ->
      (1 <= N)%Z -> (1 <= LeR.batch_size s)%Z ->
      exists l d s',
        LeR.unlensed_cbc_statistics E N s = Ok l s' /\
        LeR.gw_param s' = LeR.PyDict l /\
        LeR.store s' !! l = Some d /\
        batch_of (snr ∪ gw) (Z.to_nat N) d) /\
  (forall (N : Z) (s : LeR.state R),
      (1 <= N)%Z -> (1 <= LeR.batch_size s)%Z ->
      let b := LeR.batch_size s in
      let k := ceil_div N b in
      let round := LeR.lensed_round E (LeR.min_lensed_images s)
                     (LeR.max_lensed_images s) in
      LeR.lensed_cbc_statistics E N s
      = (d <- round (N - (k - 1) * b)%Z ;;
         lensed_param <- LeR.new_dict d ;;
         _ <- LeR.accumulate (round b) lensed_param (Z.to_nat (k - 1)) ;;
         _ <- LeR.modify (LeR.set_lensed_param (LeR.PyDict lensed_param)) ;;
         ret lensed_param) (LeR.set_lensed_nsamples N s)) /\
  (forall (lens img snr : gmap string (option nat)) (N : Z) (s : LeR.state R),
      sized_lenses E lens img snr ->
      (1 <= N)%Z -> (1 <= LeR.batch_size s)%Z ->
      exists l d s',
        LeR.lensed_cbc_statistics E N s = Ok l s' /\
        LeR.lensed_param s' = LeR.PyDict l /\
        LeR.store s' !! l = Some d /\
        batch_of (snr ∪ img) (Z.to_nat N) d) /\
  (forall (keeps : nat -> nat -> Prop)
      (lens img snr : gmap string (option nat)) (N : Z) (s : LeR.state R),
      lossy_lenses keeps E lens img snr ->
      (forall n m, keeps n m -> (m <= n)%nat) ->
      (1 <= N)%Z -> (1 <= LeR.batch_size s)%Z ->
      exists l d s' m,
        LeR.lensed_cbc_statistics E N s = Ok l s' /\
        LeR.lensed_param s' = LeR.PyDict l /\
        LeR.store s' !! l = Some d /\
        batch_of (snr ∪ img) m d /\
        (m <= Z.to_nat N)%nat /\
        ((forall n m, keeps n m -> (1 <= n)%nat -> (m < n)%nat) ->
         (m < Z.to_nat N)%nat)) /\
  (forall s : LeR.state R,
      (LeR.gw_nsamples s <> 0%Z ->
       LeR.unlensed_cbc_statistics E 0 s
       = LeR.unlensed_cbc_statistics E (LeR.gw_nsamples s) s) /\
      (LeR.lensed_nsamples s <> 0%Z ->
       LeR.lensed_cbc_statistics E 0 s
       = LeR.lensed_cbc_statistics E (LeR.lensed_nsamples s) s)) /\
  (forall (N : Z) (s : LeR.state R),
      LeR.batch_size s = 0%Z ->
      (exists s', LeR.unlensed_cbc_statistics E N s
                  = Raise ZeroDivisionError s') /\
      (exists s', LeR.lensed_cbc_statistics E N s
                  = Raise ZeroDivisionError s')).
Proof.
  split_and!.
  - intros N b s HN Hb k. split; [by apply batch_plan_ceil|].
    pose proof (ceil_div_spec N b ltac:(lia)).
    pose proof (leading_batch_bounds N b HN Hb). subst k. lia.
  - intros N s HN Hb. by apply unlensed_cbc_statistics_rounds.
  - intros gw snr N s HE HN Hb.
    rewrite (unlensed_cbc_statistics_rounds N s HN Hb).
    pose proof (leading_batch_bounds N (LeR.batch_size s) HN Hb) as [Hlead Hk].
    set (b := LeR.batch_size s) in *. set (k := ceil_div N b) in *.
    destruct (rounds_total (LeR.unlensed_round E (N - (k - 1) * b))
                (LeR.unlensed_round E b) (snr ∪ gw)
                (Z.to_nat (N - (k - 1) * b)) (Z.to_nat b) (Z.to_nat (k - 1))
                (LeR.set_gw_nsamples N s))
      as (l & d & s' & Hl & Hd & Hrun).
    { apply unlensed_round_sized; [done|lia]. }
    { apply unlensed_round_sized; [done|lia]. }
    exists l, d, (LeR.set_gw_param (LeR.PyDict l) s').
    rewrite Hrun. split_and!; [done..|].
    replace (Z.to_nat N)
      with (Z.to_nat (N - (k - 1) * b) + Z.to_nat (k - 1) * Z.to_nat b)%nat
      by nia.
    done.
  - intros N s HN Hb. by apply lensed_cbc_statistics_rounds.
  - intros lens img snr N s HE HN Hb.
    rewrite (lensed_cbc_statistics_rounds N s HN Hb).
    pose proof (leading_batch_bounds N (LeR.batch_size s) HN Hb) as [Hlead Hk].
    set (b := LeR.batch_size s) in *. set (k := ceil_div N b) in *.
    set (round := LeR.lensed_round E (LeR.min_lensed_images s)
                    (LeR.max_lensed_images s)).
    destruct (rounds_total (round (N - (k - 1) * b)%Z) (round b) (snr ∪ img)
                (Z.to_nat (N - (k - 1) * b)) (Z.to_nat b) (Z.to_nat (k - 1))
                (LeR.set_lensed_nsamples N s))
      as (l & d & s' & Hl & Hd & Hrun).
    { eapply lensed_round_sized; [done|lia]. }
    { eapply lensed_round_sized; [done|lia]. }
    exists l, d, (LeR.set_lensed_param (LeR.PyDict l) s').
    rewrite Hrun. split_and!; [done..|].
    replace (Z.to_nat N)
      with (Z.to_nat (N - (k - 1) * b) + Z.to_nat (k - 1) * Z.to_nat b)%nat
      by nia.
    done.
  - intros keeps lens img snr N s HE Hle HN Hb.
    by apply (lensed_cbc_statistics_lossy keeps lens).
  - intros s. split.
    + apply unlensed_cbc_statistics_default.
    + apply lensed_cbc_statistics_default.
  - intros N s Hb.
    unfold LeR.unlensed_cbc_statistics, LeR.lensed_cbc_statistics.
    unfold bind, LeR.gets, LeR.batch_plan, LeR.modify, ret, raise.
    rewrite Hb. destruct (N =? 0)%Z; split; by eexists.
Qed.

End Statistics.

Section SurveyBatches.

Import Arr.

Lemma batch_of_singleton (k : string) (a : ndarray) :
  batch_of {[k := shape a]} (len a) {[k := a]}.
Proof.
  split; [by rewrite !dom_singleton_L|].
  intros k' a' [<- <-]%lookup_singleton_Some. by rewrite lookup_singleton_eq.
Qed.

Lemma batch_of_insert (schema : gmap string (option nat)) (n : nat)
    (d : gmap string ndarray) (k : string) (a : ndarray) :
  len a = n -> batch_of schema n d ->
  batch_of (<[k := shape a]> schema) n (<[k := a]> d).
Proof.
  intros Ha [Hdom Hd]. split; [by rewrite !dom_insert_L, Hdom|].
  intros k' a' Hk'. destruct (decide (k = k')) as [<-|Hne].
  - rewrite lookup_insert_eq in Hk'. injection Hk' as <-.
    by rewrite lookup_insert_eq.
  - rewrite lookup_insert_ne in Hk' by done. rewrite lookup_insert_ne by done.
    by apply (Hd k' a').
Qed.

Lemma survey_rows (schema : gmap string (option nat)) (n : nat)
    (d : gmap string ndarray) :
  is_Some (schema !! "zs") -> batch_of schema n d -> Survey.rows d = n.
Proof.
  intros Hzs [Hdom Hd]. unfold Survey.rows.
  assert (is_Some (d !! "zs")) as [a Ha].
  { apply elem_of_dom. rewrite Hdom. by apply elem_of_dom. }
  rewrite Ha. simpl. by apply (Hd _ _ Ha).
Qed.

Lemma survey_sized_sources :
  sized_sources Survey.ler {["zs" := None]} {["opt_snr_net" := None]}.
Proof.
  split.
  - intros n r Hn. eexists _, _. split; [done|].
    pose proof (batch_of_singleton "zs" (Arr1 (repeat (Fin 1) (Z.to_nat n)))) as H.
    simpl in H. by rewrite repeat_length in H.
  - intros n d r Hd. eexists _, _. split; [done|].
    pose proof (batch_of_singleton "opt_snr_net"
                  (Arr1 (repeat (Fin 9) (Survey.rows d)))) as H.
    simpl in H. rewrite repeat_length in H.
    assert (Survey.rows d = n) as Hn.
    { apply (survey_rows _ n d) in Hd; [done|]. by rewrite lookup_singleton_eq. }
    by rewrite Hn in H |- *.
Qed.

Lemma survey_sized_lenses :
  sized_lenses Survey.ler
    (<["zs" := None]> {["weights" := None]})
    (<["n_images" := None]> (<["zs" := None]> {["weights" := None]}))
    {["opt_snr_net" := Some 2%nat]}.
Proof.
  split.
  - intros n r Hn. eexists _, _. split; [done|].
    apply (batch_of_insert _ _ _ "zs" (Arr1 _)); [by simpl; rewrite repeat_length|].
    pose proof (batch_of_singleton "weights"
                  (Arr1 (repeat (Fin 1) (Z.to_nat n)))) as H.
    simpl in H. by rewrite repeat_length in H.
  - intros n_min n_max n d r Hd. eexists _, _. split; [done|].
    apply (batch_of_insert _ _ _ "n_images" (Arr1 _)); [|done].
    simpl. rewrite repeat_length. apply (survey_rows _ n d) in Hd; [done|].
    by rewrite lookup_insert_eq.
  - intros n_max n d r Hd. eexists _, _. split; [done|].
    pose proof (batch_of_singleton "opt_snr_net"
                  (Arr2 2 (repeat [Fin 9; Fin 7] (Survey.rows d)))) as H.
    simpl in H. rewrite repeat_length in H.
    assert (Survey.rows d = n) as Hn.
    { apply (survey_rows _ n d) in Hd; [done|].
      by rewrite lookup_insert_ne, lookup_insert_eq. }
    by rewrite Hn in H |- *.
Qed.

Lemma tail_rows_batch (schema : gmap string (option nat)) (n : nat)
    (d : gmap string ndarray) :
  batch_of schema n d -> batch_of schema (n - 1) (Survey.tail_rows <$> d).
Proof.
  intros [Hdom Hd]. split; [by rewrite dom_fmap_L|].
  intros key a. rewrite lookup_fmap.
  destruct (d !! key) as [a0|] eqn:Ha; [|done]. simpl. intros [= <-].
  destruct (Hd key a0 Ha) as [Hl Hs].
  destruct a0 as [[|x v]|c [|x rows]]; simpl in *; split; (lia || done).
Qed.

Lemma survey_lossy_lenses :
  lossy_lenses (fun n m => m = (n - 1)%nat) Survey.lossy
    (<["zs" := None]> {["weights" := None]})
    (<["n_images" := None]> (<["zs" := None]> {["weights" := None]}))
    {["opt_snr_net" := Some 2%nat]}.
Proof.
  split.
  - intros n r Hn. eexists _, _. split; [done|].
    apply (batch_of_insert _ _ _ "zs" (Arr1 _)); [by simpl; rewrite repeat_length|].
    pose proof (batch_of_singleton "weights"
                  (Arr1 (repeat (Fin 1) (Z.to_nat n)))) as H.
    simpl in H. by rewrite repeat_length in H.
  - intros n_min n_max n d r Hd. eexists _, _, _. split_and!; [done| |done].
    apply (batch_of_insert _ _ _ "n_images" (Arr1 _));
      [|by apply tail_rows_batch].
    simpl. rewrite repeat_length. apply (survey_rows _ n d) in Hd; [lia|].
    by rewrite lookup_insert_eq.
  - intros n_max n d r Hd. eexists _, _. split; [done|].
    pose proof (batch_of_singleton "opt_snr_net"
                  (Arr2 2 (repeat [Fin 9; Fin 7] (Survey.rows d)))) as H.
    simpl in H. rewrite repeat_length in H.
    assert (Survey.rows d = n) as Hn.
    { apply (survey_rows _ n d) in Hd; [done|].
      by rewrite lookup_insert_ne, lookup_insert_eq. }
    by rewrite Hn in H |- *.
Qed.

Lemma batch_accumulation_totals_witness :
  ((1 <= 10)%Z /\ (1 <= 4)%Z /\
   LeR.batch_plan 10 4 (Survey.initial 4) = Ok (2%Z, 2%Z) (Survey.initial 4)) /\
  (exists l d s',
     LeR.unlensed_cbc_statistics Survey.ler 10 (Survey.initial 4) = Ok l s' /\
     LeR.store s' !! l = Some d /\
     LeR.rng s' = 3%nat /\
     map_Forall (fun _ a => len a = 10%nat) d) /\
  (exists l d s',
     LeR.lensed_cbc_statistics Survey.ler 10 (Survey.initial 4) = Ok l s' /\
     LeR.store s' !! l = Some d /\
     LeR.rng s' = 3%nat /\
     map_Forall (fun _ a => len a = 10%nat) d) /\
  (exists l d s' m,
     LeR.lensed_cbc_statistics Survey.lossy 10 (Survey.initial 4) = Ok l s' /\
     LeR.store s' !! l = Some d /\
     LeR.rng s' = 3%nat /\
     map_Forall (fun _ a => len a = m) d /\
     (m < 10)%nat) /\
  LeR.unlensed_cbc_statistics Survey.ler 0 (Survey.initial 4)
  = LeR.unlensed_cbc_statistics Survey.ler 10 (Survey.initial 4) /\
  (exists s', LeR.lensed_cbc_statistics Survey.ler 10 (Survey.initial 0)
              = Raise ZeroDivisionError s').
Proof.
  pose proof (batch_accumulation_totals Survey.ler)
    as (Hplan & _ & Hu & _ & Hl & _ & Hzero & Hdiv).
  pose proof (batch_accumulation_totals Survey.lossy)
    as (_ & _ & _ & _ & _ & Hlossy & _).
  split_and!.
  - lia.
  - lia.
  - by destruct (Hplan 10%Z 4%Z (Survey.initial 4) ltac:(lia) ltac:(lia))
      as [-> _].
  - destruct (Hu _ _ 10%Z (Survey.initial 4) survey_sized_sources
                ltac:(lia) ltac:(simpl; lia))
      as (l & d & s' & Hrun & _ & Hd & Hrows).
    exists l, d, s'. split_and!; [done..| |].
    + vm_compute in Hrun. by injection Hrun as _ <-.
    + intros k a Hk. by apply (batch_of_lookup _ _ _ _ _ Hrows Hk).
  - destruct (Hl _ _ _ 10%Z (Survey.initial 4) survey_sized_lenses
                ltac:(lia) ltac:(simpl; lia))
      as (l & d & s' & Hrun & _ & Hd & Hrows).
    exists l, d, s'. split_and!; [done..| |].
    + vm_compute in Hrun. by injection Hrun as _ <-.
    + intros k a Hk. by apply (batch_of_lookup _ _ _ _ _ Hrows Hk).
  - destruct (Hlossy _ _ _ _ 10%Z (Survey.initial 4) survey_lossy_lenses
                ltac:(intros n m ->; lia) ltac:(lia) ltac:(simpl; lia))
      as (l & d & s' & m & Hrun & _ & Hd & Hrows & _ & Hlt).
    exists l, d, s', m. split_and!; [done..| | |].
    + vm_compute in Hrun. by injection Hrun as _ <-.
    + intros k a Hk. by apply (batch_of_lookup _ _ _ _ _ Hrows Hk).
    + apply Hlt. intros n m' -> Hn. lia.
  - destruct (Hzero (Survey.initial 4)) as [H _]. apply H. by simpl.
  - by destruct (Hdiv 10%Z (Survey.initial 0) eq_refl) as [_ H].
Defined.

(** C8, as stated, does not hold of the lensed loop: with an image solver
    that drops one row of every batch, a request for [10] rows in batches of
    [4] runs the three rounds of the plan ([2], [4] and [4] systems) and
    stores the [1 + 3 + 3 = 7] rows the solver kept. *)
Lemma lensed_statistics_store_fewer_rows :
  exists l d s',
    LeR.lensed_cbc_statistics Survey.lossy 10 (Survey.initial 4) = Ok l s' /\
    LeR.lensed_param s' = LeR.PyDict l /\
    LeR.store s' !! l = Some d /\
    LeR.rng s' = 3%nat /\
    len <$> d
    = <["zs" := 7%nat]>
        (<["weights" := 7%nat]>
           (<["n_images" := 7%nat]> {["opt_snr_net" := 7%nat]})).
Proof.
  destruct (LeR.lensed_cbc_statistics Survey.lossy 10 (Survey.initial 4))
    as [l s'| |] eqn:Hrun; [|by vm_compute in Hrun..].
  vm_compute in Hrun. injection Hrun as <- <-.
  eexists _, _, _.
  split_and!; [reflexivity|reflexivity|by vm_compute|done|by vm_compute].
Qed.

End SurveyBatches.
(** * Further properties of [ler.py] *)

(** ** Runs with their exception *)

Section ExnRules.

Context {S : Type}.

Lemma wpx_bind {A B} (c : M S A) (k : A -> M S B) (Q : B -> S -> Prop)
    (X : exn -> S -> Prop) (s : S) :
  wpx c (fun a s' => wpx (k a) Q X s') X s -> wpx (bind c k) Q X s.
Proof. unfold wpx, bind. by destruct (c s). Qed.

Lemma wpx_ret {A} (a : A) (Q : A -> S -> Prop) (X : exn -> S -> Prop) (s : S) :
  Q a s -> wpx (ret a) Q X s.
Proof. done. Qed.

Lemma wpx_raise {A} (e : exn) (Q : A -> S -> Prop) (X : exn -> S -> Prop)
    (s : S) :
  X e s -> wpx (raise e) Q X s.
Proof. done. Qed.

Lemma wpx_getitem_Some {V} (d : gmap string V) (key : string) (v : V)
    (Q : V -> S -> Prop) (X : exn -> S -> Prop) (s : S) :
  d !! key = Some v -> Q v s -> wpx (getitem d key) Q X s.
Proof. intros Hk HQ. unfold wpx, getitem. by rewrite Hk. Qed.

Lemma wpx_getitem_None {V} (d : gmap string V) (key : string)
    (Q : V -> S -> Prop) (X : exn -> S -> Prop) (s : S) :
  d !! key = None -> X KeyError s -> wpx (getitem d key) Q X s.
Proof. intros Hk HX. unfold wpx, getitem. by rewrite Hk. Qed.

Lemma wpx_of_option_Some {A} (e : exn) (o : option A) (a : A)
    (Q : A -> S -> Prop) (X : exn -> S -> Prop) (s : S) :
  o = Some a -> Q a s -> wpx (of_option e o) Q X s.
Proof. by intros -> HQ. Qed.

Lemma wpx_of_option_None {A} (e : exn) (o : option A)
    (Q : A -> S -> Prop) (X : exn -> S -> Prop) (s : S) :
  o = None -> X e s -> wpx (of_option e o) Q X s.
Proof. by intros -> HX. Qed.

Lemma wpx_try_except {A} (c h : M S A) (Q : A -> S -> Prop)
    (X : exn -> S -> Prop) (s : S) :
  wpx c Q (fun _ s' => wpx h Q X s') s -> wpx (try_except c h) Q X s.
Proof. unfold wpx, try_except. by destruct (c s). Qed.

Lemma wpx_returns {A} (c : M S A) (Q : A -> S -> Prop) (s : S) :
  wpx c Q (fun _ _ => False) s -> exists a s', c s = Ok a s' /\ Q a s'.
Proof. unfold wpx. destruct (c s) as [a s'| |]; [eauto|done..]. Qed.

Lemma wpx_raises {A} (c : M S A) (X : exn -> S -> Prop) (s : S) :
  wpx c (fun _ _ => False) X s -> exists e s', c s = Raise e s' /\ X e s'.
Proof. unfold wpx. destruct (c s) as [|e s'|]; [done|eauto|done]. Qed.

End ExnRules.

Section ExnStateRules.

Import Arr.

Context {R : Type}.

Lemma wpx_gets {A} (f : LeR.state R -> A) (Q : A -> LeR.state R -> Prop)
    (X : exn -> LeR.state R -> Prop) (s : LeR.state R) :
  Q (f s) s -> wpx (LeR.gets f) Q X s.
Proof. done. Qed.

Lemma wpx_modify (f : LeR.state R -> LeR.state R)
    (Q : unit -> LeR.state R -> Prop) (X : exn -> LeR.state R -> Prop)
    (s : LeR.state R) :
  Q tt (f s) -> wpx (LeR.modify f) Q X s.
Proof. done. Qed.

Lemma wpx_write (l : LeR.loc) (d : gmap string ndarray)
    (Q : unit -> LeR.state R -> Prop) (X : exn -> LeR.state R -> Prop)
    (s : LeR.state R) :
  Q tt (LeR.set_store (<[l := d]> (LeR.store s)) s) ->
  wpx (LeR.write l d) Q X s.
Proof. done. Qed.

Lemma wpx_new_dict (d : gmap string ndarray)
    (Q : LeR.loc -> LeR.state R -> Prop) (X : exn -> LeR.state R -> Prop)
    (s : LeR.state R) :
  Q (fresh (dom (LeR.store s)))
    (LeR.set_store (<[fresh (dom (LeR.store s)) := d]> (LeR.store s)) s) ->
  wpx (LeR.new_dict d) Q X s.
Proof. done. Qed.

Lemma wpx_read_dict (l : LeR.loc) (d : gmap string ndarray)
    (Q : gmap string ndarray -> LeR.state R -> Prop)
    (X : exn -> LeR.state R -> Prop) (s : LeR.state R) :
  LeR.store s !! l = Some d -> Q d s -> wpx (LeR.read (LeR.PyDict l)) Q X s.
Proof. intros Hl HQ. unfold wpx, LeR.read. by rewrite Hl. Qed.

Lemma wpx_read_False (Q : gmap string ndarray -> LeR.state R -> Prop)
    (X : exn -> LeR.state R -> Prop) (s : LeR.state R) :
  X TypeError s -> wpx (LeR.read LeR.PyFalse) Q X s.
Proof. done. Qed.

End ExnStateRules.

Ltac solve_lookup :=
  first
    [ eassumption
    | apply lookup_insert_eq
    | rewrite lookup_insert_ne by done; solve_lookup
    | cbn; first [eassumption | apply lookup_insert_eq] ].

Ltac wpx_step :=
  cbv beta iota;
  lazymatch goal with
  | |- wpx (bind _ _) _ _ _ => apply wpx_bind
  | |- wpx (ret _) _ _ _ => apply wpx_ret
  | |- wpx (raise _) _ _ _ => apply wpx_raise
  | |- wpx (LeR.gets _) _ _ _ => apply wpx_gets
  | |- wpx (LeR.modify _) _ _ _ => apply wpx_modify
  | |- wpx (LeR.write _ _) _ _ _ => apply wpx_write
  | |- wpx (LeR.new_dict _) _ _ _ => apply wpx_new_dict
  | |- wpx (LeR.dict_copy _) _ _ _ => unfold LeR.dict_copy
  | |- wpx (try_except _ _) _ _ _ => apply wpx_try_except
  | |- wpx (LeR.read LeR.PyFalse) _ _ _ => apply wpx_read_False
  | |- wpx (LeR.read (LeR.PyDict _)) _ _ _ =>
      eapply wpx_read_dict; [solve_lookup|]
  | |- wpx (getitem _ _) _ _ _ =>
      first [ eapply wpx_getitem_Some; [solve_lookup|]
            | apply wpx_getitem_None; [solve_lookup|] ]
  | |- wpx (of_option _ _) _ _ _ =>
      first [ eapply wpx_of_option_Some; [eassumption|]
            | apply wpx_of_option_None; [eassumption|] ]
  end.

Ltac wpx_run := repeat wpx_step.

(** ** The values of the unlensed rates *)

Section UnlensedRates.

Import Arr.

Context {R : Type} (E : LeR.collaborators R).

Lemma count_occ_le_length (ind : list bool) :
  (count_occ Bool.bool_dec ind true <= length ind)%nat.
Proof.
  induction ind as [|b ind IH]; [done|]. destruct b.
  - rewrite count_occ_cons_eq by done. simpl. lia.
  - rewrite count_occ_cons_neq by done. simpl. lia.
Qed.

Lemma mean_nonempty (a : list fval) :
  a <> [] -> mean a = fdiv (sum a) (Fin (inject_Z (Z.of_nat (length a)))).
Proof. by destruct a. Qed.

(** The step rate of a non-empty population is a number between [0] and
    [c0]. *)
Lemma step_rate_bounds (c0 : Q) (ind : list bool) :
  ind <> [] -> 0 <= c0 ->
  exists r, LeR.rate c0 (map of_bool ind) = Fin r /\ 0 <= r <= c0.
Proof.
  intros Hne Hc0. pose proof (sum_of_bool ind) as Hsum.
  pose proof (count_occ_le_length ind) as Hcount.
  unfold LeR.rate. rewrite mean_nonempty by by destruct ind.
  rewrite length_map.
  assert (Hlen : (1 <= length ind)%nat) by (destruct ind; [done|simpl; lia]).
  set (n := length ind) in *.
  set (k := count_occ Bool.bool_dec ind true) in *.
  destruct (sum (map of_bool ind)) as [|q]; [done|]. simpl in Hsum. simpl.
  eexists. split; [reflexivity|].
  assert (Hn : 0 < inject_Z (Z.of_nat n)).
  { change 0 with (inject_Z 0). rewrite <- Zlt_Qlt. lia. }
  assert (Hq0 : 0 <= q).
  { rewrite Hsum. change 0 with (inject_Z 0). rewrite <- Zle_Qle. lia. }
  assert (Hqn : q <= inject_Z (Z.of_nat n)).
  { rewrite Hsum. rewrite <- Zle_Qle. lia. }
  split.
  - apply Qmult_le_0_compat; [done|].
    apply Qle_shift_div_l; [done|]. by rewrite Qmult_0_l.
  - rewrite <- (Qmult_1_r c0) at 2.
    destruct (Qle_lt_or_eq _ _ Hc0) as [Hpos|Hz].
    + apply Qmult_le_l; [done|].
      apply Qle_shift_div_r; [done|]. by rewrite Qmult_1_l.
    + rewrite <- Hz. rewrite !Qmult_0_l. apply Qle_refl.
Qed.

Lemma sum_NaN (a : list fval) : NaN ∈ a -> sum a = NaN.
Proof.
  induction a as [|x a IH]; [by intros ?%elem_of_nil|].
  intros [<-|Hin]%elem_of_cons; [done|].
  simpl. rewrite (IH Hin). by destruct x.
Qed.

Lemma rate_NaN (c0 : Q) (a : list fval) : NaN ∈ a -> LeR.rate c0 a = NaN.
Proof.
  intros Hin. unfold LeR.rate, mean. destruct a as [|x a]; [done|].
  by rewrite (sum_NaN _ Hin).
Qed.

(** [unlensed_rate] on a population without sources: the mean of no value is
    [nan], and so are both rates. *)
Theorem unlensed_rate_of_no_source (snr_threshold : Q) (s : LeR.state R)
    (l : LeR.loc) (d : gmap string ndarray) (zs : ndarray) :
  LeR.gw_param s = LeR.PyDict l ->
  LeR.store s !! l = Some d ->
  d !! "zs" = Some zs ->
  d !! "opt_snr_net" = Some (Arr1 []) ->
  map_Forall (fun _ a => len a = 0%nat) d ->
  exists s', LeR.unlensed_rate E snr_threshold s = Ok (NaN, NaN) s'.
Proof.
  intros Hgw Hd Hzs Hsnr Hrows.
  exact (unlensed_rate_returns E snr_threshold s l d zs [] Hgw Hd Hzs Hsnr Hrows).
Qed.

(** The step rate of [unlensed_rate] on a population with at least one source
    is a number between [0] and the normalization constant (when that is not
    negative), whatever the signals are. *)
Theorem unlensed_step_rate_within_normalization (snr_threshold : Q)
    (s : LeR.state R) (l : LeR.loc) (d : gmap string ndarray) (zs : ndarray)
    (snr : list fval) :
  LeR.gw_param s = LeR.PyDict l ->
  LeR.store s !! l = Some d ->
  d !! "zs" = Some zs ->
  d !! "opt_snr_net" = Some (Arr1 snr) ->
  map_Forall (fun _ a => len a = length snr) d ->
  snr <> [] ->
  0 <= LeR.normalization_pdf_z E ->
  exists r_step r_pdet s',
    LeR.unlensed_rate E snr_threshold s = Ok (Fin r_step, r_pdet) s' /\
    0 <= r_step <= LeR.normalization_pdf_z E.
Proof.
  intros Hgw Hd Hzs Hsnr Hrows Hne Hc0.
  destruct (unlensed_rate_returns E snr_threshold s l d zs snr
              Hgw Hd Hzs Hsnr Hrows) as [s' Hrun].
  destruct (step_rate_bounds (LeR.normalization_pdf_z E)
              (map (fun x => fgtb x snr_threshold) snr)) as (r & Hr & Hb).
  { by destruct snr. }
  { done. }
  rewrite Hr in Hrun. by eexists r, _, s'.
Qed.

(** A source whose signal is missing ([nan]) makes the pdet rate of
    [unlensed_rate] [nan] (the signal enters the distribution function as it
    is), while the step rate stays a number: the comparison [nan > threshold]
    is false. *)
Theorem unlensed_pdet_rate_of_missing_signal (snr_threshold : Q)
    (s : LeR.state R) (l : LeR.loc) (d : gmap string ndarray) (zs : ndarray)
    (snr : list fval) :
  LeR.gw_param s = LeR.PyDict l ->
  LeR.store s !! l = Some d ->
  d !! "zs" = Some zs ->
  d !! "opt_snr_net" = Some (Arr1 snr) ->
  map_Forall (fun _ a => len a = length snr) d ->
  NaN ∈ snr ->
  exists r_step s',
    LeR.unlensed_rate E snr_threshold s = Ok (Fin r_step, NaN) s'.
Proof.
  intros Hgw Hd Hzs Hsnr Hrows Hnan.
  destruct (unlensed_rate_returns E snr_threshold s l d zs snr
              Hgw Hd Hzs Hsnr Hrows) as [s' Hrun].
  rewrite (rate_NaN _ (map _ snr)) in Hrun.
  2:{ apply list_elem_of_fmap. by exists NaN. }
  unfold LeR.rate in Hrun.
  assert (exists q, mean (map of_bool (map (fun x => fgtb x snr_threshold) snr))
                    = Fin q) as [q Hq].
  { pose proof (sum_of_bool (map (fun x => fgtb x snr_threshold) snr)) as Hsum.
    rewrite mean_nonempty by (destruct snr; [by apply elem_of_nil in Hnan|done]).
    destruct (sum _) as [|q0]; [done|]. by eexists. }
  rewrite Hq in Hrun. by eexists _, s'.
Qed.

End UnlensedRates.

Lemma unlensed_rate_of_no_source_witness :
  exists s',
    LeR.unlensed_rate Survey.ler 8
      (LeR.mk_state 0%nat
         {[0%nat := <["zs" := Arr.Arr1 []]> {["opt_snr_net" := Arr.Arr1 []]}]}
         (LeR.PyDict 0%nat) LeR.PyFalse LeR.PyFalse LeR.PyFalse 4 10 10 2 4)
    = Ok (Arr.NaN, Arr.NaN) s'.
Proof.
  apply (unlensed_rate_of_no_source Survey.ler 8 _ 0%nat
           (<["zs" := Arr.Arr1 []]> {["opt_snr_net" := Arr.Arr1 []]})
           (Arr.Arr1 [])); [reflexivity..|].
  refine (bool_decide_unpack _ _). by vm_compute.
Defined.

Lemma unlensed_step_rate_within_normalization_witness :
  exists r_step r_pdet s',
    LeR.unlensed_rate Survey.ler 8 Survey.sampled = Ok (Arr.Fin r_step, r_pdet) s' /\
    0 <= r_step <= 2.
Proof.
  apply (unlensed_step_rate_within_normalization Survey.ler 8 Survey.sampled
           0%nat Survey.gw_population (Arr.Arr1 (repeat (Arr.Fin 1) 10))
           (map Arr.Fin [12; 3; 9; 1; 2; 10; 4; 5; 6; 7]));
    [reflexivity..| |done|done].
  refine (bool_decide_unpack _ _). by vm_compute.
Defined.

Lemma unlensed_pdet_rate_of_missing_signal_witness :
  exists r_step s',
    LeR.unlensed_rate Survey.ler 8
      (LeR.mk_state 0%nat
         {[0%nat := <["zs" := Arr.Arr1 [Arr.Fin 1; Arr.Fin 2]]>
                      {["opt_snr_net" := Arr.Arr1 [Arr.Fin 9; Arr.NaN]]}]}
         (LeR.PyDict 0%nat) LeR.PyFalse LeR.PyFalse LeR.PyFalse 4 10 10 2 4)
    = Ok (Arr.Fin r_step, Arr.NaN) s'.
Proof.
  apply (unlensed_pdet_rate_of_missing_signal Survey.ler 8 _ 0%nat
           (<["zs" := Arr.Arr1 [Arr.Fin 1; Arr.Fin 2]]>
              {["opt_snr_net" := Arr.Arr1 [Arr.Fin 9; Arr.NaN]]})
           (Arr.Arr1 [Arr.Fin 1; Arr.Fin 2]) [Arr.Fin 9; Arr.NaN]);
    [reflexivity..| |].
  - refine (bool_decide_unpack _ _). by vm_compute.
  - apply list_elem_of_further, list_elem_of_here.
Defined.

(** ** Populations with missing fields *)

Section MissingFields.

Import Arr.

Context {R : Type} (E : LeR.collaborators R).

(** [unlensed_rate] on a stored population that lacks the field ['zs'] or the
    field ['opt_snr_net'] raises [KeyError]; the population and the detectable
    attribute are as they were. *)
Theorem unlensed_rate_missing_field (snr_threshold : Q) (s : LeR.state R)
    (l : LeR.loc) (d : gmap string ndarray) :
  LeR.gw_param s = LeR.PyDict l ->
  LeR.store s !! l = Some d ->
  d !! "zs" = None \/ d !! "opt_snr_net" = None ->
  exists s',
    LeR.unlensed_rate E snr_threshold s = Raise KeyError s' /\
    population_unchanged s s' /\
    LeR.gw_param_detectable s' = LeR.gw_param_detectable s.
Proof.
  intros Hgw Hd Hmiss. pose proof (fresh_store_lookup s) as Hfresh.
  cut (wpx (LeR.unlensed_rate E snr_threshold) (fun _ _ => False)
         (fun e s' => e = KeyError /\ population_unchanged s s' /\
            LeR.gw_param_detectable s' = LeR.gw_param_detectable s) s).
  { intros H. apply wpx_raises in H as (e & s' & Hrun & -> & H). eauto. }
  unfold LeR.unlensed_rate.
  apply wpx_bind, wpx_gets. rewrite Hgw.
  destruct (d !! "zs") as [zs|] eqn:Hzs.
  - destruct Hmiss as [?|Hsnr]; [done|].
    wpx_run. rewrite Hgw. wpx_run.
    split_and!; [done| |done].
    apply population_unchanged_write; [done|]. apply population_unchanged_refl.
  - wpx_run. split_and!; [done| |done]. apply population_unchanged_refl.
Qed.

End MissingFields.

Lemma unlensed_rate_missing_field_witness :
  exists s',
    LeR.unlensed_rate Survey.ler 8
      (LeR.mk_state 0%nat {[0%nat := {["zs" := Arr.Arr1 [Arr.Fin 1]]}]}
         (LeR.PyDict 0%nat) LeR.PyFalse LeR.PyFalse LeR.PyFalse 4 10 10 2 4)
    = Raise KeyError s'.
Proof.
  destruct (unlensed_rate_missing_field Survey.ler 8
              (LeR.mk_state 0%nat {[0%nat := {["zs" := Arr.Arr1 [Arr.Fin 1]]}]}
                 (LeR.PyDict 0%nat) LeR.PyFalse LeR.PyFalse LeR.PyFalse
                 4 10 10 2 4)
              0%nat {["zs" := Arr.Arr1 [Arr.Fin 1]]})
    as (s' & Hrun & _); [reflexivity|reflexivity|by right|].
  by exists s'.
Defined.

(** ** The detection selection at its limits *)

Section SelectionLimits.

Import Arr Selection.

Context {R : Type} (E : LeR.collaborators R).

Lemma detection_selection_no_image (cdf : Q -> Q) (ncols : nat)
    (rows : list (list fval)) (reqs : list (Q * nat)) :
  required_images reqs = 0%nat ->
  LeR.detection_selection cdf (Arr2 ncols rows) (map fst reqs) (map snd reqs)
  = Some (LeR.mk_selection (repeat true (length rows))
            (repeat 1 (length rows)) None 0).
Proof.
  intros H0. rewrite detection_selection_columns.
  unfold required_images in H0. apply length_zero_iff_nil in H0.
  by rewrite H0.
Qed.

Lemma detection_selection_overflow (cdf : Q -> Q) (ncols : nat)
    (rows : list (list fval)) (reqs : list (Q * nat)) :
  (ncols < required_images reqs)%nat ->
  LeR.detection_selection cdf (Arr2 ncols rows) (map fst reqs) (map snd reqs)
  = None.
Proof.
  intros Hover. rewrite detection_selection_columns.
  apply foldl_step_overflow; simpl; [exact Hover|lia].
Qed.

(** [lensed_rate] with requirements that ask for no image at all: the double
    loop never runs, [pdet] is unbound where it is stored as ['pdet_net'], and
    the call raises [NameError] ([UnboundLocalError]); the population and the
    detectable attribute are as they were. *)
Theorem lensed_rate_without_required_image (size : Z) (reqs : list (Q * nat))
    (none_as_nan : bool) (s : LeR.state R) (l : LeR.loc)
    (d : gmap string ndarray) (zs : ndarray) (ncols : nat)
    (rows : list (list fval)) :
  LeR.lensed_param s = LeR.PyDict l ->
  LeR.store s !! l = Some d ->
  d !! "zs" = Some zs ->
  d !! "opt_snr_net" = Some (Arr2 ncols rows) ->
  required_images reqs = 0%nat ->
  exists s',
    LeR.lensed_rate E size (map fst reqs) (map snd reqs) none_as_nan s
    = Raise NameError s' /\
    population_unchanged s s' /\
    LeR.lensed_param_detectable s' = LeR.lensed_param_detectable s.
Proof.
  intros Hlp Hd Hzs Hsnr H0. pose proof (fresh_store_lookup s) as Hfresh.
  pose proof (detection_selection_no_image (LeR.norm_cdf E) ncols rows reqs H0)
    as Hsel.
  cut (wpx (LeR.lensed_rate E size (map fst reqs) (map snd reqs) none_as_nan)
         (fun _ _ => False)
         (fun e s' => e = NameError /\ population_unchanged s s' /\
            LeR.lensed_param_detectable s' = LeR.lensed_param_detectable s) s).
  { intros H. apply wpx_raises in H as (e & s' & Hrun & -> & H). eauto. }
  unfold LeR.lensed_rate.
  apply wpx_bind, wpx_gets. rewrite Hlp. wpx_run. rewrite Hlp. wpx_run.
  apply wpx_raise.
  split_and!; [done| |done].
  apply population_unchanged_write; [done|]. apply population_unchanged_refl.
Qed.

(** [lensed_rate] with requirements that ask for more images than the signal
    array has columns raises [IndexError]; the population and the detectable
    attribute are as they were. *)
Theorem lensed_rate_with_too_many_images (size : Z) (reqs : list (Q * nat))
    (none_as_nan : bool) (s : LeR.state R) (l : LeR.loc)
    (d : gmap string ndarray) (zs : ndarray) (ncols : nat)
    (rows : list (list fval)) :
  LeR.lensed_param s = LeR.PyDict l ->
  LeR.store s !! l = Some d ->
  d !! "zs" = Some zs ->
  d !! "opt_snr_net" = Some (Arr2 ncols rows) ->
  (ncols < required_images reqs)%nat ->
  exists s',
    LeR.lensed_rate E size (map fst reqs) (map snd reqs) none_as_nan s
    = Raise IndexError s' /\
    population_unchanged s s' /\
    LeR.lensed_param_detectable s' = LeR.lensed_param_detectable s.
Proof.
  intros Hlp Hd Hzs Hsnr Hover. pose proof (fresh_store_lookup s) as Hfresh.
  pose proof (detection_selection_overflow (LeR.norm_cdf E) ncols rows reqs
                Hover) as Hsel.
  cut (wpx (LeR.lensed_rate E size (map fst reqs) (map snd reqs) none_as_nan)
         (fun _ _ => False)
         (fun e s' => e = IndexError /\ population_unchanged s s' /\
            LeR.lensed_param_detectable s' = LeR.lensed_param_detectable s) s).
  { intros H. apply wpx_raises in H as (e & s' & Hrun & -> & H). eauto. }
  unfold LeR.lensed_rate.
  apply wpx_bind, wpx_gets. rewrite Hlp. wpx_run. rewrite Hlp. wpx_run.
  split_and!; [done| |done].
  apply population_unchanged_write; [done|]. apply population_unchanged_refl.
Qed.

End SelectionLimits.

Lemma lensed_rate_without_required_image_witness :
  exists s',
    LeR.lensed_rate Survey.ler 0 [8] [0%nat] true Survey.sampled
    = Raise NameError s'.
Proof.
  destruct (lensed_rate_without_required_image Survey.ler 0 [(8, 0%nat)] true
              Survey.sampled 1%nat Survey.lensed_population
              (Arr.Arr1 (repeat (Arr.Fin 1) 3)) 2
              [[Arr.Fin 10; Arr.Fin 7]; [Arr.Fin 9; Arr.Fin 2];
               [Arr.Fin 3; Arr.Fin 1]])
    as (s' & Hrun & _); [reflexivity..|].
  by exists s'.
Defined.

Lemma lensed_rate_with_too_many_images_witness :
  exists s',
    LeR.lensed_rate Survey.ler 0 [8; 5] [2%nat; 1%nat] true Survey.sampled
    = Raise IndexError s'.
Proof.
  destruct (lensed_rate_with_too_many_images Survey.ler 0
              [(8, 2%nat); (5, 1%nat)] true
              Survey.sampled 1%nat Survey.lensed_population
              (Arr.Arr1 (repeat (Arr.Fin 1) 3)) 2
              [[Arr.Fin 10; Arr.Fin 7]; [Arr.Fin 9; Arr.Fin 2];
               [Arr.Fin 3; Arr.Fin 1]])
    as (s' & Hrun & _); [reflexivity..|by vm_compute|].
  by exists s'.
Defined.

(** ** The joint detection probability is a probability *)

Section ProbabilityRange.

Import Arr.

Context (cdf : Q -> Q).
Hypothesis cdf_range : forall x, 0 <= cdf x <= 1.

Let unit_interval (p : Q) : Prop := 0 <= p <= 1.

Let in_range (acc : LeR.selection) : Prop :=
  Forall unit_interval (LeR.pdet_combined acc) /\
  forall p, LeR.pdet acc = Some p -> Forall unit_interval p.

Lemma complement_range (x : Q) : unit_interval (1 - cdf x).
Proof.
  destruct (cdf_range x) as [H0 H1]. unfold unit_interval. split.
  - unfold Qminus. rewrite <- (Qplus_opp_r (cdf x)).
    apply Qplus_le_compat; [done|apply Qle_refl].
  - rewrite <- (Qplus_0_r 1) at 2. unfold Qminus.
    apply Qplus_le_compat; [apply Qle_refl|].
    change 0 with (- 0). by apply Qopp_le_compat.
Qed.

Lemma product_range (a b : Q) :
  unit_interval a -> unit_interval b -> unit_interval (a * b).
Proof.
  intros [Ha0 Ha1] [Hb0 Hb1]. split.
  - by apply Qmult_le_0_compat.
  - rewrite <- (Qmult_1_r 1). by apply Qmult_le_compat_nonneg.
Qed.

Lemma zip_with_range (a b : list Q) :
  Forall unit_interval a -> Forall unit_interval b ->
  Forall unit_interval (zip_with Qmult a b).
Proof.
  intros Ha. revert b. induction Ha as [|x a Hx Ha IH]; intros b Hb; [done|].
  destruct Hb as [|y b Hy Hb]; [done|]. simpl.
  constructor; [by apply product_range|by apply IH].
Qed.

Lemma consume_column_range (a : ndarray) (th : Q) (acc acc' : LeR.selection) :
  in_range acc -> LeR.consume_column cdf a th acc = Some acc' -> in_range acc'.
Proof.
  intros [Hc Hp]. unfold LeR.consume_column.
  destruct (column a (LeR.num2 acc)) as [col|]; [|done]. intros [= <-].
  assert (Hcol : Forall unit_interval
                   (map (fun x => 1 - cdf (th - nan_to_num x)) col)).
  { apply Forall_map, Forall_forall. intros x _. apply complement_range. }
  split; simpl.
  - by apply zip_with_range.
  - by intros p [= <-].
Qed.

Lemma consume_columns_range (a : ndarray) (th : Q) (num1 : nat)
    (acc acc' : LeR.selection) :
  in_range acc -> LeR.consume_columns cdf a th num1 acc = Some acc' ->
  in_range acc'.
Proof.
  revert acc. induction num1 as [|n IH]; intros acc Hacc; simpl.
  - by intros [= <-].
  - destruct (LeR.consume_column cdf a th acc) as [acc1|] eqn:H1; [|done].
    simpl. apply IH. by eapply consume_column_range.
Qed.

Lemma consume_requirements_range (a : ndarray) (snr_threshold : list Q)
    (num_img : list nat) (idx : list nat) (acc : option LeR.selection)
    (sel : LeR.selection) :
  (forall acc0, acc = Some acc0 -> in_range acc0) ->
  foldl (LeR.consume_requirement cdf a snr_threshold num_img) acc idx
    = Some sel ->
  in_range sel.
Proof.
  revert acc. induction idx as [|i idx IH]; intros acc Hacc; simpl.
  - intros ->. by apply Hacc.
  - apply IH. intros acc1. unfold LeR.consume_requirement.
    destruct acc as [acc0|]; [|done]. simpl.
    destruct (num_img !! i) as [num1|]; [|done]. simpl.
    destruct (snr_threshold !! i) as [th|]; [|done]. simpl.
    apply consume_columns_range. by apply Hacc.
Qed.

(** With a distribution function that takes its values in [[0, 1]], every
    joint detection probability the detection selection of [lensed_rate]
    computes, and every entry of the array it stores as ['pdet_net'], lies in
    [[0, 1]], whatever the signals (missing ones included), the thresholds and
    the image counts are. *)
Theorem detection_probabilities_in_unit_interval (snr : ndarray)
    (snr_threshold : list Q) (num_img : list nat) (sel : LeR.selection) :
  LeR.detection_selection cdf snr snr_threshold num_img = Some sel ->
  Forall (fun p => 0 <= p <= 1) (LeR.pdet_combined sel) /\
  forall p, LeR.pdet sel = Some p -> Forall (fun p => 0 <= p <= 1) p.
Proof.
  unfold LeR.detection_selection.
  destruct (sort_rows_descending snr) as [sorted|]; [|done]. simpl.
  intros Hfold.
  eapply (consume_requirements_range sorted); [|exact Hfold].
  intros acc0 [= <-]. split; simpl; [|done].
  apply Forall_forall. intros x Hx. apply list_elem_of_In, repeat_spec in Hx.
  by subst x.
Qed.

End ProbabilityRange.

Lemma demo_cdf_range (x : Q) : 0 <= Demo.cdf x <= 1.
Proof.
  unfold Demo.cdf.
  pose proof (Qabs_nonneg x) as Habs.
  pose proof (Qle_Qabs x) as Hle.
  pose proof (Qle_Qabs (- x)) as Hge. rewrite Qabs_opp in Hge.
  assert (Hpos : 0 < 2 * (1 + Qabs x)) by lra.
  assert (Hlo : - (1 # 2) <= x / (2 * (1 + Qabs x))).
  { apply Qle_shift_div_l; [done|]. lra. }
  assert (Hhi : x / (2 * (1 + Qabs x)) <= 1 # 2).
  { apply Qle_shift_div_r; [done|]. lra. }
  lra.
Qed.

Lemma detection_probabilities_in_unit_interval_witness :
  exists sel,
    LeR.detection_selection Demo.cdf Demo.one_image [8] [2%nat] = Some sel /\
    Forall (fun p => 0 <= p <= 1) (LeR.pdet_combined sel).
Proof.
  destruct (LeR.detection_selection Demo.cdf Demo.one_image [8] [2%nat])
    as [sel|] eqn:Hsel; [|by vm_compute in Hsel].
  exists sel. split; [done|].
  by destruct (detection_probabilities_in_unit_interval Demo.cdf demo_cdf_range
                 Demo.one_image [8] [2%nat] sel Hsel).
Defined.

(** ** Sampling in batches at its limits *)

Section BatchLimits.

Import Arr.

Context {R : Type} (E : LeR.collaborators R).

(** With [self.batch_size = 0] both statistics methods raise
    [ZeroDivisionError] at [nsamples % batch_size], before any sampler is
    called: the state is the initial one, but for the requested number of
    samples, which has already been stored (unless it was [0], that is
    [False]). *)
Theorem statistics_with_zero_batch_size (nsamples : Z) (s : LeR.state R) :
  LeR.batch_size s = 0%Z ->
  LeR.unlensed_cbc_statistics E nsamples s
  = Raise ZeroDivisionError
      (if (nsamples =? 0)%Z then s else LeR.set_gw_nsamples nsamples s) /\
  LeR.lensed_cbc_statistics E nsamples s
  = Raise ZeroDivisionError
      (if (nsamples =? 0)%Z then s else LeR.set_lensed_nsamples nsamples s).
Proof.
  intros Hb. unfold LeR.unlensed_cbc_statistics, LeR.lensed_cbc_statistics.
  unfold bind, LeR.gets, LeR.batch_plan, LeR.modify, ret, raise.
  rewrite Hb. by destruct (nsamples =? 0)%Z.
Qed.

End BatchLimits.

Lemma statistics_with_zero_batch_size_witness :
  LeR.unlensed_cbc_statistics Survey.ler 5 (Survey.initial 0)
  = Raise ZeroDivisionError (LeR.set_gw_nsamples 5 (Survey.initial 0)).
Proof.
  by destruct (statistics_with_zero_batch_size Survey.ler 5 (Survey.initial 0)
                 eq_refl) as [H _].
Defined.

Section Sentinel.

Import Arr.

Context {R : Type} (E : LeR.collaborators R).

Lemma unlensed_cbc_statistics_rows (gw snr : gmap string (option nat))
    (N : Z) (s : LeR.state R) :
  sized_sources E gw snr ->
  (1 <= N)%Z -> (1 <= LeR.batch_size s)%Z ->
  exists l d s',
    LeR.unlensed_cbc_statistics E N s = Ok l s' /\
    LeR.gw_param s' = LeR.PyDict l /\
    LeR.store s' !! l = Some d /\
    batch_of (snr ∪ gw) (Z.to_nat N) d.
Proof.
  intros HE HN Hb.
  rewrite (unlensed_cbc_statistics_rounds E N s HN Hb).
  pose proof (leading_batch_bounds N (LeR.batch_size s) HN Hb) as [Hlead Hk].
  set (b := LeR.batch_size s) in *. set (k := ceil_div N b) in *.
  destruct (rounds_total (LeR.unlensed_round E (N - (k - 1) * b))
              (LeR.unlensed_round E b) (snr ∪ gw)
              (Z.to_nat (N - (k - 1) * b)) (Z.to_nat b) (Z.to_nat (k - 1))
              (LeR.set_gw_nsamples N s))
    as (l & d & s' & Hl & Hd & Hrun).
  { apply unlensed_round_sized; [done|lia]. }
  { apply unlensed_round_sized; [done|lia]. }
  exists l, d, (LeR.set_gw_param (LeR.PyDict l) s').
  rewrite Hrun. split_and!; [done..|].
  replace (Z.to_nat N)
    with (Z.to_nat (N - (k - 1) * b) + Z.to_nat (k - 1) * Z.to_nat b)%nat
    by nia.
  done.
Qed.

Lemma lensed_cbc_statistics_rows (lens img snr : gmap string (option nat))
    (N : Z) (s : LeR.state R) :
  sized_lenses E lens img snr ->
  (1 <= N)%Z -> (1 <= LeR.batch_size s)%Z ->
  exists l d s',
    LeR.lensed_cbc_statistics E N s = Ok l s' /\
    LeR.lensed_param s' = LeR.PyDict l /\
    LeR.store s' !! l = Some d /\
    batch_of (snr ∪ img) (Z.to_nat N) d.
Proof.
  intros HE HN Hb.
  rewrite (lensed_cbc_statistics_rounds E N s HN Hb).
  pose proof (leading_batch_bounds N (LeR.batch_size s) HN Hb) as [Hlead Hk].
  set (b := LeR.batch_size s) in *. set (k := ceil_div N b) in *.
  set (round := LeR.lensed_round E (LeR.min_lensed_images s)
                  (LeR.max_lensed_images s)).
  destruct (rounds_total (round (N - (k - 1) * b)%Z) (round b) (snr ∪ img)
              (Z.to_nat (N - (k - 1) * b)) (Z.to_nat b) (Z.to_nat (k - 1))
              (LeR.set_lensed_nsamples N s))
    as (l & d & s' & Hl & Hd & Hrun).
  { eapply lensed_round_sized; [done|lia]. }
  { eapply lensed_round_sized; [done|lia]. }
  exists l, d, (LeR.set_lensed_param (LeR.PyDict l) s').
  rewrite Hrun. split_and!; [done..|].
  replace (Z.to_nat N)
    with (Z.to_nat (N - (k - 1) * b) + Z.to_nat (k - 1) * Z.to_nat b)%nat
    by nia.
  done.
Qed.

(** A request for [0] samples is a request for the stored default:
    [nsamples == False] holds of [0], so with collaborators that honour the
    requested sizes [unlensed_cbc_statistics(0)] stores a population of
    [gw_param_sampler_dict['nsamples']] rows and [lensed_cbc_statistics(0)]
    one of [lensed_param_sampler_dict['nsamples']] rows, not an empty one. *)
Theorem statistics_of_zero_samples :
  (forall (gw snr : gmap string (option nat)) (s : LeR.state R),
      sized_sources E gw snr ->
      (1 <= LeR.gw_nsamples s)%Z -> (1 <= LeR.batch_size s)%Z ->
      exists l d s',
        LeR.unlensed_cbc_statistics E 0 s = Ok l s' /\
        LeR.gw_param s' = LeR.PyDict l /\
        LeR.store s' !! l = Some d /\
        batch_of (snr ∪ gw) (Z.to_nat (LeR.gw_nsamples s)) d) /\
  (forall (lens img snr : gmap string (option nat)) (s : LeR.state R),
      sized_lenses E lens img snr ->
      (1 <= LeR.lensed_nsamples s)%Z -> (1 <= LeR.batch_size s)%Z ->
      exists l d s',
        LeR.lensed_cbc_statistics E 0 s = Ok l s' /\
        LeR.lensed_param s' = LeR.PyDict l /\
        LeR.store s' !! l = Some d /\
        batch_of (snr ∪ img) (Z.to_nat (LeR.lensed_nsamples s)) d).
Proof.
  split.
  - intros gw snr s HE HN Hb.
    rewrite unlensed_cbc_statistics_default by lia.
    by apply unlensed_cbc_statistics_rows.
  - intros lens img snr s HE HN Hb.
    rewrite lensed_cbc_statistics_default by lia.
    by eapply lensed_cbc_statistics_rows.
Qed.

End Sentinel.

Lemma statistics_of_zero_samples_witness :
  exists l d s',
    LeR.unlensed_cbc_statistics Survey.ler 0 (Survey.initial 4) = Ok l s' /\
    LeR.store s' !! l = Some d /\
    map_Forall (fun _ a => Arr.len a = 10%nat) d.
Proof.
  destruct (statistics_of_zero_samples Survey.ler) as [Hu _].
  destruct (Hu _ _ (Survey.initial 4) survey_sized_sources
              ltac:(simpl; lia) ltac:(simpl; lia))
    as (l & d & s' & Hrun & _ & Hd & Hrows).
  exists l, d, s'. split_and!; [done..|].
  intros k a Hk. by apply (batch_of_lookup _ _ _ _ _ Hrows Hk).
Defined.

(** ** Rates on an instance that has not sampled yet *)

Section SampleFirst.

Import Arr.

Context {R : Type} (E : LeR.collaborators R).

Lemma bind_Ok_inv {S A B} (c : M S A) (k : A -> M S B) (s s' : S) (b : B) :
  bind c k s = Ok b s' -> exists a s0, c s = Ok a s0 /\ k a s0 = Ok b s'.
Proof. unfold bind. destruct (c s) as [a s0| |]; [eauto|done..]. Qed.

Lemma unlensed_cbc_statistics_stores (nsamples : Z) (s s1 : LeR.state R)
    (l : LeR.loc) :
  LeR.unlensed_cbc_statistics E nsamples s = Ok l s1 ->
  LeR.gw_param s1 = LeR.PyDict l.
Proof.
  unfold LeR.unlensed_cbc_statistics. intros H.
  do 6 (apply bind_Ok_inv in H as (? & ? & _ & H)).
  apply bind_Ok_inv in H as (? & ? & Hm & H).
  injection Hm as _ <-. by injection H as <- <-.
Qed.

Lemma lensed_cbc_statistics_stores (nsamples : Z) (s s1 : LeR.state R)
    (l : LeR.loc) :
  LeR.lensed_cbc_statistics E nsamples s = Ok l s1 ->
  LeR.lensed_param s1 = LeR.PyDict l.
Proof.
  unfold LeR.lensed_cbc_statistics. intros H.
  do 8 (apply bind_Ok_inv in H as (? & ? & _ & H)).
  apply bind_Ok_inv in H as (? & ? & Hm & H).
  injection Hm as _ <-. by injection H as <- <-.
Qed.

(** On an instance that has not sampled, a rate method samples first and
    then behaves as on the sampled instance: [unlensed_rate] runs
    [unlensed_cbc_statistics] with the stored default number of samples,
    [lensed_rate] runs [lensed_cbc_statistics(nsamples=size)]; the rates are
    those of the population just stored. *)
Theorem rate_methods_sample_first :
  (forall (snr_threshold : Q) (s s1 : LeR.state R) (l : LeR.loc)
          (d : gmap string ndarray),
      LeR.gw_param s = LeR.PyFalse ->
      LeR.unlensed_cbc_statistics E 0 s = Ok l s1 ->
      LeR.store s1 !! l = Some d ->
      is_Some (d !! "zs") ->
      LeR.unlensed_rate E snr_threshold s
      = LeR.unlensed_rate E snr_threshold s1) /\
  (forall (size : Z) (snr_threshold : list Q) (num_img : list nat)
          (none_as_nan : bool) (s s1 : LeR.state R) (l : LeR.loc)
          (d : gmap string ndarray),
      LeR.lensed_param s = LeR.PyFalse ->
      LeR.lensed_cbc_statistics E size s = Ok l s1 ->
      LeR.store s1 !! l = Some d ->
      is_Some (d !! "zs") ->
      LeR.lensed_rate E size snr_threshold num_img none_as_nan s
      = LeR.lensed_rate E size snr_threshold num_img none_as_nan s1).
Proof.
  split.
  - intros t s s1 l d Hgw Hstat Hd [zs Hzs].
    pose proof (unlensed_cbc_statistics_stores _ _ _ _ Hstat) as Hgw1.
    unfold LeR.unlensed_rate.
    unfold bind at 1. unfold LeR.gets at 1. rewrite Hgw.
    unfold bind at 1. unfold bind at 1. rewrite Hstat.
    symmetry.
    unfold bind at 1. unfold LeR.gets at 1. rewrite Hgw1.
    unfold bind at 1. unfold bind at 1. unfold LeR.read at 1. rewrite Hd.
    unfold bind at 1. unfold getitem at 1. by rewrite Hzs.
  - intros size ts ns nan s s1 l d Hlp Hstat Hd [zs Hzs].
    pose proof (lensed_cbc_statistics_stores _ _ _ _ Hstat) as Hlp1.
    unfold LeR.lensed_rate.
    unfold bind at 1. unfold LeR.gets at 1. rewrite Hlp.
    unfold bind at 1. unfold bind at 1. rewrite Hstat.
    symmetry.
    unfold bind at 1. unfold LeR.gets at 1. rewrite Hlp1.
    unfold bind at 1. unfold bind at 1. unfold LeR.read at 1. rewrite Hd.
    unfold bind at 1. unfold getitem at 1. by rewrite Hzs.
Qed.

End SampleFirst.

Lemma rate_methods_sample_first_witness :
  exists l s1,
    LeR.unlensed_cbc_statistics Survey.ler 0 (Survey.initial 4) = Ok l s1 /\
    LeR.unlensed_rate Survey.ler 8 (Survey.initial 4)
    = LeR.unlensed_rate Survey.ler 8 s1.
Proof.
  destruct (unlensed_cbc_statistics_rows Survey.ler _ _ 10 (Survey.initial 4)
              survey_sized_sources ltac:(lia) ltac:(simpl; lia))
    as (l & d & s1 & Hrun & _ & Hd & Hdom & Hrows).
  change 10%Z with (LeR.gw_nsamples (Survey.initial 4)) in Hrun.
  rewrite <- (unlensed_cbc_statistics_default Survey.ler (Survey.initial 4))
    in Hrun by done.
  exists l, s1. split; [done|].
  destruct (rate_methods_sample_first Survey.ler) as [H _].
  apply (H 8 (Survey.initial 4) s1 l d); [reflexivity|done..|].
  apply elem_of_dom. rewrite Hdom. by vm_compute.
Defined.

(** ** Selecting the detectable events of a stored population *)

Section SelectingFromDict.

Import Arr.

Context {R : Type}.

Lemma sampled_spec (v : LeR.pyval) (s : LeR.state R) :
  LeR.sampled v s
  = Ok (match v with
        | LeR.PyDict l =>
            match LeR.store s !! l with
            | Some d => bool_decide (is_Some (d !! "zs"))
            | None => false
            end
        | LeR.PyFalse => false
        end) s.
Proof.
  unfold LeR.sampled, try_except, bind, LeR.read, getitem.
  destruct v as [|l]; [done|].
  destruct (LeR.store s !! l) as [d|]; [|done].
  by destruct (d !! "zs").
Qed.

(** Without a sampled population the selecting methods return [None] and
    leave the instance as it is: this is the case when the attribute is
    [False], and also when it refers to a dict without the field ['zs']
    (the bare [except] hides the [KeyError]). *)
Theorem selecting_from_dict_without_population :
  (forall (snr_threshold : Q) (s : LeR.state R),
      (forall l d, LeR.gw_param s = LeR.PyDict l ->
                   LeR.store s !! l = Some d -> d !! "zs" = None) ->
      LeR.selecting_n_unlensed_detectable_events_from_dict snr_threshold s
      = Ok None s) /\
  (forall (snr_threshold : list Q) (num_img : list nat) (none_as_nan : bool)
          (lenstype : string) (s : LeR.state R),
      (forall l d, LeR.lensed_param s = LeR.PyDict l ->
                   LeR.store s !! l = Some d -> d !! "zs" = None) ->
      LeR.selecting_n_lensed_detectable_events_from_dict snr_threshold num_img
        none_as_nan lenstype s
      = Ok None s).
Proof.
  split.
  - intros t s Hno. unfold LeR.selecting_n_unlensed_detectable_events_from_dict.
    unfold bind at 1. unfold LeR.gets at 1. unfold bind at 1.
    rewrite sampled_spec.
    destruct (LeR.gw_param s) as [|l]; [done|].
    destruct (LeR.store s !! l) as [d|] eqn:Hd; [|done].
    by rewrite (Hno l d eq_refl Hd).
  - intros ts ns nan ty s Hno.
    unfold LeR.selecting_n_lensed_detectable_events_from_dict.
    unfold bind at 1. unfold LeR.gets at 1. unfold bind at 1.
    rewrite sampled_spec.
    destruct (LeR.lensed_param s) as [|l]; [done|].
    destruct (LeR.store s !! l) as [d|] eqn:Hd; [|done].
    by rewrite (Hno l d eq_refl Hd).
Qed.

Lemma selecting_unlensed_from_dict_run (snr_threshold : Q) (s : LeR.state R)
    (l : LeR.loc) (d : gmap string ndarray) (zs : ndarray) (snr : list fval) :
  LeR.gw_param s = LeR.PyDict l ->
  LeR.store s !! l = Some d ->
  d !! "zs" = Some zs ->
  d !! "opt_snr_net" = Some (Arr1 snr) ->
  map_Forall (fun _ a => len a = length snr) d ->
  exists d',
    dict_getmask (map (fun x => fgtb x snr_threshold) snr) d = Some d' /\
    LeR.selecting_n_unlensed_detectable_events_from_dict snr_threshold s
    = Ok (Some (fresh (dom (LeR.store s))))
         (LeR.set_store (<[fresh (dom (LeR.store s)) := d']> (LeR.store s)) s).
Proof.
  intros Hgw Hd Hzs Hsnr Hrows.
  set (mask := map (fun x => fgtb x snr_threshold) snr).
  set (l' := fresh (dom (LeR.store s))).
  destruct (dict_getmask_rows mask d) as [d' Hd'].
  { intros k a Hk. unfold mask. rewrite length_map. by eapply Hrows. }
  exists d'. split; [done|].
  unfold LeR.selecting_n_unlensed_detectable_events_from_dict.
  unfold bind at 1. unfold LeR.gets at 1. unfold bind at 1.
  rewrite sampled_spec, Hgw, Hd, Hzs.
  rewrite bool_decide_true by by eexists. cbv iota.
  cut (wpx (param <- LeR.dict_copy (LeR.PyDict l);;
            d0 <- LeR.read (LeR.PyDict param);;
            snr0 <- getitem d0 "opt_snr_net";;
            snr1 <- match snr0 with
                    | Arr1 v => ret v
                    | Arr2 _ _ => raise IndexError
                    end;;
            d1 <- of_option IndexError
                    (dict_getmask (map (fun x => fgtb x snr_threshold) snr1) d0);;
            _ <- LeR.write param d1;; ret (Some param))
         (fun r s' => r = Some l' /\
                      s' = LeR.set_store (<[l' := d']> (LeR.store s)) s)
         (fun _ _ => False) s).
  { intros H. apply wpx_returns in H as (r & s' & Hrun & -> & ->). exact Hrun. }
  wpx_run. split; [done|]. cbn. by rewrite insert_insert_eq.
Qed.

(** On a sampled population whose arrays have one row per source,
    [selecting_n_unlensed_detectable_events_from_dict] returns a new dict
    object with the rows of every field whose signal exceeds the threshold;
    nothing else of the instance changes: the population, the detectable
    attributes and the generator are as they were. *)
Theorem selecting_unlensed_from_dict (snr_threshold : Q) (s : LeR.state R)
    (l : LeR.loc) (d : gmap string ndarray) (zs : ndarray) (snr : list fval) :
  LeR.gw_param s = LeR.PyDict l ->
  LeR.store s !! l = Some d ->
  d !! "zs" = Some zs ->
  d !! "opt_snr_net" = Some (Arr1 snr) ->
  map_Forall (fun _ a => len a = length snr) d ->
  let mask := map (fun x => fgtb x snr_threshold) snr in
  let l' := fresh (dom (LeR.store s)) in
  exists d',
    dict_getmask mask d = Some d' /\
    (forall k a, d !! k = Some a -> d' !! k = getmask mask a) /\
    LeR.selecting_n_unlensed_detectable_events_from_dict snr_threshold s
    = Ok (Some l') (LeR.set_store (<[l' := d']> (LeR.store s)) s).
Proof.
  intros Hgw Hd Hzs Hsnr Hrows mask l'.
  destruct (selecting_unlensed_from_dict_run snr_threshold s l d zs snr
              Hgw Hd Hzs Hsnr Hrows) as (d' & Hd' & Hrun).
  exists d'. split; [done|]. split; [|exact Hrun].
  intros k a Hk. unfold dict_getmask in Hd'.
  case_decide; [|done]. injection Hd' as <-.
  by rewrite map_lookup_imap, Hk.
Qed.

End SelectingFromDict.

Lemma selecting_unlensed_from_dict_witness :
  exists d' s',
    LeR.selecting_n_unlensed_detectable_events_from_dict 8 Survey.sampled
    = Ok (Some 2%nat) s' /\
    LeR.store s' !! 2%nat = Some d' /\
    d' !! "opt_snr_net" = Some (Arr.Arr1 (map Arr.Fin [12; 9; 10])).
Proof.
  destruct (selecting_unlensed_from_dict 8 Survey.sampled 0%nat
              Survey.gw_population (Arr.Arr1 (repeat (Arr.Fin 1) 10))
              (map Arr.Fin [12; 3; 9; 1; 2; 10; 4; 5; 6; 7]))
    as (d' & Hd' & Hfields & Hrun); [reflexivity..| |].
  { refine (bool_decide_unpack _ _). by vm_compute. }
  eexists d', _. split; [exact Hrun|]. split.
  - cbn. by rewrite lookup_insert_eq.
  - by rewrite (Hfields "opt_snr_net" _ eq_refl).
Defined.

Section RateAndSelection.

Import Arr.

Context {R : Type} (E : LeR.collaborators R).

Lemma dict_getmask_insert (mask : list bool) (d x y : gmap string ndarray)
    (k : string) (a a' : ndarray) :
  dict_getmask mask (<[k := a]> d) = Some x ->
  dict_getmask mask d = Some y ->
  getmask mask a = Some a' ->
  x = <[k := a']> y.
Proof.
  unfold dict_getmask. intros Hx Hy Ha.
  case_decide; [|done]. case_decide; [|done].
  injection Hx as <-. injection Hy as <-.
  apply map_eq. intros i. rewrite map_lookup_imap.
  destruct (decide (k = i)) as [<-|Hne].
  - by rewrite !lookup_insert_eq.
  - rewrite !lookup_insert_ne by done. by rewrite map_lookup_imap.
Qed.

(** [unlensed_rate] stores as [self.gw_param_detectable] what
    [selecting_n_unlensed_detectable_events_from_dict] returns for the same
    threshold, with one more field: ['pdet_net'], the detection probabilities
    of the selected sources. *)
Theorem unlensed_rate_stores_the_selection (snr_threshold : Q)
    (s : LeR.state R) (l : LeR.loc) (d : gmap string ndarray) (zs : ndarray)
    (snr : list fval) :
  LeR.gw_param s = LeR.PyDict l ->
  LeR.store s !! l = Some d ->
  d !! "zs" = Some zs ->
  d !! "opt_snr_net" = Some (Arr1 snr) ->
  map_Forall (fun _ a => len a = length snr) d ->
  let mask := map (fun x => fgtb x snr_threshold) snr in
  let pdet := map (fun x => fsub (Fin 1)
                     (flift1 (LeR.norm_cdf E) (fsub (Fin snr_threshold) x)))
                snr in
  exists l1 d1 s1 r l2 s2,
    LeR.selecting_n_unlensed_detectable_events_from_dict snr_threshold s
    = Ok (Some l1) s1 /\
    LeR.store s1 !! l1 = Some d1 /\
    LeR.unlensed_rate E snr_threshold s = Ok r s2 /\
    LeR.gw_param_detectable s2 = LeR.PyDict l2 /\
    LeR.store s2 !! l2
    = Some (<["pdet_net" := Arr1 (Np.mask_select mask pdet)]> d1).
Proof.
  intros Hgw Hd Hzs Hsnr Hrows mask pdet.
  destruct (selecting_unlensed_from_dict_run snr_threshold s l d zs snr
              Hgw Hd Hzs Hsnr Hrows) as (d1 & Hd1 & Hrun1).
  destruct (unlensed_rate_returns E snr_threshold s l d zs snr
              Hgw Hd Hzs Hsnr Hrows) as [s2 Hrun2].
  pose proof (unlensed_rate_sampled E snr_threshold s l d Hgw Hd) as Hwp.
  unfold wp in Hwp. rewrite Hrun2 in Hwp.
  destruct Hwp as (_ & snr' & d2 & Hsnr' & _ & _ & Hdet & _ & Hstore & Hd2).
  assert (snr' = snr) as -> by congruence.
  eexists _, d1, _, _, _, s2. split; [exact Hrun1|]. split.
  { cbn. by rewrite lookup_insert_eq. }
  split; [exact Hrun2|]. split; [exact Hdet|].
  rewrite Hstore, lookup_insert_eq. f_equal.
  apply (dict_getmask_insert mask d d2 d1 "pdet_net" (Arr1 pdet)); [done..|].
  unfold getmask. rewrite decide_True; [done|].
  unfold pdet, mask. simpl. by rewrite !length_map.
Qed.

End RateAndSelection.

Lemma unlensed_rate_stores_the_selection_witness :
  exists l1 d1 s1 r l2 s2,
    LeR.selecting_n_unlensed_detectable_events_from_dict 8 Survey.sampled
    = Ok (Some l1) s1 /\
    LeR.store s1 !! l1 = Some d1 /\
    LeR.unlensed_rate Survey.ler 8 Survey.sampled = Ok r s2 /\
    LeR.gw_param_detectable s2 = LeR.PyDict l2 /\
    exists pdet, LeR.store s2 !! l2 = Some (<["pdet_net" := pdet]> d1).
Proof.
  destruct (unlensed_rate_stores_the_selection Survey.ler 8 Survey.sampled
              0%nat Survey.gw_population (Arr.Arr1 (repeat (Arr.Fin 1) 10))
              (map Arr.Fin [12; 3; 9; 1; 2; 10; 4; 5; 6; 7]))
    as (l1 & d1 & s1 & r & l2 & s2 & H1 & H2 & H3 & H4 & H5);
    [reflexivity..| |].
  { refine (bool_decide_unpack _ _). by vm_compute. }
  exists l1, d1, s1, r, l2, s2. split_and!; [done..|]. by eexists.
Defined.

Section LensedSelection.

Import Arr.

Context {R : Type}.

Let proj (acc : LeR.selection) : list bool * nat :=
  (LeR.snr_hit acc, LeR.num2 acc).

Lemma hit_column_consume (cdf : Q -> Q) (a : ndarray) (th : Q)
    (acc : LeR.selection) :
  LeR.hit_column a th (proj acc) = proj <$> LeR.consume_column cdf a th acc.
Proof.
  unfold LeR.hit_column, LeR.consume_column, proj. simpl.
  by destruct (column a (LeR.num2 acc)).
Qed.

Lemma hit_columns_consume (cdf : Q -> Q) (a : ndarray) (th : Q) (num1 : nat)
    (acc : LeR.selection) :
  LeR.hit_columns a th num1 (proj acc)
  = proj <$> LeR.consume_columns cdf a th num1 acc.
Proof.
  revert acc. induction num1 as [|n IH]; intros acc; [done|]. simpl.
  rewrite (hit_column_consume cdf).
  destruct (LeR.consume_column cdf a th acc) as [acc'|]; [|done]. simpl.
  apply IH.
Qed.

Lemma hit_requirements_consume (cdf : Q -> Q) (a : ndarray)
    (snr_threshold : list Q) (num_img : list nat) (idx : list nat)
    (acc : option LeR.selection) :
  foldl (LeR.hit_requirement a snr_threshold num_img) (proj <$> acc) idx
  = proj <$> foldl (LeR.consume_requirement cdf a snr_threshold num_img) acc idx.
Proof.
  revert acc. induction idx as [|i idx IH]; intros acc; [done|]. simpl.
  rewrite <- IH. f_equal.
  unfold LeR.hit_requirement, LeR.consume_requirement.
  destruct acc as [acc|]; [|done]. simpl.
  destruct (num_img !! i) as [num1|]; [|done]. simpl.
  destruct (snr_threshold !! i) as [th|]; [|done]. simpl.
  apply hit_columns_consume.
Qed.

(** The hit mask of the selecting methods is the hit mask of [lensed_rate],
    whatever the distribution function is. *)
Lemma hit_selection_snr_hit (cdf : Q -> Q) (snr : ndarray)
    (snr_threshold : list Q) (num_img : list nat) :
  LeR.hit_selection snr snr_threshold num_img
  = LeR.snr_hit <$> LeR.detection_selection cdf snr snr_threshold num_img.
Proof.
  unfold LeR.hit_selection, LeR.detection_selection.
  destruct (sort_rows_descending snr) as [sorted|]; [|done]. simpl.
  change (Some (repeat true (len snr), 0%nat))
    with (proj <$> Some (LeR.mk_selection (repeat true (len snr))
                           (repeat 1 (len snr)) None 0)).
  rewrite (hit_requirements_consume cdf).
  by destruct (foldl _ _ _).
Qed.

Lemma slice_columns_len (a b : nat) (snr cols : ndarray) :
  LeR.slice_columns a b snr = Some cols -> len cols = len snr.
Proof.
  destruct snr as [|n rows]; [done|]. intros [= <-]. simpl.
  by rewrite length_map.
Qed.

(** On a sampled lensed population, with the lens type ['I'] (signal columns
    [0:2]) or ['II'] (columns [2:4]),
    [selecting_n_lensed_detectable_events_from_dict] returns a new dict object
    with the rows of every field that the detection selection of
    [lensed_rate] hits on those columns (with [none_as_nan = False], missing
    values replaced by [0]); nothing else of the instance changes. *)
Theorem selecting_lensed_from_dict (cdf : Q -> Q) (snr_threshold : list Q)
    (num_img : list nat) (none_as_nan : bool) (lenstype : string)
    (a b : nat) (s : LeR.state R) (l : LeR.loc) (d : gmap string ndarray)
    (zs snr cols : ndarray) (sel : LeR.selection) :
  (lenstype = "I" /\ a = 0%nat /\ b = 2%nat) \/
  (lenstype = "II" /\ a = 2%nat /\ b = 4%nat) ->
  LeR.lensed_param s = LeR.PyDict l ->
  LeR.store s !! l = Some d ->
  d !! "zs" = Some zs ->
  d !! "opt_snr_net" = Some snr ->
  map_Forall (fun _ x => len x = len snr) d ->
  LeR.slice_columns a b snr = Some cols ->
  LeR.detection_selection cdf cols snr_threshold num_img = Some sel ->
  let l' := fresh (dom (LeR.store s)) in
  exists d',
    dict_getmask (LeR.snr_hit sel) d = Some d' /\
    LeR.selecting_n_lensed_detectable_events_from_dict snr_threshold num_img
      none_as_nan lenstype s
    = Ok (Some l')
         (LeR.set_store
            (<[l' := if none_as_nan then d'
                     else amap (fun x => Fin (nan_to_num x)) <$> d']>
               (LeR.store s)) s).
Proof.
  intros Hty Hlp Hd Hzs Hsnr Hrows Hcols Hsel l'.
  destruct (detection_selection_rows _ _ _ _ _ Hsel) as (Hh & _ & _).
  rewrite (slice_columns_len _ _ _ _ Hcols) in Hh.
  destruct (dict_getmask_rows (LeR.snr_hit sel) d) as [d' Hd'].
  { intros k x Hk. rewrite Hh. by eapply Hrows. }
  assert (Hhit : LeR.hit_selection cols snr_threshold num_img
                 = Some (LeR.snr_hit sel))
    by by rewrite (hit_selection_snr_hit cdf), Hsel.
  exists d'. split; [done|].
  unfold LeR.selecting_n_lensed_detectable_events_from_dict.
  unfold bind at 1. unfold LeR.gets at 1. unfold bind at 1.
  rewrite sampled_spec, Hlp, Hd, Hzs.
  rewrite bool_decide_true by by eexists. cbv iota.
  set (prog := bind (LeR.dict_copy (LeR.PyDict l)) _).
  cut (wpx prog
         (fun r s' =>
            r = Some l' /\
            s' = LeR.set_store
                   (<[l' := if none_as_nan then d'
                            else amap (fun x => Fin (nan_to_num x)) <$> d']>
                      (LeR.store s)) s)
         (fun _ _ => False) s).
  { intros H. apply wpx_returns in H as (r & s' & Hrun & -> & ->). exact Hrun. }
  unfold prog.
  destruct Hty as [(-> & -> & ->)|(-> & -> & ->)].
  - rewrite decide_True by done. wpx_run.
    split; [done|]. cbn. by rewrite insert_insert_eq.
  - rewrite decide_False by done. rewrite decide_True by done. wpx_run.
    split; [done|]. cbn. by rewrite insert_insert_eq.
Qed.

(** With a lens type other than ['I'] and ['II'] (['any'] among them)
    [selecting_n_lensed_detectable_events_from_dict] selects nothing: on a
    sampled population with signals it returns [None]; the copy it has made
    is left behind, unreferenced, and nothing else of the instance
    changes. *)
Theorem selecting_lensed_of_unknown_type (snr_threshold : list Q)
    (num_img : list nat) (none_as_nan : bool) (lenstype : string)
    (s : LeR.state R) (l : LeR.loc) (d : gmap string ndarray)
    (zs snr : ndarray) :
  lenstype <> "I" -> lenstype <> "II" ->
  LeR.lensed_param s = LeR.PyDict l ->
  LeR.store s !! l = Some d ->
  d !! "zs" = Some zs ->
  d !! "opt_snr_net" = Some snr ->
  LeR.selecting_n_lensed_detectable_events_from_dict snr_threshold num_img
    none_as_nan lenstype s
  = Ok None
       (LeR.set_store (<[fresh (dom (LeR.store s)) := d]> (LeR.store s)) s).
Proof.
  intros H1 H2 Hlp Hd Hzs Hsnr.
  unfold LeR.selecting_n_lensed_detectable_events_from_dict.
  unfold bind at 1. unfold LeR.gets at 1. unfold bind at 1.
  rewrite sampled_spec, Hlp, Hd, Hzs.
  rewrite bool_decide_true by by eexists. cbv iota.
  rewrite !decide_False by done.
  set (prog := bind (LeR.dict_copy (LeR.PyDict l)) _).
  cut (wpx prog
         (fun r s' =>
            r = None /\
            s' = LeR.set_store
                   (<[fresh (dom (LeR.store s)) := d]> (LeR.store s)) s)
         (fun _ _ => False) s).
  { intros H. apply wpx_returns in H as (r & s' & Hrun & -> & ->). exact Hrun. }
  unfold prog. wpx_run. done.
Qed.

End LensedSelection.

Lemma selecting_lensed_from_dict_witness :
  exists d' s',
    LeR.selecting_n_lensed_detectable_events_from_dict [8; 5] [1; 1]%nat true
      "I" Survey.sampled
    = Ok (Some 2%nat) s' /\
    LeR.store s' !! 2%nat = Some d' /\
    d' !! "opt_snr_net" = Some (Arr.Arr2 2 [[Arr.Fin 10; Arr.Fin 7]]).
Proof.
  edestruct (selecting_lensed_from_dict Demo.cdf [8; 5] [1; 1]%nat true "I"
               0 2 Survey.sampled 1%nat Survey.lensed_population
               (Arr.Arr1 (repeat (Arr.Fin 1) 3)) Demo.signals)
    as (d' & Hd' & Hrun).
  - by left.
  - reflexivity.
  - reflexivity.
  - reflexivity.
  - reflexivity.
  - refine (bool_decide_unpack _ _). by vm_compute.
  - reflexivity.
  - by vm_compute.
  - eexists d', _. split; [exact Hrun|]. split.
    + cbn. by rewrite lookup_insert_eq.
    + vm_compute in Hd'. by injection Hd' as <-.
Defined.

Lemma selecting_lensed_of_unknown_type_witness :
  exists s',
    LeR.selecting_n_lensed_detectable_events_from_dict [8] [1%nat] true "any"
      Survey.sampled
    = Ok None s' /\
    LeR.lensed_param_detectable s' = LeR.PyFalse.
Proof.
  eexists. split.
  - by apply (selecting_lensed_of_unknown_type [8] [1%nat] true "any"
                Survey.sampled 1%nat Survey.lensed_population
                (Arr.Arr1 (repeat (Arr.Fin 1) 3)) Demo.signals).
  - reflexivity.
Defined.

(** ** What [none_as_nan] changes *)

Section NoneAsNan.

Import Arr.

Context {R : Type} (E : LeR.collaborators R).

(** [none_as_nan] changes what [lensed_rate] stores, not what it returns: on
    a sampled population both settings return the same two rates, and the
    dict stored as [self.lensed_param_detectable] with [none_as_nan = False]
    is the one stored with [none_as_nan = True] with every missing value
    replaced by [0]. *)
Theorem lensed_rates_ignore_none_as_nan (size : Z) (snr_threshold : list Q)
    (num_img : list nat) (s : LeR.state R) (l : LeR.loc)
    (d : gmap string ndarray) (zs snr : ndarray) (weights : list fval)
    (sel : LeR.selection) (p : list Q) :
  LeR.lensed_param s = LeR.PyDict l ->
  LeR.store s !! l = Some d ->
  d !! "zs" = Some zs ->
  d !! "opt_snr_net" = Some snr ->
  d !! "weights" = Some (Arr1 weights) ->
  map_Forall (fun _ a => len a = len snr) d ->
  LeR.detection_selection (LeR.norm_cdf E) snr snr_threshold num_img
    = Some sel ->
  LeR.pdet sel = Some p ->
  exists r l' d' s1 s2,
    LeR.lensed_rate E size snr_threshold num_img true s = Ok r s1 /\
    LeR.lensed_rate E size snr_threshold num_img false s = Ok r s2 /\
    LeR.lensed_param_detectable s1 = LeR.PyDict l' /\
    LeR.lensed_param_detectable s2 = LeR.PyDict l' /\
    LeR.store s1 !! l' = Some d' /\
    LeR.store s2 !! l' = Some (amap (fun x => Fin (nan_to_num x)) <$> d').
Proof.
  intros Hlp Hd Hzs Hsnr Hw Hrows Hsel Hp.
  destruct (lensed_rate_returns E size snr_threshold num_img true s l d zs snr
              weights sel p Hlp Hd Hzs Hsnr Hw Hrows Hsel Hp) as [s1 Hrun1].
  destruct (lensed_rate_returns E size snr_threshold num_img false s l d zs snr
              weights sel p Hlp Hd Hzs Hsnr Hw Hrows Hsel Hp) as [s2 Hrun2].
  pose proof (lensed_rate_sampled E size snr_threshold num_img true s l d
                Hlp Hd) as Hwp1.
  pose proof (lensed_rate_sampled E size snr_threshold num_img false s l d
                Hlp Hd) as Hwp2.
  unfold wp in Hwp1, Hwp2. rewrite Hrun1 in Hwp1. rewrite Hrun2 in Hwp2.
  destruct Hwp1 as (_ & snr1 & sel1 & p1 & w1 & d1 & Hs1 & Hsel1 & Hp1 & _ & _
                    & _ & _ & Hdet1 & _ & Hd1 & Hst1).
  destruct Hwp2 as (_ & snr2 & sel2 & p2 & w2 & d2 & Hs2 & Hsel2 & Hp2 & _ & _
                    & _ & _ & Hdet2 & _ & Hd2 & Hst2).
  assert (snr1 = snr) as -> by congruence.
  assert (snr2 = snr) as -> by congruence.
  assert (sel1 = sel) as -> by congruence.
  assert (sel2 = sel) as -> by congruence.
  assert (p1 = p) as -> by congruence.
  assert (p2 = p) as -> by congruence.
  assert (d2 = d1) as -> by congruence.
  eexists _, _, d1, s1, s2.
  split; [exact Hrun1|]. split; [exact Hrun2|].
  split; [exact Hdet1|]. split; [exact Hdet2|].
  rewrite Hst1, Hst2, !lookup_insert_eq. done.
Qed.

End NoneAsNan.

Lemma lensed_rates_ignore_none_as_nan_witness :
  exists r s1 s2,
    LeR.lensed_rate Survey.ler 0 [8; 5] [1; 1]%nat true Survey.sampled
    = Ok r s1 /\
    LeR.lensed_rate Survey.ler 0 [8; 5] [1; 1]%nat false Survey.sampled
    = Ok r s2.
Proof.
  edestruct (lensed_rates_ignore_none_as_nan Survey.ler 0 [8; 5] [1; 1]%nat
               Survey.sampled 1%nat Survey.lensed_population
               (Arr.Arr1 (repeat (Arr.Fin 1) 3)) Demo.signals
               (map Arr.Fin [1; 1 # 2; 1]))
    as (r & l' & d' & s1 & s2 & H1 & H2 & _); [reflexivity..| | | |].
  { refine (bool_decide_unpack _ _). by vm_compute. }
  { by vm_compute. }
  { reflexivity. }
  exists r, s1, s2. split; [exact H1|exact H2].
Defined.

(** * Further properties of [ler.py]: selecting with sampling *)

(** ** Selecting detectable events with sampling *)

Section SelectingWithSampling.

Import Arr.

Context {R : Type} (E : LeR.collaborators R).
Context (items : gmap string ndarray -> list (string * ndarray)).

Lemma collect_field_collected (first : bool) (idx : list bool)
    (pf : gmap string ndarray) (k : string) (a v : ndarray) (s : LeR.state R) :
  collected (fun x => x) first idx pf k a = Some v ->
  LeR.collect_field first idx pf (k, a) s = Ok (<[k := v]> pf) s.
Proof.
  unfold collected, LeR.collect_field. destruct first; simpl.
  - by intros ->.
  - unfold getitem. destruct (pf !! k) as [old|]; [|done]. simpl.
    destruct (getmask idx a) as [w|]; [|done]. simpl.
    intros Hv. unfold bind, of_option, ret. by rewrite Hv.
Qed.

Lemma collect_field_nan_to_num_collected (first : bool) (idx : list bool)
    (pf : gmap string ndarray) (k : string) (a v : ndarray) (s : LeR.state R) :
  collected (amap (fun x => Fin (nan_to_num x))) first idx pf k a = Some v ->
  LeR.collect_field_nan_to_num first idx pf (k, a) s = Ok (<[k := v]> pf) s.
Proof.
  unfold collected, LeR.collect_field_nan_to_num. destruct first; simpl.
  - by intros ->.
  - unfold getitem. destruct (pf !! k) as [old|]; [|done]. simpl.
    destruct (getmask idx a) as [w|]; [|done]. simpl.
    intros Hv. unfold bind, of_option, ret. by rewrite Hv.
Qed.

Lemma for_fields_collected
    (body : gmap string ndarray -> string * ndarray ->
            M (LeR.state R) (gmap string ndarray))
    (post : ndarray -> ndarray) (first : bool) (idx : list bool)
    (fields : list (string * ndarray)) :
  (forall pf k a v s, collected post first idx pf k a = Some v ->
                      body pf (k, a) s = Ok (<[k := v]> pf) s) ->
  forall (pf : gmap string ndarray) (s : LeR.state R),
    NoDup fields.*1 ->
    (forall k a, (k, a) ∈ fields -> is_Some (collected post first idx pf k a)) ->
    exists pf',
      LeR.for_fields body pf fields s = Ok pf' s /\
      (forall k a, (k, a) ∈ fields ->
                   pf' !! k = collected post first idx pf k a) /\
      (forall k, k ∉ fields.*1 -> pf' !! k = pf !! k).
Proof.
  intros Hbody.
  induction fields as [|[k a] fields IH]; intros pf s Hnd Hall.
  - exists pf. split_and!; [done| |done]. intros k a Hk. by apply elem_of_nil in Hk.
  - apply NoDup_cons in Hnd as [Hk Hnd].
    destruct (Hall k a) as [v Hv]; [apply list_elem_of_here|].
    assert (Hsame : forall k' a', (k', a') ∈ fields ->
              collected post first idx (<[k := v]> pf) k' a'
              = collected post first idx pf k' a').
    { intros k' a' Hin. unfold collected.
      rewrite lookup_insert_ne; [done|]. intros ->. apply Hk.
      apply list_elem_of_fmap. by exists (k', a'). }
    destruct (IH (<[k := v]> pf) s Hnd) as (pf' & Hrun & Hin & Hout).
    { intros k' a' Hin. rewrite Hsame by done.
      apply Hall. by apply list_elem_of_further. }
    exists pf'. split_and!.
    + cbn [LeR.for_fields]. unfold bind at 1.
      by rewrite (Hbody _ _ _ v).
    + intros k' a' [[= -> ->]|Hin']%elem_of_cons.
      * rewrite Hout by done. by rewrite lookup_insert_eq.
      * rewrite (Hin k' a') by done. by apply Hsame.
    + intros k' Hk'. cbn in Hk'. apply not_elem_of_cons in Hk' as [Hne Hk'].
      rewrite Hout by done. by rewrite lookup_insert_ne.
Qed.

Lemma ceil_div_diag (b : Z) : (1 <= b)%Z -> ceil_div b b = 1%Z.
Proof.
  intros Hb. unfold ceil_div. symmetry.
  apply (Z.div_unique_pos _ _ 1 (b - 1)); lia.
Qed.

Lemma getmask_rows (idx : list bool) (a : ndarray) :
  len a = length idx ->
  exists a', getmask idx a = Some a' /\
             len a' = length (positions idx) /\ shape a' = shape a.
Proof.
  intros Hlen. unfold getmask. rewrite decide_True by done.
  eexists. split; [done|]. unfold positions.
  destruct a as [v|n rows]; simpl in *;
    by rewrite (mask_select_length_from 0) by done.
Qed.

Lemma mask_select_holds {A} (f : A -> bool) (v : list A) :
  Forall (fun x => f x = true) (Np.mask_select (map f v) v).
Proof.
  induction v as [|x v IH]; simpl; [constructor|].
  destruct (f x) eqn:Hx; [by constructor|done].
Qed.

Lemma positions_from_holds {A} (f : A -> bool) (v : list A) (i : nat) :
  Exists (fun x => f x = true) v ->
  (1 <= length (positions_from i (map f v)))%nat.
Proof.
  intros H. revert i. induction H as [x v Hx|x v _ IH]; intros i; simpl.
  - rewrite Hx. simpl. lia.
  - destruct (f x); simpl; [lia|apply IH].
Qed.

Lemma amap_rows (f : fval -> fval) (a : ndarray) :
  len (amap f a) = len a /\ shape (amap f a) = shape a.
Proof. destruct a; simpl; by rewrite length_map. Qed.

Lemma collected_rows (post : ndarray -> ndarray)
    (schema : gmap string (option nat)) (bn n : nat)
    (idx : list bool) (pf d : gmap string ndarray) (k : string) (a : ndarray) :
  (forall x, len (post x) = len x /\ shape (post x) = shape x) ->
  batch_of schema bn d -> length idx = bn ->
  (n = 0%nat /\ pf = ∅ \/ (1 <= n)%nat /\ batch_of schema n pf) ->
  d !! k = Some a ->
  exists c, collected post (n =? 0)%nat idx pf k a = Some c /\
            len c = (n + length (positions idx))%nat /\ shape c = shape a.
Proof.
  intros Hpost Hd Hidx Hpf Hk.
  destruct (batch_of_lookup _ _ _ _ _ Hd Hk) as [Hla Hsa].
  destruct (getmask_rows idx a) as (a' & Ha' & Hla' & Hsa'); [congruence|].
  unfold collected. destruct Hpf as [[-> ->]|[Hn Hpf]].
  - exists a'. by split_and!.
  - destruct (Nat.eqb_spec n 0) as [?|_]; [lia|].
    assert (is_Some (pf !! k)) as [old Hold].
    { apply elem_of_dom. destruct Hpf as [-> _]. destruct Hd as [<- _].
      by apply elem_of_dom. }
    destruct (batch_of_lookup _ _ _ _ _ Hpf Hold) as [Hlo Hso].
    destruct (Hpost a') as [Hlp Hsp].
    destruct (append_batch old (post a')) as (c & Hc & Hlc & Hsc); [congruence|].
    exists c. rewrite Hold, Ha'. simpl. split_and!; [done|lia|congruence].
Qed.

Section Fields.

Hypothesis Hitems : forall d, items d ≡ₚ map_to_list d.

Lemma items_lookup (d : gmap string ndarray) (k : string) (a : ndarray) :
  (k, a) ∈ items d <-> d !! k = Some a.
Proof. rewrite (Hitems d). apply elem_of_map_to_list. Qed.

Lemma items_NoDup (d : gmap string ndarray) : NoDup (items d).*1.
Proof. rewrite (Hitems d). apply NoDup_fst_map_to_list. Qed.

(** The loop over the fields of a batch [d] with the mask [idx]: the dict
    collected so far gets the selected rows of every field. *)
Lemma collect_batch
    (body : gmap string ndarray -> string * ndarray ->
            M (LeR.state R) (gmap string ndarray))
    (post : ndarray -> ndarray) (schema : gmap string (option nat))
    (bn n : nat) (idx : list bool) (pf d : gmap string ndarray)
    (s : LeR.state R) :
  (forall x, len (post x) = len x /\ shape (post x) = shape x) ->
  (forall pf k a v s, collected post (n =? 0)%nat idx pf k a = Some v ->
                      body pf (k, a) s = Ok (<[k := v]> pf) s) ->
  batch_of schema bn d -> length idx = bn ->
  (n = 0%nat /\ pf = ∅ \/ (1 <= n)%nat /\ batch_of schema n pf) ->
  exists pf',
    LeR.for_fields body pf (items d) s = Ok pf' s /\
    batch_of schema (n + length (positions idx)) pf' /\
    forall k a, d !! k = Some a ->
                pf' !! k = collected post (n =? 0)%nat idx pf k a.
Proof.
  intros Hpost Hbody Hd Hlen Hpf.
  destruct (for_fields_collected body post (n =? 0)%nat idx (items d) Hbody pf s)
    as (pf' & Hrun & Hin & Hout).
  { apply items_NoDup. }
  { intros k a Hk%items_lookup.
    destruct (collected_rows post _ _ n idx pf d k a Hpost Hd Hlen Hpf Hk)
      as (c & -> & _). eauto. }
  assert (Hnone : forall k, d !! k = None -> pf' !! k = None).
  { intros k Hk. rewrite Hout.
    - destruct Hpf as [[_ ->]|[_ [Hdom _]]]; [done|].
      apply not_elem_of_dom. rewrite Hdom. destruct Hd as [<- _].
      by apply not_elem_of_dom.
    - intros ([k' a] & -> & Hka%items_lookup)%list_elem_of_fmap.
      simpl in Hk. congruence. }
  assert (Hsome : forall k a, d !! k = Some a ->
            exists c, pf' !! k = Some c /\
                      len c = (n + length (positions idx))%nat /\
                      shape c = shape a).
  { intros k a Hk.
    destruct (collected_rows post _ _ n idx pf d k a Hpost Hd Hlen Hpf Hk)
      as (c & Hc & Hl & Hs).
    exists c. rewrite (Hin k a) by (by apply items_lookup). done. }
  exists pf'. split_and!; [done| |].
  - split.
    + apply set_eq. intros k. destruct Hd as [Hdom Hrows].
      rewrite <- Hdom, !elem_of_dom. destruct (d !! k) as [a|] eqn:Hk.
      * destruct (Hsome k a Hk) as (c' & -> & _). split; eauto.
      * by rewrite (Hnone k Hk).
    + intros k c' Hk'. destruct (d !! k) as [a|] eqn:Hk;
        [|by rewrite (Hnone k Hk) in Hk'].
      destruct (Hsome k a Hk) as (c'' & Hc'' & Hl & Hs).
      rewrite Hc'' in Hk'. injection Hk' as <-. split; [done|].
      rewrite Hs. by apply (batch_of_lookup _ _ _ _ _ Hd Hk).
  - intros k a Hk. apply Hin. by apply items_lookup.
Qed.

End Fields.

Section Loop.

Context (gw snr : gmap string (option nat)) (snr_threshold : Q) (b : Z).
Hypothesis HE : sized_sources E gw snr.
Hypothesis Hitems : forall d, items d ≡ₚ map_to_list d.
Hypothesis Hdet : forall d r d' r',
  batch_of gw (Z.to_nat b) d -> LeR.snr E d r = Ok d' r' ->
  exists v, d' !! "opt_snr_net" = Some (Arr1 v) /\
            Exists (fun x => fgtb x snr_threshold = true) v.
Hypothesis Hb : (1 <= b)%Z.

Lemma one_batch (s : LeR.state R) :
  LeR.batch_size s = b ->
  exists l d v s',
    LeR.unlensed_cbc_statistics E b s = Ok l s' /\
    LeR.store s' !! l = Some d /\
    batch_of (snr ∪ gw) (Z.to_nat b) d /\
    d !! "opt_snr_net" = Some (Arr1 v) /\
    Exists (fun x => fgtb x snr_threshold = true) v /\
    LeR.gw_param s' = LeR.PyDict l /\
    LeR.gw_nsamples s' = b /\
    LeR.batch_size s' = b.
Proof.
  intros Hbs.
  rewrite (unlensed_cbc_statistics_rounds E b s) by lia.
  rewrite Hbs, (ceil_div_diag b Hb).
  replace (b - (1 - 1) * b)%Z with b by lia.
  change (Z.to_nat (1 - 1)) with 0%nat.
  destruct HE as [Hgw Hsnr].
  destruct (Hgw b (LeR.rng s)) as (d0 & r & Hd0 & Hbd0); [lia|].
  destruct (Hsnr _ d0 r Hbd0) as (d1 & r' & Hd1 & Hbd1).
  destruct (Hdet d0 r d1 r' Hbd0 Hd1) as (v & Hv & Hex).
  eexists _, (d1 ∪ d0), v, _. split_and!.
  - unfold bind at 1. unfold LeR.unlensed_round, bind at 1, LeR.collab at 1.
    cbn [LeR.rng LeR.set_gw_nsamples]. rewrite Hd0.
    unfold bind at 1. unfold LeR.collab at 1. cbn [LeR.rng LeR.set_rng].
    rewrite Hd1. unfold ret at 1. unfold bind at 1, LeR.new_dict at 1.
    cbn [LeR.accumulate]. reflexivity.
  - cbn. apply lookup_insert_eq.
  - by apply batch_of_update.
  - by apply lookup_union_Some_l.
  - done.
  - done.
  - done.
  - cbn. done.
Qed.

Lemma sampling_loop_done (size : Z) (fuel n : nat) (pf : gmap string ndarray) :
  (size <= Z.of_nat n)%Z ->
  LeR.sampling_loop items E snr_threshold size fuel n pf = ret pf.
Proof.
  intros H. destruct fuel; cbn [LeR.sampling_loop];
    by destruct (Z.ltb_spec (Z.of_nat n) size) as [?|_]; [lia|].
Qed.

Lemma sampling_loop_collects (size : Z) (fuel : nat) :
  forall (n : nat) (pf : gmap string ndarray) (s : LeR.state R),
    LeR.batch_size s = b ->
    (n = 0%nat /\ pf = ∅ \/
     (1 <= n)%nat /\ batch_of (snr ∪ gw) n pf /\
     (exists w, pf !! "opt_snr_net" = Some (Arr1 w) /\
                Forall (fun x => fgtb x snr_threshold = true) w) /\
     LeR.gw_nsamples s = b /\
     exists l d, LeR.gw_param s = LeR.PyDict l /\
                 LeR.store s !! l = Some d /\
                 batch_of (snr ∪ gw) (Z.to_nat b) d) ->
    (1 <= size)%Z ->
    (Z.to_nat size - n <= fuel)%nat ->
    exists pf' s' n' w,
      LeR.sampling_loop items E snr_threshold size fuel n pf s = Ok pf' s' /\
      (Z.to_nat size <= n')%nat /\
      batch_of (snr ∪ gw) n' pf' /\
      pf' !! "opt_snr_net" = Some (Arr1 w) /\
      Forall (fun x => fgtb x snr_threshold = true) w /\
      LeR.gw_nsamples s' = b /\
      exists l d, LeR.gw_param s' = LeR.PyDict l /\
                  LeR.store s' !! l = Some d /\
                  batch_of (snr ∪ gw) (Z.to_nat b) d.
Proof.
  induction fuel as [|fuel IH]; intros n pf s Hbs Hinv Hsize Hfuel.
  - destruct Hinv as [[-> ->]|(Hn & Hpf & (w & Hw & Hall) & Hns & Hst)]; [lia|].
    exists pf, s, n, w. rewrite sampling_loop_done by lia.
    split_and!; [done|lia|done..].
  - destruct (Z.ltb_spec (Z.of_nat n) size) as [Hlt|Hge].
    2:{ destruct Hinv as [[-> ->]|(Hn & Hpf & (w & Hw & Hall) & Hns & Hst)];
          [lia|].
        exists pf, s, n, w. rewrite sampling_loop_done by lia.
        split_and!; [done|lia|done..]. }
    destruct (one_batch s Hbs)
      as (l & d & v & s1 & Hrun & Hl & Hd & Hv & Hex & Hgw & Hns1 & Hbs1).
    set (idx := map (fun x => fgtb x snr_threshold) v).
    assert (Hlen : length idx = Z.to_nat b).
    { unfold idx. rewrite length_map.
      by destruct (batch_of_lookup _ _ _ _ _ Hd Hv) as [<- _]. }
    destruct (collect_batch Hitems (LeR.collect_field (n =? 0)%nat idx)
                (fun x => x) (snr ∪ gw) (Z.to_nat b) n idx pf d s1)
      as (pf1 & Hcol & Hpf1 & Hlk); [done| |done..| |].
    { intros. by apply collect_field_collected. }
    { destruct Hinv as [?|(? & ? & ? & _)]; [by left|by right]. }
    assert (exists w1, pf1 !! "opt_snr_net" = Some (Arr1 w1) /\
              Forall (fun x => fgtb x snr_threshold = true) w1)
      as (w1 & Hw1 & Hall1).
    { rewrite (Hlk _ _ Hv). unfold collected, getmask.
      rewrite decide_True by (by unfold idx; rewrite length_map).
      destruct Hinv as [[-> ->]|(Hn & _ & (w0 & Hw0 & Hall) & _)].
      - eexists. split; [done|]. apply mask_select_holds.
      - destruct (Nat.eqb_spec n 0) as [?|_]; [lia|].
        rewrite Hw0. simpl. eexists. split; [done|].
        apply Forall_app. split; [done|apply mask_select_holds]. }
    pose proof (positions_from_holds (fun x => fgtb x snr_threshold) v 0 Hex)
      as Hm. fold idx in Hm. fold (positions idx) in Hm.
    destruct (batch_of_lookup _ _ _ _ _ Hpf1 Hw1) as [Hlw1 _].
    simpl in Hlw1.
    destruct (IH (length w1) pf1 s1 Hbs1) as (pf' & s' & n' & w & Hloop & Hrest);
      [|done|lia|].
    { right. split_and!; [lia|by rewrite Hlw1| |done|]; eauto. }
    exists pf', s', n', w. split; [|done].
    cbn [LeR.sampling_loop].
    destruct (Z.ltb_spec (Z.of_nat n) size) as [_|?]; [|lia].
    unfold bind at 1. unfold LeR.gets at 1. rewrite Hbs.
    rewrite (bind_Ok _ _ _ _ _ Hrun).
    unfold bind at 1. unfold LeR.read at 1. rewrite Hl.
    unfold bind at 1. unfold getitem at 1. rewrite Hv. unfold ret at 1.
    unfold bind at 1. unfold ret at 1.
    rewrite (bind_Ok _ _ _ _ _ Hcol).
    unfold bind at 1. unfold getitem at 1. rewrite Hw1. unfold ret at 1.
    exact Hloop.
Qed.

End Loop.

Lemma head_rows_batch (schema : gmap string (option nat)) (n k : nat)
    (d : gmap string ndarray) :
  batch_of schema n d -> (k <= n)%nat ->
  batch_of schema k (LeR.head_rows k <$> d).
Proof.
  intros [Hdom Hd] Hk. split; [by rewrite dom_fmap_L|].
  intros key a. rewrite lookup_fmap.
  destruct (d !! key) as [a0|] eqn:Ha; [|done]. simpl. intros [= <-].
  destruct (Hd key a0 Ha) as [Hl Hs].
  destruct a0 as [v|c rows]; simpl in *; rewrite length_take; split; (lia || done).
Qed.

Lemma selecting_with_sampling_run (gw snr : gmap string (option nat))
    (fuel : nat) (snr_threshold : Q) (size : Z) (s : LeR.state R) :
  sized_sources E gw snr ->
  (forall d, items d ≡ₚ map_to_list d) ->
  (forall d r d' r',
      batch_of gw (Z.to_nat (LeR.batch_size s)) d ->
      LeR.snr E d r = Ok d' r' ->
      exists v, d' !! "opt_snr_net" = Some (Arr1 v) /\
                Exists (fun x => fgtb x snr_threshold = true) v) ->
  (1 <= LeR.batch_size s)%Z -> (1 <= size)%Z -> (Z.to_nat size <= fuel)%nat ->
  exists d s' v l d0,
    LeR.selecting_n_unlensed_detectable_events_with_sampling
      items E fuel snr_threshold size s = Ok d s' /\
    batch_of (snr ∪ gw) (Z.to_nat size) d /\
    d !! "opt_snr_net" = Some (Arr1 v) /\
    Forall (fun x => fgtb x snr_threshold = true) v /\
    LeR.gw_param s' = LeR.PyDict l /\
    LeR.store s' !! l = Some d0 /\
    batch_of (snr ∪ gw) (Z.to_nat (LeR.batch_size s)) d0 /\
    LeR.gw_nsamples s' = LeR.batch_size s.
Proof.
  intros HE Hitems Hdet Hb Hsize Hfuel.
  destruct (sampling_loop_collects gw snr snr_threshold (LeR.batch_size s)
              HE Hitems Hdet Hb size fuel 0%nat ∅ s)
    as (pf & s' & n & w & Hloop & Hn & Hpf & Hw & Hall & Hns & l & d0 & Hgw & Hl & Hd0);
    [done|by left|done|lia|].
  exists (LeR.head_rows (Z.to_nat size) <$> pf), s', (take (Z.to_nat size) w),
    l, d0.
  assert (Hlk : (LeR.head_rows (Z.to_nat size) <$> pf) !! "opt_snr_net"
                = Some (Arr1 (take (Z.to_nat size) w))).
  { by rewrite lookup_fmap, Hw. }
  split_and!; [|by eapply head_rows_batch|done|by apply Forall_take|done..].
  unfold LeR.selecting_n_unlensed_detectable_events_with_sampling.
  rewrite (bind_Ok _ _ _ _ _ Hloop).
  unfold bind, getitem. by rewrite Hlk.
Qed.

(** With [size <= 0] the loop is not entered: nothing is sampled, the dict
    stays empty, and the last [print], which reads
    [param_final['opt_snr_net']], raises [KeyError]; no empty selection is
    returned. *)
Theorem selecting_with_sampling_of_no_event (fuel : nat) (snr_threshold : Q)
    (size : Z) (s : LeR.state R) :
  (size <= 0)%Z ->
  LeR.selecting_n_unlensed_detectable_events_with_sampling
    items E fuel snr_threshold size s = Raise KeyError s.
Proof.
  intros Hsize.
  unfold LeR.selecting_n_unlensed_detectable_events_with_sampling.
  rewrite sampling_loop_done by lia.
  unfold bind, ret, getitem. by rewrite fmap_empty, lookup_empty.
Qed.

(** With collaborators that honour the requested size and give every batch
    at least one signal above the threshold, a batch size [b >= 1] and a
    request of [size >= 1] events, [size] batches are enough: the method
    returns a dict with exactly [size] rows in every field of a batch, each
    with ['opt_snr_net'] above the threshold. *)
Theorem selecting_with_sampling_collects (gw snr : gmap string (option nat))
    (fuel : nat) (snr_threshold : Q) (size : Z) (s : LeR.state R) :
  sized_sources E gw snr ->
  (forall d, items d ≡ₚ map_to_list d) ->
  (forall d r d' r',
      batch_of gw (Z.to_nat (LeR.batch_size s)) d ->
      LeR.snr E d r = Ok d' r' ->
      exists v, d' !! "opt_snr_net" = Some (Arr1 v) /\
                Exists (fun x => fgtb x snr_threshold = true) v) ->
  (1 <= LeR.batch_size s)%Z -> (1 <= size)%Z -> (Z.to_nat size <= fuel)%nat ->
  exists d s' v,
    LeR.selecting_n_unlensed_detectable_events_with_sampling
      items E fuel snr_threshold size s = Ok d s' /\
    batch_of (snr ∪ gw) (Z.to_nat size) d /\
    d !! "opt_snr_net" = Some (Arr1 v) /\
    Forall (fun x => fgtb x snr_threshold = true) v.
Proof.
  intros HE Hitems Hdet Hb Hsize Hfuel.
  destruct (selecting_with_sampling_run gw snr fuel snr_threshold size s)
    as (d & s' & v & _ & _ & Hrun & Hd & Hv & Hall & _); [done..|].
  by exists d, s', v.
Qed.

(** Under the same conditions the instance does not keep the population it
    had, nor the selection: afterwards [self.gw_param] is the last batch, of
    [b] rows, and the stored number of samples is [b]. *)
Theorem selecting_with_sampling_replaces_population
    (gw snr : gmap string (option nat))
    (fuel : nat) (snr_threshold : Q) (size : Z) (s : LeR.state R) :
  sized_sources E gw snr ->
  (forall d, items d ≡ₚ map_to_list d) ->
  (forall d r d' r',
      batch_of gw (Z.to_nat (LeR.batch_size s)) d ->
      LeR.snr E d r = Ok d' r' ->
      exists v, d' !! "opt_snr_net" = Some (Arr1 v) /\
                Exists (fun x => fgtb x snr_threshold = true) v) ->
  (1 <= LeR.batch_size s)%Z -> (1 <= size)%Z -> (Z.to_nat size <= fuel)%nat ->
  exists d s' l d0,
    LeR.selecting_n_unlensed_detectable_events_with_sampling
      items E fuel snr_threshold size s = Ok d s' /\
    LeR.gw_param s' = LeR.PyDict l /\
    LeR.store s' !! l = Some d0 /\
    batch_of (snr ∪ gw) (Z.to_nat (LeR.batch_size s)) d0 /\
    LeR.gw_nsamples s' = LeR.batch_size s.
Proof.
  intros HE Hitems Hdet Hb Hsize Hfuel.
  destruct (selecting_with_sampling_run gw snr fuel snr_threshold size s)
    as (d & s' & _ & l & d0 & Hrun & _ & _ & _ & Hgw & Hl & Hd0 & Hns);
    [done..|].
  by exists d, s', l, d0.
Qed.

End SelectingWithSampling.

Lemma survey_detecting (d : gmap string Arr.ndarray) (r : nat)
    (d' : gmap string Arr.ndarray) (r' : nat) :
  batch_of {["zs" := None]} 4 d ->
  LeR.snr Survey.ler d r = Ok d' r' ->
  exists v, d' !! "opt_snr_net" = Some (Arr.Arr1 v) /\
            Exists (fun x => Arr.fgtb x 8 = true) v.
Proof.
  intros Hd [= <- _]. eexists. split; [apply lookup_singleton_eq|].
  rewrite (survey_rows _ 4 d) by (by rewrite ?lookup_singleton_eq).
  by apply Exists_cons_hd.
Qed.

Lemma selecting_with_sampling_of_no_event_witness :
  LeR.selecting_n_unlensed_detectable_events_with_sampling
    map_to_list Survey.ler 0 8 0 (Survey.sampled) = Raise KeyError Survey.sampled.
Proof. apply selecting_with_sampling_of_no_event. lia. Defined.

Lemma selecting_with_sampling_collects_witness :
  exists d s' v,
    LeR.selecting_n_unlensed_detectable_events_with_sampling
      map_to_list Survey.ler 6 8 6 (Survey.initial 4) = Ok d s' /\
    batch_of ({["opt_snr_net" := None]} ∪ {["zs" := None]}) 6 d /\
    d !! "opt_snr_net" = Some (Arr.Arr1 v) /\
    Forall (fun x => Arr.fgtb x 8 = true) v.
Proof.
  apply (selecting_with_sampling_collects Survey.ler map_to_list
           {["zs" := None]} {["opt_snr_net" := None]} 6 8 6 (Survey.initial 4)).
  - apply survey_sized_sources.
  - reflexivity.
  - apply survey_detecting.
  - simpl. lia.
  - lia.
  - lia.
Defined.

Lemma selecting_with_sampling_replaces_population_witness :
  exists d s' l d0,
    LeR.selecting_n_unlensed_detectable_events_with_sampling
      map_to_list Survey.ler 6 8 6 Survey.sampled = Ok d s' /\
    LeR.gw_param s' = LeR.PyDict l /\
    LeR.store s' !! l = Some d0 /\
    batch_of ({["opt_snr_net" := None]} ∪ {["zs" := None]}) 4 d0 /\
    LeR.gw_nsamples s' = 4%Z.
Proof.
  apply (selecting_with_sampling_replaces_population Survey.ler map_to_list
           {["zs" := None]} {["opt_snr_net" := None]} 6 8 6 Survey.sampled).
  - apply survey_sized_sources.
  - reflexivity.
  - apply survey_detecting.
  - simpl. lia.
  - lia.
  - lia.
Defined.

(** ** Selecting lensed events with sampling *)

Section SelectingLensedWithSampling.

Import Arr.

Context {R : Type} (E : LeR.collaborators R).
Context (items : gmap string ndarray -> list (string * ndarray)).

Lemma lensed_sampling_loop_done (snr_threshold : list Q) (num_img : list nat)
    (none_as_nan : bool) (size : Z) (lenstype : string) (min_img max_img : Z)
    (fuel n : nat) (pf : gmap string ndarray) :
  (size <= Z.of_nat n)%Z ->
  LeR.lensed_sampling_loop items E snr_threshold num_img none_as_nan size
    lenstype min_img max_img fuel n pf = ret (Some pf).
Proof.
  intros H. destruct fuel; cbn [LeR.lensed_sampling_loop];
    by destruct (Z.ltb_spec (Z.of_nat n) size) as [?|_]; [lia|].
Qed.

Lemma lensed_cbc_statistics_images_stored (nsamples min_img max_img : Z)
    (s : LeR.state R) :
  LeR.lensed_cbc_statistics_images E nsamples min_img max_img s
  = LeR.lensed_cbc_statistics E nsamples
      (LeR.set_max_lensed_images max_img
         (LeR.set_min_lensed_images min_img s)).
Proof.
  unfold LeR.lensed_cbc_statistics_images, LeR.lensed_cbc_statistics.
  unfold bind at 1 13. unfold LeR.gets at 1 5.
  destruct (nsamples =? 0)%Z; reflexivity.
Qed.

Lemma lensed_one_batch (lens img snr : gmap string (option nat))
    (min_img max_img : Z) (s : LeR.state R) :
  sized_lenses E lens img snr -> (1 <= LeR.batch_size s)%Z ->
  exists d_img r d_snr r' l s',
    batch_of img (Z.to_nat (LeR.batch_size s)) d_img /\
    LeR.get_lensed_snrs E d_img max_img r = Ok d_snr r' /\
    batch_of snr (Z.to_nat (LeR.batch_size s)) d_snr /\
    LeR.lensed_cbc_statistics_images E (LeR.batch_size s) min_img max_img s
    = Ok l s' /\
    LeR.store s' !! l = Some (d_snr ∪ d_img) /\
    LeR.lensed_param s' = LeR.PyDict l /\
    LeR.lensed_nsamples s' = LeR.batch_size s /\
    LeR.batch_size s' = LeR.batch_size s /\
    LeR.min_lensed_images s' = min_img /\
    LeR.max_lensed_images s' = max_img.
Proof.
  intros [Hlens Himg Hsnr] Hb.
  rewrite lensed_cbc_statistics_images_stored.
  set (s0 := LeR.set_max_lensed_images max_img
               (LeR.set_min_lensed_images min_img s)).
  change (LeR.batch_size s) with (LeR.batch_size s0) in *.
  rewrite (lensed_cbc_statistics_rounds E (LeR.batch_size s0) s0) by lia.
  rewrite (ceil_div_diag _ Hb).
  set (b := LeR.batch_size s0) in *.
  replace (b - (1 - 1) * b)%Z with b by lia.
  change (Z.to_nat (1 - 1)) with 0%nat.
  destruct (Hlens b (LeR.rng s)) as (d0 & r0 & Hd0 & Hbd0); [lia|].
  destruct (Himg min_img max_img _ d0 r0 Hbd0) as (d1 & r1 & Hd1 & Hbd1).
  destruct (Hsnr max_img _ d1 r1 Hbd1) as (d2 & r2 & Hd2 & Hbd2).
  eexists d1, r1, d2, r2, _, _. split_and!; [done..| | | | | | |].
  - unfold bind at 1. unfold LeR.lensed_round, bind at 1, LeR.collab at 1.
    cbn [LeR.rng LeR.set_lensed_nsamples LeR.min_lensed_images
           LeR.max_lensed_images s0 LeR.set_max_lensed_images
           LeR.set_min_lensed_images].
    rewrite Hd0.
    unfold bind at 1. unfold LeR.collab at 1. cbn [LeR.rng LeR.set_rng].
    rewrite Hd1.
    unfold bind at 1. unfold LeR.collab at 1. cbn [LeR.rng LeR.set_rng].
    rewrite Hd2. unfold ret at 1. unfold bind at 1, LeR.new_dict at 1.
    cbn [LeR.accumulate]. reflexivity.
  - cbn. apply lookup_insert_eq.
  - done.
  - done.
  - done.
  - done.
  - done.
Qed.

Lemma hit_selection_length (snr : ndarray) (snr_threshold : list Q)
    (num_img : list nat) (hit : list bool) :
  LeR.hit_selection snr snr_threshold num_img = Some hit ->
  length hit = len snr.
Proof.
  rewrite (hit_selection_snr_hit (fun _ => 0)).
  destruct (LeR.detection_selection _ snr snr_threshold num_img) as [sel|] eqn:Hsel;
    [|done].
  intros [= <-]. by apply detection_selection_rows in Hsel as [? _].
Qed.

Lemma positions_holds (hit : list bool) :
  true ∈ hit -> (1 <= length (positions hit))%nat.
Proof.
  intros [j Hj]%list_elem_of_lookup_1. apply elem_of_positions in Hj.
  destruct (positions hit); [by apply elem_of_nil in Hj|simpl; lia].
Qed.

Section LensedLoop.

Context (lens img snr : gmap string (option nat)).
Context (snr_threshold : list Q) (num_img : list nat) (none_as_nan : bool).
Context (size : Z) (lenstype : string) (columns : option (nat * nat)).
Context (min_img max_img b : Z).
Hypothesis HE : sized_lenses E lens img snr.
Hypothesis Hitems : forall d, items d ≡ₚ map_to_list d.
Hypothesis Hcolumns : LeR.lens_type_columns lenstype = Some columns.
Hypothesis Hhit : forall d r d' r',
  batch_of img (Z.to_nat b) d ->
  LeR.get_lensed_snrs E d max_img r = Ok d' r' ->
  exists a cols hit,
    d' !! "opt_snr_net" = Some a /\
    match columns with
    | Some (i, j) => LeR.slice_columns i j a
    | None => Some a
    end = Some cols /\
    LeR.hit_selection cols snr_threshold num_img = Some hit /\
    true ∈ hit.
Hypothesis Hb : (1 <= b)%Z.

Lemma lensed_collect_batch (n : nat) (hit : list bool)
    (pf d : gmap string ndarray) (s : LeR.state R) :
  batch_of (snr ∪ img) (Z.to_nat b) d -> length hit = Z.to_nat b ->
  (n = 0%nat /\ pf = ∅ \/ (1 <= n)%nat /\ batch_of (snr ∪ img) n pf) ->
  exists pf',
    LeR.for_fields
      (if none_as_nan then LeR.collect_field (n =? 0)%nat hit
       else LeR.collect_field_nan_to_num (n =? 0)%nat hit) pf (items d) s
    = Ok pf' s /\
    batch_of (snr ∪ img) (n + length (positions hit)) pf'.
Proof.
  intros Hd Hlen Hpf. destruct none_as_nan.
  - destruct (collect_batch items Hitems (LeR.collect_field (n =? 0)%nat hit)
                (fun x => x) (snr ∪ img) (Z.to_nat b) n hit pf d s)
      as (pf' & Hrun & Hpf' & _); [done| |done..|by exists pf'].
    intros. by apply collect_field_collected.
  - destruct (collect_batch items Hitems
                (LeR.collect_field_nan_to_num (n =? 0)%nat hit)
                (amap (fun x => Fin (nan_to_num x))) (snr ∪ img) (Z.to_nat b)
                n hit pf d s)
      as (pf' & Hrun & Hpf' & _); [apply amap_rows| |done..|by exists pf'].
    intros. by apply collect_field_nan_to_num_collected.
Qed.

Lemma lensed_sampling_loop_collects (fuel : nat) :
  forall (n : nat) (pf : gmap string ndarray) (s : LeR.state R),
    LeR.batch_size s = b ->
    (n = 0%nat /\ pf = ∅ \/
     (1 <= n)%nat /\ batch_of (snr ∪ img) n pf /\
     is_Some (pf !! "opt_snr_net") /\
     LeR.min_lensed_images s = min_img /\
     LeR.max_lensed_images s = max_img) ->
    (1 <= size)%Z ->
    (Z.to_nat size - n <= fuel)%nat ->
    exists pf' s' n',
      LeR.lensed_sampling_loop items E snr_threshold num_img none_as_nan size
        lenstype min_img max_img fuel n pf s = Ok (Some pf') s' /\
      (Z.to_nat size <= n')%nat /\
      batch_of (snr ∪ img) n' pf' /\
      is_Some (pf' !! "opt_snr_net") /\
      LeR.min_lensed_images s' = min_img /\
      LeR.max_lensed_images s' = max_img.
Proof.
  induction fuel as [|fuel IH]; intros n pf s Hbs Hinv Hsize Hfuel.
  - destruct Hinv as [[-> ->]|(Hn & Hpf & Hsome & Hmin & Hmax)]; [lia|].
    exists pf, s, n. rewrite lensed_sampling_loop_done by lia.
    split_and!; [done|lia|done..].
  - destruct (Z.ltb_spec (Z.of_nat n) size) as [Hlt|Hge].
    2:{ destruct Hinv as [[-> ->]|(Hn & Hpf & Hsome & Hmin & Hmax)]; [lia|].
        exists pf, s, n. rewrite lensed_sampling_loop_done by lia.
        split_and!; [done|lia|done..]. }
    destruct (lensed_one_batch lens img snr min_img max_img s HE)
      as (d_img & r & d_snr & r' & l & s1 & Hd_img & Hsnr & Hd_snr & Hrun & Hl
          & Hlp & Hns & Hbs1 & Hmin1 & Hmax1); [lia|].
    rewrite Hbs in *.
    destruct (Hhit d_img r d_snr r' Hd_img Hsnr)
      as (a & cols & hit & Ha & Hcols & Hsel & Htrue).
    set (d := d_snr ∪ d_img) in *.
    assert (Hd : batch_of (snr ∪ img) (Z.to_nat b) d)
      by by apply batch_of_update.
    assert (Hda : d !! "opt_snr_net" = Some a) by by apply lookup_union_Some_l.
    assert (Hlen : length hit = Z.to_nat b).
    { rewrite (hit_selection_length _ _ _ _ Hsel).
      destruct (batch_of_lookup _ _ _ _ _ Hd Hda) as [<- _].
      destruct columns as [[i j]|].
      - by apply slice_columns_len in Hcols.
      - by injection Hcols as <-. }
    destruct (lensed_collect_batch n hit pf d s1 Hd Hlen)
      as (pf1 & Hcol & Hpf1).
    { destruct Hinv as [?|(? & ? & _)]; [by left|by right]. }
    pose proof (positions_holds hit Htrue) as Hm.
    assert (is_Some (pf1 !! "opt_snr_net")) as [c Hc].
    { apply elem_of_dom. destruct Hpf1 as [-> _]. destruct Hd as [<- _].
      by apply elem_of_dom. }
    destruct (batch_of_lookup _ _ _ _ _ Hpf1 Hc) as [Hlc _].
    destruct (IH (len c) pf1 s1 Hbs1) as (pf' & s' & n' & Hloop & Hrest);
      [|done|lia|].
    { right. split_and!; [lia|by rewrite Hlc|by eexists|done..]. }
    exists pf', s', n'. split; [|done].
    cbn [LeR.lensed_sampling_loop].
    destruct (Z.ltb_spec (Z.of_nat n) size) as [_|?]; [|lia].
    unfold bind at 1. unfold LeR.gets at 1. rewrite Hbs.
    rewrite (bind_Ok _ _ _ _ _ Hrun).
    unfold bind at 1. unfold LeR.read at 1. rewrite Hl.
    unfold bind at 1. unfold getitem at 1. fold d. rewrite Hda.
    unfold ret at 1. rewrite Hcolumns.
    unfold bind at 1.
    replace (match columns with
             | Some (a0, b0) => of_option IndexError (LeR.slice_columns a0 b0 a)
             | None => ret a
             end s1) with (@Ok (LeR.state R) _ cols s1).
    2:{ destruct columns as [[i j]|].
        - by rewrite Hcols.
        - by injection Hcols as <-. }
    unfold bind at 1. rewrite Hsel. unfold of_option at 1, ret at 1.
    rewrite (bind_Ok _ _ _ _ _ Hcol).
    unfold bind at 1. unfold getitem at 1. rewrite Hc. unfold ret at 1.
    exact Hloop.
Qed.

End LensedLoop.

Lemma lensed_sampling_first_batch (snr_threshold : list Q)
    (num_img : list nat) (size : Z) (lenstype : string) (min_img max_img : Z)
    (s s' : LeR.state R) (r : option (gmap string ndarray)) :
  LeR.lensed_sampling_loop items E snr_threshold num_img true size lenstype
    min_img max_img 1 0 ∅ s = Ok r s' ->
  forall (fuel : nat) (none_as_nan : bool),
    (1 <= fuel)%nat ->
    LeR.lensed_sampling_loop items E snr_threshold num_img none_as_nan size
      lenstype min_img max_img fuel 0 ∅ s = Ok r s'.
Proof.
  intros H fuel none_as_nan Hfuel.
  destruct (Z.ltb_spec (Z.of_nat 0) size) as [Hlt|Hge].
  2:{ rewrite lensed_sampling_loop_done in H |- * by lia. done. }
  destruct fuel as [|fuel]; [lia|].
  cbn [LeR.lensed_sampling_loop] in H |- *.
  destruct (Z.ltb_spec (Z.of_nat 0) size) as [_|?]; [|lia].
  apply bind_Ok_inv in H as (bs & s1 & H1 & H).
  rewrite (bind_Ok _ _ _ _ _ H1).
  apply bind_Ok_inv in H as (param & s2 & H2 & H).
  rewrite (bind_Ok _ _ _ _ _ H2).
  apply bind_Ok_inv in H as (d & s3 & H3 & H).
  rewrite (bind_Ok _ _ _ _ _ H3).
  apply bind_Ok_inv in H as (snr & s4 & H4 & H).
  rewrite (bind_Ok _ _ _ _ _ H4).
  destruct (LeR.lens_type_columns lenstype) as [columns|]; [|done].
  apply bind_Ok_inv in H as (cols & s5 & H5 & H).
  rewrite (bind_Ok _ _ _ _ _ H5).
  apply bind_Ok_inv in H as (hit & s6 & H6 & H).
  rewrite (bind_Ok _ _ _ _ _ H6).
  apply bind_Ok_inv in H as (pf & s7 & H7 & H).
  assert (H7' : LeR.for_fields
                  (if none_as_nan then LeR.collect_field (0 =? 0)%nat hit
                   else LeR.collect_field_nan_to_num (0 =? 0)%nat hit)
                  ∅ (items d) s6 = Ok pf s7)
    by by destruct none_as_nan.
  rewrite (bind_Ok _ _ _ _ _ H7').
  apply bind_Ok_inv in H as (snr_final & s8 & H8 & H).
  rewrite (bind_Ok _ _ _ _ _ H8).
  cbn [LeR.lensed_sampling_loop] in H.
  destruct (Z.ltb_spec (Z.of_nat (len snr_final)) size) as [?|Hdone]; [done|].
  by rewrite lensed_sampling_loop_done by lia.
Qed.

(** The lens type is looked at inside the loop, after a batch has been
    sampled.  With a lens type other than ['I'], ['II'] and ['any'] and a
    request of no event ([size <= 0]) the method raises the [KeyError] of an
    empty selection and samples nothing; with [size >= 1] it returns [None],
    but only after it has replaced the stored lensed population by a new
    batch of [batch_size] rows and stored [min_img], [max_img] and the batch
    size as the sampler's settings. *)
Theorem lensed_sampling_of_unknown_type (lens img snr : gmap string (option nat))
    (fuel : nat) (snr_threshold : list Q) (num_img : list nat)
    (none_as_nan : bool) (size : Z) (lenstype : string) (min_img max_img : Z)
    (s : LeR.state R) :
  sized_lenses E lens img snr ->
  is_Some ((snr ∪ img) !! "opt_snr_net") ->
  lenstype <> "I" -> lenstype <> "II" -> lenstype <> "any" ->
  (1 <= LeR.batch_size s)%Z ->
  ((size <= 0)%Z ->
   LeR.selecting_n_lensed_detectable_events_with_sampling items E fuel
     snr_threshold num_img none_as_nan size lenstype min_img max_img s
   = Raise KeyError s) /\
  ((1 <= size)%Z -> (1 <= fuel)%nat ->
   exists s' l d,
     LeR.selecting_n_lensed_detectable_events_with_sampling items E fuel
       snr_threshold num_img none_as_nan size lenstype min_img max_img s
     = Ok None s' /\
     LeR.lensed_param s' = LeR.PyDict l /\
     LeR.store s' !! l = Some d /\
     batch_of (snr ∪ img) (Z.to_nat (LeR.batch_size s)) d /\
     LeR.min_lensed_images s' = min_img /\
     LeR.max_lensed_images s' = max_img /\
     LeR.lensed_nsamples s' = LeR.batch_size s).
Proof.
  intros HE Hkey HI HII Hany Hb. split.
  - intros Hsize.
    unfold LeR.selecting_n_lensed_detectable_events_with_sampling.
    rewrite lensed_sampling_loop_done by lia.
    unfold bind, ret, getitem. by rewrite fmap_empty, lookup_empty.
  - intros Hsize Hfuel. destruct fuel as [|fuel]; [lia|].
    destruct (lensed_one_batch lens img snr min_img max_img s HE Hb)
      as (d_img & r & d_snr & r' & l & s1 & Hd_img & Hsnr & Hd_snr & Hrun & Hl
          & Hlp & Hns & Hbs1 & Hmin1 & Hmax1).
    assert (Hd : batch_of (snr ∪ img) (Z.to_nat (LeR.batch_size s))
                   (d_snr ∪ d_img))
      by by apply batch_of_update.
    assert (is_Some ((d_snr ∪ d_img) !! "opt_snr_net")) as [a Ha].
    { apply elem_of_dom. destruct Hd as [-> _]. by apply elem_of_dom. }
    exists s1, l, (d_snr ∪ d_img). split_and!; [|done..].
    unfold LeR.selecting_n_lensed_detectable_events_with_sampling.
    cbn [LeR.lensed_sampling_loop].
    destruct (Z.ltb_spec (Z.of_nat 0) size) as [_|?]; [|lia].
    unfold bind at 1. unfold bind at 1. unfold LeR.gets at 1.
    rewrite (bind_Ok _ _ _ _ _ Hrun).
    unfold bind at 1. unfold LeR.read at 1. rewrite Hl.
    unfold bind at 1. unfold getitem at 1. rewrite Ha. unfold ret at 1.
    unfold LeR.lens_type_columns.
    by rewrite !decide_False by done.
Qed.

(** The rows of the first batch that holds a selected event are stored as
    they are under both settings of [none_as_nan]: if one batch is enough
    for the request, the method returns with [none_as_nan = False] what it
    returns with [none_as_nan = True], missing values included, and leaves
    the same instance behind. *)
Theorem lensed_sampling_first_batch_as_sampled (fuel : nat)
    (snr_threshold : list Q) (num_img : list nat) (none_as_nan : bool)
    (size : Z) (lenstype : string) (min_img max_img : Z)
    (s s' : LeR.state R) (r : option (gmap string ndarray)) :
  LeR.selecting_n_lensed_detectable_events_with_sampling items E 1
    snr_threshold num_img true size lenstype min_img max_img s = Ok r s' ->
  (1 <= fuel)%nat ->
  LeR.selecting_n_lensed_detectable_events_with_sampling items E fuel
    snr_threshold num_img none_as_nan size lenstype min_img max_img s
  = Ok r s'.
Proof.
  unfold LeR.selecting_n_lensed_detectable_events_with_sampling.
  intros (r0 & s0 & Hloop & Hrest)%bind_Ok_inv Hfuel.
  by rewrite (bind_Ok _ _ _ _ _
                (lensed_sampling_first_batch _ _ _ _ _ _ _ _ _ Hloop
                   fuel none_as_nan Hfuel)).
Qed.

(** With collaborators that honour the requested size and give every batch
    at least one event that the detection selection hits on the columns of
    the lens type, a batch size [b >= 1] and a request of [size >= 1] events,
    [size] batches are enough: the method returns a dict with exactly [size]
    rows in every field of a batch, under both settings of [none_as_nan], and
    [min_img] and [max_img] have become the sampler's settings. *)
Theorem lensed_sampling_collects (lens img snr : gmap string (option nat))
    (fuel : nat) (snr_threshold : list Q) (num_img : list nat)
    (none_as_nan : bool) (size : Z) (lenstype : string)
    (columns : option (nat * nat)) (min_img max_img : Z) (s : LeR.state R) :
  sized_lenses E lens img snr ->
  (forall d, items d ≡ₚ map_to_list d) ->
  LeR.lens_type_columns lenstype = Some columns ->
  (forall d r d' r',
      batch_of img (Z.to_nat (LeR.batch_size s)) d ->
      LeR.get_lensed_snrs E d max_img r = Ok d' r' ->
      exists a cols hit,
        d' !! "opt_snr_net" = Some a /\
        match columns with
        | Some (i, j) => LeR.slice_columns i j a
        | None => Some a
        end = Some cols /\
        LeR.hit_selection cols snr_threshold num_img = Some hit /\
        true ∈ hit) ->
  (1 <= LeR.batch_size s)%Z -> (1 <= size)%Z -> (Z.to_nat size <= fuel)%nat ->
  exists d s',
    LeR.selecting_n_lensed_detectable_events_with_sampling items E fuel
      snr_threshold num_img none_as_nan size lenstype min_img max_img s
    = Ok (Some d) s' /\
    batch_of (snr ∪ img) (Z.to_nat size) d /\
    LeR.min_lensed_images s' = min_img /\
    LeR.max_lensed_images s' = max_img.
Proof.
  intros HE Hitems Hcolumns Hhit Hb Hsize Hfuel.
  destruct (lensed_sampling_loop_collects lens img snr snr_threshold num_img
              none_as_nan size lenstype columns min_img max_img
              (LeR.batch_size s) HE Hitems Hcolumns Hhit Hb fuel 0%nat ∅ s)
    as (pf & s' & n & Hloop & Hn & Hpf & [c Hc] & Hmin & Hmax);
    [done|by left|done|lia|].
  exists (LeR.head_rows (Z.to_nat size) <$> pf), s'.
  split_and!; [|by eapply head_rows_batch|done..].
  unfold LeR.selecting_n_lensed_detectable_events_with_sampling.
  rewrite (bind_Ok _ _ _ _ _ Hloop).
  unfold bind, getitem. by rewrite lookup_fmap, Hc.
Qed.

End SelectingLensedWithSampling.

Lemma survey_hits (d : gmap string Arr.ndarray) (r : nat)
    (d' : gmap string Arr.ndarray) (r' : nat) :
  batch_of (<["n_images" := None]> (<["zs" := None]> {["weights" := None]}))
    4 d ->
  LeR.get_lensed_snrs Survey.ler d 4 r = Ok d' r' ->
  exists a cols hit,
    d' !! "opt_snr_net" = Some a /\
    LeR.slice_columns 0 2 a = Some cols /\
    LeR.hit_selection cols [8] [1%nat] = Some hit /\
    true ∈ hit.
Proof.
  intros Hd [= <- _].
  assert (Hrows : Survey.rows d = 4%nat).
  { eapply survey_rows; [|exact Hd].
    by rewrite lookup_insert_ne, lookup_insert_eq. }
  rewrite Hrows.
  eexists _, _, _. split_and!.
  - apply lookup_singleton_eq.
  - reflexivity.
  - reflexivity.
  - apply list_elem_of_here.
Qed.

Lemma lensed_sampling_of_unknown_type_witness :
  LeR.selecting_n_lensed_detectable_events_with_sampling map_to_list
    Survey.ler 1 [8] [1%nat] true 0 "III" 2 3 (Survey.initial 4)
  = Raise KeyError (Survey.initial 4) /\
  exists s' l d,
    LeR.selecting_n_lensed_detectable_events_with_sampling map_to_list
      Survey.ler 1 [8] [1%nat] true 3 "III" 2 3 (Survey.initial 4)
    = Ok None s' /\
    LeR.lensed_param s' = LeR.PyDict l /\
    LeR.store s' !! l = Some d /\
    map_Forall (fun _ a => Arr.len a = 4%nat) d /\
    LeR.max_lensed_images s' = 3%Z.
Proof.
  assert (Hkey : is_Some
            (({["opt_snr_net" := Some 2%nat]}
                ∪ <["n_images" := None]>
                    (<["zs" := None]> {["weights" := None]})
              : gmap string (option nat)) !! "opt_snr_net"))
    by (by vm_compute; eexists).
  split.
  - destruct (lensed_sampling_of_unknown_type Survey.ler map_to_list _ _ _
                1 [8] [1%nat] true 0 "III" 2 3 (Survey.initial 4)
                survey_sized_lenses Hkey)
      as [H _]; [done..|simpl; lia|].
    apply H. lia.
  - destruct (lensed_sampling_of_unknown_type Survey.ler map_to_list _ _ _
                1 [8] [1%nat] true 3 "III" 2 3 (Survey.initial 4)
                survey_sized_lenses Hkey)
      as [_ H]; [done..|simpl; lia|].
    destruct H as (s' & l & d & Hrun & Hlp & Hl & Hd & _ & Hmax & _); [lia..|].
    exists s', l, d. split_and!; [done..| |done].
    intros k a Hk. by apply (batch_of_lookup _ _ _ _ _ Hd Hk).
Defined.

Lemma lensed_sampling_first_batch_as_sampled_witness :
  exists r s',
    LeR.selecting_n_lensed_detectable_events_with_sampling map_to_list
      Survey.ler 1 [8] [1%nat] true 3 "I" 2 4 (Survey.initial 4) = Ok r s' /\
    LeR.selecting_n_lensed_detectable_events_with_sampling map_to_list
      Survey.ler 5 [8] [1%nat] false 3 "I" 2 4 (Survey.initial 4) = Ok r s'.
Proof.
  destruct (LeR.selecting_n_lensed_detectable_events_with_sampling map_to_list
              Survey.ler 1 [8] [1%nat] true 3 "I" 2 4 (Survey.initial 4))
    as [r s'| |] eqn:Hrun; [|by vm_compute in Hrun..].
  exists r, s'. split; [done|].
  apply (lensed_sampling_first_batch_as_sampled Survey.ler map_to_list 5
           [8] [1%nat] false 3 "I" 2 4 (Survey.initial 4) s' r Hrun). lia.
Defined.

Lemma lensed_sampling_collects_witness :
  exists d s',
    LeR.selecting_n_lensed_detectable_events_with_sampling map_to_list
      Survey.ler 6 [8] [1%nat] false 6 "I" 2 4 (Survey.initial 4)
    = Ok (Some d) s' /\
    batch_of ({["opt_snr_net" := Some 2%nat]}
                ∪ <["n_images" := None]>
                    (<["zs" := None]> {["weights" := None]})) 6 d /\
    LeR.min_lensed_images s' = 2%Z /\
    LeR.max_lensed_images s' = 4%Z.
Proof.
  apply (lensed_sampling_collects Survey.ler map_to_list _ _ _ 6 [8] [1%nat]
           false 6 "I" (Some (0, 2)%nat) 2 4 (Survey.initial 4)
           survey_sized_lenses).
  - reflexivity.
  - reflexivity.
  - apply survey_hits.
  - simpl. lia.
  - lia.
  - lia.
Defined.
(** * Further properties of [lens_galaxy_parameter_distribution.py] *)

(** ** A redshift sampler that accepts nothing *)

Section NoAcceptance.

Context {R : Type} (E : LensGalaxy.collaborators R).

Lemma mask_select_none {A} (mask : list bool) (a : list A) :
  Forall (fun b => b = false) mask -> Np.mask_select mask a = [].
Proof.
  intros H. revert a. induction H as [|b mask -> _ IH]; intros a; [done|].
  destruct a; [done|]. simpl. apply IH.
Qed.

Lemma lt_none (u w : list Q) :
  Forall (fun x => x == 0) u -> Forall (fun x => x == 0) w ->
  Forall (fun b => b = false) (Np.lt u w).
Proof.
  intros Hu. revert w. induction Hu as [|x u Hx _ IH]; intros w Hw; [done|].
  destruct Hw as [|y w Hy Hw]; [done|]. unfold Np.lt. simpl.
  constructor; [|by apply IH].
  apply Qltb_ge. rewrite Hx, Hy. apply Qle_refl.
Qed.

(** With an optical depth that vanishes everywhere no candidate is ever
    accepted ([r < tau] is [0 < 0]), and [strongly_lensed_source_redshifts]
    has no bound on its rounds: for a size of at least one the recursion of
    [zs_function] goes on at every depth, without a result and without an
    exception. *)
Theorem redshift_sampler_without_acceptance (size : nat) :
  (forall z, LensGalaxy.strong_lensing_optical_depth E z == 0) ->
  (1 <= size)%nat ->
  forall (fuel : nat) (s : R),
    LensGalaxy.strongly_lensed_source_redshifts E fuel size s = OutOfFuel.
Proof.
  intros Htau Hsize fuel. unfold LensGalaxy.strongly_lensed_source_redshifts.
  induction fuel as [|fuel IH]; intros s; [done|].
  cbn [LensGalaxy.zs_function]. unfold bind at 1. unfold call at 1.
  destruct (LensGalaxy.sample_zs E size s) as [zs s1].
  unfold bind at 1. unfold call at 1.
  pose proof (uniform_zero_width_eq E
                (LensGalaxy.strong_lensing_optical_depth E (LensGalaxy.z_max E))
                (length zs) s1 (Htau _)) as Hu.
  destruct (LensGalaxy.uniform E 0 _ (length zs) s1) as [r s2]. simpl in Hu.
  rewrite mask_select_none.
  - simpl. destruct size; [lia|]. simpl. apply IH.
  - apply lt_none; [done|]. apply Forall_map, Forall_forall. by intros z _.
Qed.

End NoAcceptance.

(** ** The rejection rule keeps the largest Einstein radius *)

Section LargestRadius.

Context {R : Type} (E : LensGalaxy.collaborators R).

Lemma mask_select_elem_of {A} (mask : list bool) (a : list A) (i : nat) (x : A) :
  mask !! i = Some true -> a !! i = Some x -> x ∈ Np.mask_select mask a.
Proof.
  revert a i. induction mask as [|b mask IH]; intros [|y a] [|i] Hm Ha;
    simpl in *; try done.
  - injection Hm as ->. injection Ha as ->. apply list_elem_of_here.
  - destruct b; [apply list_elem_of_further|]; by eapply IH.
Qed.

Lemma sq_nonzero (m : Q) : ~ m == 0 -> 0 < Np.sq m.
Proof.
  intros Hm. unfold Np.sq.
  destruct (Qlt_le_dec 0 m) as [Hpos|Hle].
  - rewrite <- (Qmult_0_l m). by apply Qmult_lt_compat_r.
  - assert (Hneg : 0 < - m).
    { destruct (Qle_lt_or_eq _ _ Hle) as [Hlt|Heq]; [lra|done]. }
    assert (Heq : m * m == (- m) * (- m)) by ring.
    rewrite Heq. rewrite <- (Qmult_0_l (- m)). by apply Qmult_lt_compat_r.
Qed.

(** On a batch whose largest Einstein radius is not zero,
    [rjs_with_einstein_radius] keeps at least the row that holds it: the draw
    of that row lies below the bound [theta_E_max ** 2] it is compared with.
    The rule returns, every field of the result has at least one row and at
    most the rows of the batch, and the largest radius is among the kept. *)
Theorem einstein_radius_rejection_keeps_the_largest
    (param_dict : gmap string (list Q)) (theta_E : list Q) (m : Q) (s : R) :
  unit_interval_generator E ->
  param_dict !! "theta_E" = Some theta_E ->
  map_Forall (fun _ v => length v = length theta_E) param_dict ->
  Np.max theta_E = Some m ->
  ~ m == 0 ->
  exists d s' kept,
    LensGalaxy.rjs_with_einstein_radius E param_dict s = Ok d s' /\
    d !! "theta_E" = Some kept /\
    m ∈ kept /\
    map_Forall (fun _ v => (1 <= length v <= length theta_E)%nat /\
                           length v = length kept) d.
Proof.
  intros Hgen Htheta Hrows Hmax Hm.
  pose proof (max_spec _ _ Hmax) as [Hin _].
  apply list_elem_of_lookup in Hin as [i Hi].
  pose proof (uniform_length E 0 (Np.sq m) (length theta_E) s) as Hlen.
  pose proof (uniform_below E (Np.sq m) (length theta_E) s Hgen (sq_nonzero m Hm))
    as Hbelow.
  destruct (LensGalaxy.uniform E 0 (Np.sq m) (length theta_E) s) as [u s']
    eqn:Hu.
  simpl in Hlen, Hbelow.
  set (mask := Np.lt u (map Np.sq theta_E)).
  assert (Hmask_len : length mask = length theta_E).
  { unfold mask, Np.lt. rewrite length_zip_with, length_map. lia. }
  assert (Hmask : mask !! i = Some true).
  { apply lt_lookup.
    destruct (lookup_lt_is_Some_2 u i) as [ui Hui].
    { rewrite Hlen. by eapply lookup_lt_Some. }
    exists ui, (Np.sq m). split_and!; [done| |].
    - change (map Np.sq theta_E) with (Np.sq <$> theta_E).
      by rewrite list_lookup_fmap, Hi.
    - rewrite Forall_forall in Hbelow. apply Hbelow.
      by eapply list_elem_of_lookup_2. }
  assert (Hdm : Np.dict_mask mask param_dict
                = Some (Np.mask_select mask <$> param_dict)).
  { unfold Np.dict_mask. rewrite decide_True; [done|].
    intros k v Hk. rewrite Hmask_len. by apply (Hrows k v). }
  exists (Np.mask_select mask <$> param_dict), s', (Np.mask_select mask theta_E).
  assert (Hkept : m ∈ Np.mask_select mask theta_E)
    by by eapply mask_select_elem_of.
  split_and!.
  - unfold LensGalaxy.rjs_with_einstein_radius.
    unfold bind at 1. unfold getitem at 1. rewrite Htheta. unfold ret at 1.
    unfold bind at 1. rewrite Hmax. cbn [of_option]. unfold ret at 1.
    unfold bind at 1. unfold call at 1. rewrite Hu. fold mask.
    by rewrite Hdm.
  - by rewrite lookup_fmap, Htheta.
  - done.
  - intros k v. rewrite lookup_fmap. intros Hv.
    apply fmap_Some in Hv as (v0 & Hv0 & ->).
    pose proof (Hrows k v0 Hv0) as Hl0.
    assert (Hsame : length (Np.mask_select mask v0)
                    = length (Np.mask_select mask theta_E)).
    { rewrite (mask_select_length_from 0 mask v0) by congruence.
      by rewrite (mask_select_length_from 0 mask theta_E). }
    split; [|done]. split.
    + rewrite Hsame. destruct (Np.mask_select mask theta_E); [|simpl; lia].
      by apply elem_of_nil in Hkept.
    + rewrite <- Hl0. apply mask_select_length_le.
Qed.

End LargestRadius.

Lemma redshift_sampler_without_acceptance_witness :
  LensGalaxy.strongly_lensed_source_redshifts Demo.dark 7 2 0%nat = OutOfFuel.
Proof.
  apply (redshift_sampler_without_acceptance Demo.dark 2); [done|lia].
Defined.

Lemma einstein_radius_rejection_keeps_the_largest_witness :
  exists d s' kept,
    LensGalaxy.rjs_with_einstein_radius Demo.lens Demo.batch3 0%nat = Ok d s' /\
    d !! "theta_E" = Some kept /\
    3 ∈ kept.
Proof.
  destruct (einstein_radius_rejection_keeps_the_largest Demo.lens Demo.batch3
              [1; 2; 3] 3 0%nat)
    as (d & s' & kept & Hrun & Hk & Hin & _).
  - apply demo_unit_interval.
  - reflexivity.
  - refine (bool_decide_unpack _ _). by vm_compute.
  - reflexivity.
  - done.
  - exists d, s', kept. split; [exact Hrun|]. split; [exact Hk|exact Hin].
Defined.

(** ** The samplers and their parameters *)

Section Priors.

Context {R : Type} (E : LensGalaxy.collaborators R).

Lemma scale_uniform_between (low high x : Q) :
  low < high -> 0 <= x < 1 ->
  low <= LensGalaxy.scale_uniform low high x < high.
Proof.
  intros Hlh [Hx0 Hx1]. unfold LensGalaxy.scale_uniform.
  assert (Hw : 0 < high - low) by lra.
  assert (H0 : 0 <= (high - low) * x) by (apply Qmult_le_0_compat; lra).
  assert (H1 : (high - low) * x < (high - low) * 1)
    by (apply Qmult_lt_l; [done|lra]).
  lra.
Qed.

Lemma uniform_between (low high : Q) (n : nat) (s : R) :
  unit_interval_generator E -> low < high ->
  Forall (fun x => low <= x < high) (LensGalaxy.uniform E low high n s).1.
Proof.
  intros Hg Hlh. unfold LensGalaxy.uniform.
  pose proof (random_samples_range E n s Hg) as H.
  destruct (LensGalaxy.random_samples E n s) as [xs s']. simpl in *.
  apply Forall_map. eapply Forall_impl; [exact H|].
  intros x Hx. by apply scale_uniform_between.
Qed.


(** A given, non-empty [param] that lacks a key the sampler reads makes it
    raise [KeyError] before anything is drawn; an empty [param] is not used
    at all ([if param:]). *)
Theorem sampler_parameters_are_looked_up (size : nat) (a b : Q) (s : R) :
  (forall d : gmap string Q,
      d <> ∅ -> d !! "phi_min" = None \/ d !! "phi_max" = None ->
      LensPriors.axis_rotation_angle_uniform E size a b (Some d) s
      = Raise KeyError s) /\
  (forall d : gmap string Q,
      d <> ∅ -> d !! "scale" = None ->
      LensPriors.shear_norm E size a (Some d) s = Raise KeyError s) /\
  (forall d : gmap string Q,
      d <> ∅ -> d !! "mean" = None \/ d !! "std" = None ->
      LensPriors.mass_density_spectral_index_normal E size a b (Some d) s
      = Raise KeyError s) /\
  LensPriors.axis_rotation_angle_uniform E size a b (Some ∅) s
  = LensPriors.axis_rotation_angle_uniform E size a b None s /\
  LensPriors.shear_norm E size a (Some ∅) s
  = LensPriors.shear_norm E size a None s /\
  LensPriors.mass_density_spectral_index_normal E size a b (Some ∅) s
  = LensPriors.mass_density_spectral_index_normal E size a b None s.
Proof.
  split_and!; try done.
  - intros d Hne Hmiss. unfold LensPriors.axis_rotation_angle_uniform.
    unfold LensPriors.given. rewrite decide_False by done.
    unfold bind, getitem.
    destruct (d !! "phi_min"); [|done].
    destruct Hmiss as [?| ->]; done.
  - intros d Hne Hmiss. unfold LensPriors.shear_norm.
    unfold LensPriors.given. rewrite decide_False by done.
    unfold bind, getitem. by rewrite Hmiss.
  - intros d Hne Hmiss. unfold LensPriors.mass_density_spectral_index_normal.
    unfold LensPriors.given. rewrite decide_False by done.
    unfold bind, getitem.
    destruct (d !! "mean"); [|done].
    destruct Hmiss as [?| ->]; done.
Qed.

End Priors.


(** ** The compiled sampler of the velocity dispersion *)

Section JitSampler.

Lemma searchsorted_below (a : list Q) (v : Q) (j : nat) :
  (j < Jit.searchsorted a v)%nat -> exists x, a !! j = Some x /\ x < v.
Proof.
  revert j. induction a as [|y a IH]; intros j Hj; simpl in *; [lia|].
  destruct (Np.Qltb y v) eqn:Hy; [|lia].
  destruct j as [|j]; [exists y; split; [done|by apply Qltb_lt]|].
  apply IH. lia.
Qed.

Lemma searchsorted_stop (a : list Q) (v x : Q) :
  a !! Jit.searchsorted a v = Some x -> v <= x.
Proof.
  induction a as [|y a IH]; simpl; [done|].
  destruct (Np.Qltb y v) eqn:Hy; simpl; [done|].
  intros [= <-]. by apply Qltb_ge.
Qed.

Lemma searchsorted_le (a : list Q) (v x : Q) (j : nat) :
  a !! j = Some x -> v <= x -> (Jit.searchsorted a v <= j)%nat.
Proof.
  revert j. induction a as [|y a IH]; intros j Hj Hx; simpl in *; [lia|].
  destruct (Np.Qltb y v) eqn:Hy; [|lia].
  destruct j as [|j]; simpl in Hj.
  - injection Hj as ->. apply Qltb_lt in Hy. lra.
  - specialize (IH j Hj Hx). lia.
Qed.

Lemma item_nat {A} (a : list A) (n : nat) : Jit.item a (Z.of_nat n) = a !! n.
Proof.
  unfold Jit.item. rewrite (proj2 (Z.leb_le _ _)) by lia.
  by rewrite Nat2Z.id.
Qed.

Lemma item_pred {A} (a : list A) (n : nat) :
  Jit.item a (Z.of_nat (S n) - 1) = a !! n.
Proof.
  replace (Z.of_nat (S n) - 1)%Z with (Z.of_nat n) by lia. apply item_nat.
Qed.

Lemma item_last {A} (a : list A) : Jit.item a (Z.of_nat 0 - 1) = last a.
Proof.
  unfold Jit.item. simpl. rewrite last_lookup.
  destruct a as [|x a]; [done|].
  rewrite (proj2 (Z.leb_le _ _)) by (simpl; lia).
  f_equal. simpl length. lia.
Qed.

Lemma sorted_lookup_le (x : list Q) (i j : nat) (a b : Q) :
  StronglySorted Qle x -> (i <= j)%nat ->
  x !! i = Some a -> x !! j = Some b -> a <= b.
Proof.
  intros Hs. revert i j. induction Hs as [|y x Hs IH Hall]; intros i j Hij Hi Hj;
    [done|].
  destruct i as [|i], j as [|j]; simpl in *; try lia.
  - injection Hi as ->. injection Hj as ->. apply Qle_refl.
  - injection Hi as ->. rewrite Forall_forall in Hall. apply Hall.
    by eapply list_elem_of_lookup_2.
  - eapply IH; [|done..]. lia.
Qed.

Lemma interpolation_between (x0 x1 y0 y1 u : Q) :
  x0 < u -> u <= x1 -> y0 <= y1 ->
  y0 <= y0 + (y1 - y0) * (u - x0) / (x1 - x0) <= y1.
Proof.
  intros H0 H1 Hy.
  assert (HD : 0 < x1 - x0) by lra.
  assert (HN0 : 0 <= (y1 - y0) * (u - x0)) by (apply Qmult_le_0_compat; lra).
  assert (HN1 : (y1 - y0) * (u - x0) <= (y1 - y0) * (x1 - x0)).
  { destruct (Qle_lt_or_eq _ _ Hy) as [Hlt|Heq].
    - apply Qmult_le_l; lra.
    - assert (Hz : y1 - y0 == 0) by lra. rewrite Hz, !Qmult_0_l. apply Qle_refl. }
  assert (Hq0 : 0 <= (y1 - y0) * (u - x0) / (x1 - x0)).
  { apply Qle_shift_div_l; [done|]. by rewrite Qmult_0_l. }
  assert (Hq1 : (y1 - y0) * (u - x0) / (x1 - x0) <= y1 - y0).
  { by apply Qle_shift_div_r. }
  lra.
Qed.

Lemma interpolation_at_knot (x0 x1 y0 y1 u : Q) :
  u == x1 -> ~ x1 - x0 == 0 ->
  y0 + (y1 - y0) * (u - x0) / (x1 - x0) == y1.
Proof. intros -> Hne. by field. Qed.

(** One draw of [[0, 1)] in a table: the result is defined, it is no
    exception, and it lies between the first and the last tabulated value. *)
Lemma interpolate_within (lo hi : Q) (t : list Q * list Q) (u : Q) :
  table_within lo hi t -> 0 <= u < 1 ->
  exists y, Jit.interpolate t.1 t.2 u = Some (inr y) /\ lo <= y <= hi.
Proof.
  destruct t as [cdf x].
  intros (Hlen & _ & (c0 & c1 & Hc0 & Hc1 & Hc0' & Hc1') & Hxs & Hx) [Hu0 Hu1].
  simpl in *. unfold Jit.interpolate.
  rewrite last_lookup in Hc1. rewrite head_lookup in Hc0.
  assert (Hidx : (Jit.searchsorted cdf u <= pred (length cdf))%nat)
    by (eapply searchsorted_le; [exact Hc1|lra]).
  assert (Hne : (0 < length cdf)%nat)
    by (by apply lookup_lt_Some in Hc0).
  rewrite Forall_forall in Hx.
  destruct (Jit.searchsorted cdf u) as [|k] eqn:Hk.
  - rewrite item_nat, !item_last, item_nat. rewrite Hc0. simpl.
    rewrite (last_lookup cdf), Hc1. simpl.
    destruct (lookup_lt_is_Some_2 x 0) as [y1 Hy1]; [lia|].
    destruct (lookup_lt_is_Some_2 x (pred (length x))) as [y0 Hy0]; [lia|].
    rewrite Hy1. simpl. rewrite (last_lookup x), Hy0. simpl.
    assert (Hu : u == c0).
    { pose proof (searchsorted_stop cdf u c0) as H. rewrite Hk in H.
      specialize (H Hc0). lra. }
    destruct (Qeq_bool (c0 - c1) 0) eqn:Hz.
    { apply Qeq_bool_iff in Hz. lra. }
    eexists. split; [reflexivity|].
    rewrite interpolation_at_knot; [|done|lra].
    apply Hx. by eapply list_elem_of_lookup_2.
  - rewrite item_nat, !item_pred, item_nat.
    destruct (searchsorted_below cdf u k) as (x0 & Hx0 & Hx0u); [lia|].
    destruct (lookup_lt_is_Some_2 cdf (S k)) as [x1 Hx1]; [lia|].
    pose proof (searchsorted_stop cdf u x1) as Hx1u. rewrite Hk in Hx1u.
    specialize (Hx1u Hx1).
    destruct (lookup_lt_is_Some_2 x (S k)) as [y1 Hy1]; [lia|].
    destruct (lookup_lt_is_Some_2 x k) as [y0 Hy0]; [lia|].
    rewrite Hx1, Hx0, Hy1, Hy0. simpl.
    destruct (Qeq_bool (x1 - x0) 0) eqn:Hz.
    { apply Qeq_bool_iff in Hz. lra. }
    eexists. split; [reflexivity|].
    assert (Hy : y0 <= y1) by (eapply (sorted_lookup_le x k (S k)); [done|lia|done..]).
    pose proof (interpolation_between x0 x1 y0 y1 u Hx0u Hx1u Hy) as Hb.
    pose proof (Hx y0 (list_elem_of_lookup_2 _ _ _ Hy0)) as Hb0.
    pose proof (Hx y1 (list_elem_of_lookup_2 _ _ _ Hy1)) as Hb1.
    lra.
Qed.

Lemma sample_loop_within (P : Q -> Prop) (body : nat -> option (exn + Q))
    (n : nat) :
  forall i : nat,
    (forall j, (i <= j < i + n)%nat -> exists y, body j = Some (inr y) /\ P y) ->
    exists ys, Jit.sample_loop body i n = Some (inr ys) /\
               length ys = n /\ Forall P ys.
Proof.
  induction n as [|n IH]; intros i Hbody; [by exists []|].
  destruct (Hbody i) as (y & Hy & HP); [lia|].
  destruct (IH (S i)) as (ys & Hys & Hlen & HPs).
  { intros j Hj. apply Hbody. lia. }
  exists (y :: ys). simpl. rewrite Hy, Hys.
  split; [done|]. split; [by rewrite Hlen|by constructor].
Qed.

Lemma searchsorted_strict (cdf : list Q) (k : nat) (c : Q) :
  StronglySorted Qlt cdf -> cdf !! k = Some c -> Jit.searchsorted cdf c = k.
Proof.
  intros Hs. revert k. induction Hs as [|y a Hs IH Hall]; intros k Hk; [done|].
  destruct k as [|k]; simpl in *.
  - injection Hk as ->. rewrite (proj2 (Qltb_ge c c)); [done|apply Qle_refl].
  - rewrite Forall_forall in Hall.
    rewrite (proj2 (Qltb_lt y c)); [|by apply Hall; eapply list_elem_of_lookup_2].
    f_equal. by apply IH.
Qed.

Context {R : Type} (E : LensGalaxy.collaborators R).



End JitSampler.



(** ** The cross-section rule keeps a row *)

Section CrossSection.

Context {R : Type} (E : LensGalaxy.collaborators R).

(** On a batch whose largest lensing cross-section
    [theta_E ** 2 * phi_cut_SIE(q)] is positive, [rjs_with_cross_section]
    always keeps the row that holds it: the rule returns, and every field of
    the result has the same number of rows, at least one and at most the rows
    of the batch. *)
Theorem cross_section_rejection_keeps_a_row
    (param_dict : gmap string (list Q)) (theta_E q : list Q) (m : Q) (s : R) :
  unit_interval_generator E ->
  param_dict !! "theta_E" = Some theta_E ->
  param_dict !! "q" = Some q ->
  map_Forall (fun _ v => length v = length theta_E) param_dict ->
  Np.max (zip_with Qmult (map Np.sq theta_E) (map (LensGalaxy.phi_cut_SIE E) q))
    = Some m ->
  0 < m ->
  exists d s' kept,
    LensGalaxy.rjs_with_cross_section E param_dict s = Ok d s' /\
    d !! "theta_E" = Some kept /\
    map_Forall (fun _ v => (1 <= length v <= length theta_E)%nat /\
                           length v = length kept) d.
Proof.
  intros Hgen Htheta Hq Hrows Hmax Hm.
  set (cs := zip_with Qmult (map Np.sq theta_E)
               (map (LensGalaxy.phi_cut_SIE E) q)) in *.
  pose proof (Hrows _ _ Hq) as Hql. simpl in Hql.
  assert (Hcsl : length cs = length theta_E).
  { unfold cs. rewrite length_zip_with, !length_map. lia. }
  pose proof (max_spec _ _ Hmax) as [Hin _].
  apply list_elem_of_lookup in Hin as [i Hi].
  pose proof (uniform_length E 0 m (length theta_E) s) as Hlen.
  pose proof (uniform_below E m (length theta_E) s Hgen Hm) as Hbelow.
  destruct (LensGalaxy.uniform E 0 m (length theta_E) s) as [u s'] eqn:Hu.
  simpl in Hlen, Hbelow.
  set (mask := Np.lt u cs).
  assert (Hmask_len : length mask = length theta_E).
  { unfold mask, Np.lt. rewrite length_zip_with. lia. }
  assert (Hmask : mask !! i = Some true).
  { apply lt_lookup.
    destruct (lookup_lt_is_Some_2 u i) as [ui Hui].
    { rewrite Hlen, <- Hcsl. by eapply lookup_lt_Some. }
    exists ui, m. split_and!; [done..|].
    rewrite Forall_forall in Hbelow. apply Hbelow.
    by eapply list_elem_of_lookup_2. }
  assert (Hdm : Np.dict_mask mask param_dict
                = Some (Np.mask_select mask <$> param_dict)).
  { unfold Np.dict_mask. rewrite decide_True; [done|].
    intros k v Hk. rewrite Hmask_len. by apply (Hrows k v). }
  destruct (lookup_lt_is_Some_2 theta_E i) as [ti Hti].
  { rewrite <- Hcsl. by eapply lookup_lt_Some. }
  assert (Hkept : ti ∈ Np.mask_select mask theta_E)
    by by eapply mask_select_elem_of.
  exists (Np.mask_select mask <$> param_dict), s', (Np.mask_select mask theta_E).
  split_and!.
  - unfold LensGalaxy.rjs_with_cross_section.
    unfold bind at 1. unfold getitem at 1. rewrite Htheta. unfold ret at 1.
    unfold bind at 1. unfold getitem at 1. rewrite Hq. unfold ret at 1.
    unfold bind at 1. rewrite decide_True by (rewrite length_map; lia).
    unfold ret at 1. fold cs.
    unfold bind at 1. rewrite Hmax. cbn [of_option]. unfold ret at 1.
    unfold bind at 1. unfold call at 1. rewrite Hu. fold mask.
    by rewrite Hdm.
  - by rewrite lookup_fmap, Htheta.
  - intros k v. rewrite lookup_fmap. intros Hv.
    apply fmap_Some in Hv as (v0 & Hv0 & ->).
    pose proof (Hrows k v0 Hv0) as Hl0.
    assert (Hsame : length (Np.mask_select mask v0)
                    = length (Np.mask_select mask theta_E)).
    { rewrite (mask_select_length_from 0 mask v0) by congruence.
      by rewrite (mask_select_length_from 0 mask theta_E). }
    split; [|done]. split.
    + rewrite Hsame. destruct (Np.mask_select mask theta_E); [|simpl; lia].
      by apply elem_of_nil in Hkept.
    + rewrite <- Hl0. apply mask_select_length_le.
Qed.

End CrossSection.

Lemma cross_section_rejection_keeps_a_row_witness :
  exists d s' kept,
    LensGalaxy.rjs_with_cross_section Demo.lens Demo.batch3 0%nat = Ok d s' /\
    d !! "theta_E" = Some kept /\
    (1 <= length kept)%nat.
Proof.
  destruct (cross_section_rejection_keeps_a_row Demo.lens Demo.batch3
              [1; 2; 3] [1 # 2; 1 # 2; 1 # 2] (3 * 3 * 1) 0%nat)
    as (d & s' & kept & Hrun & Hk & Hrows).
  - apply demo_unit_interval.
  - reflexivity.
  - reflexivity.
  - refine (bool_decide_unpack _ _). by vm_compute.
  - reflexivity.
  - done.
  - exists d, s', kept. split; [exact Hrun|]. split; [exact Hk|].
    by destruct (Hrows _ _ Hk) as [[? _] _].
Defined.
